(* ===== verification/_CoqProject ===== *)
-Q . S2P
Prelude.v
Fmt.v
Packet.v
Parser.v
Wire.v
Capture.v
Alert.v
Signature.v
FlowTracker.v
FlowSpec.v
FlowShards.v
PacketQueue.v
Pipeline.v
PipelineSpec.v
PipelineBatch.v
PipelineProgress.v
Entropy.v
PipelineTime.v
PipelineTimeSpec.v
EntropyReal.v
FloatError.v
FmtFloat.v
Scan.v
GpuKernel.v
Metal.v
MetalSpec.v
GpuReal.v
AnalysisEngine.v
EntropyError.v
AlertLines.v
GpuBackend.v
Main.v
Startup.v
SmokeTest.v
System.v
BackendSession.v
WaitingLine.v
SessionOutput.v
MetalSession.v
Bench.v
BenchCapture.v
CaptureReport.v
BenchAnalysis.v
BenchAnalysisSpec.v
BenchAnalysisTotals.v
AnalysisReport.v
BenchEntropy.v
EntropyReport.v
