(* ===== verification/Prelude.v ===== *)
(** * NetSentinel: a verification library

    NetSentinel is a network anomaly detector.  A capture thread reads frames
    from libpcap, decodes them and pushes them on a bounded queue; worker threads
    pop batches and run the detection rules on them; the main thread parses the
    command line, joins the threads and prints a summary.  Paths below are those
    of the repository ([include/netsentinel/] and [src/]).

    ** The files and the code they model

    - [Prelude]: integers of machine width, byte strings, list and map lemmas, the
      hint database [netdb] and the tactics the other files share.
    - [Fmt]: the conversions of [snprintf] the program uses, with the truncation
      to the destination buffer.  [FmtFloat]: the conversions of [double].
      [Scan]: [strtoll] and [strtod], and reading back what was printed.
    - [Packet] ([headers.hpp], [packet.hpp], [packet.cpp], [make_queued_packet] of
      [packet_queue.cpp]): wire constants, [ParsedPacket], [QueuedPacket], text.
      A payload pointer is an offset into the captured buffer.
    - [Parser] ([parser.cpp]): [parse_packet].  Each access to the buffer can fail
      ([OutOfBounds]), so memory safety is a theorem; packets are well formed and
      a shorter capture of a frame decodes to an agreeing packet.
    - [Wire]: a reference encoder of frames and the round trips of the parser.
    - [Capture] ([capture.cpp]): [open_live], [open_offline], [run] and the stop
      flag, against a [world] that answers for libpcap, [poll] and the signal.
    - [Alert] ([alert.cpp]) and [Signature] ([signature_db.cpp]): alert records
      and their text; the FNV-1a hash and the signature set.
    - [FlowTracker] ([flow_tracker.cpp]): the two stateful rules, debouncing,
      shards, sweeps and eviction, operation by operation.
    - [FlowSpec]: the reference rules, which keep the whole history of a source
      and recount it on every packet, and the proof that the deques and live
      counts of [observe_ip] raise the same alerts on a time-ordered history.
    - [FlowShards]: the tracker as a whole: memory bound, independence of shards
      and sources, and the refinement of the reference rules by the sharded,
      evicting tracker on time-ordered traces that fit the cap.
    - [PacketQueue] ([packet_queue.cpp]): the queue's state and one function per
      critical section.
    - [Pipeline] ([worker_pool.cpp], [main.cpp]): capture thread, workers and main
      thread as the step relation [step]; [act] and [play] run a schedule.
    - [PipelineSpec], [PipelineBatch] and [PipelineProgress]: the invariants of the
      pipeline (conservation, FIFO, capacity, no lost wake-up, full batches are
      fetched) and its termination.
    - [PipelineTime] ([elapsed_ns] of [packet_queue.cpp], [main.cpp]): the pipeline
      with a clock, the readings each thread keeps and the deadlines of the waits;
      [timed_play] runs a timed schedule.  [PipelineTimeSpec]: its invariants, the
      waits behind a batch and the totals behind the summary.  [WaitingLine]
      ([main.cpp]): the shares of those totals that the summary prints.
    - [Entropy] ([entropy.cpp]) and [EntropyReal]: [shannon_entropy] over the
      class [DoubleOps], on binary64 and on the real numbers.  [FloatError]: the
      rounding errors of binary64 operations, relative and accumulated;
      [EntropyError]: the distance between the two instances.
    - [AnalysisEngine] ([entropy_backend.cpp], [analysis_engine.cpp]): backends as
      pairs of functions, the contract [FaithfulBackend], [analyze_batch].
      [AlertLines]: the alerts of the engine fit the buffers of their text.
    - [GpuKernel] ([shaders/payload_entropy.metal]): the entropy kernel, each
      thread of a group as its accesses to threadgroup memory between barriers;
      [GpuReal]: its value on the real numbers and that of a whole dispatch.
    - [Metal] ([metal_context.cpp]): the buffer pool and the asynchronous dispatches
      of several threads as the step relation [metal_step] over a heap of buffers;
      [metal_act] and [metal_play] run a history.  [MetalSpec]: its invariants.
    - [GpuBackend] ([gpu_entropy_backend.cpp], set-up and synchronous calls of
      [metal_context.cpp], [shaders/vector_add.metal]): the GPU backend over the
      class [DispatchContract].  [SmokeTest] ([vector_add_smoke_test.cpp]).
    - [Main] ([main.cpp]): option parsing and checks, the packet line, the alert
      counters.  [Startup] ([main.cpp]): everything [main] does before its threads
      start, with messages and exit codes, and the summary it prints at the end.
    - [System]: a replay and an interrupted session, from the command line to the
      summary, with the workers' calls of [observe] interleaved in any order.
      [BackendSession]: a session on a backend that may fail at any batch;
      [MetalSession]: a session on the GPU, with the dispatches of its batches in
      one history of [Metal]; [SessionOutput]: the lines the workers print.
    - [Bench] ([src/bench/]): medians, numeric options, batches of a vector.
    - [BenchCapture] ([bench_capture.cpp]): the stages, their queue and workers
      (the pipeline of [Pipeline]), the measurements; [CaptureReport]: messages,
      output and exit code.
    - [BenchAnalysis] ([bench_analysis.cpp]): the threads of [run_rule] over a
      shared counter, vector, tracker and engine; [BenchAnalysisSpec]: its
      invariants; [BenchAnalysisTotals]: what a run adds to the sink;
      [AnalysisReport]: measurements, messages, tables and exit code.
    - [BenchEntropy] ([bench_entropy.cpp]): generated payloads, passes, the error
      column; [EntropyReport]: backends, table, CSV file and exit code.

    ** How the parts interact

    [Capture.run] calls [parse_packet] and gives each packet to the handler, which
    copies it ([make_queued_packet]) and pushes it.  The list of packets handed on
    is the [todo] list of the capture thread in [Pipeline].  Workers pop batches;
    the log [analyzed] of the pipeline is the sequence of calls of
    [analyze_batch].  The engine's client theorems are proved against the class
    [FaithfulBackend], which the CPU backend implements, and those of the GPU
    backend against [DispatchContract], which every history of [Metal] satisfies
    (lemma [histories_dispatch]), as [MetalSession] uses; the tracker's against the class [KeyOrder] of
    map iteration orders.  [start_main] builds the configuration of the pipeline,
    and [System.replay_program] and [System.interrupted_session] compose the parts.
    A timed execution of [PipelineTime] is one of [Pipeline] with the times filled
    in: [base] forgets the clock, and every step of [Pipeline] is an action
    ([step_act]).  The reports of the benchmarks are proved from the lemmas of the files that
    model their runs.

    ** What the theorems show

    - The parser reads only captured bytes and its result depends on no other byte;
      it returns well-formed packets, and inverts the encoder for TCP, UDP and
      ICMP, with options and padding.
    - Replaying a file terminates and hands on every decoded packet; a live run
      stops after a stop request that the loop sees.
    - The pipeline loses, duplicates and reorders nothing, respects its capacity
      and batch size, never sleeps with work and nobody coming, and always ends.
      Its threads never need the help of a poll timeout or of a spurious wake-up;
      they need a linger timeout only where a full batch does not fit in the queue
      ([linger_timeout_needed]: [-b] larger than [-q]).
    - A batch that is not full is taken only after the linger time or the poll
      timeout; the shares of waiting the summary prints, after all floating-point
      operations, are from 0 to 100; the clock cannot block the program.
    - The flow tracker implements the reference rules; alerts are debounced in any
      order; hosts that only reply raise none; memory is bounded.
    - Entropy lies in [0, 8], depends only on the byte counts, and is exact on
      constant and on distinct-byte payloads in binary64; on any payload the
      [double] is within 2^-38 of the exact value, when [std::log2] is accurate to
      four units in the last place, and payloads below 128 bytes never reach the
      default threshold.
    - [analyze_batch] emits the reference alerts with any backend that meets the
      contract; a backend without a contract can only change entropy alerts.
    - The kernel gives the same value under every interleaving of its threads;
      concurrent dispatches never share a buffer and return the values of their
      own payloads, in exact arithmetic those of the CPU; a call never gets stuck
      and pooled buffers stop growing.
    - No alert line is cut by its buffer; the entropy it shows is the nearest
      number of hundredths; every threshold from 0 to 8 can be given to [-e].
    - [main] starts its threads exactly when every check has passed; a replay's
      summary, up to the timings and the flow alerts, is a function of the file
      and the options and does not depend on the schedule; a session that is
      interrupted reports everything that was delivered before; a backend that
      fails costs nothing but the warning with the number of its failures; with
      [-g] the entropy alerts are those of the kernel's values, batch by batch,
      and the failed dispatches are the ones reported; every packet line of [-v]
      and every alert line is printed once, those of a batch in order.
    - The benchmarks' own checks hold: no stage loses a packet, every rule is given
      every packet once and leaves the vector as it was, a backend that computes
      the CPU values has no error.  Their output is what the measurements say:
      counts of the file, sums of the sink over every interleaving, one rate per
      rule and thread count, one row per backend and configuration; the CSV file
      reads back.
    - Negative results: a capture without a limit overflows its counter after
      2^31 - 1 packets ([long_capture_overflows]), the capture benchmark rejects a
      zero without a word, the cap of a shard is exceeded between sweeps, reordering
      keeps stale ports, [-e nan] is accepted, [-w 0] is reported as no worker, a
      stop request before [run] is lost, the offset of a payload 2^32 bytes into
      a GPU batch wraps, a NaN result leaves no trace in the error column.

    ** Modelling choices

    - A fixed-width integer is a [Z]; the code's wrap-around is written out
      ([wrap]), or a theorem shows the range in which it cannot occur.  Times are
      [int64_t] in the code and unbounded here; [timeval_to_ms_bounds] bounds them
      for captured timestamps.  The 32-bit port counters wrap as in the code, and
      the theorems on them assume fewer than 2^32 recent events ([small_window]);
      those on GPU dispatches assume payloads that 32-bit offsets can address
      ([addressable]).
    - The host is little endian, as on the platforms the program targets.
    - Not in the repository, hence arguments: [std::hash] ([hash32]), the iteration
      order of [std::unordered_map] ([iter]), [std::log2], [fopen], libpcap,
      [poll] and signals ([world], [environment]), the seconds of the summary
      (computed from the clock in [WaitingLine] only) and of the benchmarks, entropy backends, Metal ([device], [compilation], the moments at which the device
      runs).  An iteration order is a function of the map's contents; the theorems
      hold for every such function that lists each key once.  [std::mt19937] is
      modelled, and checked against the value the C++ standard prescribes.
    - Fuel.  [Capture.read_ready] and [capture_loop] take one unit per test of the
      stop flag: for a file of n frames n + 2 are enough, and k + 1 when a stop
      request comes before the k-th test; both are theorems.  The kernel's
      [strided] loops take one unit per element of the array they walk, [strides]
      32 and [halve_until] 9 for the halvings of 32-bit and 256 ([strided_elem],
      [halves_sum] and [group_size_spec] show that they reach the end);
      [doublings] takes 64 for the doublings below a 32-bit bound
      ([doublings_power]); [one_pass_from] one per packet
      ([one_pass_from_answers]).
    - In [Pipeline] a critical section is one step, because the mutex makes it
      atomic; notifications come after the unlock, as separate steps.  In
      [PipelineTime] the steady clock is a number of nanoseconds that any thread
      can find advanced by any amount; the totals wrap at 2^64, and the theorem on
      them assumes a run short enough not to.  In
      [GpuKernel] an access to threadgroup memory is one step, in [BenchAnalysis]
      the body of a loop for one packet.

    ** Not modelled

    Tests, scripts and build files; the clock of the benchmarks, an argument; the
    text that libpcap, Metal and the system give for their own errors; the locale
    of the numbers printed and read, which is the one a program starts with; the
    buckets of the maps ([FlowKeyHash] is defined, and no result depends on it). *)
From Stdlib Require Import ZArith Lia.
From stdpp Require Export base numbers list gmap strings pretty.
From Stdlib Require Export Strings.Ascii.

Declare Scope net_scope.
Delimit Scope net_scope with net.
#[global] Open Scope Z_scope.

(** ** Machine integers

    A w-bit unsigned integer is a [Z] in [0, 2^w); arithmetic that can leave
    that range wraps with [wrap]. *)

Definition wrap (w z : Z) : Z := z mod 2 ^ w.

Definition is_uint (w z : Z) : Prop := 0 ≤ z < 2 ^ w.

#[export] Instance is_uint_dec w z : Decision (is_uint w z).
Proof. unfold is_uint. apply _. Defined.

(** A byte string as the code holds it in memory. *)
Definition bytes_ok (l : list Z) : Prop := Forall (is_uint 8) l.

#[export] Instance bytes_ok_dec l : Decision (bytes_ok l).
Proof. unfold bytes_ok. apply _. Defined.

(** The length of a list as the [size_t] the code computes with. *)
Definition Zlength {A} (l : list A) : Z := Z.of_nat (length l).

(** [std::min] on the unsigned types used here. *)
Definition std_min (a b : Z) : Z := Z.min a b.

(** ** Automation shared by the components *)

Create HintDb netdb discriminated.

(** Case analysis on the tests of the code, with the arithmetic facts of the
    boolean comparisons put in the context. *)
Ltac zbool :=
  repeat match goal with
  | H : context [Z.ltb ?a ?b] |- _ => destruct (Z.ltb_spec a b)
  | H : context [Z.leb ?a ?b] |- _ => destruct (Z.leb_spec a b)
  | H : context [Z.eqb ?a ?b] |- _ => destruct (Z.eqb_spec a b)
  | |- context [Z.ltb ?a ?b] => destruct (Z.ltb_spec a b)
  | |- context [Z.leb ?a ?b] => destruct (Z.leb_spec a b)
  | |- context [Z.eqb ?a ?b] => destruct (Z.eqb_spec a b)
  end.

(** Evaluates the decision procedure of a closed goal. *)
Ltac by_decide := apply (bool_decide_unpack _); vm_compute; exact I.

(** Proves [P x] for every [x] of a small range by evaluation. *)
Definition all_below (n : nat) (p : Z → bool) : bool :=
  forallb (λ i, p (Z.of_nat i)) (seq 0 n).

Lemma all_below_spec n p x : all_below n p = true → 0 ≤ x < Z.of_nat n → p x = true.
Proof.
  unfold all_below. rewrite forallb_forall. intros H Hx.
  specialize (H (Z.to_nat x)). rewrite Z2Nat.id in H by lia.
  apply H, in_seq. lia.
Qed.

(** ** Updates of lists *)

Lemma alter_insert {A} (f : A → A) (l : list A) i x :
  l !! i = Some x → alter f i l = <[i := f x]> l.
Proof.
  revert i. induction l as [|y l IH]; intros [|i] E; cbn in *; try done; [by injection E as ->|].
  f_equal. by apply IH.
Qed.

(** ** Words *)

Lemma wrap_range w z : 0 ≤ w → is_uint w (wrap w z).
Proof. intros. unfold is_uint, wrap. apply Z.mod_pos_bound, Z.pow_pos_nonneg; lia. Qed.

Lemma wrap_small w z : is_uint w z → wrap w z = z.
Proof. apply Z.mod_small. Qed.

Lemma wrap_add_r w a b : wrap w (a + wrap w b) = wrap w (a + b).
Proof. unfold wrap. apply Zplus_mod_idemp_r. Qed.

Lemma wrap_add_l w a b : wrap w (wrap w a + b) = wrap w (a + b).
Proof. unfold wrap. apply Zplus_mod_idemp_l. Qed.

Lemma wrap_wrap w a : wrap w (wrap w a) = wrap w a.
Proof. unfold wrap. apply Zmod_mod. Qed.

Lemma is_uint_mono w w' z : w ≤ w' → is_uint w z → is_uint w' z.
Proof.
  intros Hw [H0 H1]. split; [done|].
  eapply Z.lt_le_trans; [exact H1|]. apply Z.pow_le_mono_r; lia.
Qed.

Lemma is_uint_testbit w z i : 0 ≤ w → is_uint w z → w ≤ i → Z.testbit z i = false.
Proof.
  intros Hw [H0 H1] Hi. rewrite <- (Z.mod_small z (2 ^ w)) by done.
  apply Z.mod_pow2_bits_high. lia.
Qed.

Lemma is_uint_bits w z :
  0 ≤ w → 0 ≤ z → (∀ i, w ≤ i → Z.testbit z i = false) → is_uint w z.
Proof.
  intros Hw Hz Hb. split; [done|].
  assert (E : z mod 2 ^ w = z).
  { apply Z.bits_inj'. intros n Hn. destruct (decide (n < w)).
    - by rewrite Z.mod_pow2_bits_low.
    - rewrite Z.mod_pow2_bits_high by lia. by rewrite Hb by lia. }
  rewrite <- E. apply Z.mod_pos_bound, Z.pow_pos_nonneg; lia.
Qed.

Lemma is_uint_lxor w a b : 0 ≤ w → is_uint w a → is_uint w b → is_uint w (Z.lxor a b).
Proof.
  intros Hw Ha Hb. apply is_uint_bits; [done| |].
  - apply Z.lxor_nonneg. split; intros _; [apply Hb|apply Ha].
  - intros i Hi. rewrite Z.lxor_spec.
    by rewrite (is_uint_testbit w a), (is_uint_testbit w b) by done.
Qed.

Lemma lxor_cancel_l a b c : Z.lxor a b = Z.lxor a c → b = c.
Proof.
  intros H. apply (f_equal (Z.lxor a)) in H.
  by rewrite <- !Z.lxor_assoc, Z.lxor_nilpotent, !Z.lxor_0_l in H.
Qed.

Lemma lxor_cancel_r a b c : Z.lxor b a = Z.lxor c a → b = c.
Proof. rewrite !(Z.lxor_comm _ a). apply lxor_cancel_l. Qed.

(** Joining two words side by side. *)
Lemma lor_shiftl_add w lo hi :
  0 ≤ w → is_uint w lo → Z.lor lo (Z.shiftl hi w) = lo + hi * 2 ^ w.
Proof.
  intros Hw Hlo. rewrite Z.shiftl_mul_pow2 by done.
  rewrite <- (Z.add_lor_land lo). enough (Z.land lo (hi * 2 ^ w) = 0) as -> by lia.
  apply Z.bits_inj'. intros n Hn. rewrite Z.land_spec, Z.bits_0.
  destruct (decide (n < w)).
  - rewrite Z.mul_pow2_bits_low by done. by rewrite andb_false_r.
  - by rewrite (is_uint_testbit w lo) by (done || lia).
Qed.

#[export] Hint Resolve wrap_range : netdb.

(** ** Lists *)

Lemma Zlength_nonneg {A} (l : list A) : 0 ≤ Zlength l.
Proof. unfold Zlength. lia. Qed.

Lemma Zlength_app {A} (l k : list A) : Zlength (l ++ k) = Zlength l + Zlength k.
Proof. unfold Zlength. rewrite length_app. lia. Qed.

Lemma Zlength_cons {A} (x : A) l : Zlength (x :: l) = 1 + Zlength l.
Proof. unfold Zlength. cbn [length]. lia. Qed.

Lemma Zlength_nil {A} : Zlength (@nil A) = 0.
Proof. done. Qed.

#[export] Hint Resolve Zlength_nonneg : netdb.

(** Filters that keep nothing or everything. *)
Lemma filter_none {A} (P : A → Prop) `{∀ x, Decision (P x)} l :
  Forall (λ x, ¬ P x) l → filter P l = [].
Proof. induction 1; [done|]. by rewrite filter_cons_False. Qed.

Lemma filter_all {A} (P : A → Prop) `{∀ x, Decision (P x)} l : Forall P l → filter P l = l.
Proof. induction 1; [done|]. rewrite filter_cons_True by done. by f_equal. Qed.

(** What the threads of a list hold together. *)
Definition gather {T A} (f : T → list A) (ws : list T) : list A := concat (f <$> ws).
#[global] Arguments gather : simpl never.

Lemma gather_insert {T A} (f : T → list A) ws i w w' :
  ws !! i = Some w → f w ++ gather f (<[i := w']> ws) ≡ₚ f w' ++ gather f ws.
Proof.
  intros H. unfold gather. rewrite (insert_take_drop ws i w') by by eapply lookup_lt_Some.
  rewrite <- (take_drop_middle ws i w H) at 3.
  rewrite !fmap_app, !concat_app. cbn. solve_Permutation.
Qed.

Lemma insert_same_gather {T A} (f : T → list A) ws i w w' :
  ws !! i = Some w → f w' = f w → gather f (<[i := w']> ws) = gather f ws.
Proof.
  intros H E. unfold gather. rewrite list_fmap_insert, E, list_insert_id; [done|].
  by rewrite list_lookup_fmap, H.
Qed.

Lemma gather_nil {T A} (f : T → list A) ws : Forall (λ w, f w = []) ws → gather f ws = [].
Proof. intros H. unfold gather. apply concat_nil_Forall. by apply Forall_fmap. Qed.
