(* ===== verification/Fmt.v ===== *)
(** * Text formatting

    The part of [snprintf] the program uses, as functions on strings: the
    conversions [%u], [%zu], [%lld], [%02x], [%-21s] and the truncation to the
    size of the destination buffer.  Decimal printing is stdpp's [pretty]. *)
From S2P Require Import Prelude.

Local Open Scope string_scope.
#[global] Arguments String.append !s1 s2 : simpl nomatch.

(** ** Definitions *)

(** [std::string(buf)] after [snprintf(buf, n, ...)] has produced [s]: at most
    [n - 1] characters are kept. *)
Definition snprintf (n : nat) (s : string) : string := String.substring 0 (n - 1) s.

(** [%u], [%zu] and [%lld]. *)
Definition fmt_u (z : Z) : string := pretty (Z.to_N z).
Definition fmt_lld (z : Z) : string := pretty z.

(** One lower-case hexadecimal digit, and [%02x] for a value below 256. *)
Definition hex_digit (z : Z) : Ascii.ascii :=
  Ascii.ascii_of_N (Z.to_N (if (z <? 10)%Z then 48 + z else 87 + z)%Z).

Definition fmt_02x (z : Z) : string :=
  String (hex_digit (Z.shiftr z 4)) (String (hex_digit (Z.land z 15)) "").

(** [n] spaces, and [%-ws]: pad on the right up to width [w]. *)
Fixpoint spaces (n : nat) : string :=
  match n with O => "" | S k => String " "%char (spaces k) end.

Fixpoint zeros (n : nat) : string :=
  match n with O => "" | S n => String "0"%char (zeros n) end.

Definition fmt_left (w : nat) (s : string) : string := s +:+ spaces (w - String.length s).

Definition newline : string := String "010"%char "".

(** Whether a character occurs in a string. *)
Fixpoint has_char (c : Ascii.ascii) (s : string) : bool :=
  match s with
  | "" => false
  | String d s' => if Ascii.eqb c d then true else has_char c s'
  end.

(** ** Lemmas *)

Lemma str_length_app s t : String.length (s +:+ t) = (String.length s + String.length t)%nat.
Proof. induction s; cbn; lia. Qed.

Lemma str_app_assoc (s t u : string) : (s +:+ t) +:+ u = s +:+ (t +:+ u).
Proof. induction s; cbn; congruence. Qed.

Lemma str_app_nil_r (s : string) : s +:+ "" = s.
Proof. induction s; cbn; congruence. Qed.

Lemma substring_all s n : (String.length s ≤ n)%nat → String.substring 0 n s = s.
Proof.
  revert n. induction s as [|c s IH]; intros [|n] Hn; cbn in *; try done; try lia.
  f_equal. apply IH. lia.
Qed.

Lemma snprintf_fits n s : (String.length s < n)%nat → snprintf n s = s.
Proof. intros. apply substring_all. lia. Qed.

Lemma snprintf_length n s : (0 < n)%nat → (String.length (snprintf n s) < n)%nat.
Proof.
  intros Hn. unfold snprintf.
  assert (Hs : ∀ m t, (String.length (String.substring 0 m t) ≤ m)%nat).
  { induction m as [|m IH]; intros [|c t]; cbn; try lia. specialize (IH t). lia. }
  specialize (Hs (n - 1)%nat s). lia.
Qed.

Lemma spaces_length n : String.length (spaces n) = n.
Proof. induction n; cbn; lia. Qed.

Lemma fmt_left_length w s :
  String.length (fmt_left w s) = Nat.max w (String.length s).
Proof. unfold fmt_left. rewrite str_length_app, spaces_length. lia. Qed.

(** Two strings cut at the first occurrence of a separator agree piecewise. *)
Lemma app_sep_inj c s1 s2 r1 r2 :
  has_char c s1 = false → has_char c s2 = false →
  s1 +:+ String c r1 = s2 +:+ String c r2 → s1 = s2 ∧ r1 = r2.
Proof.
  revert s2. induction s1 as [|d s1 IH]; intros [|e s2]; cbn; intros H1 H2 He.
  - by simplify_eq.
  - simplify_eq. by rewrite Ascii.eqb_refl in H2.
  - simplify_eq. by rewrite Ascii.eqb_refl in H1.
  - injection He as -> He.
    destruct (Ascii.eqb c e); [done|].
    destruct (IH s2 H1 H2 He) as [-> ->]. done.
Qed.

(** Decimal numbers: the digits of [pretty] are never another character, and
    the length is bounded by the number of decimal places. *)
Lemma pretty_N_char_no c n :
  has_char c "0123456789" = false → Ascii.eqb c (pretty_N_char n) = false.
Proof.
  cbn. unfold pretty_N_char. intros H.
  repeat match goal with
  | H : (if Ascii.eqb c ?d then _ else _) = _ |- _ => destruct (Ascii.eqb c d) eqn:?; [done|]
  end.
  repeat case_match; done.
Qed.

Lemma has_char_pretty_go c x s :
  has_char c "0123456789" = false → has_char c s = false →
  has_char c (pretty_N_go x s) = false.
Proof.
  intros Hc. revert s. induction (N.lt_wf_0 x) as [x _ IH]; intros s Hs.
  destruct (decide (0 < x)%N) as [Hx|Hx].
  - rewrite pretty_N_go_step by done. apply IH.
    + apply N.div_lt; lia.
    + cbn. by rewrite pretty_N_char_no.
  - assert (x = 0%N) as -> by lia. by rewrite pretty_N_go_0.
Qed.

Lemma has_char_fmt_u c z :
  has_char c "0123456789" = false → has_char c (fmt_u z) = false.
Proof.
  intros Hc. unfold fmt_u. generalize (Z.to_N z) as n. intros n.
  unfold pretty, pretty_N. case_decide; [|by apply has_char_pretty_go].
  revert Hc. cbn. by destruct (Ascii.eqb c "0"%char).
Qed.

Lemma pretty_go_length x s (k : nat) :
  (x < 10 ^ N.of_nat k)%N →
  (String.length (pretty_N_go x s) ≤ k + String.length s)%nat.
Proof.
  revert x s. induction k as [|k IH]; intros x s Hx.
  - change (10 ^ N.of_nat 0)%N with 1%N in Hx.
    assert (x = 0%N) as -> by lia. rewrite pretty_N_go_0. lia.
  - destruct (decide (0 < x)%N) as [Hx0|Hx0].
    + rewrite pretty_N_go_step by done.
      etrans; [apply IH|cbn; lia].
      apply N.Div0.div_lt_upper_bound.
      rewrite Nat2N.inj_succ, N.pow_succ_r' in Hx. lia.
    + assert (x = 0%N) as -> by lia. rewrite pretty_N_go_0. lia.
Qed.

Lemma fmt_u_length z (k : nat) :
  (0 < k)%nat → (z < 10 ^ Z.of_nat k)%Z → (String.length (fmt_u z) ≤ k)%nat.
Proof.
  intros Hk Hz. unfold fmt_u, pretty, pretty_N. case_decide; [cbn; lia|].
  etrans; [apply (pretty_go_length _ _ k)|cbn; lia].
  apply N2Z.inj_lt. rewrite N2Z.inj_pow, nat_N_Z.
  rewrite Z2N.id; [done|]. destruct z; [lia|lia|by contradict H].
Qed.

Lemma fmt_u_inj a b : (0 ≤ a)%Z → (0 ≤ b)%Z → fmt_u a = fmt_u b → a = b.
Proof. intros Ha Hb H. unfold fmt_u in H. apply (inj pretty) in H. lia. Qed.
