(* ===== verification/Packet.v ===== *)
(** * Packets

    The wire constants of [include/netsentinel/headers.hpp], the decoded packet
    of [include/netsentinel/packet.hpp], the queued packet of
    [include/netsentinel/packet_queue.hpp] and the text functions of
    [src/capture/packet.cpp].

    A [timeval] keeps its two fields; a MAC address is its list of six bytes; a
    pointer into the capture buffer is its byte offset, [None] standing for
    [nullptr]. *)
From S2P Require Import Prelude Fmt.

(** ** headers.hpp *)

Definition sizeof_EthernetHeader : Z := 14.
Definition sizeof_IPv4Header : Z := 20.
Definition sizeof_TCPHeader : Z := 20.
Definition sizeof_UDPHeader : Z := 8.

Definition ETHERTYPE_IPV4 : Z := 0x0800.

Definition IPPROTO_ICMP_ : Z := 1.
Definition IPPROTO_TCP_ : Z := 6.
Definition IPPROTO_UDP_ : Z := 17.

Definition kTcpFlagFin : Z := 0x01.
Definition kTcpFlagSyn : Z := 0x02.
Definition kTcpFlagRst : Z := 0x04.
Definition kTcpFlagPsh : Z := 0x08.
Definition kTcpFlagAck : Z := 0x10.
Definition kTcpFlagUrg : Z := 0x20.

(** [(flags & mask) != 0]. *)
Definition flag_set (flags mask : Z) : bool := negb (Z.land flags mask =? 0).

(** ** packet.hpp *)

Inductive Transport : Type := kUnknown | kTCP | kUDP | kICMP.

#[export] Instance Transport_eq_dec : EqDecision Transport.
Proof. solve_decision. Defined.

Record timeval : Type := mk_timeval { tv_sec : Z; tv_usec : Z }.

#[export] Instance timeval_eq_dec : EqDecision timeval.
Proof. solve_decision. Defined.

Record ParsedPacket : Type := mk_ParsedPacket {
  timestamp : timeval;
  capture_length : Z;
  wire_length : Z;
  src_mac : list Z;
  dst_mac : list Z;
  has_ip : bool;
  src_ip : Z;
  dst_ip : Z;
  ttl : Z;
  ip_protocol : Z;
  transport : Transport;
  src_port : Z;
  dst_port : Z;
  tcp_flags : Z;
  payload : option Z;
  payload_length : Z
}.

#[export] Instance ParsedPacket_eq_dec : EqDecision ParsedPacket.
Proof. solve_decision. Defined.

(** [ParsedPacket pkt;], every member at its default initializer. *)
Definition ParsedPacket_default : ParsedPacket :=
  mk_ParsedPacket (mk_timeval 0 0) 0 0 [0; 0; 0; 0; 0; 0] [0; 0; 0; 0; 0; 0]
    false 0 0 0 0 kUnknown 0 0 0 None 0.

(** Assignments to groups of members, as the parser and the queue make them. *)
Definition set_capture (ts : timeval) (cl wl : Z) (p : ParsedPacket) : ParsedPacket :=
  mk_ParsedPacket ts cl wl (src_mac p) (dst_mac p) (has_ip p) (src_ip p) (dst_ip p)
    (ttl p) (ip_protocol p) (transport p) (src_port p) (dst_port p) (tcp_flags p)
    (payload p) (payload_length p).

Definition set_macs (src dst : list Z) (p : ParsedPacket) : ParsedPacket :=
  mk_ParsedPacket (timestamp p) (capture_length p) (wire_length p) src dst (has_ip p)
    (src_ip p) (dst_ip p) (ttl p) (ip_protocol p) (transport p) (src_port p) (dst_port p)
    (tcp_flags p) (payload p) (payload_length p).

Definition set_ip (src dst t proto : Z) (p : ParsedPacket) : ParsedPacket :=
  mk_ParsedPacket (timestamp p) (capture_length p) (wire_length p) (src_mac p) (dst_mac p)
    true src dst t proto (transport p) (src_port p) (dst_port p) (tcp_flags p)
    (payload p) (payload_length p).

Definition set_transport (t : Transport) (sp dp fl : Z) (p : ParsedPacket) : ParsedPacket :=
  mk_ParsedPacket (timestamp p) (capture_length p) (wire_length p) (src_mac p) (dst_mac p)
    (has_ip p) (src_ip p) (dst_ip p) (ttl p) (ip_protocol p) t sp dp fl
    (payload p) (payload_length p).

Definition set_payload (ptr : option Z) (len : Z) (p : ParsedPacket) : ParsedPacket :=
  mk_ParsedPacket (timestamp p) (capture_length p) (wire_length p) (src_mac p) (dst_mac p)
    (has_ip p) (src_ip p) (dst_ip p) (ttl p) (ip_protocol p) (transport p) (src_port p)
    (dst_port p) (tcp_flags p) ptr len.

(** ** packet.cpp *)

Section Text.
Local Open Scope string_scope.

Definition mac_to_string (mac : list Z) : string :=
  let at_ i := nth i mac 0%Z in
  snprintf 18 (fmt_02x (at_ 0%nat) +:+ ":" +:+ fmt_02x (at_ 1%nat) +:+ ":" +:+
               fmt_02x (at_ 2%nat) +:+ ":" +:+ fmt_02x (at_ 3%nat) +:+ ":" +:+
               fmt_02x (at_ 4%nat) +:+ ":" +:+ fmt_02x (at_ 5%nat)).

Definition ipv4_to_string (host_order_ip : Z) : string :=
  let octet k := Z.land (Z.shiftr host_order_ip k) 0xFF in
  snprintf 16 (fmt_u (octet 24%Z) +:+ "." +:+ fmt_u (octet 16%Z) +:+ "." +:+
               fmt_u (octet 8%Z) +:+ "." +:+ fmt_u (Z.land host_order_ip 0xFF)).

Definition transport_to_string (t : Transport) : string :=
  match t with
  | kTCP => "TCP"
  | kUDP => "UDP"
  | kICMP => "ICMP"
  | kUnknown => "?"
  end.

Definition tcp_flags_to_string (flags : Z) : string :=
  let s := "" in
  let s := if flag_set flags kTcpFlagSyn then s +:+ "S" else s in
  let s := if flag_set flags kTcpFlagAck then s +:+ "A" else s in
  let s := if flag_set flags kTcpFlagFin then s +:+ "F" else s in
  let s := if flag_set flags kTcpFlagRst then s +:+ "R" else s in
  let s := if flag_set flags kTcpFlagPsh then s +:+ "P" else s in
  let s := if flag_set flags kTcpFlagUrg then s +:+ "U" else s in
  if String.eqb s "" then "-" else s.

End Text.

(** ** QueuedPacket (packet_queue.hpp, packet_queue.cpp) *)

Record QueuedPacket : Type := mk_QueuedPacket {
  meta : ParsedPacket;
  q_payload : list Z
}.

#[export] Instance QueuedPacket_eq_dec : EqDecision QueuedPacket.
Proof. solve_decision. Defined.

Definition payload_size (q : QueuedPacket) : Z := Zlength (q_payload q).

(** [make_queued_packet(parsed)], [buf] being the bytes that [parsed.payload]
    points into at the time of the call. *)
Definition make_queued_packet (buf : list Z) (parsed : ParsedPacket) : QueuedPacket :=
  let m := set_payload None 0 parsed in
  match payload parsed with
  | Some off =>
      if 0 <? payload_length parsed
      then mk_QueuedPacket m
             (take (Z.to_nat (payload_length parsed)) (drop (Z.to_nat off) buf))
      else mk_QueuedPacket m []
  | None => mk_QueuedPacket m []
  end.

(** ** Lemmas *)

Lemma byte_land_range z : is_uint 8 (Z.land z 0xFF).
Proof.
  change 0xFF with (Z.ones 8). rewrite Z.land_ones by lia.
  apply Z.mod_pos_bound. done.
Qed.

Lemma fmt_u_byte_length z : is_uint 8 z → (String.length (fmt_u z) ≤ 3)%nat.
Proof. intros [_ H]. apply fmt_u_length; [lia|]. cbn in *. lia. Qed.

Lemma fmt_u_no_dot z : has_char "."%char (fmt_u z) = false.
Proof. by apply has_char_fmt_u. Qed.

(** The text of an IPv4 address before the copy into [buf[16]]. *)
Lemma ipv4_to_string_fits ip :
  ipv4_to_string ip =
  (fmt_u (Z.land (Z.shiftr ip 24) 0xFF) +:+ "." +:+
   fmt_u (Z.land (Z.shiftr ip 16) 0xFF) +:+ "." +:+
   fmt_u (Z.land (Z.shiftr ip 8) 0xFF) +:+ "." +:+ fmt_u (Z.land ip 0xFF))%string.
Proof.
  unfold ipv4_to_string. apply snprintf_fits. rewrite !str_length_app. cbn [String.length].
  pose proof (fmt_u_byte_length _ (byte_land_range (Z.shiftr ip 24))).
  pose proof (fmt_u_byte_length _ (byte_land_range (Z.shiftr ip 16))).
  pose proof (fmt_u_byte_length _ (byte_land_range (Z.shiftr ip 8))).
  pose proof (fmt_u_byte_length _ (byte_land_range ip)). lia.
Qed.


Lemma ipv4_to_string_length ip : (String.length (ipv4_to_string ip) ≤ 15)%nat.
Proof.
  apply Nat.lt_succ_r. unfold ipv4_to_string. apply snprintf_length. lia.
Qed.

(** A 32-bit word is the sum of its four octets. *)
Lemma u32_octets ip :
  is_uint 32 ip →
  ip = Z.land (Z.shiftr ip 24) 0xFF * 2 ^ 24 + Z.land (Z.shiftr ip 16) 0xFF * 2 ^ 16 +
       Z.land (Z.shiftr ip 8) 0xFF * 2 ^ 8 + Z.land ip 0xFF.
Proof.
  intros [H0 H1]. change 0xFF with (Z.ones 8).
  rewrite !Z.land_ones, !Z.shiftr_div_pow2 by lia.
  change (2 ^ 8) with 256. change (2 ^ 16) with 65536. change (2 ^ 24) with 16777216.
  change (2 ^ 32) with 4294967296 in H1.
  Z.to_euclidean_division_equations. lia.
Qed.

Lemma fmt_02x_inj a b : is_uint 8 a → is_uint 8 b → fmt_02x a = fmt_02x b → a = b.
Proof.
  intros Ha Hb Heq.
  assert (Hall : all_below 256 (λ x, all_below 256 (λ y,
            negb (String.eqb (fmt_02x x) (fmt_02x y)) || (x =? y))) = true)
    by (vm_compute; reflexivity).
  pose proof (all_below_spec _ _ a Hall Ha) as H1. cbn beta in H1.
  pose proof (all_below_spec _ _ b H1 Hb) as H2. cbn beta in H2.
  rewrite Heq, String.eqb_refl in H2. cbn in H2. by apply Z.eqb_eq.
Qed.

(** Cuts a text after a two-character conversion and a colon. *)
Lemma fmt_02x_cut a b r s :
  is_uint 8 a → is_uint 8 b →
  (fmt_02x a +:+ ":" +:+ r = fmt_02x b +:+ ":" +:+ s)%string → a = b ∧ r = s.
Proof.
  intros Ha Hb H. unfold fmt_02x in H. cbn in H. injection H as H1 H2 ->.
  split; [|done]. apply fmt_02x_inj; [done..|]. unfold fmt_02x. by rewrite H1, H2.
Qed.

Lemma mac_to_string_fits a b c d e f :
  mac_to_string [a; b; c; d; e; f] =
  (fmt_02x a +:+ ":" +:+ fmt_02x b +:+ ":" +:+ fmt_02x c +:+ ":" +:+
   fmt_02x d +:+ ":" +:+ fmt_02x e +:+ ":" +:+ fmt_02x f)%string.
Proof. reflexivity. Qed.

(** ** Properties *)

(** The printed form of an IPv4 address loses nothing: the sixteen-byte
    buffer always holds the whole text, and two 32-bit addresses with the same
    text are equal. *)
Theorem ipv4_to_string_injective a b :
  is_uint 32 a → is_uint 32 b → ipv4_to_string a = ipv4_to_string b → a = b.
Proof.
  intros Ha Hb. rewrite !ipv4_to_string_fits. intros H.
  apply app_sep_inj in H as [H1 H]; [|apply fmt_u_no_dot..].
  apply app_sep_inj in H as [H2 H]; [|apply fmt_u_no_dot..].
  apply app_sep_inj in H as [H3 H4]; [|apply fmt_u_no_dot..].
  rewrite (u32_octets a Ha), (u32_octets b Hb).
  apply fmt_u_inj in H1, H2, H3, H4; try apply byte_land_range.
  by rewrite H1, H2, H3, H4.
Qed.

Lemma ipv4_to_string_injective_witness :
  ipv4_to_string 167772161 = "10.0.0.1"%string ∧ 167772161 = 10 * 2 ^ 24 + 1.
Proof.
  split; [by vm_compute|].
  apply ipv4_to_string_injective; [by vm_compute..|by vm_compute].
Defined.

(** Two MAC addresses with the same text are the same six bytes. *)
Theorem mac_to_string_injective m n :
  length m = 6%nat → length n = 6%nat → bytes_ok m → bytes_ok n →
  mac_to_string m = mac_to_string n → m = n.
Proof.
  intros Hm Hn Bm Bn H.
  do 7 (destruct m as [|? m]; try done). do 7 (destruct n as [|? n]; try done).
  unfold bytes_ok in *. rewrite !Forall_cons in *. destruct_and!.
  rewrite !mac_to_string_fits in H.
  repeat (apply fmt_02x_cut in H as [-> H]; [|done..]).
  apply fmt_02x_inj in H; [|done..]. by subst.
Qed.

Lemma mac_to_string_injective_witness :
  mac_to_string [222; 173; 190; 239; 0; 1] = "de:ad:be:ef:00:01"%string ∧
  [222; 173; 190; 239; 0; 1] = [0xde; 0xad; 0xbe; 0xef; 0; 1].
Proof.
  split; [by vm_compute|].
  apply mac_to_string_injective; by_decide.
Defined.

(** The flag string shows exactly the six flags of the header: two flag
    bytes have the same text iff they agree on FIN, SYN, RST, PSH, ACK and URG,
    whatever their two high bits. *)
Theorem tcp_flags_to_string_exact f g :
  is_uint 8 f → is_uint 8 g →
  (tcp_flags_to_string f = tcp_flags_to_string g ↔ Z.land f 0x3F = Z.land g 0x3F).
Proof.
  intros Hf Hg.
  assert (Hall : all_below 256 (λ x, all_below 256 (λ y,
            Bool.eqb (String.eqb (tcp_flags_to_string x) (tcp_flags_to_string y))
                     (Z.land x 0x3F =? Z.land y 0x3F))) = true)
    by (vm_compute; reflexivity).
  pose proof (all_below_spec _ _ f Hall Hf) as H1. cbn beta in H1.
  pose proof (all_below_spec _ _ g H1 Hg) as H2. cbn beta in H2.
  apply Bool.eqb_prop in H2.
  rewrite <- Z.eqb_eq, <- H2. symmetry. apply String.eqb_eq.
Qed.

Lemma tcp_flags_to_string_exact_witness :
  tcp_flags_to_string 0x12 = "SA"%string ∧ tcp_flags_to_string 0xD2 = "SA"%string.
Proof.
  split; [by vm_compute|].
  transitivity (tcp_flags_to_string 0x12); [|by vm_compute].
  apply tcp_flags_to_string_exact; [by vm_compute..|by vm_compute].
Defined.
