(* ===== verification/Parser.v ===== *)
(** * Header parsing ([src/capture/parser.cpp])

    [parse_packet] over a captured buffer.  Every access to the buffer goes
    through [read_u8], which fails when the index is not one of the bytes that
    exist, so that a read past the buffer is a value ([OutOfBounds]) and its
    absence a theorem.  The host is little endian (the platforms the program
    targets): a multi-byte field is loaded with its first byte as the low one and
    [ntohs]/[ntohl] swap it. *)
From S2P Require Import Prelude Fmt Packet.

(** ** Memory accesses *)

Inductive access (A : Type) : Type :=
| Ok (a : A)
| OutOfBounds (i : Z).
Arguments Ok {A} a.
Arguments OutOfBounds {A} i.

#[export] Instance access_ret : MRet access := λ A a, Ok a.

#[export] Instance access_bind : MBind access := λ A B f m,
  match m with
  | Ok a => f a
  | OutOfBounds i => OutOfBounds i
  end.

Definition read_u8 (buf : list Z) (i : Z) : access Z :=
  if 0 <=? i then
    match buf !! Z.to_nat i with
    | Some b => Ok b
    | None => OutOfBounds i
    end
  else OutOfBounds i.

Fixpoint read_bytes (buf : list Z) (i : Z) (n : nat) : access (list Z) :=
  match n with
  | O => Ok []
  | S k => b ← read_u8 buf i; l ← read_bytes buf (i + 1) k; Ok (b :: l)
  end.

(** Little-endian loads of the packed [uint16_t] and [uint32_t] members. *)
Definition load16 (buf : list Z) (i : Z) : access Z :=
  b0 ← read_u8 buf i;
  b1 ← read_u8 buf (i + 1);
  Ok (Z.lor b0 (Z.shiftl b1 8)).

Definition load32 (buf : list Z) (i : Z) : access Z :=
  lo ← load16 buf i;
  hi ← load16 buf (i + 2);
  Ok (Z.lor lo (Z.shiftl hi 16)).

Definition ntohs (v : Z) : Z := Z.lor (Z.shiftl (Z.land v 0xFF) 8) (Z.shiftr v 8).

Definition ntohl (v : Z) : Z :=
  Z.lor (Z.shiftl (ntohs (Z.land v 0xFFFF)) 16) (ntohs (Z.shiftr v 16)).

(** ** The accessors of the packed headers *)

Definition version (version_ihl : Z) : Z := Z.shiftr version_ihl 4.
Definition ihl_words (version_ihl : Z) : Z := Z.land version_ihl 0x0F.
Definition ip_header_bytes (version_ihl : Z) : Z := ihl_words version_ihl * 4.
Definition data_offset_words (data_offset_reserved : Z) : Z := Z.shiftr data_offset_reserved 4.
Definition tcp_header_bytes (data_offset_reserved : Z) : Z :=
  data_offset_words data_offset_reserved * 4.

(** ** parse_packet *)

Section Parse.
Context (data : list Z) (caplen : Z).

(** [caplen - payload_offset] bytes are there, [claimed] are what the datagram
    leaves after a transport header of [header] bytes. *)
Definition transport_payload_length (payload_offset ip_payload_length header : Z) : Z :=
  std_min (caplen - payload_offset)
    (if header <? ip_payload_length then ip_payload_length - header else 0).

Definition parse_tcp (offset ip_payload_length : Z) (pkt : ParsedPacket) : access ParsedPacket :=
  if caplen <? offset + sizeof_TCPHeader then Ok pkt else
  data_offset_reserved ← read_u8 data (offset + 12);
  let header := tcp_header_bytes data_offset_reserved in
  if (header <? sizeof_TCPHeader) || (caplen <? offset + header) then Ok pkt else
  sp ← load16 data offset;
  dp ← load16 data (offset + 2);
  flags ← read_u8 data (offset + 13);
  let pkt := set_transport kTCP (ntohs sp) (ntohs dp) flags pkt in
  let payload_offset := offset + header in
  if payload_offset <=? caplen
  then Ok (set_payload (Some payload_offset)
             (transport_payload_length payload_offset ip_payload_length header) pkt)
  else Ok pkt.

Definition parse_udp (offset ip_payload_length : Z) (pkt : ParsedPacket) : access ParsedPacket :=
  if caplen <? offset + sizeof_UDPHeader then Ok pkt else
  sp ← load16 data offset;
  dp ← load16 data (offset + 2);
  let pkt := set_transport kUDP (ntohs sp) (ntohs dp) (tcp_flags pkt) pkt in
  let payload_offset := offset + sizeof_UDPHeader in
  if payload_offset <=? caplen
  then Ok (set_payload (Some payload_offset)
             (transport_payload_length payload_offset ip_payload_length sizeof_UDPHeader) pkt)
  else Ok pkt.

Definition parse_icmp (offset ip_payload_length : Z) (pkt : ParsedPacket) : access ParsedPacket :=
  let pkt := set_transport kICMP (src_port pkt) (dst_port pkt) (tcp_flags pkt) pkt in
  if offset <=? caplen
  then Ok (set_payload (Some offset) ip_payload_length pkt)
  else Ok pkt.

(** From the IPv4 header at [offset] on. *)
Definition parse_ipv4 (offset : Z) (pkt : ParsedPacket) : access ParsedPacket :=
  if caplen <? offset + sizeof_IPv4Header then Ok pkt else
  version_ihl ← read_u8 data offset;
  if negb (version version_ihl =? 4) then Ok pkt else
  let header := ip_header_bytes version_ihl in
  if (header <? sizeof_IPv4Header) || (caplen <? offset + header) then Ok pkt else
  src ← load32 data (offset + 12);
  dst ← load32 data (offset + 16);
  t ← read_u8 data (offset + 8);
  proto ← read_u8 data (offset + 9);
  let pkt := set_ip (ntohl src) (ntohl dst) t proto pkt in
  total ← load16 data (offset + 2);
  let ip_total_length := ntohs total in
  let ip_payload_available :=
    if offset + header <? caplen then caplen - offset - header else 0 in
  let ip_payload_claimed :=
    if header <? ip_total_length then ip_total_length - header else 0 in
  let ip_payload_length := std_min ip_payload_available ip_payload_claimed in
  let offset := offset + header in
  if proto =? IPPROTO_TCP_ then parse_tcp offset ip_payload_length pkt
  else if proto =? IPPROTO_UDP_ then parse_udp offset ip_payload_length pkt
  else if proto =? IPPROTO_ICMP_ then parse_icmp offset ip_payload_length pkt
  else Ok pkt.

End Parse.

(** [parse_packet(data, caplen, wire_length, ts)]; [None] as [data] is
    [nullptr], and the result [Ok None] is [std::nullopt]. *)
Definition parse_packet (data : option (list Z)) (caplen wire_len : Z) (ts : timeval)
    : access (option ParsedPacket) :=
  match data with
  | None => Ok None
  | Some buf =>
      if caplen <? sizeof_EthernetHeader then Ok None else
      let pkt := set_capture ts caplen wire_len ParsedPacket_default in
      src ← read_bytes buf 6 6;
      dst ← read_bytes buf 0 6;
      let pkt := set_macs src dst pkt in
      raw ← load16 buf 12;
      if negb (ntohs raw =? ETHERTYPE_IPV4) then Ok (Some pkt) else
      pkt ← parse_ipv4 buf caplen sizeof_EthernetHeader pkt;
      Ok (Some pkt)
  end.

(** ** Specifications of the results *)

(** [wp m Q]: [m] makes no access out of bounds and its result satisfies [Q]. *)
Definition wp {A} (m : access A) (Q : A → Prop) : Prop :=
  match m with
  | Ok a => Q a
  | OutOfBounds _ => False
  end.

(** The payload pointer and length describe bytes of the capture. *)
Definition payload_in (caplen : Z) (pkt : ParsedPacket) : Prop :=
  match payload pkt with
  | None => payload_length pkt = 0
  | Some off => 34 ≤ off ∧ 0 ≤ payload_length pkt ∧ off + payload_length pkt ≤ caplen
  end.

(** What the transport says about the other members. *)
Definition transport_ok (pkt : ParsedPacket) : Prop :=
  match transport pkt with
  | kUnknown => src_port pkt = 0 ∧ dst_port pkt = 0 ∧ tcp_flags pkt = 0 ∧ payload pkt = None
  | kTCP => has_ip pkt = true ∧ ip_protocol pkt = IPPROTO_TCP_
  | kUDP => has_ip pkt = true ∧ ip_protocol pkt = IPPROTO_UDP_ ∧ tcp_flags pkt = 0
  | kICMP => has_ip pkt = true ∧ ip_protocol pkt = IPPROTO_ICMP_ ∧
             src_port pkt = 0 ∧ dst_port pkt = 0 ∧ tcp_flags pkt = 0
  end.

(** Every member has the width the struct gives it. *)
Definition widths_ok (pkt : ParsedPacket) : Prop :=
  bytes_ok (src_mac pkt) ∧ length (src_mac pkt) = 6%nat ∧
  bytes_ok (dst_mac pkt) ∧ length (dst_mac pkt) = 6%nat ∧
  is_uint 32 (src_ip pkt) ∧ is_uint 32 (dst_ip pkt) ∧
  is_uint 8 (ttl pkt) ∧ is_uint 8 (ip_protocol pkt) ∧
  is_uint 16 (src_port pkt) ∧ is_uint 16 (dst_port pkt) ∧ is_uint 8 (tcp_flags pkt).

Record packet_ok (caplen : Z) (pkt : ParsedPacket) : Prop := {
  packet_payload_in : payload_in caplen pkt;
  packet_transport_ok : transport_ok pkt;
  packet_widths_ok : widths_ok pkt
}.

(** ** Lemmas *)

Lemma wp_bind {A B} (m : access A) (f : A → access B) (Q : B → Prop) :
  wp m (λ a, wp (f a) Q) → wp (m ≫= f) Q.
Proof. by destruct m. Qed.

Lemma wp_mono {A} (m : access A) (P Q : A → Prop) : wp m P → (∀ a, P a → Q a) → wp m Q.
Proof. destruct m; cbn; auto. Qed.

Lemma wp_Ok {A} (m : access A) Q : wp m Q → ∃ a, m = Ok a ∧ Q a.
Proof. destruct m; cbn; [eauto|done]. Qed.

Lemma ntohs_load b0 b1 :
  is_uint 8 b0 → is_uint 8 b1 → ntohs (Z.lor b0 (Z.shiftl b1 8)) = b0 * 256 + b1.
Proof.
  intros H0 H1.
  unfold ntohs. destruct (H0) as [? ?], (H1) as [? ?].
  rewrite (lor_shiftl_add 8) by (done || lia).
  change 0xFF with (Z.ones 8). rewrite Z.land_ones, Z.shiftr_div_pow2 by lia.
  change (2 ^ 8) with 256 in *.
  replace ((b0 + b1 * 256) mod 256) with b0 by (Z.to_euclidean_division_equations; lia).
  replace ((b0 + b1 * 256) / 256) with b1 by (Z.to_euclidean_division_equations; lia).
  rewrite Z.lor_comm, (lor_shiftl_add 8) by (done || lia). lia.
Qed.

Lemma join_byte_range b0 b1 :
  is_uint 8 b0 → is_uint 8 b1 → is_uint 16 (Z.lor b0 (Z.shiftl b1 8)).
Proof.
  intros H0 H1. rewrite lor_shiftl_add by (done || lia).
  unfold is_uint in *. change (2 ^ 8) with 256 in *. change (2 ^ 16) with 65536. lia.
Qed.

Lemma read_u8_wp buf i :
  bytes_ok buf → 0 ≤ i < Zlength buf → wp (read_u8 buf i) (is_uint 8).
Proof.
  intros Hb [Hi Hl]. unfold read_u8. rewrite (proj2 (Z.leb_le 0 i)) by done.
  destruct (buf !! Z.to_nat i) as [b|] eqn:E; cbn.
  - by eapply Forall_lookup_1.
  - apply lookup_ge_None in E. unfold Zlength in Hl. lia.
Qed.

Lemma load16_wp buf i :
  bytes_ok buf → 0 ≤ i → i + 1 < Zlength buf →
  wp (load16 buf i) (λ v, is_uint 16 v ∧ is_uint 16 (ntohs v)).
Proof.
  intros Hb Hi Hl. unfold load16. apply wp_bind.
  eapply wp_mono; [apply read_u8_wp; [done|lia]|]. intros b0 H0. apply wp_bind.
  eapply wp_mono; [apply read_u8_wp; [done|lia]|]. intros b1 H1. cbn.
  split; [by apply join_byte_range|]. rewrite ntohs_load by done.
  unfold is_uint in *. change (2 ^ 8) with 256 in *. change (2 ^ 16) with 65536. lia.
Qed.

Lemma ntohl_load lo hi :
  is_uint 16 lo → 0 ≤ hi →
  ntohl (Z.lor lo (Z.shiftl hi 16)) = Z.lor (Z.shiftl (ntohs lo) 16) (ntohs hi).
Proof.
  intros Hlo Hhi. unfold ntohl. rewrite (lor_shiftl_add 16) by (done || lia).
  destruct Hlo as [L0 L1]. change 0xFFFF with (Z.ones 16).
  rewrite Z.land_ones, Z.shiftr_div_pow2 by lia. change (2 ^ 16) with 65536 in *.
  replace ((lo + hi * 65536) mod 65536) with lo by (Z.to_euclidean_division_equations; lia).
  replace ((lo + hi * 65536) / 65536) with hi by (Z.to_euclidean_division_equations; lia).
  done.
Qed.

Lemma load32_wp buf i :
  bytes_ok buf → 0 ≤ i → i + 3 < Zlength buf →
  wp (load32 buf i) (λ v, is_uint 32 (ntohl v)).
Proof.
  intros Hb Hi Hl. unfold load32. apply wp_bind.
  eapply wp_mono; [apply load16_wp; [done|lia|lia]|]. intros lo [L Ls]. apply wp_bind.
  eapply wp_mono; [apply load16_wp; [done|lia|lia]|]. intros hi [H Hs]. cbn.
  rewrite ntohl_load by (done || apply H).
  rewrite Z.lor_comm, lor_shiftl_add by (done || lia).
  unfold is_uint in *. change (2 ^ 16) with 65536 in *. change (2 ^ 32) with 4294967296. lia.
Qed.

Lemma read_bytes_wp buf i n :
  bytes_ok buf → 0 ≤ i → i + Z.of_nat n ≤ Zlength buf →
  wp (read_bytes buf i n) (λ l, bytes_ok l ∧ length l = n).
Proof.
  intros Hb. revert i. induction n as [|n IH]; intros i Hi Hl; cbn [read_bytes].
  - split; [constructor|done].
  - apply wp_bind. eapply wp_mono; [apply read_u8_wp; [done|lia]|]. intros b B.
    apply wp_bind. eapply wp_mono; [apply IH; lia|]. intros l [L Len]. cbn.
    split; [by constructor|by rewrite Len].
Qed.

(** The header sizes the packets can claim. *)
Lemma nibble_bound z : is_uint 8 z → 0 ≤ Z.shiftr z 4 ≤ 15.
Proof.
  intros [H0 H1]. rewrite Z.shiftr_div_pow2 by lia. change (2 ^ 4) with 16.
  change (2 ^ 8) with 256 in H1. Z.to_euclidean_division_equations. lia.
Qed.

Lemma tcp_header_bytes_bound z : is_uint 8 z → 0 ≤ tcp_header_bytes z ≤ 60.
Proof. intros H. pose proof (nibble_bound z H). unfold tcp_header_bytes, data_offset_words. lia. Qed.

Lemma ip_header_bytes_bound z : 0 ≤ ip_header_bytes z ≤ 60.
Proof.
  unfold ip_header_bytes, ihl_words. change 0x0F with (Z.ones 4).
  rewrite Z.land_ones by lia. pose proof (Z.mod_pos_bound z (2 ^ 4) eq_refl).
  change (2 ^ 4) with 16 in *. lia.
Qed.

(** Steps through a sequence of reads, each in bounds by [lia]. *)
Ltac wp_read :=
  apply wp_bind;
  eapply wp_mono;
  [first [ apply read_u8_wp | apply load16_wp | apply load32_wp | apply read_bytes_wp ];
   first [ assumption | cbn; lia ]
  |cbn beta; intros ? ?].

(** Splits the guards of the code at the head of the goal. *)
Ltac split_test :=
  match goal with
  | |- wp (if ?b then _ else _) _ => let E := fresh "G" in destruct b eqn:E
  end.

(** Takes a successful run apart, read by read and test by test. *)
Ltac run_inv H :=
  repeat match type of H with
  | mbind _ ?m = Ok _ => let E := fresh "R" in destruct m eqn:E; cbn [mbind access_bind] in H; [|discriminate H]
  | (if ?b then _ else _) = Ok _ => let E := fresh "T" in destruct b eqn:E
  end.

(** Rewrites the reads of a second run with the results of the first. *)
Ltac same_reads H :=
  repeat match goal with
  | R : ?m = Ok ?v |- _ =>
      assert_fails (constr_eq R H);
      match type of H with context [m] => rewrite R in H; cbn [mbind access_bind] in H end
  end.

(** A packet as it is before the transport header is read. *)
Definition undecoded (pkt : ParsedPacket) : Prop :=
  transport pkt = kUnknown ∧ payload_length pkt = 0 ∧ transport_ok pkt ∧ widths_ok pkt.

Lemma undecoded_ok caplen pkt : undecoded pkt → packet_ok caplen pkt.
Proof.
  intros (Ht & Hl & Hok & Hw). split; [|done|done].
  unfold transport_ok in Hok. rewrite Ht in Hok. destruct_and!.
  unfold payload_in. by rewrite H3.
Qed.

Section Safe.
Context (data : list Z) (caplen : Z).
Hypothesis (Hbytes : bytes_ok data) (Hcap : caplen ≤ Zlength data).

Lemma parse_tcp_ok offset len pkt :
  34 ≤ offset ≤ caplen → 0 ≤ len → undecoded pkt →
  has_ip pkt = true → ip_protocol pkt = IPPROTO_TCP_ →
  wp (parse_tcp data caplen offset len pkt) (packet_ok caplen).
Proof.
  intros Ho Hlen Hu Hip Hp. pose proof (undecoded_ok caplen _ Hu) as Hok.
  unfold parse_tcp, sizeof_TCPHeader. split_test; [done|]. apply Z.ltb_ge in G.
  wp_read. pose proof (tcp_header_bytes_bound a ltac:(assumption)).
  cbn beta zeta. split_test; [done|]. apply orb_false_iff in G0 as [G0 G1].
  apply Z.ltb_ge in G0, G1. wp_read. wp_read. wp_read. split_test; [|lia]. cbn.
  destruct Hu as (Ht & _ & _ & Hw). unfold widths_ok in Hw. destruct_and!.
  unfold transport_payload_length, std_min.
  split; [unfold payload_in; cbn; case_match; lia|done|].
  unfold widths_ok. cbn. split_and!; done.
Qed.

Lemma parse_udp_ok offset len pkt :
  34 ≤ offset ≤ caplen → 0 ≤ len → undecoded pkt →
  has_ip pkt = true → ip_protocol pkt = IPPROTO_UDP_ →
  wp (parse_udp data caplen offset len pkt) (packet_ok caplen).
Proof.
  intros Ho Hlen Hu Hip Hp. pose proof (undecoded_ok caplen _ Hu) as Hok.
  unfold parse_udp, sizeof_UDPHeader. split_test; [done|]. apply Z.ltb_ge in G.
  wp_read. wp_read. split_test; [|lia]. cbn.
  destruct Hu as (Ht & _ & Htr & Hw). unfold widths_ok in Hw.
  unfold transport_ok in Htr. rewrite Ht in Htr. destruct_and!.
  unfold transport_payload_length, std_min.
  split; [unfold payload_in; cbn; case_match; lia|by split_and!|].
  unfold widths_ok. cbn. split_and!; done.
Qed.

Lemma parse_icmp_ok offset len pkt :
  34 ≤ offset ≤ caplen → 0 ≤ len ≤ caplen - offset → undecoded pkt →
  has_ip pkt = true → ip_protocol pkt = IPPROTO_ICMP_ →
  wp (parse_icmp caplen offset len pkt) (packet_ok caplen).
Proof.
  intros Ho Hlen Hu Hip Hp. unfold parse_icmp. split_test; [|apply Z.leb_gt in G; lia]. cbn.
  destruct Hu as (Ht & _ & Htr & Hw). unfold widths_ok in Hw.
  unfold transport_ok in Htr. rewrite Ht in Htr. destruct_and!.
  split; [unfold payload_in; cbn; lia|by split_and!|].
  unfold widths_ok. cbn. split_and!; done.
Qed.

Lemma parse_ipv4_ok pkt :
  undecoded pkt →
  wp (parse_ipv4 data caplen sizeof_EthernetHeader pkt) (packet_ok caplen).
Proof.
  intros Hu. pose proof (undecoded_ok caplen _ Hu) as Hok.
  unfold parse_ipv4, sizeof_EthernetHeader, sizeof_IPv4Header.
  split_test; [done|]. apply Z.ltb_ge in G. wp_read. split_test; [done|].
  pose proof (ip_header_bytes_bound a). cbn beta zeta.
  split_test; [done|]. apply orb_false_iff in G1 as [G1 G2]. apply Z.ltb_ge in G1, G2.
  wp_read. wp_read. wp_read. wp_read. wp_read. cbn beta zeta.
  match goal with |- context [set_ip ?s ?d ?t ?p pkt] => set (pkt' := set_ip s d t p pkt) end.
  assert (Hu' : undecoded pkt').
  { destruct Hu as (Ht & ? & Htr & Hw). split; [done|]. split; [done|].
    unfold transport_ok, widths_ok in *. cbn. rewrite Ht in *. destruct_and!.
    split_and!; done. }
  set (len := std_min _ _).
  assert (0 ≤ len ≤ caplen - (14 + ip_header_bytes a)).
  { unfold len, std_min. zbool; lia. }
  split_test; [apply parse_tcp_ok; [lia|lia|done|done|by apply Z.eqb_eq in G3]|].
  split_test; [apply parse_udp_ok; [lia|lia|done|done|by apply Z.eqb_eq in G4]|].
  split_test; [apply parse_icmp_ok; [lia|lia|done|done|by apply Z.eqb_eq in G5]|].
  by apply undecoded_ok.
Qed.

Lemma parse_packet_wp wire_len ts :
  wp (parse_packet (Some data) caplen wire_len ts) (λ r,
    match r with
    | None => caplen < 14
    | Some pkt => 14 ≤ caplen ∧ packet_ok caplen pkt
    end).
Proof.
  unfold parse_packet, sizeof_EthernetHeader. split_test; [cbn; by apply Z.ltb_lt|].
  apply Z.ltb_ge in G. wp_read. wp_read. wp_read. cbn beta zeta.
  match goal with |- context [set_macs ?s ?d ?p] => set (pkt := set_macs s d p) end.
  assert (Hu : undecoded pkt).
  { split; [done|]. split; [done|]. split; [done|]. unfold widths_ok. cbn.
    destruct_and!. split_and!; done. }
  split_test; [cbn; split; [done|by apply undecoded_ok]|].
  apply wp_bind. eapply wp_mono; [by apply parse_ipv4_ok|]. cbn. auto.
Qed.

End Safe.

(** ** Truncation

    [truncates c p p']: [p], decoded from the first [c] bytes of a frame, says
    nothing that [p'], decoded from more of it, does not say. *)
Definition agrees_ip (p p' : ParsedPacket) : Prop :=
  has_ip p' = true ∧ src_ip p' = src_ip p ∧ dst_ip p' = dst_ip p ∧ ttl p' = ttl p ∧
  ip_protocol p' = ip_protocol p.

Definition truncates (c : Z) (p p' : ParsedPacket) : Prop :=
  src_mac p' = src_mac p ∧ dst_mac p' = dst_mac p ∧
  (has_ip p = true → agrees_ip p p') ∧
  (transport p ≠ kUnknown →
   transport p' = transport p ∧ src_port p' = src_port p ∧ dst_port p' = dst_port p ∧
   tcp_flags p' = tcp_flags p ∧
   ∃ off, payload p = Some off ∧ payload p' = Some off ∧
          payload_length p = Z.min (payload_length p') (c - off)).

Section Truncate.
Context (data : list Z) (c c' : Z).
Hypothesis (Hc : c ≤ c').

(** Two runs before the transport header: the same packet, different lengths. *)
Definition ip_twin (p p' : ParsedPacket) : Prop :=
  src_mac p' = src_mac p ∧ dst_mac p' = dst_mac p ∧ agrees_ip p p' ∧
  transport p = kUnknown ∧ src_port p' = src_port p ∧ dst_port p' = dst_port p ∧
  tcp_flags p' = tcp_flags p.

Lemma ip_twin_truncates p p' q :
  ip_twin p p' → src_mac q = src_mac p' → dst_mac q = dst_mac p' → agrees_ip p' q →
  truncates c p q.
Proof.
  intros (? & ? & A & Ht & _) ? ? B. unfold truncates, agrees_ip in *. destruct_and!.
  split_and!; try congruence. intros _. split_and!; congruence.
Qed.

(** The transport parsers leave the addresses alone. *)
Definition keeps_ip (p r : ParsedPacket) : Prop :=
  src_mac r = src_mac p ∧ dst_mac r = dst_mac p ∧ has_ip r = has_ip p ∧
  src_ip r = src_ip p ∧ dst_ip r = dst_ip p ∧ ttl r = ttl p ∧ ip_protocol r = ip_protocol p.

Lemma parse_tcp_keeps k off len p r : parse_tcp data k off len p = Ok r → keeps_ip p r.
Proof. intros H. unfold parse_tcp in H. run_inv H; simplify_eq; done. Qed.

Lemma parse_udp_keeps k off len p r : parse_udp data k off len p = Ok r → keeps_ip p r.
Proof. intros H. unfold parse_udp in H. run_inv H; simplify_eq; done. Qed.

Lemma parse_icmp_keeps k off len p r : parse_icmp k off len p = Ok r → keeps_ip p r.
Proof. intros H. unfold parse_icmp in H. run_inv H; simplify_eq; done. Qed.

Lemma twin_weak p p' r' : ip_twin p p' → keeps_ip p' r' → truncates c p r'.
Proof.
  intros (? & ? & A & Ht & _) K. unfold truncates, agrees_ip, keeps_ip in *. destruct_and!.
  split_and!; try congruence. intros _. split_and!; congruence.
Qed.

Lemma twin_decoded p p' tr sp dp fl off l l' :
  ip_twin p p' → l = Z.min l' (c - off) →
  truncates c (set_payload (Some off) l (set_transport tr sp dp fl p))
              (set_payload (Some off) l' (set_transport tr sp dp fl p')).
Proof.
  intros (? & ? & A & Ht & _) ->. unfold truncates, agrees_ip in *. cbn. destruct_and!.
  split_and!; try congruence; try done. intros _. split_and!; eauto.
Qed.

Lemma parse_tcp_truncates off claimed p p' r r' :
  ip_twin p p' → 0 ≤ claimed →
  parse_tcp data c off (std_min (c - off) claimed) p = Ok r →
  parse_tcp data c' off (std_min (c' - off) claimed) p' = Ok r' →
  truncates c r r'.
Proof.
  intros Htw Hcl H H'. pose proof (parse_tcp_keeps _ _ _ _ _ H') as K.
  unfold parse_tcp in H, H'.
  run_inv H; simplify_eq; [by eapply twin_weak..| |].
  all: same_reads H'; run_inv H'; simplify_eq; try (exfalso; lia).
  apply twin_decoded; [done|]. unfold transport_payload_length, std_min. zbool; lia.
Qed.

Lemma parse_udp_truncates off claimed p p' r r' :
  ip_twin p p' → 0 ≤ claimed →
  parse_udp data c off (std_min (c - off) claimed) p = Ok r →
  parse_udp data c' off (std_min (c' - off) claimed) p' = Ok r' →
  truncates c r r'.
Proof.
  intros Htw Hcl H H'. pose proof (parse_udp_keeps _ _ _ _ _ H') as K.
  unfold parse_udp in H, H'.
  run_inv H; simplify_eq; [by eapply twin_weak..| |].
  all: same_reads H'; run_inv H'; simplify_eq; try (exfalso; lia).
  replace (tcp_flags p') with (tcp_flags p) by (symmetry; apply Htw).
  apply twin_decoded; [done|]. unfold transport_payload_length, std_min, sizeof_UDPHeader.
  zbool; lia.
Qed.

Lemma parse_icmp_truncates off claimed p p' r r' :
  ip_twin p p' → off ≤ c → 0 ≤ claimed →
  parse_icmp c off (std_min (c - off) claimed) p = Ok r →
  parse_icmp c' off (std_min (c' - off) claimed) p' = Ok r' →
  truncates c r r'.
Proof.
  intros Htw Ho Hcl H H'. unfold parse_icmp in H, H'.
  run_inv H; run_inv H'; simplify_eq; try (exfalso; lia).
  replace (tcp_flags p') with (tcp_flags p) by (symmetry; apply Htw).
  replace (src_port p') with (src_port p) by (symmetry; apply Htw).
  replace (dst_port p') with (dst_port p) by (symmetry; apply Htw).
  apply twin_decoded; [done|]. unfold std_min. lia.
Qed.

(** Before the IPv4 header: nothing decoded yet, only the lengths differ. *)
Definition eth_twin (p p' : ParsedPacket) : Prop :=
  src_mac p' = src_mac p ∧ dst_mac p' = dst_mac p ∧ has_ip p = false ∧
  transport p = kUnknown ∧ src_port p' = src_port p ∧ dst_port p' = dst_port p ∧
  tcp_flags p' = tcp_flags p.

Lemma eth_twin_weak p p' r' :
  eth_twin p p' → src_mac r' = src_mac p' → dst_mac r' = dst_mac p' → truncates c p r'.
Proof.
  intros (? & ? & A & Ht & _) ? ?. unfold truncates.
  split_and!; [congruence|congruence|congruence|]. intros Hn. by destruct Hn.
Qed.

Lemma parse_ipv4_macs k off p r :
  parse_ipv4 data k off p = Ok r → src_mac r = src_mac p ∧ dst_mac r = dst_mac p.
Proof.
  intros H. unfold parse_ipv4 in H. run_inv H; simplify_eq; try done.
  - apply parse_tcp_keeps in H. by destruct H as (? & ? & _).
  - apply parse_udp_keeps in H. by destruct H as (? & ? & _).
  - apply parse_icmp_keeps in H. by destruct H as (? & ? & _).
Qed.

Lemma available_eq k off h : off + h ≤ k → (if off + h <? k then k - off - h else 0) = k - (off + h).
Proof. intros. zbool; lia. Qed.

Lemma parse_ipv4_truncates off p p' r r' :
  eth_twin p p' →
  parse_ipv4 data c off p = Ok r → parse_ipv4 data c' off p' = Ok r' → truncates c r r'.
Proof.
  intros Htw H H'. pose proof (parse_ipv4_macs _ _ _ _ H') as [K1 K2].
  unfold parse_ipv4 in H, H'.
  assert (Hweak : p = r → truncates c r r') by (intros <-; by eapply eth_twin_weak).
  run_inv H; simplify_eq; try by apply Hweak.
  all: same_reads H'; run_inv H'; simplify_eq; try (exfalso; lia).
  all: destruct Htw as (? & ? & ? & ? & ? & ? & ?).
  all: rewrite ?available_eq in * by lia.
  - eapply parse_tcp_truncates; [..|exact H|exact H']; [by split_and!|case_match; lia].
  - eapply parse_udp_truncates; [..|exact H|exact H']; [by split_and!|case_match; lia].
  - eapply parse_icmp_truncates; [..|exact H|exact H']; [by split_and!|lia|case_match; lia].
  - by apply (twin_weak (set_ip (ntohl a0) (ntohl a1) a2 a3 p)
               (set_ip (ntohl a0) (ntohl a1) a2 a3 p')).
Qed.
End Truncate.

(** ** Bytes beyond the capture *)

(** A run that succeeds on the captured bytes is the run on any longer buffer. *)
Definition extends {A} (m m' : access A) : Prop := ∀ a, m = Ok a → m' = Ok a.

Lemma extends_refl {A} (m : access A) : extends m m.
Proof. by intros a. Qed.

Lemma extends_bind {A B} (m m' : access A) (f f' : A → access B) :
  extends m m' → (∀ a, extends (f a) (f' a)) → extends (m ≫= f) (m' ≫= f').
Proof. intros Hm Hf b. destruct m as [a|]; [|done]. rewrite (Hm a eq_refl). apply Hf. Qed.

Lemma extends_if {A} (b : bool) (m m' n n' : access A) :
  extends m m' → extends n n' → extends (if b then m else n) (if b then m' else n').
Proof. by destruct b. Qed.

Section Beyond.
Context (captured beyond : list Z).

Lemma read_u8_extends i : extends (read_u8 captured i) (read_u8 (captured ++ beyond) i).
Proof.
  intros b. unfold read_u8. destruct (0 <=? i); [|done].
  destruct (captured !! Z.to_nat i) as [x|] eqn:E; [|done]. by rewrite (lookup_app_l_Some _ _ _ _ E).
Qed.

(** Goes through the reads and the tests of the two runs together. *)
Ltac same_run :=
  repeat first [ apply extends_refl | apply read_u8_extends | apply extends_if
               | apply extends_bind; [|intros ?] | assumption ].

Lemma load16_extends i : extends (load16 captured i) (load16 (captured ++ beyond) i).
Proof. unfold load16. same_run. Qed.

Lemma load32_extends i : extends (load32 captured i) (load32 (captured ++ beyond) i).
Proof. unfold load32. do 2 (apply extends_bind; [apply load16_extends|intros ?]). apply extends_refl. Qed.

Lemma read_bytes_extends n i : extends (read_bytes captured i n) (read_bytes (captured ++ beyond) i n).
Proof. revert i. induction n as [|n IH]; intros i; cbn [read_bytes]; same_run. apply IH. Qed.

Hint Resolve load16_extends load32_extends read_bytes_extends : netdb.

Lemma parse_packet_extends caplen wire_len ts :
  extends (parse_packet (Some captured) caplen wire_len ts)
          (parse_packet (Some (captured ++ beyond)) caplen wire_len ts).
Proof.
  unfold parse_packet, parse_ipv4, parse_tcp, parse_udp, parse_icmp. cbv zeta.
  repeat (same_run; auto with netdb).
Qed.

End Beyond.

(** ** Properties *)

(** C15. Memory safety of the parser: whatever the captured bytes are, no header
    field is read outside them.  A result is always produced, it is the same
    whatever lies behind the captured bytes in memory, and a capture too short
    for an Ethernet header gives [std::nullopt]. *)
Theorem parse_packet_in_bounds captured wire_len ts :
  bytes_ok captured →
  let caplen := Zlength captured in
  ∃ r, (∀ beyond, parse_packet (Some (captured ++ beyond)) caplen wire_len ts = Ok r) ∧
       (caplen < sizeof_EthernetHeader → r = None).
Proof.
  intros Hb caplen.
  destruct (wp_Ok _ _ (parse_packet_wp captured caplen Hb (Z.le_refl _) wire_len ts)) as (r & Hr & Hpost).
  exists r. split; [intros beyond; by apply parse_packet_extends|].
  intros Hlt. unfold parse_packet in Hr. rewrite (proj2 (Z.ltb_lt _ _)) in Hr by done. by injection Hr as <-.
Qed.

Lemma parse_packet_in_bounds_witness :
  ∃ r, (∀ beyond, parse_packet (Some (replicate 10 255 ++ beyond)) 10 60 (mk_timeval 1 2) = Ok r) ∧ r = None.
Proof.
  destruct (parse_packet_in_bounds (replicate 10 255) 60 (mk_timeval 1 2)) as (r & Hr & Hn); [by_decide|].
  exists r. split; [exact Hr|]. apply Hn. by_decide.
Defined.

(** C16. Every packet the parser returns is well formed: each member fits the
    width of the struct, the payload pointer and length lie inside the captured
    bytes, and the transport, the protocol number, the ports and the flags are
    consistent with one another. *)
Theorem parse_packet_well_formed data caplen wire_len ts pkt :
  bytes_ok data → caplen ≤ Zlength data →
  parse_packet (Some data) caplen wire_len ts = Ok (Some pkt) → packet_ok caplen pkt.
Proof.
  intros Hb Hc H. pose proof (parse_packet_wp data caplen Hb Hc wire_len ts) as W.
  rewrite H in W. apply W.
Qed.

(** Frames the parser does not decode: a frame of at least 14 bytes whose
    EtherType is not IPv4 comes back as a packet that carries only the capture
    lengths, the timestamp and the two MAC addresses. *)
Theorem parse_packet_not_ipv4 data caplen wire_len ts raw :
  bytes_ok data → caplen ≤ Zlength data → 14 ≤ caplen →
  load16 data 12 = Ok raw → ntohs raw ≠ ETHERTYPE_IPV4 →
  parse_packet (Some data) caplen wire_len ts =
  Ok (Some (set_macs (take 6 (drop 6 data)) (take 6 data)
              (set_capture ts caplen wire_len ParsedPacket_default))).
Proof.
  intros Hb Hc H14 Hraw Hne.
  assert (Hlen : (14 ≤ length data)%nat) by (unfold Zlength in Hc; lia).
  do 12 (destruct data as [|? data]; [cbn in Hlen; lia|]).
  unfold parse_packet, sizeof_EthernetHeader.
  rewrite (proj2 (Z.ltb_ge _ _)) by lia. rewrite Hraw. cbn.
  by rewrite (proj2 (Z.eqb_neq _ _)).
Qed.

Definition arp_frame : list Z := [1; 2; 3; 4; 5; 6; 7; 8; 9; 10; 11; 12; 0x08; 0x06; 0; 1].

Lemma parse_packet_not_ipv4_witness :
  parse_packet (Some arp_frame) 16 60 (mk_timeval 1 2) =
  Ok (Some (set_macs [7; 8; 9; 10; 11; 12] [1; 2; 3; 4; 5; 6]
              (set_capture (mk_timeval 1 2) 16 60 ParsedPacket_default))).
Proof.
  apply (parse_packet_not_ipv4 arp_frame 16 60 (mk_timeval 1 2) 0x0608);
    [by_decide|by_decide|lia|reflexivity|by_decide].
Defined.

(** A capture cut short by the snap length never changes what is decoded,
    it only removes from it: the addresses, ports and flags decoded from the
    first [c] bytes are those decoded from [c'] bytes of the same frame, and the
    payload is the same one, cut at [c]. *)
Theorem parse_packet_truncation data c c' wire_len ts p p' :
  c ≤ c' →
  parse_packet (Some data) c wire_len ts = Ok (Some p) →
  parse_packet (Some data) c' wire_len ts = Ok (Some p') →
  truncates c p p'.
Proof.
  intros Hc H H'. unfold parse_packet in H, H'.
  run_inv H; same_reads H'; run_inv H'; simplify_eq; try done.
  eapply parse_ipv4_truncates; [done| |done|done]. done.
Qed.

(** A SYN from 10.0.0.66:40000 to 10.0.0.1:80 with four payload bytes. *)
Definition syn_frame : list Z :=
  [1; 2; 3; 4; 5; 6; 7; 8; 9; 10; 11; 12; 8; 0;
   0x45; 0; 0; 44; 0; 1; 0; 0; 64; 6; 0; 0; 10; 0; 0; 66; 10; 0; 0; 1;
   0x9C; 0x40; 0; 80; 0; 0; 0; 1; 0; 0; 0; 0; 0x50; 2; 0xFF; 0xFF; 0; 0; 0; 0;
   0xDE; 0xAD; 0xBE; 0xEF].

Definition syn_packet (caplen len : Z) : ParsedPacket :=
  mk_ParsedPacket (mk_timeval 1 2) caplen 58 [7; 8; 9; 10; 11; 12] [1; 2; 3; 4; 5; 6] true
    (10 * 2 ^ 24 + 66) (10 * 2 ^ 24 + 1) 64 6 kTCP 40000 80 2 (Some 54) len.

Lemma parse_packet_well_formed_witness : packet_ok 58 (syn_packet 58 4).
Proof.
  apply (parse_packet_well_formed syn_frame 58 58 (mk_timeval 1 2));
    [by_decide|by_decide|by vm_compute].
Defined.

Lemma parse_packet_truncation_witness : truncates 56 (syn_packet 56 2) (syn_packet 58 4).
Proof.
  apply (parse_packet_truncation syn_frame 56 58 58 (mk_timeval 1 2));
    [lia|by vm_compute|by vm_compute].
Defined.
