(* ===== verification/Wire.v ===== *)
(** * Wire format and the parser's functional behaviour

    A reference encoder of Ethernet/IPv4/TCP, UDP and ICMP frames (options and
    link-layer padding included), the round trip of [parse_packet] on what it
    builds, and the parser's behaviour on truncated captures. *)
From S2P Require Import Prelude Fmt Packet Parser.

(** ** Encoding: network byte order *)

Definition be16 (v : Z) : list Z := [v / 256; v mod 256].
Definition be32 (v : Z) : list Z := be16 (v / 65536) ++ be16 (v mod 65536).

Definition ethernet_header (dst src : list Z) (ethertype : Z) : list Z :=
  dst ++ src ++ be16 ethertype.

Record ipv4_fields : Type := {
  i_tos : Z; i_id : Z; i_frag : Z; i_ttl : Z; i_csum : Z; i_src : Z; i_dst : Z;
  i_options : list Z
}.

Definition ipv4_size (f : ipv4_fields) : Z := 20 + Zlength (i_options f).

Definition ipv4_header (f : ipv4_fields) (proto total : Z) : list Z :=
  [64 + ipv4_size f / 4; i_tos f] ++ be16 total ++ be16 (i_id f) ++ be16 (i_frag f) ++
  [i_ttl f; proto] ++ be16 (i_csum f) ++ be32 (i_src f) ++ be32 (i_dst f) ++ i_options f.

Record tcp_fields : Type := {
  t_src : Z; t_dst : Z; t_seq : Z; t_ack : Z; t_reserved : Z; t_flags : Z;
  t_window : Z; t_csum : Z; t_urgent : Z; t_options : list Z
}.

Definition tcp_size (f : tcp_fields) : Z := 20 + Zlength (t_options f).

Definition tcp_header (f : tcp_fields) : list Z :=
  be16 (t_src f) ++ be16 (t_dst f) ++ be32 (t_seq f) ++ be32 (t_ack f) ++
  [tcp_size f / 4 * 16 + t_reserved f; t_flags f] ++ be16 (t_window f) ++
  be16 (t_csum f) ++ be16 (t_urgent f) ++ t_options f.

Definition udp_header (sp dp len csum : Z) : list Z :=
  be16 sp ++ be16 dp ++ be16 len ++ be16 csum.

(** A datagram with its link-layer header and [trailer] bytes of padding. *)
Definition ip_frame (dst src : list Z) (f : ipv4_fields) (proto : Z) (body trailer : list Z)
    : list Z :=
  ethernet_header dst src ETHERTYPE_IPV4 ++
  ipv4_header f proto (ipv4_size f + Zlength body) ++ body ++ trailer.

(** ** Well-formed fields *)

Definition mac_ok (m : list Z) : Prop := bytes_ok m ∧ length m = 6%nat.

Definition options_ok (l : list Z) : Prop := Zlength l mod 4 = 0 ∧ Zlength l ≤ 40.

Definition ipv4_ok (f : ipv4_fields) : Prop :=
  is_uint 32 (i_src f) ∧ is_uint 32 (i_dst f) ∧ is_uint 8 (i_ttl f) ∧ options_ok (i_options f).

Definition tcp_ok (f : tcp_fields) : Prop :=
  is_uint 16 (t_src f) ∧ is_uint 16 (t_dst f) ∧ is_uint 4 (t_reserved f) ∧
  is_uint 8 (t_flags f) ∧ options_ok (t_options f).

(** What [parse_ipv4] leaves to the transport parsers. *)
Definition parse_transport (data : list Z) (caplen offset len : Z) (p : Z) (pkt : ParsedPacket)
    : access ParsedPacket :=
  if p =? IPPROTO_TCP_ then parse_tcp data caplen offset len pkt
  else if p =? IPPROTO_UDP_ then parse_udp data caplen offset len pkt
  else if p =? IPPROTO_ICMP_ then parse_icmp caplen offset len pkt
  else Ok pkt.

(** ** Reading back what was written *)

Lemma read_u8_app l k i b :
  0 ≤ i → read_u8 k i = Ok b → read_u8 (l ++ k) (Zlength l + i) = Ok b.
Proof.
  intros Hi. unfold read_u8, Zlength. rewrite (proj2 (Z.leb_le 0 i)) by lia.
  rewrite (proj2 (Z.leb_le 0 (Z.of_nat (length l) + i))) by lia.
  replace (Z.to_nat (Z.of_nat (length l) + i)) with (length l + Z.to_nat i)%nat by lia.
  rewrite lookup_app_r by lia.
  replace (length l + Z.to_nat i - length l)%nat with (Z.to_nat i) by lia.
  by destruct (k !! Z.to_nat i).
Qed.

Lemma load16_app l k i v :
  0 ≤ i → load16 k i = Ok v → load16 (l ++ k) (Zlength l + i) = Ok v.
Proof.
  intros Hi. unfold load16. destruct (read_u8 k i) as [b0|] eqn:E0; [|done].
  rewrite (read_u8_app _ _ _ b0) by done. cbn.
  destruct (read_u8 k (i + 1)) as [b1|] eqn:E1; [|done].
  rewrite <- Z.add_assoc. by rewrite (read_u8_app _ _ _ b1) by (done || lia).
Qed.

Lemma load32_app l k i v :
  0 ≤ i → load32 k i = Ok v → load32 (l ++ k) (Zlength l + i) = Ok v.
Proof.
  intros Hi. unfold load32. destruct (load16 k i) as [b0|] eqn:E0; [|done].
  rewrite (load16_app _ _ _ b0) by done. cbn.
  destruct (load16 k (i + 2)) as [b1|] eqn:E1; [|done].
  rewrite <- Z.add_assoc. by rewrite (load16_app _ _ _ b1) by (done || lia).
Qed.

Lemma be16_bytes v : is_uint 16 v → is_uint 8 (v / 256) ∧ is_uint 8 (v mod 256).
Proof.
  unfold is_uint. change (2 ^ 16) with 65536. change (2 ^ 8) with 256. intros.
  split; Z.to_euclidean_division_equations; lia.
Qed.

(** The value a load of an encoded field has after the byte swap. *)
Lemma ntohs_be16 v : is_uint 16 v → ntohs (Z.lor (v / 256) (Z.shiftl (v mod 256) 8)) = v.
Proof.
  intros Hv. destruct (be16_bytes v Hv). rewrite ntohs_load by done.
  Z.to_euclidean_division_equations. lia.
Qed.

Lemma ntohl_be32 v :
  is_uint 32 v →
  ntohl (Z.lor (Z.lor (v / 65536 / 256) (Z.shiftl (v / 65536 mod 256) 8))
     (Z.shiftl (Z.lor (v mod 65536 / 256) (Z.shiftl (v mod 65536 mod 256) 8)) 16)) = v.
Proof.
  intros [V0 V1]. change (2 ^ 32) with 4294967296 in V1.
  assert (H1 : is_uint 16 (v / 65536)) by
    (unfold is_uint; change (2 ^ 16) with 65536; Z.to_euclidean_division_equations; lia).
  assert (H2 : is_uint 16 (v mod 65536)) by
    (unfold is_uint; change (2 ^ 16) with 65536; Z.to_euclidean_division_equations; lia).
  destruct (be16_bytes _ H1), (be16_bytes _ H2).
  rewrite ntohl_load; [|by apply join_byte_range|by eapply proj1, join_byte_range].
  rewrite !ntohs_be16 by done.
  rewrite Z.lor_comm, lor_shiftl_add by (done || lia). change (2 ^ 16) with 65536.
  Z.to_euclidean_division_equations. lia.
Qed.

Lemma ethernet_header_length dst src e :
  mac_ok dst → mac_ok src → Zlength (ethernet_header dst src e) = 14.
Proof.
  intros [_ Hd] [_ Hs]. unfold ethernet_header, Zlength. by rewrite !length_app, Hd, Hs.
Qed.

Lemma ipv4_header_length f proto total : Zlength (ipv4_header f proto total) = ipv4_size f.
Proof.
  unfold ipv4_header, ipv4_size, be32, be16.
  rewrite !Zlength_app, !Zlength_cons, !Zlength_nil. lia.
Qed.

Lemma tcp_header_length f : Zlength (tcp_header f) = tcp_size f.
Proof.
  unfold tcp_header, tcp_size, be32, be16.
  rewrite !Zlength_app, !Zlength_cons, !Zlength_nil. lia.
Qed.

Lemma header_size_words l : options_ok l → (20 + Zlength l) / 4 * 4 = 20 + Zlength l.
Proof. intros [H _]. pose proof (Zlength_nonneg l). Z.to_euclidean_division_equations. lia. Qed.

Lemma header_size_range l : options_ok l → 5 ≤ (20 + Zlength l) / 4 ≤ 15.
Proof. intros [_ H]. pose proof (Zlength_nonneg l). Z.to_euclidean_division_equations. lia. Qed.

(** The version and header-length nibbles of the first IPv4 byte. *)
Lemma version_ihl_nibbles w :
  0 ≤ w ≤ 15 → version (64 + w) = 4 ∧ ip_header_bytes (64 + w) = w * 4.
Proof.
  intros Hw. unfold version, ip_header_bytes, ihl_words. change 0x0F with (Z.ones 4).
  rewrite Z.shiftr_div_pow2, Z.land_ones by lia. change (2 ^ 4) with 16.
  split; Z.to_euclidean_division_equations; lia.
Qed.

Lemma data_offset_nibbles w r :
  0 ≤ w ≤ 15 → is_uint 4 r → tcp_header_bytes (w * 16 + r) = w * 4.
Proof.
  unfold is_uint. change (2 ^ 4) with 16. intros Hw Hr.
  unfold tcp_header_bytes, data_offset_words. rewrite Z.shiftr_div_pow2 by lia.
  change (2 ^ 4) with 16. Z.to_euclidean_division_equations; lia.
Qed.

Lemma read_bytes_app l k n : length l = n → read_bytes (l ++ k) 0 n = Ok l.
Proof.
  assert (H : ∀ n pre l, length l = n →
            read_bytes (pre ++ l ++ k) (Zlength pre) n = Ok l).
  { clear. induction n as [|n IH]; intros pre l Hl; destruct l as [|b l]; try done.
    cbn [read_bytes app]. injection Hl as Hl.
    rewrite <- (Z.add_0_r (Zlength pre)) at 1. rewrite (read_u8_app _ _ _ b) by done. cbn.
    specialize (IH (pre ++ [b]) l Hl). rewrite <- app_assoc in IH.
    rewrite Zlength_app, Zlength_cons, Zlength_nil in IH.
    replace (Zlength pre + (1 + 0)) with (Zlength pre + 1) in IH by lia.
    cbn in IH. by rewrite IH. }
  intros Hl. apply (H n [] l Hl).
Qed.

Section Frame.
Context (dst src : list Z) (f : ipv4_fields) (proto : Z) (body trailer : list Z).
Hypothesis (Hdst : mac_ok dst) (Hsrc : mac_ok src) (Hf : ipv4_ok f).
Hypothesis (Htotal : ipv4_size f + Zlength body < 65536).

Let frame := ip_frame dst src f proto body trailer.
Let eth := ethernet_header dst src ETHERTYPE_IPV4.
Let ip := ipv4_header f proto (ipv4_size f + Zlength body).

Lemma frame_length : Zlength frame = 14 + ipv4_size f + Zlength body + Zlength trailer.
Proof using Hdst Hsrc.
  unfold frame, ip_frame.
  rewrite !Zlength_app, ethernet_header_length, ipv4_header_length by done. lia.
Qed.

Lemma frame_load16 i v :
  0 ≤ i → load16 (ip ++ body ++ trailer) i = Ok v → load16 frame (14 + i) = Ok v.
Proof using Hdst Hsrc.
  intros Hi H. rewrite <- (ethernet_header_length dst src ETHERTYPE_IPV4) by done.
  by apply load16_app.
Qed.

Lemma frame_load32 i v :
  0 ≤ i → load32 (ip ++ body ++ trailer) i = Ok v → load32 frame (14 + i) = Ok v.
Proof using Hdst Hsrc.
  intros Hi H. rewrite <- (ethernet_header_length dst src ETHERTYPE_IPV4) by done.
  by apply load32_app.
Qed.

Lemma frame_read i v :
  0 ≤ i → read_u8 (ip ++ body ++ trailer) i = Ok v → read_u8 frame (14 + i) = Ok v.
Proof using Hdst Hsrc.
  intros Hi H. rewrite <- (ethernet_header_length dst src ETHERTYPE_IPV4) by done.
  by apply read_u8_app.
Qed.

(** The bytes behind the IPv4 header. *)
Lemma frame_body :
  ∃ pre, Zlength pre = 14 + ipv4_size f ∧ frame = pre ++ body ++ trailer.
Proof using Hdst Hsrc.
  exists (eth ++ ip). split; [|unfold frame, ip_frame; by rewrite <- app_assoc].
  unfold eth, ip. by rewrite Zlength_app, ethernet_header_length, ipv4_header_length.
Qed.

Lemma parse_ipv4_frame pkt :
  parse_ipv4 frame (Zlength frame) 14 pkt =
  parse_transport frame (Zlength frame) (14 + ipv4_size f) (Zlength body) proto
    (set_ip (i_src f) (i_dst f) (i_ttl f) proto pkt).
Proof using Hdst Hsrc Hf Htotal.
  destruct Hf as (Hs & Hd & Ht & Ho). pose proof (header_size_words _ Ho) as Hw.
  pose proof (header_size_range _ Ho) as Hr. fold (ipv4_size f) in Hw, Hr.
  pose proof frame_length as Hl. pose proof (Zlength_nonneg body).
  pose proof (Zlength_nonneg trailer).
  destruct (version_ihl_nibbles (ipv4_size f / 4)) as [Hv Hh]; [lia|].
  assert (Htot : is_uint 16 (ipv4_size f + Zlength body)).
  { unfold is_uint. change (2 ^ 16) with 65536. lia. }
  unfold parse_ipv4, sizeof_IPv4Header.
  rewrite (proj2 (Z.ltb_ge _ _)) by lia.
  rewrite <- (Z.add_0_r 14) at 1.
  rewrite (frame_read 0 (64 + ipv4_size f / 4)) by done. cbn [mbind access_bind].
  rewrite Hv, Hh, Hw. cbn [negb Z.eqb Pos.eqb].
  rewrite (proj2 (Z.ltb_ge _ 20)), (proj2 (Z.ltb_ge (Zlength frame) _)) by lia.
  cbn [orb].
  rewrite (frame_load32 12 _ ltac:(lia) eq_refl), (frame_load32 16 _ ltac:(lia) eq_refl).
  rewrite (frame_read 8 (i_ttl f)), (frame_read 9 proto) by done.
  rewrite (frame_load16 2 _ ltac:(lia) eq_refl).
  cbn [mbind access_bind]. rewrite !ntohl_be32, ntohs_be16 by done.
  unfold parse_transport, std_min.
  replace (Z.min _ _) with (Zlength body); [done|]. zbool; lia.
Qed.

End Frame.

Lemma ethertype_back dst src rest :
  mac_ok dst → mac_ok src →
  read_bytes (ethernet_header dst src ETHERTYPE_IPV4 ++ rest) 0 6 = Ok dst ∧
  read_bytes (ethernet_header dst src ETHERTYPE_IPV4 ++ rest) 6 6 = Ok src ∧
  load16 (ethernet_header dst src ETHERTYPE_IPV4 ++ rest) 12 = Ok 8.
Proof.
  intros [_ Hd] [_ Hs]. unfold ethernet_header.
  do 7 (destruct dst as [|? dst]; try done). do 7 (destruct src as [|? src]; try done).
Qed.

(** The packet decoded from a frame up to its transport header. *)
Definition ip_packet (ts : timeval) (caplen wl : Z) (dst src : list Z) (f : ipv4_fields)
    (proto : Z) : ParsedPacket :=
  mk_ParsedPacket ts caplen wl src dst true (i_src f) (i_dst f) (i_ttl f) proto
    kUnknown 0 0 0 None 0.

Lemma parse_packet_frame dst src f proto body trailer wl ts :
  mac_ok dst → mac_ok src → ipv4_ok f → ipv4_size f + Zlength body < 65536 →
  let frame := ip_frame dst src f proto body trailer in
  parse_packet (Some frame) (Zlength frame) wl ts =
  (pkt ← parse_transport frame (Zlength frame) (14 + ipv4_size f) (Zlength body) proto
           (ip_packet ts (Zlength frame) wl dst src f proto);
   Ok (Some pkt)).
Proof.
  intros Hd Hs Hf Ht frame.
  pose proof (frame_length dst src f proto body trailer Hd Hs) as Hl.
  pose proof (Zlength_nonneg body). pose proof (Zlength_nonneg trailer).
  pose proof (Zlength_nonneg (i_options f)). unfold ipv4_size in Hl.
  unfold parse_packet, sizeof_EthernetHeader. fold frame in Hl.
  rewrite (proj2 (Z.ltb_ge _ _)) by lia.
  destruct (ethertype_back dst src (ipv4_header f proto (ipv4_size f + Zlength body) ++
                                    body ++ trailer) Hd Hs) as (E1 & E2 & E3).
  change (ethernet_header dst src ETHERTYPE_IPV4 ++ _) with frame in E1, E2, E3.
  rewrite E1, E2, E3. cbn [mbind access_bind].
  change (negb (ntohs 8 =? ETHERTYPE_IPV4)) with false. cbv iota.
  unfold frame. rewrite parse_ipv4_frame by done. fold frame. done.
Qed.

(** The payload bytes a queued packet gets from a frame. *)
Lemma queued_payload pre body rest pkt :
  payload pkt = Some (Zlength pre) → payload_length pkt = Zlength body →
  q_payload (make_queued_packet (pre ++ body ++ rest) pkt) = body.
Proof.
  intros Hp Hl. unfold make_queued_packet. rewrite Hp, Hl.
  destruct (Z.ltb_spec 0 (Zlength body)) as [H|H]; cbn.
  - unfold Zlength. rewrite !Nat2Z.id, drop_app_length, take_app_length. done.
  - destruct body; [done|]. unfold Zlength in H. cbn [length] in H. lia.
Qed.

(** The transport parsers on their own segment. *)
Section Segment.
Context (pre data trailer : list Z) (pkt : ParsedPacket).

Lemma parse_tcp_segment t :
  tcp_ok t →
  let frame := pre ++ tcp_header t ++ data ++ trailer in
  parse_tcp frame (Zlength frame) (Zlength pre) (tcp_size t + Zlength data) pkt =
  Ok (set_payload (Some (Zlength pre + tcp_size t)) (Zlength data)
        (set_transport kTCP (t_src t) (t_dst t) (t_flags t) pkt)).
Proof.
  intros (T1 & T2 & T3 & T4 & To) frame.
  pose proof (header_size_words _ To) as Hw. pose proof (header_size_range _ To) as Hr.
  fold (tcp_size t) in Hw, Hr. pose proof (tcp_header_length t) as Hlen.
  pose proof (Zlength_nonneg data). pose proof (Zlength_nonneg trailer).
  assert (Hall : Zlength frame = Zlength pre + tcp_size t + Zlength data + Zlength trailer)
    by (unfold frame; rewrite !Zlength_app; lia).
  unfold parse_tcp, sizeof_TCPHeader. rewrite (proj2 (Z.ltb_ge _ _)) by lia.
  assert (R12 : read_u8 frame (Zlength pre + 12) = Ok (tcp_size t / 4 * 16 + t_reserved t))
    by by apply read_u8_app.
  assert (R13 : read_u8 frame (Zlength pre + 13) = Ok (t_flags t)) by by apply read_u8_app.
  pose proof (load16_app pre (tcp_header t ++ data ++ trailer) 0 _ ltac:(lia) eq_refl) as L0.
  pose proof (load16_app pre (tcp_header t ++ data ++ trailer) 2 _ ltac:(lia) eq_refl) as L2.
  rewrite Z.add_0_r in L0. fold frame in L0, L2.
  rewrite R12. cbn [mbind access_bind]. rewrite data_offset_nibbles, Hw by (done || lia).
  rewrite (proj2 (Z.ltb_ge (tcp_size t) 20)), (proj2 (Z.ltb_ge (Zlength frame) _)) by lia.
  cbn [orb]. rewrite L0, L2, R13. cbn [mbind access_bind].
  rewrite !ntohs_be16 by done. rewrite (proj2 (Z.leb_le _ _)) by lia.
  unfold transport_payload_length, std_min.
  replace (Z.min _ _) with (Zlength data); [done|]. zbool; lia.
Qed.

Lemma parse_udp_segment sp dp len csum :
  is_uint 16 sp → is_uint 16 dp →
  let frame := pre ++ udp_header sp dp len csum ++ data ++ trailer in
  parse_udp frame (Zlength frame) (Zlength pre) (8 + Zlength data) pkt =
  Ok (set_payload (Some (Zlength pre + 8)) (Zlength data)
        (set_transport kUDP sp dp (tcp_flags pkt) pkt)).
Proof.
  intros Hsp Hdp frame.
  pose proof (Zlength_nonneg data). pose proof (Zlength_nonneg trailer).
  assert (Hall : Zlength frame = Zlength pre + 8 + Zlength data + Zlength trailer)
    by (unfold frame; rewrite !Zlength_app; change (Zlength (udp_header _ _ _ _)) with 8; lia).
  unfold parse_udp, sizeof_UDPHeader. rewrite (proj2 (Z.ltb_ge _ _)) by lia.
  pose proof (load16_app pre (udp_header sp dp len csum ++ data ++ trailer) 0 _
                ltac:(lia) eq_refl) as L0.
  pose proof (load16_app pre (udp_header sp dp len csum ++ data ++ trailer) 2 _
                ltac:(lia) eq_refl) as L2.
  rewrite Z.add_0_r in L0. fold frame in L0, L2. rewrite L0, L2. cbn [mbind access_bind].
  rewrite !ntohs_be16 by done. rewrite (proj2 (Z.leb_le _ _)) by lia.
  unfold transport_payload_length, std_min.
  replace (Z.min _ _) with (Zlength data); [done|]. zbool; lia.
Qed.

End Segment.

(** ** Properties *)

(** C17. Parsing a well-formed TCP frame gives back every field the encoder wrote
    (with IPv4 and TCP options of any legal length and any link-layer padding),
    and the queued copy holds exactly the TCP payload. *)
Theorem parse_tcp_roundtrip dst src f t data trailer wl ts :
  mac_ok dst → mac_ok src → ipv4_ok f → tcp_ok t →
  ipv4_size f + tcp_size t + Zlength data < 65536 →
  let frame := ip_frame dst src f IPPROTO_TCP_ (tcp_header t ++ data) trailer in
  ∃ pkt,
    parse_packet (Some frame) (Zlength frame) wl ts = Ok (Some pkt) ∧
    pkt = mk_ParsedPacket ts (Zlength frame) wl src dst true (i_src f) (i_dst f) (i_ttl f)
            IPPROTO_TCP_ kTCP (t_src t) (t_dst t) (t_flags t)
            (Some (14 + ipv4_size f + tcp_size t)) (Zlength data) ∧
    q_payload (make_queued_packet frame pkt) = data.
Proof.
  intros Hd Hs Hf Ht Htot frame.
  pose proof (tcp_header_length t) as Hlen.
  destruct (frame_body dst src f IPPROTO_TCP_ (tcp_header t ++ data) trailer Hd Hs)
    as (pre & Hpre & Hframe). rewrite <- app_assoc in Hframe. fold frame in Hframe.
  eexists. split; [|split; [reflexivity|]].
  - unfold frame. rewrite parse_packet_frame by (rewrite ?Zlength_app, ?Hlen; done || lia).
    fold frame. unfold parse_transport. cbn [Z.eqb Pos.eqb IPPROTO_TCP_].
    rewrite <- Hpre, Zlength_app, Hlen, Hframe.
    rewrite parse_tcp_segment by done. done.
  - rewrite Hframe, app_assoc. apply queued_payload; [|done].
    cbn [payload]. by rewrite Zlength_app, Hpre, Hlen.
Qed.

(** The same round trip for UDP datagrams. *)
Theorem parse_udp_roundtrip dst src f sp dp len csum data trailer wl ts :
  mac_ok dst → mac_ok src → ipv4_ok f → is_uint 16 sp → is_uint 16 dp →
  ipv4_size f + 8 + Zlength data < 65536 →
  let frame := ip_frame dst src f IPPROTO_UDP_ (udp_header sp dp len csum ++ data) trailer in
  ∃ pkt,
    parse_packet (Some frame) (Zlength frame) wl ts = Ok (Some pkt) ∧
    pkt = mk_ParsedPacket ts (Zlength frame) wl src dst true (i_src f) (i_dst f) (i_ttl f)
            IPPROTO_UDP_ kUDP sp dp 0 (Some (14 + ipv4_size f + 8)) (Zlength data) ∧
    q_payload (make_queued_packet frame pkt) = data.
Proof.
  intros Hd Hs Hf Hsp Hdp Htot frame.
  destruct (frame_body dst src f IPPROTO_UDP_ (udp_header sp dp len csum ++ data) trailer Hd Hs)
    as (pre & Hpre & Hframe). rewrite <- app_assoc in Hframe. fold frame in Hframe.
  assert (Hlen : Zlength (udp_header sp dp len csum) = 8) by done.
  eexists. split; [|split; [reflexivity|]].
  - unfold frame. rewrite parse_packet_frame by (rewrite ?Zlength_app, ?Hlen; done || lia).
    fold frame. unfold parse_transport. cbn [Z.eqb Pos.eqb IPPROTO_UDP_ IPPROTO_TCP_].
    rewrite <- Hpre, Zlength_app, Hlen, Hframe.
    rewrite parse_udp_segment by done. done.
  - rewrite Hframe, app_assoc. apply queued_payload; [|done].
    cbn [payload]. by rewrite Zlength_app, Hpre, Hlen.
Qed.

(** The same round trip for ICMP messages, whose whole body is the payload. *)
Theorem parse_icmp_roundtrip dst src f data trailer wl ts :
  mac_ok dst → mac_ok src → ipv4_ok f → ipv4_size f + Zlength data < 65536 →
  let frame := ip_frame dst src f IPPROTO_ICMP_ data trailer in
  ∃ pkt,
    parse_packet (Some frame) (Zlength frame) wl ts = Ok (Some pkt) ∧
    pkt = mk_ParsedPacket ts (Zlength frame) wl src dst true (i_src f) (i_dst f) (i_ttl f)
            IPPROTO_ICMP_ kICMP 0 0 0 (Some (14 + ipv4_size f)) (Zlength data) ∧
    q_payload (make_queued_packet frame pkt) = data.
Proof.
  intros Hd Hs Hf Htot frame.
  destruct (frame_body dst src f IPPROTO_ICMP_ data trailer Hd Hs) as (pre & Hpre & Hframe).
  fold frame in Hframe. pose proof (frame_length dst src f IPPROTO_ICMP_ data trailer Hd Hs) as Hl.
  fold frame in Hl. pose proof (Zlength_nonneg data). pose proof (Zlength_nonneg trailer).
  eexists. split; [|split; [reflexivity|]].
  - unfold frame. rewrite parse_packet_frame by done.
    fold frame. unfold parse_transport. cbn [Z.eqb Pos.eqb IPPROTO_UDP_ IPPROTO_TCP_ IPPROTO_ICMP_].
    unfold parse_icmp. by rewrite (proj2 (Z.leb_le _ _)) by lia.
  - rewrite Hframe. apply queued_payload; [|done]. cbn [payload]. by rewrite Hpre.
Qed.

(** Concrete fields for the witnesses: IPv4 with four option bytes, TCP with a
    four-byte maximum-segment-size option. *)
Definition ex_ipv4 : ipv4_fields :=
  {| i_tos := 0; i_id := 1; i_frag := 0; i_ttl := 64; i_csum := 0;
     i_src := 10 * 2 ^ 24 + 66; i_dst := 10 * 2 ^ 24 + 1; i_options := [1; 1; 1; 0] |}.

Definition ex_tcp : tcp_fields :=
  {| t_src := 40000; t_dst := 80; t_seq := 1; t_ack := 0; t_reserved := 0; t_flags := 2;
     t_window := 65535; t_csum := 0; t_urgent := 0; t_options := [2; 4; 5; 180] |}.

Definition ex_dst : list Z := [1; 2; 3; 4; 5; 6].
Definition ex_src : list Z := [7; 8; 9; 10; 11; 12].

Lemma ex_fields_ok : mac_ok ex_dst ∧ mac_ok ex_src ∧ ipv4_ok ex_ipv4 ∧ tcp_ok ex_tcp.
Proof.
  unfold mac_ok, ipv4_ok, tcp_ok, options_ok. split_and!; by_decide.
Qed.

Lemma parse_tcp_roundtrip_witness :
  ∃ pkt,
    parse_packet (Some (ip_frame ex_dst ex_src ex_ipv4 6 (tcp_header ex_tcp ++ [9; 8; 7]) [0; 0]))
      67 67 (mk_timeval 1 2) = Ok (Some pkt) ∧
    pkt = mk_ParsedPacket (mk_timeval 1 2) 67 67 ex_src ex_dst true
            (i_src ex_ipv4) (i_dst ex_ipv4) 64 6 kTCP 40000 80 2 (Some 62) 3 ∧
    q_payload (make_queued_packet
      (ip_frame ex_dst ex_src ex_ipv4 6 (tcp_header ex_tcp ++ [9; 8; 7]) [0; 0]) pkt) = [9; 8; 7].
Proof.
  destruct ex_fields_ok as (? & ? & ? & ?).
  apply (parse_tcp_roundtrip ex_dst ex_src ex_ipv4 ex_tcp [9; 8; 7] [0; 0] 67 (mk_timeval 1 2));
    try assumption. by vm_compute.
Defined.

Lemma parse_udp_roundtrip_witness :
  ∃ pkt,
    parse_packet (Some (ip_frame ex_dst ex_src ex_ipv4 17 (udp_header 5353 53 11 0 ++ [9; 8; 7]) []))
      49 49 (mk_timeval 1 2) = Ok (Some pkt) ∧
    pkt = mk_ParsedPacket (mk_timeval 1 2) 49 49 ex_src ex_dst true
            (i_src ex_ipv4) (i_dst ex_ipv4) 64 17 kUDP 5353 53 0 (Some 46) 3 ∧
    q_payload (make_queued_packet
      (ip_frame ex_dst ex_src ex_ipv4 17 (udp_header 5353 53 11 0 ++ [9; 8; 7]) []) pkt) = [9; 8; 7].
Proof.
  destruct ex_fields_ok as (? & ? & ? & ?).
  apply (parse_udp_roundtrip ex_dst ex_src ex_ipv4 5353 53 11 0 [9; 8; 7] [] 49 (mk_timeval 1 2));
    try assumption; by vm_compute.
Defined.

Lemma parse_icmp_roundtrip_witness :
  ∃ pkt,
    parse_packet (Some (ip_frame ex_dst ex_src ex_ipv4 1 [8; 0; 1] []))
      41 41 (mk_timeval 1 2) = Ok (Some pkt) ∧
    pkt = mk_ParsedPacket (mk_timeval 1 2) 41 41 ex_src ex_dst true
            (i_src ex_ipv4) (i_dst ex_ipv4) 64 1 kICMP 0 0 0 (Some 38) 3 ∧
    q_payload (make_queued_packet (ip_frame ex_dst ex_src ex_ipv4 1 [8; 0; 1] []) pkt) = [8; 0; 1].
Proof.
  destruct ex_fields_ok as (? & ? & ? & ?).
  apply (parse_icmp_roundtrip ex_dst ex_src ex_ipv4 [8; 0; 1] [] 41 (mk_timeval 1 2));
    try assumption; by vm_compute.
Defined.
