(* ===== verification/Capture.v ===== *)
(** * Capture ([include/netsentinel/capture.hpp], [src/capture/capture.cpp])

    The loop of [Capture::run] and the two ways of opening a source.  libpcap,
    [poll] and the signal that requests a stop are outside the repository: a
    [world] gives, for each call, what it answers.  The handler is the list of
    packets it was given, each with the captured bytes its payload points into.
    The loops take fuel; [run_offline] and [run_stops] say how much is enough.
    The counter of packets is an [int]: its overflow is [Crashed]. *)
From S2P Require Import Prelude Packet Parser.

(** ** The world *)

(** A captured packet: the buffer, and [caplen], [len] and [ts] of its header. *)
Record frame : Type := mk_frame {
  fr_data : list Z;
  fr_caplen : Z;
  fr_len : Z;
  fr_ts : timeval
}.

(** [pcap_next_ex]: 1, 0, and -1 or -2. *)
Inductive next_result : Type := NextPacket (f : frame) | NextNone | NextEnd.

(** [poll]: positive, 0, negative with [EINTR], negative otherwise. *)
Inductive poll_result : Type := PollReady | PollTimeout | PollInterrupted | PollError.

(** [signalled k]: [request_stop] is called between the [k]-th test of the stop
    flag and the one before it. *)
Record world : Type := mk_world {
  signalled : nat → bool;
  poll_answer : nat → poll_result;
  next_answer : nat → next_result
}.

(** ** State *)

(** [g_stop_requested], how many calls of each kind were made, and what the
    handler was given. *)
Record run_state : Type := mk_run_state {
  g_stop_requested : bool;
  checks : nat;
  polls : nat;
  nexts : nat;
  delivered : Z;
  handed : list (list Z * ParsedPacket)
}.

(** [Crashed]: an access outside the packet, or a signed overflow. *)
Inductive outcome (A : Type) : Type := Returned (a : A) | OutOfFuel | Crashed.
Arguments Returned {A} a.
Arguments OutOfFuel {A}.
Arguments Crashed {A}.

(** [g_stop_requested.load()], with the signals that arrived by then. *)
Definition load_stop (w : world) (s : run_state) : bool * run_state :=
  let stop := g_stop_requested s || signalled w (checks s) in
  (stop, mk_run_state stop (S (checks s)) (polls s) (nexts s) (delivered s) (handed s)).

Definition request_stop (s : run_state) : run_state :=
  mk_run_state true (checks s) (polls s) (nexts s) (delivered s) (handed s).

Definition polled (s : run_state) : run_state :=
  mk_run_state (g_stop_requested s) (checks s) (S (polls s)) (nexts s) (delivered s) (handed s).

Definition nexted (s : run_state) : run_state :=
  mk_run_state (g_stop_requested s) (checks s) (polls s) (S (nexts s)) (delivered s) (handed s).

Definition INT_MAX : Z := 2 ^ 31 - 1.

(** The call of the handler and [++delivered]: an [int], whose overflow is
    undefined. *)
Definition deliver (f : frame) (p : ParsedPacket) (s : run_state) : outcome run_state :=
  if delivered s <? INT_MAX
  then Returned (mk_run_state (g_stop_requested s) (checks s) (polls s) (nexts s) (delivered s + 1)
                   (handed s ++ [(fr_data f, p)]))
  else Crashed.

Definition parse_frame (f : frame) : access (option ParsedPacket) :=
  parse_packet (Some (fr_data f)) (fr_caplen f) (fr_len f) (fr_ts f).

(** ** The loops *)

(** The inner loop: read what is ready.  Returns [done]. *)
Fixpoint read_ready (fuel : nat) (w : world) (max_packets : Z) (s : run_state)
    : outcome (run_state * bool) :=
  match fuel with
  | O => OutOfFuel
  | S fuel =>
      let '(stop, s) := load_stop w s in
      if stop then Returned (s, false)
      else
        let answer := next_answer w (nexts s) in
        let s := nexted s in
        match answer with
        | NextPacket f =>
            match parse_frame f with
            | OutOfBounds _ => Crashed
            | Ok parsed =>
                match match parsed with Some p => deliver f p s | None => Returned s end with
                | Returned s =>
                    if (0 <? max_packets) && (max_packets <=? delivered s) then Returned (s, true)
                    else read_ready fuel w max_packets s
                | _ => Crashed
                end
            end
        | NextNone => Returned (s, false)
        | NextEnd => Returned (s, true)
        end
  end.

(** The outer loop; [selectable]: there is a descriptor to poll. *)
Fixpoint capture_loop (fuel : nat) (w : world) (selectable : bool) (max_packets : Z)
    (s : run_state) : outcome run_state :=
  match fuel with
  | O => OutOfFuel
  | S fuel =>
      let '(stop, s) := load_stop w s in
      if stop then Returned s
      else
        let '(answer, s) :=
          if selectable then (poll_answer w (polls s), polled s) else (PollReady, s) in
        match answer with
        | PollTimeout | PollInterrupted => capture_loop fuel w selectable max_packets s
        | PollError => Returned s
        | PollReady =>
            match read_ready fuel w max_packets s with
            | Returned (s, true) => Returned s
            | Returned (s, false) => capture_loop fuel w selectable max_packets s
            | OutOfFuel => OutOfFuel
            | Crashed => Crashed
            end
        end
  end.

(** ** The object *)

Section Handle.
Context (pcap_t : Type).

Record Capture : Type := mk_Capture {
  handle_ : option pcap_t;
  live_ : bool
}.

Definition Capture_new : Capture := mk_Capture None false.

Definition DLT_EN10MB : Z := 1.

(** What [pcap_open_live] or [pcap_open_offline] answers: a handle with its link
    type, or the text of [errbuf]. *)
Definition open_answer : Type := (pcap_t * Z) + string.

Definition open_live (answer : open_answer) (device : string) (c : Capture)
    : Capture * (bool * string) :=
  match answer with
  | inr error => (mk_Capture None (live_ c), (false, error))
  | inl (handle, datalink) =>
      if negb (datalink =? DLT_EN10MB)
      then (mk_Capture None (live_ c),
            (false, "unsupported link-layer type on " +:+ device +:+
                    " (only Ethernet/DLT_EN10MB is parsed in Phase 1)"))
      else (mk_Capture (Some handle) true, (true, ""))
  end.

Definition open_offline (answer : open_answer) (path : string) (c : Capture)
    : Capture * (bool * string) :=
  match answer with
  | inr error => (mk_Capture None (live_ c), (false, error))
  | inl (handle, datalink) =>
      if negb (datalink =? DLT_EN10MB)
      then (mk_Capture None (live_ c),
            (false, path +:+ " uses an unsupported link-layer type (only Ethernet/DLT_EN10MB is "
                    +:+ "parsed in Phase 1)"))
      else (mk_Capture (Some handle) (live_ c), (true, ""))
  end.

(** [run], from the state of the flag it finds; [selectable_fd] is the answer of
    [pcap_get_selectable_fd]. *)
Definition run (c : Capture) (selectable_fd : pcap_t → Z) (w : world) (fuel : nat)
    (max_packets : Z) (stop : bool) : outcome run_state :=
  match handle_ c with
  | None => Returned (mk_run_state stop 0 0 0 0 [])
  | Some handle =>
      let s := mk_run_state false 0 0 0 0 [] in
      let fd := if live_ c then selectable_fd handle else -1 in
      capture_loop fuel w (0 <=? fd) max_packets s
  end.

(** The destructor: the object, and the handle it gives to [pcap_close]. *)
Definition Capture_delete (c : Capture) : Capture * option pcap_t :=
  (mk_Capture None (live_ c), handle_ c).

End Handle.
Arguments mk_Capture {pcap_t} handle_ live_.
Arguments handle_ {pcap_t} c.
Arguments live_ {pcap_t} c.
Arguments run {pcap_t} c selectable_fd w fuel max_packets stop.

(** [list_devices]: the names and [error], from the answer of
    [pcap_findalldevs]. *)
Definition list_devices (answer : string + list string) : list string * string :=
  match answer with inl error => ([], error) | inr names => (names, "") end.

(** ** Replay of a file *)

(** A file: its packets, then the end; nobody asks to stop. *)
Definition file_world (frames : list frame) : world :=
  mk_world (λ _, false) (λ _, PollReady)
    (λ k, match frames !! k with Some f => NextPacket f | None => NextEnd end).

(** libpcap's promise: [caplen] bytes are there. *)
Definition frame_ok (f : frame) : Prop := bytes_ok (fr_data f) ∧ fr_caplen f ≤ Zlength (fr_data f).

#[export] Instance frame_ok_dec f : Decision (frame_ok f).
Proof. unfold frame_ok. apply _. Defined.

Definition parse_result (f : frame) : option (list Z * ParsedPacket) :=
  match parse_frame f with
  | Ok (Some p) => Some (fr_data f, p)
  | _ => None
  end.

(** The counter of deliveries does not overflow: by the limit on packets, or
    because there are at most [n]. *)
Definition fits_int (max_packets n : Z) : Prop := 0 < max_packets ≤ INT_MAX ∨ n ≤ INT_MAX.

#[export] Instance fits_int_dec max_packets n : Decision (fits_int max_packets n).
Proof. unfold fits_int. apply _. Defined.

(** At most [max_packets] of a list; 0 means all. *)
Definition limit {A} (max_packets : Z) (l : list A) : list A :=
  if 0 <? max_packets then take (Z.to_nat max_packets) l else l.

(** ** Lemmas *)

Lemma parse_frame_ok f : frame_ok f → ∃ r, parse_frame f = Ok r.
Proof.
  intros [Hb Hc]. unfold parse_frame.
  pose proof (parse_packet_wp (fr_data f) (fr_caplen f) Hb Hc (fr_len f) (fr_ts f)) as W.
  destruct (parse_packet _ _ _ _) as [r|]; [by exists r|done].
Qed.

(** Unless the counter of deliveries is full, it grows by one. *)
Lemma deliver_below f p s :
  delivered s < INT_MAX →
  deliver f p s = Returned (mk_run_state (g_stop_requested s) (checks s) (polls s) (nexts s) (delivered s + 1)
                              (handed s ++ [(fr_data f, p)])).
Proof. intros H. unfold deliver. by rewrite (proj2 (Z.ltb_lt _ _)). Qed.

Definition count_handed (s : run_state) : Prop := delivered s = Zlength (handed s).

(** What every run keeps: the count of the handler's packets, and their bound. *)
Definition within (max_packets : Z) (s : run_state) : Prop :=
  count_handed s ∧ (0 < max_packets → delivered s ≤ max_packets).

Lemma read_ready_within fuel w max s s' done :
  within max s → (0 < max → delivered s < max) → read_ready fuel w max s = Returned (s', done) →
  within max s' ∧ (done = false → 0 < max → delivered s' < max).
Proof.
  revert s. induction fuel as [|fuel IH]; intros s [Hc Hm] Hlt; cbn [read_ready]; [done|].
  unfold load_stop. destruct (g_stop_requested s || _); [by intros [= <- <-]|].
  cbn [nexts]. destruct (next_answer w (nexts s)) as [f| |]; [|by intros [= <- <-]..].
  destruct (parse_frame f) as [[p|]|]; [..|done]; cbn [nexted delivered].
  - unfold deliver. destruct (_ <? _); [|done]. set (s1 := mk_run_state _ _ _ _ (_ + 1) _).
    assert (Hw : within max s1).
    { unfold within, count_handed, s1 in *. cbn. rewrite Zlength_app. unfold Zlength in *. cbn.
      split; [lia|]. intros. specialize (Hlt ltac:(done)). lia. }
    destruct (Z.ltb_spec 0 max); cbn [andb].
    + change (delivered s1) with (delivered s + 1).
      destruct (Z.leb_spec max (delivered s + 1)); [by intros [= <- <-]|].
      apply IH; [done|]. unfold s1. cbn. lia.
    + apply IH; [done|]. lia.
  - destruct (Z.ltb_spec 0 max); cbn [andb].
    + rewrite (proj2 (Z.leb_gt _ _)) by auto. by apply IH.
    + by apply IH.
Qed.

Lemma capture_loop_within fuel w sel max s s' :
  within max s → (0 < max → delivered s < max) → capture_loop fuel w sel max s = Returned s' →
  within max s'.
Proof.
  revert s. induction fuel as [|fuel IH]; intros s Hw Hlt; cbn [capture_loop]; [done|].
  unfold load_stop. destruct (g_stop_requested s || _); [by intros [= <-]|].
  set (s1 := mk_run_state _ _ _ _ _ _).
  assert (H1 : within max s1 ∧ (0 < max → delivered s1 < max)) by by split.
  assert (H2 : within max (polled s1) ∧ (0 < max → delivered (polled s1) < max)) by by split.
  assert (Hready : ∀ s2, within max s2 → (0 < max → delivered s2 < max) →
    match read_ready fuel w max s2 with
    | Returned (s, true) => Returned s
    | Returned (s, false) => capture_loop fuel w sel max s
    | OutOfFuel => OutOfFuel
    | Crashed => Crashed
    end = Returned s' → within max s').
  { intros s2 Ha Hb. destruct (read_ready fuel w max s2) as [[s3 [|]]| |] eqn:E; try done.
    - intros [= <-]. by apply (read_ready_within fuel w max s2 s3 true).
    - destruct (read_ready_within fuel w max s2 s3 false) as [? ?]; [done..|]. apply IH; auto. }
  destruct sel; [destruct (poll_answer w (polls s1))|].
  - by apply Hready.
  - by apply IH.
  - by apply IH.
  - by intros [= <-].
  - by apply Hready.
Qed.

Lemma limit_nil {A} max : limit max (@nil A) = [].
Proof. unfold limit. destruct (0 <? max); [apply take_nil|done]. Qed.

(** Reading a file from its [nexts]-th packet on. *)
Lemma read_ready_file frames max fuel s :
  Forall frame_ok frames → (length frames - nexts s < fuel)%nat →
  g_stop_requested s = false → (0 < max → delivered s < max) →
  fits_int max (delivered s + Zlength (omap parse_result (drop (nexts s) frames))) →
  ∃ s', read_ready fuel (file_world frames) max s = Returned (s', true) ∧
    handed s' = handed s ++ limit (if 0 <? max then max - delivered s else 0)
                              (omap parse_result (drop (nexts s) frames)).
Proof.
  intros Hok. revert s. induction fuel as [|fuel IH]; intros s Hn Hstop Hlt Hint; [lia|].
  cbn [read_ready load_stop].
  rewrite Hstop; cbn [orb file_world signalled next_answer nexts].
  set (s1 := mk_run_state false (S (checks s)) (polls s) (nexts s) (delivered s) (handed s)).
  destruct (frames !! nexts s) as [f|] eqn:Ef; cycle 1.
  { apply lookup_ge_None in Ef. exists (nexted s1). split; [done|].
    rewrite drop_ge by lia. cbn [omap list_omap]. by rewrite limit_nil, app_nil_r. }
  rewrite (drop_S _ _ _ Ef) in *. cbn [omap list_omap] in *.
  assert (Hf : frame_ok f) by (rewrite Forall_lookup in Hok; by eapply Hok).
  apply lookup_lt_Some in Ef.
  destruct (parse_frame_ok f Hf) as [r Hr]. unfold parse_result at 1. unfold parse_result at 1 in Hint. rewrite Hr in *.
  destruct r as [p|].
  - rewrite Zlength_cons in Hint. pose proof (Zlength_nonneg (omap parse_result (drop (S (nexts s)) frames))).
    rewrite deliver_below by (cbn; destruct Hint as [[? ?]|?]; [specialize (Hlt ltac:(done))|]; lia). cbn [delivered nexted s1].
    set (s2 := mk_run_state _ _ _ _ _ _). specialize (IH s2). cbn [s2 nexted delivered nexts handed s1 g_stop_requested] in *.
    destruct (Z.ltb_spec 0 max) as [Hmax|Hmax]; cbn [andb].
    + destruct (Z.leb_spec max (delivered s + 1)) as [Hle|Hgt].
      * eexists. split; [done|]. cbn. f_equal. specialize (Hlt Hmax).
        by replace (max - delivered s) with 1 by lia.
      * destruct IH as (s' & E & F); [lia|done|lia|unfold fits_int in *; lia|]. exists s'. split; [exact E|].
        rewrite F, <- app_assoc. f_equal. unfold limit. rewrite !(proj2 (Z.ltb_lt _ _)) by lia.
        by replace (Z.to_nat (max - delivered s)) with (S (Z.to_nat (max - (delivered s + 1)))) by lia.
    + destruct IH as (s' & E & F); [lia|done|lia|unfold fits_int in *; lia|]. exists s'. split; [exact E|].
      by rewrite F, <- app_assoc.
  - destruct (IH (nexted s1)) as (s' & E & F); [cbn; lia|done|done|done|].
    exists s'. split; [|exact F]. rewrite <- E. cbn [nexted delivered s1].
    destruct (Z.ltb_spec 0 max) as [Hmax|Hmax]; cbn [andb]; [|done].
    by rewrite (proj2 (Z.leb_gt _ _)) by auto.
Qed.

(** Without a limit, one packet too many overflows the counter. *)
Lemma read_ready_overflow frames fuel s :
  Forall frame_ok frames → (length frames - nexts s < fuel)%nat → g_stop_requested s = false →
  delivered s ≤ INT_MAX < delivered s + Zlength (omap parse_result (drop (nexts s) frames)) →
  read_ready fuel (file_world frames) 0 s = Crashed.
Proof.
  intros Hok. revert s. induction fuel as [|fuel IH]; intros s Hn Hstop Hint; [lia|].
  cbn [read_ready load_stop].
  rewrite Hstop; cbn [orb file_world signalled next_answer nexts].
  destruct (frames !! nexts s) as [f|] eqn:Ef; cycle 1.
  { apply lookup_ge_None in Ef. rewrite drop_ge in Hint by lia. unfold Zlength in Hint. cbn in Hint. lia. }
  rewrite (drop_S _ _ _ Ef) in Hint. cbn [omap list_omap] in Hint.
  assert (Hf : frame_ok f) by (rewrite Forall_lookup in Hok; by eapply Hok).
  apply lookup_lt_Some in Ef.
  destruct (parse_frame_ok f Hf) as [r Hr]. unfold parse_result at 1 in Hint. rewrite Hr in *.
  destruct r as [p|]; cbn [Z.ltb Z.compare andb].
  - rewrite Zlength_cons in Hint. unfold deliver. cbn [delivered nexted].
    destruct (Z.ltb_spec (delivered s) INT_MAX); [|done]. apply IH; [cbn; lia|done|cbn].
    change (list_omap _ _ parse_result (drop (S (nexts s)) frames)) with
      (omap parse_result (drop (S (nexts s)) frames)) in Hint. lia.
  - apply IH; [cbn; lia|done|done].
Qed.

(** *** After a stop request *)

(** Every iteration of either loop tests the flag once; the [k]-th test is the
    last, and every read is behind a test of its own. *)
Definition reads_tested (k : nat) (s : run_state) : Prop :=
  (nexts s ≤ checks s ∧ nexts s ≤ k ∧ length (handed s) ≤ nexts s)%nat.

(** Where a loop can be: before the [k]-th test, or with the flag set. *)
Definition below_max (max : Z) (s : run_state) : Prop :=
  count_handed s ∧ (0 < max → delivered s < max).

Definition before_stop (k : nat) (s : run_state) : Prop :=
  (checks s ≤ k)%nat ∨ g_stop_requested s = true.

Section Stop.
Context (w : world) (k : nat) (max : Z).
Hypothesis (Hok : ∀ n f, next_answer w n = NextPacket f → frame_ok f) (Hk : signalled w k = true).
Hypothesis (Hint : fits_int max (Z.of_nat k)).

Lemma read_ready_stops fuel s :
  reads_tested k s → below_max max s → (checks s ≤ k)%nat → (k < fuel + checks s)%nat →
  ∃ s' done, read_ready fuel w max s = Returned (s', done) ∧
    reads_tested k s' ∧ (checks s < checks s')%nat ∧ before_stop k s'.
Proof using All.
  revert s. induction fuel as [|fuel IH]; intros s (R1 & R2 & R3) [Hcount Hmax] Hc Hf; [lia|].
  cbn [read_ready load_stop].
  destruct (g_stop_requested s || signalled w (checks s)) eqn:Estop.
  { eexists _, _. split; [done|]. unfold reads_tested, before_stop. cbn. split_and!; lia. }
  apply orb_false_iff in Estop as [_ Esig].
  assert (Hlt : (checks s < k)%nat).
  { destruct (decide (checks s = k)) as [E|]; [congruence|lia]. }
  cbn [nexts]. destruct (next_answer w (nexts s)) as [f| |] eqn:En.
  - destruct (parse_frame_ok f (Hok _ _ En)) as [r Hr]. rewrite Hr.
    set (s0 := nexted _).
    assert (H1 : ∃ s1, match r with Some p => deliver f p s0 | None => Returned s0 end = Returned s1 ∧
      reads_tested k s1 ∧ count_handed s1 ∧ checks s1 = S (checks s) ∧ (r = None → delivered s1 = delivered s)).
    { destruct r as [p|]; [|exists s0; unfold reads_tested, s0; cbn; split_and!; done || lia].
      rewrite deliver_below by (unfold count_handed, Zlength, fits_int in *; cbn; lia).
      eexists. split; [done|]. unfold reads_tested, count_handed, s0, Zlength in *. cbn. rewrite !length_app. cbn.
      split_and!; done || lia. }
    destruct H1 as (s1 & -> & H1 & Hc1 & E1 & Hnone). destruct (_ && _) eqn:Emax.
    + exists s1, true. split; [done|]. split_and!; [done|lia|]. left. lia.
    + assert (Hb1 : below_max max s1) by (split; [done|]; intros; lia).
      destruct (IH s1 H1 Hb1) as (s' & done' & E & A & B & C); [lia|lia|].
      exists s', done'. split_and!; try done. lia.
  - eexists _, _. split; [done|]. unfold reads_tested, before_stop. cbn. split_and!; lia.
  - eexists _, _. split; [done|]. unfold reads_tested, before_stop. cbn. split_and!; lia.
Qed.

Lemma capture_loop_stops fuel sel s :
  reads_tested k s → below_max max s → ((checks s ≤ k ∧ k < fuel + checks s) ∨ (g_stop_requested s = true ∧ 0 < fuel))%nat →
  ∃ s', capture_loop fuel w sel max s = Returned s' ∧ reads_tested k s'.
Proof using All.
  revert s. induction fuel as [|fuel IH]; intros s Hr Hm Hcase; [lia|].
  cbn [capture_loop load_stop]. pose proof Hr as (R1 & R2 & R3).
  destruct (g_stop_requested s || signalled w (checks s)) eqn:Estop.
  { eexists. split; [done|]. unfold reads_tested. cbn. lia. }
  apply orb_false_iff in Estop as [Eg Esig].
  destruct Hcase as [[Hc Hf]|[? _]]; [|congruence].
  assert (Hlt : (checks s < k)%nat).
  { destruct (decide (checks s = k)) as [E|]; [congruence|lia]. }
  set (s1 := mk_run_state _ _ _ _ _ _).
  assert (H1 : reads_tested k s1 ∧ checks s1 = S (checks s)) by (unfold reads_tested, s1; cbn; lia).
  assert (Hready : ∀ s2, reads_tested k s2 → below_max max s2 → checks s2 = S (checks s) → ∃ s',
    match read_ready fuel w max s2 with
    | Returned (s, true) => Returned s
    | Returned (s, false) => capture_loop fuel w sel max s
    | OutOfFuel => OutOfFuel
    | Crashed => Crashed
    end = Returned s' ∧ reads_tested k s').
  { intros s2 Hr2 Hm2 Hc2.
    destruct (read_ready_stops fuel s2 Hr2 Hm2) as (s3 & b & E & A & B & C); [lia|lia|]. rewrite E.
    destruct b; [by exists s3|]. apply IH; [done| |].
    { destruct Hm2 as [Ha Hb]. assert (Hw : within max s2) by (split; [done|]; intros; specialize (Hb ltac:(done)); lia).
      destruct (read_ready_within fuel w max s2 s3 false Hw Hb E) as [[? _] ?]. split; auto. }
    destruct C as [?|?]; [left; lia|right].
    split; [done|lia]. }
  assert (Hagain : ∀ s2, reads_tested k s2 → below_max max s2 → checks s2 = S (checks s) → ∃ s',
    capture_loop fuel w sel max s2 = Returned s' ∧ reads_tested k s').
  { intros s2 Hr2 Hm2 Hc2. apply IH; [done|done|]. left. lia. }
  destruct H1 as [H1 E1].
  destruct sel; [destruct (poll_answer w (polls s1))|].
  - by apply Hready.
  - by apply Hagain.
  - by apply Hagain.
  - by exists (polled s1).
  - by apply Hready.
Qed.

End Stop.

(** A replay, from opening to end of file. *)
Lemma run_file {H} (h : H) fd frames max_packets stop fuel :
  Forall frame_ok frames → (length frames + 1 < fuel)%nat → 0 ≤ max_packets →
  fits_int max_packets (Zlength (omap parse_result frames)) →
  ∃ s, run (mk_Capture (Some h) false) fd (file_world frames) fuel max_packets stop = Returned s ∧
    handed s = limit max_packets (omap parse_result frames) ∧
    delivered s = Zlength (handed s).
Proof.
  intros Hok Hfuel Hmax Hint. unfold run. cbn [handle_ live_].
  set (s0 := mk_run_state false 0 0 0 0 []).
  destruct fuel as [|fuel]; [lia|].
  set (s1 := mk_run_state false 1 0 0 0 []).
  destruct (read_ready_file frames max_packets fuel s1 Hok) as (s & E & F).
  { cbn. lia. } { done. } { cbn. lia. } { done. }
  assert (Hrun : capture_loop (S fuel) (file_world frames) (0 <=? -1) max_packets s0 = Returned s).
  { cbn [capture_loop load_stop s0 g_stop_requested checks polls nexts delivered handed
      file_world signalled orb Z.leb]. fold s1. change (mk_world _ _ _) with (file_world frames).
    change (0 <=? -1) with false. cbv iota beta. by rewrite E. }
  exists s. split; [exact Hrun|]. split.
  - rewrite F. cbn [handed nexts s1 delivered app]. rewrite drop_0. unfold limit.
    destruct (Z.ltb_spec 0 max_packets) as [Hp|Hp]; [|done].
    rewrite Z.sub_0_r. by rewrite (proj2 (Z.ltb_lt _ _)) by lia.
  - destruct (capture_loop_within (S fuel) (file_world frames) (0 <=? -1) max_packets s0 s);
      [|done|exact Hrun|done]. by split.
Qed.

(** A run that is asked to stop before the [k]-th test of the flag. *)
Lemma run_until_stop {H} (c : Capture H) fd w max_packets stop fuel k :
  (∀ n f, next_answer w n = NextPacket f → frame_ok f) → signalled w k = true → (k < fuel)%nat →
  fits_int max_packets (Z.of_nat k) →
  ∃ s, run c fd w fuel max_packets stop = Returned s ∧
    (nexts s ≤ k)%nat ∧ delivered s = Zlength (handed s) ∧
    (0 < max_packets → delivered s ≤ max_packets) ∧ delivered s ≤ Z.of_nat (nexts s).
Proof.
  intros Hok Hk Hfuel Hint. unfold run. destruct (handle_ c) as [h|].
  - destruct (capture_loop_stops w k max_packets Hok Hk Hint fuel (0 <=? (if live_ c then fd h else -1))
      (mk_run_state false 0 0 0 0 [])) as (s & E & R1 & R2 & R3).
    + unfold reads_tested. cbn. lia.
    + split; [done|]. cbn. lia.
    + left. cbn. lia.
    + exists s. split; [exact E|]. split; [done|].
      apply capture_loop_within in E as [Hcount ?]; [|by split; [|cbn; lia]|cbn; lia].
      split_and!; [done|done|]. rewrite Hcount. unfold Zlength. lia.
  - eexists. split; [done|]. cbn. split_and!; [lia|done|lia|lia].
Qed.

(** ** Properties *)

(** Replay: on a file opened with [open_offline] (no descriptor is polled),
    the run returns once the file is read, whatever the packets are; the handler
    gets every packet the parser accepts, in file order, up to [max_packets] (0
    for all), and the result is their number. *)
Theorem run_offline {H} (h : H) fd frames max_packets stop fuel :
  Forall frame_ok frames → (length frames + 1 < fuel)%nat → 0 ≤ max_packets →
  fits_int max_packets (Zlength (omap parse_result frames)) →
  ∃ s, run (mk_Capture (Some h) false) fd (file_world frames) fuel max_packets stop = Returned s ∧
    handed s = limit max_packets (omap parse_result frames) ∧
    delivered s = Zlength (handed s).
Proof. apply run_file. Qed.

(** A stop request ends the run: if the request arrives before the [k]-th
    test of the flag, then, live or offline and whatever [poll] and libpcap
    answer, the run returns, after at most [k] reads; and a run never hands on
    more than [max_packets] packets. *)
Theorem run_stops {H} (c : Capture H) fd w max_packets stop fuel k :
  (∀ n f, next_answer w n = NextPacket f → frame_ok f) → signalled w k = true → (k < fuel)%nat →
  fits_int max_packets (Z.of_nat k) →
  ∃ s, run c fd w fuel max_packets stop = Returned s ∧
    (nexts s ≤ k)%nat ∧ delivered s = Zlength (handed s) ∧
    (0 < max_packets → delivered s ≤ max_packets).
Proof.
  intros Hok Hk Hfuel Hint. destruct (run_until_stop c fd w max_packets stop fuel k) as (s & E & ? & ? & ? & ?); [done..|].
  by exists s.
Qed.

(** The counter of a run is an [int]: without a limit on packets, a capture with
    2^31 packets that the parser accepts overflows it. *)
Theorem long_capture_overflows {H} (h : H) fd frames stop fuel :
  Forall frame_ok frames → (length frames + 1 < fuel)%nat →
  INT_MAX < Zlength (omap parse_result frames) →
  run (mk_Capture (Some h) false) fd (file_world frames) fuel 0 stop = Crashed.
Proof.
  intros Hok Hfuel Hlong. unfold run. cbn [handle_ live_]. destruct fuel as [|fuel]; [lia|].
  cbn [capture_loop load_stop g_stop_requested checks polls nexts delivered handed file_world signalled orb].
  change (0 <=? -1) with false. cbv iota beta. change (mk_world _ _ _) with (file_world frames).
  rewrite (read_ready_overflow frames fuel); [done|done|cbn; lia|done|]. cbn. by rewrite drop_0.
Qed.

(** A request that arrives before [run] resets the flag is lost: the run
    delivers the whole file as if nobody had asked it to stop. *)
Theorem early_stop_request_lost {H} (c : Capture H) fd w max_packets fuel s :
  is_Some (handle_ c) →
  run c fd w fuel max_packets (g_stop_requested (request_stop s)) =
  run c fd w fuel max_packets false.
Proof. intros [h Hh]. unfold run. by rewrite Hh. Qed.

(** *** Witnesses *)

(** An ARP frame of 16 bytes and a fragment of 5. *)
Definition short_capture : list frame :=
  [mk_frame [1; 2; 3; 4; 5; 6; 7; 8; 9; 10; 11; 12; 0x08; 0x06; 0; 1] 16 60 (mk_timeval 1 0);
   mk_frame [1; 2; 3; 4; 5] 5 5 (mk_timeval 2 0);
   mk_frame [9; 2; 3; 4; 5; 6; 7; 8; 9; 10; 11; 12; 0x08; 0x06; 0; 1] 16 60 (mk_timeval 3 0)].

Lemma run_offline_witness :
  ∃ s, run (mk_Capture (Some tt) false) (λ _, 3) (file_world short_capture) 9 1 true = Returned s ∧
    handed s = limit 1 (omap parse_result short_capture) ∧ delivered s = Zlength (handed s).
Proof. apply (run_offline tt (λ _, 3) short_capture 1 true 9); by_decide || (cbn; lia). Defined.

(** An ARP frame, 2^31 times. *)
Lemma long_capture_overflows_witness :
  ∃ frames : list frame, run (mk_Capture (Some tt) false) (λ _, 3) (file_world frames) (S (S (length frames))) 0 false =
    Crashed.
Proof.
  destruct short_capture as [|arp rest] eqn:E; [done|].
  assert (Hp : ∃ x, parse_result arp = Some x) by (injection E as <- _; eexists; vm_compute; reflexivity).
  assert (Ha : frame_ok arp) by (injection E as <- _; by_decide).
  destruct Hp as [x Hx]. exists (replicate (Z.to_nat (INT_MAX + 1)) arp).
  apply (long_capture_overflows tt (λ _, 3)).
  - by apply Forall_replicate.
  - lia.
  - assert (El : ∀ n, omap parse_result (replicate n arp) = replicate n x)
      by (induction n as [|n IH]; [done|]; cbn; rewrite Hx; by f_equal).
    rewrite El. unfold Zlength. rewrite length_replicate, Z2Nat.id; [lia|]. by unfold INT_MAX.
Defined.

(** A live capture on which nothing arrives, interrupted before the fifth test. *)
Definition quiet_world : world := mk_world (λ k, bool_decide (k = 5%nat)) (λ _, PollTimeout) (λ _, NextNone).

Lemma run_stops_witness :
  ∃ s, run (mk_Capture (Some tt) true) (λ _, 3) quiet_world 6 0 false = Returned s ∧
    (nexts s ≤ 5)%nat ∧ delivered s = Zlength (handed s) ∧ (0 < 0 → delivered s ≤ 0).
Proof. apply (run_stops (mk_Capture (Some tt) true) (λ _, 3) quiet_world 0 false 6 5); done || by_decide || lia. Defined.

Lemma early_stop_request_lost_witness :
  run (mk_Capture (Some tt) false) (λ _, 3) (file_world short_capture) 9 0
    (g_stop_requested (request_stop (mk_run_state false 0 0 0 0 []))) =
  run (mk_Capture (Some tt) false) (λ _, 3) (file_world short_capture) 9 0 false.
Proof.
  apply (early_stop_request_lost (mk_Capture (Some tt) false) (λ _, 3) (file_world short_capture) 0 9
    (mk_run_state false 0 0 0 0 [])). by eexists.
Defined.
