(* ===== verification/Alert.v ===== *)
(** * Alerts ([include/netsentinel/alert.hpp], [src/analysis/alert.cpp]) *)
From S2P Require Import Prelude Fmt Packet.

(** ** Definitions *)

Inductive AnomalyType : Type :=
| kPortScan
| kHighEntropyPayload
| kSynFlood
| kSignatureMatch.

#[export] Instance AnomalyType_eq_dec : EqDecision AnomalyType.
Proof. solve_decision. Defined.

Record Alert : Type := mk_Alert {
  alert_type : AnomalyType;
  a_src_ip : Z;
  a_dst_ip : Z;
  a_src_port : Z;
  a_dst_port : Z;
  detail : string
}.

#[export] Instance Alert_eq_dec : EqDecision Alert.
Proof. solve_decision. Defined.

Section Text.
Local Open Scope string_scope.

Definition anomaly_type_to_string (t : AnomalyType) : string :=
  match t with
  | kPortScan => "PORT_SCAN"
  | kHighEntropyPayload => "HIGH_ENTROPY_PAYLOAD"
  | kSynFlood => "SYN_FLOOD"
  | kSignatureMatch => "SIGNATURE_MATCH"
  end.

Definition format_alert (a : Alert) : string :=
  if negb (a_dst_port a =? 0)%Z || negb (a_src_port a =? 0)%Z then
    snprintf 256 ("[ALERT] " +:+ fmt_left 21 (anomaly_type_to_string (alert_type a)) +:+
      " src=" +:+ ipv4_to_string (a_src_ip a) +:+ ":" +:+ fmt_u (a_src_port a) +:+
      " dst=" +:+ ipv4_to_string (a_dst_ip a) +:+ ":" +:+ fmt_u (a_dst_port a) +:+
      " — " +:+ detail a)
  else
    snprintf 256 ("[ALERT] " +:+ fmt_left 21 (anomaly_type_to_string (alert_type a)) +:+
      " src=" +:+ ipv4_to_string (a_src_ip a) +:+ " — " +:+ detail a).

(** The text before the detail, up to and including the separator. *)
Definition alert_prefix (a : Alert) : string :=
  if negb (a_dst_port a =? 0)%Z || negb (a_src_port a =? 0)%Z then
    "[ALERT] " +:+ fmt_left 21 (anomaly_type_to_string (alert_type a)) +:+
    " src=" +:+ ipv4_to_string (a_src_ip a) +:+ ":" +:+ fmt_u (a_src_port a) +:+
    " dst=" +:+ ipv4_to_string (a_dst_ip a) +:+ ":" +:+ fmt_u (a_dst_port a) +:+ " — "
  else
    "[ALERT] " +:+ fmt_left 21 (anomaly_type_to_string (alert_type a)) +:+
    " src=" +:+ ipv4_to_string (a_src_ip a) +:+ " — ".

End Text.

(** ** Lemmas *)

Lemma anomaly_name_length t : (String.length (anomaly_type_to_string t) ≤ 20)%nat.
Proof. destruct t; cbn; lia. Qed.

Lemma anomaly_column t : String.length (fmt_left 21 (anomaly_type_to_string t)) = 21%nat.
Proof. rewrite fmt_left_length. pose proof (anomaly_name_length t). lia. Qed.

Lemma port_length p : is_uint 16 p → (String.length (fmt_u p) ≤ 5)%nat.
Proof. intros [_ H]. apply fmt_u_length; [lia|]. cbn in *. lia. Qed.

Lemma alert_prefix_length a :
  is_uint 16 (a_src_port a) → is_uint 16 (a_dst_port a) →
  (String.length (alert_prefix a) ≤ 86)%nat.
Proof.
  intros Hs Hd. pose proof (port_length _ Hs). pose proof (port_length _ Hd).
  pose proof (ipv4_to_string_length (a_src_ip a)).
  pose proof (ipv4_to_string_length (a_dst_ip a)).
  unfold alert_prefix. case_match; rewrite !str_length_app, anomaly_column;
    cbn [String.length]; lia.
Qed.

(** ** Properties *)

(** The 256-byte line buffer is large enough: for every alert whose ports
    fit 16 bits and whose detail was built in a 96-byte buffer, the line printed
    is the whole text, prefix and detail, with nothing cut off. *)
Theorem format_alert_complete a :
  is_uint 16 (a_src_port a) → is_uint 16 (a_dst_port a) →
  (String.length (detail a) < 96)%nat →
  format_alert a = (alert_prefix a +:+ detail a)%string.
Proof.
  intros Hs Hd Hl. pose proof (alert_prefix_length a Hs Hd) as Hp.
  unfold format_alert, alert_prefix in *.
  case_match; rewrite snprintf_fits.
  - by rewrite !str_app_assoc.
  - rewrite !str_length_app in *. lia.
  - by rewrite !str_app_assoc.
  - rewrite !str_length_app in *. lia.
Qed.

Lemma format_alert_complete_witness :
  format_alert (mk_Alert kPortScan (10 * 2 ^ 24 + 66) 0 0 0 "10 distinct ports in 5000ms") =
  "[ALERT] PORT_SCAN             src=10.0.0.66 — 10 distinct ports in 5000ms"%string.
Proof.
  transitivity (alert_prefix
    (mk_Alert kPortScan (10 * 2 ^ 24 + 66) 0 0 0 "10 distinct ports in 5000ms") +:+
    "10 distinct ports in 5000ms")%string; [|by vm_compute].
  apply format_alert_complete; [by vm_compute..|by_decide].
Defined.
