(* ===== verification/Signature.v ===== *)
(** * Signatures ([include/netsentinel/signature_db.hpp],
      [src/analysis/signature_db.cpp]) *)
From S2P Require Import Prelude.

(** ** Definitions *)

Definition kFnvOffsetBasis : Z := 0xcbf29ce484222325.
Definition kFnvPrime : Z := 0x100000001b3.

Definition kEicarTestString : string :=
  "X5O!P%@AP[4\PZX54(P^)7CC)7}$EICAR-STANDARD-ANTIVIRUS-TEST-FILE!$H+H*".

(** The bytes of a [std::string]. *)
Definition string_bytes (s : string) : list Z :=
  (λ c, Z.of_N (Ascii.N_of_ascii c)) <$> String.list_ascii_of_string s.

(** One iteration: [hash ^= data[i]; hash *= kFnvPrime;] on [uint64_t]. *)
Definition fnv1a_step (hash byte : Z) : Z := wrap 64 (Z.lxor hash byte * kFnvPrime).

Definition fnv1a_hash (data : list Z) : Z := fold_left fnv1a_step data kFnvOffsetBasis.

Record SignatureDatabase : Type := mk_SignatureDatabase {
  known_bad_hashes_ : gset Z
}.

Definition add_hash (hash : Z) (db : SignatureDatabase) : SignatureDatabase :=
  mk_SignatureDatabase ({[hash]} ∪ known_bad_hashes_ db).

Definition add_signature (raw_bytes : string) (db : SignatureDatabase) : SignatureDatabase :=
  add_hash (fnv1a_hash (string_bytes raw_bytes)) db.

(** The constructor. *)
Definition SignatureDatabase_new : SignatureDatabase :=
  add_signature kEicarTestString (mk_SignatureDatabase ∅).

(** [matches(data, length)]; [None] is the null pointer. *)
Definition matches (db : SignatureDatabase) (data : option (list Z)) : bool :=
  match data with
  | None => false
  | Some bytes =>
      if Zlength bytes =? 0 then false
      else bool_decide (fnv1a_hash bytes ∈ known_bad_hashes_ db)
  end.

(** ** Lemmas *)

(** The inverse of the FNV prime modulo [2 ^ 64]. *)
Definition fnv_inverse : Z := 0xce965057aff6957b.

Lemma fnv_inverse_ok : (kFnvPrime * fnv_inverse) mod 2 ^ 64 = 1.
Proof. by vm_compute. Qed.

Lemma fnv_prime_cancel a b :
  is_uint 64 a → is_uint 64 b → wrap 64 (a * kFnvPrime) = wrap 64 (b * kFnvPrime) → a = b.
Proof.
  assert (Hinv : ∀ x, is_uint 64 x → (wrap 64 (x * kFnvPrime) * fnv_inverse) mod 2 ^ 64 = x).
  { intros x Hx. unfold wrap. rewrite Z.mul_mod_idemp_l by done.
    rewrite <- Z.mul_assoc, <- Z.mul_mod_idemp_r, fnv_inverse_ok, Z.mul_1_r by done.
    by apply Z.mod_small. }
  intros Ha Hb H. rewrite <- (Hinv a Ha), <- (Hinv b Hb). by rewrite H.
Qed.

Lemma fnv1a_step_range h b : is_uint 64 (fnv1a_step h b).
Proof. unfold fnv1a_step. auto with netdb. by apply wrap_range. Qed.

(** A step loses nothing of the hash state nor of the byte. *)
Lemma fnv1a_step_inj_hash h h' b :
  is_uint 64 h → is_uint 64 h' → is_uint 8 b → fnv1a_step h b = fnv1a_step h' b → h = h'.
Proof.
  intros H H' Hb E. assert (is_uint 64 b) by (by eapply (is_uint_mono 8)).
  apply fnv_prime_cancel, lxor_cancel_r in E; [done|by apply is_uint_lxor..].
Qed.

Lemma fnv1a_step_inj_byte h b b' :
  is_uint 64 h → is_uint 8 b → is_uint 8 b' → fnv1a_step h b = fnv1a_step h b' → b = b'.
Proof.
  intros H Hb Hb' E. assert (is_uint 64 b) by (by eapply (is_uint_mono 8)).
  assert (is_uint 64 b') by (by eapply (is_uint_mono 8)).
  apply fnv_prime_cancel, lxor_cancel_l in E; [done|by apply is_uint_lxor..].
Qed.

Lemma fnv1a_fold_range data h : is_uint 64 h → is_uint 64 (fold_left fnv1a_step data h).
Proof.
  revert h. induction data as [|b data IH]; intros h Hh; cbn; [done|].
  apply IH, fnv1a_step_range.
Qed.

Lemma fnv1a_fold_inj data h h' :
  is_uint 64 h → is_uint 64 h' → bytes_ok data →
  fold_left fnv1a_step data h = fold_left fnv1a_step data h' → h = h'.
Proof.
  intros Hh Hh' Hd. revert h h' Hh Hh'.
  induction Hd as [|b data Hb _ IH]; intros h h' Hh Hh' E; cbn in E; [done|].
  apply (IH _ _ (fnv1a_step_range _ _) (fnv1a_step_range _ _)) in E.
  by eapply fnv1a_step_inj_hash.
Qed.

Lemma fnv1a_hash_range data : is_uint 64 (fnv1a_hash data).
Proof. by apply fnv1a_fold_range. Qed.

Lemma string_bytes_ok s : bytes_ok (string_bytes s).
Proof.
  unfold string_bytes. apply Forall_fmap, Forall_true. intros c. cbn.
  unfold is_uint. pose proof (Ascii.N_ascii_bounded c). change (2 ^ 8) with 256. lia.
Qed.

Lemma matches_iff db data :
  matches db (Some data) = true ↔ data ≠ [] ∧ fnv1a_hash data ∈ known_bad_hashes_ db.
Proof.
  cbn. destruct (Z.eqb_spec (Zlength data) 0) as [E|E].
  - destruct data; [|unfold Zlength in E; cbn [length] in E; lia].
    split; [done|]. by intros [? _].
  - rewrite bool_decide_eq_true. split; [|by intros [_ ?]]. intros. split; [|done].
    intros ->. done.
Qed.

Lemma fnv1a_hash_differs pre b b' post :
  is_uint 8 b → is_uint 8 b' → bytes_ok post → b ≠ b' →
  fnv1a_hash (pre ++ b :: post) ≠ fnv1a_hash (pre ++ b' :: post).
Proof.
  intros Hb Hb' Hpost Hne E. unfold fnv1a_hash in E. rewrite !fold_left_app in E. cbn in E.
  apply fnv1a_fold_inj in E; [|apply fnv1a_step_range..|done].
  apply Hne. eapply fnv1a_step_inj_byte, E; [|done..]. by apply fnv1a_fold_range.
Qed.

Lemma added_hashes db sig h :
  h ∈ known_bad_hashes_ (add_signature sig db) ↔
  h = fnv1a_hash (string_bytes sig) ∨ h ∈ known_bad_hashes_ db.
Proof.
  unfold add_signature, add_hash. cbn [known_bad_hashes_].
  by rewrite elem_of_union, elem_of_singleton.
Qed.

Lemma builtin_hashes h :
  h ∈ known_bad_hashes_ SignatureDatabase_new ↔ h = fnv1a_hash (string_bytes kEicarTestString).
Proof.
  unfold SignatureDatabase_new. rewrite added_hashes. split; [|auto].
  intros [?|[]%not_elem_of_empty]. done.
Qed.

(** ** Properties *)

(** FNV-1a never confuses two payloads that differ in a single byte: same
    bytes before and after, different byte in between, different 64-bit hash. *)
Theorem fnv1a_single_byte pre b b' post :
  is_uint 8 b → is_uint 8 b' → bytes_ok post → b ≠ b' →
  fnv1a_hash (pre ++ b :: post) ≠ fnv1a_hash (pre ++ b' :: post).
Proof. intros. by apply fnv1a_hash_differs. Qed.

Lemma fnv1a_single_byte_witness : fnv1a_hash [1; 2; 3] ≠ fnv1a_hash [1; 7; 3].
Proof. apply (fnv1a_single_byte [1] 2 7 [3]); by_decide. Defined.

(** What the database matches: exactly the non-empty payloads whose hash was
    added; adding a hash or a raw signature keeps every earlier match and adds
    only the payloads with that hash. *)
Theorem matches_add_signature db sig data :
  matches (add_signature sig db) (Some data) = true ↔
  matches db (Some data) = true ∨ (data ≠ [] ∧ fnv1a_hash data = fnv1a_hash (string_bytes sig)).
Proof. rewrite !matches_iff, added_hashes. tauto. Qed.

(** The built-in signature set recognises the EICAR string, and changing any
    single byte of that string yields a payload it does not match. *)
Theorem eicar_exact pre b b' post :
  string_bytes kEicarTestString = pre ++ b :: post → is_uint 8 b' →
  matches SignatureDatabase_new (Some (pre ++ b :: post)) = true ∧
  (b' ≠ b → matches SignatureDatabase_new (Some (pre ++ b' :: post)) = false).
Proof.
  intros Hs Hb'. pose proof (string_bytes_ok kEicarTestString) as Hok.
  rewrite Hs in Hok. unfold bytes_ok in Hok. rewrite Forall_app, Forall_cons in Hok.
  destruct Hok as (_ & Hb & Hpost). split.
  - rewrite matches_iff, builtin_hashes, Hs. split; [by destruct pre|done].
  - intros Hne. apply not_true_iff_false. rewrite matches_iff, builtin_hashes, Hs.
    intros [_ Hin]. revert Hin. by apply fnv1a_hash_differs.
Qed.

Lemma eicar_exact_witness :
  matches SignatureDatabase_new (Some (string_bytes kEicarTestString)) = true ∧
  (89 ≠ 88 → matches SignatureDatabase_new
               (Some (89 :: tail (string_bytes kEicarTestString))) = false).
Proof.
  apply (eicar_exact [] 88 89 (tail (string_bytes kEicarTestString))); [by vm_compute|by_decide].
Defined.
