(* ===== verification/FlowTracker.v ===== *)
(** * Flow tracker ([include/netsentinel/flow_tracker.hpp],
      [src/analysis/flow_tracker.cpp])

    Per-source-IP state of the port-scan and SYN-flood rules, sharded by a hash
    of the address.  [std::hash<uint32_t>] and the iteration order of
    [std::unordered_map] are the standard library's choice: they are arguments
    ([hash32], [iter]), the second with the property that it lists each key
    once.  [int64_t] times are integers; [timeval_to_ms_bounds] gives the range
    that keeps them far from overflow. *)
From S2P Require Import Prelude Fmt Packet Alert.

(** ** Configuration *)

Record FlowTrackerConfig : Type := mk_FlowTrackerConfig {
  num_shards : Z;
  port_scan_window_ms : Z;
  port_scan_distinct_port_threshold : Z;
  syn_flood_window_ms : Z;
  syn_flood_pending_threshold : Z;
  alert_debounce_ms : Z;
  idle_ttl_ms : Z;
  sweep_interval_packets : Z;
  max_tracked_ips_per_shard : Z
}.

Definition FlowTrackerConfig_default : FlowTrackerConfig :=
  mk_FlowTrackerConfig 16 5000 10 2000 20 2000 60000 256 1024.

(** ** State *)

Record FlowKey : Type := mk_FlowKey {
  k_src_ip : Z; k_dst_ip : Z; k_src_port : Z; k_dst_port : Z
}.

#[export] Instance FlowKey_eq_dec : EqDecision FlowKey.
Proof. solve_decision. Defined.

#[export] Instance FlowKey_countable : Countable FlowKey.
Proof.
  apply (inj_countable'
    (λ k, (k_src_ip k, k_dst_ip k, k_src_port k, k_dst_port k))
    (λ t, let '(a, b, c, d) := t in mk_FlowKey a b c d)).
  by intros [].
Defined.

(** [FlowKeyHash]: the bucket choice of the map of pending connections.  The map is
    keyed by the equality of keys, so no result depends on it; [std::hash] is an
    argument. *)
Definition FlowKeyHash (hash32 hash16 : Z → Z) (k : FlowKey) : Z :=
  let mix h v := Z.lxor h (wrap 64 (v + 0x9e3779b9 + wrap 64 (Z.shiftl h 6) + Z.shiftr h 2)) in
  mix (mix (mix (hash32 (k_src_ip k)) (hash32 (k_dst_ip k))) (hash16 (k_src_port k))) (hash16 (k_dst_port k)).

Lemma FlowKeyHash_range hash32 hash16 k :
  is_uint 64 (hash32 (k_src_ip k)) → is_uint 64 (FlowKeyHash hash32 hash16 k).
Proof. intros H. repeat (apply is_uint_lxor; [done| |apply wrap_range; done]). done. Qed.

Record PerIpState : Type := mk_PerIpState {
  recent_dst_ports : list (Z * Z);
  port_counts : gmap Z Z;
  pending_syns : gmap FlowKey Z;
  pending_syn_order : list (Z * FlowKey);
  last_seen_ms : Z;
  last_port_scan_alert_ms : option Z;
  last_syn_flood_alert_ms : option Z
}.

Definition PerIpState_default : PerIpState := mk_PerIpState [] ∅ ∅ [] 0 None None.

Definition set_last_seen (now_ms : Z) (s : PerIpState) : PerIpState :=
  mk_PerIpState (recent_dst_ports s) (port_counts s) (pending_syns s) (pending_syn_order s)
    now_ms (last_port_scan_alert_ms s) (last_syn_flood_alert_ms s).

Definition set_ports (q : list (Z * Z)) (c : gmap Z Z) (s : PerIpState) : PerIpState :=
  mk_PerIpState q c (pending_syns s) (pending_syn_order s)
    (last_seen_ms s) (last_port_scan_alert_ms s) (last_syn_flood_alert_ms s).

Definition set_syns (m : gmap FlowKey Z) (q : list (Z * FlowKey)) (s : PerIpState) : PerIpState :=
  mk_PerIpState (recent_dst_ports s) (port_counts s) m q
    (last_seen_ms s) (last_port_scan_alert_ms s) (last_syn_flood_alert_ms s).

Definition set_scan_alert (t : option Z) (s : PerIpState) : PerIpState :=
  mk_PerIpState (recent_dst_ports s) (port_counts s) (pending_syns s) (pending_syn_order s)
    (last_seen_ms s) t (last_syn_flood_alert_ms s).

Definition set_flood_alert (t : option Z) (s : PerIpState) : PerIpState :=
  mk_PerIpState (recent_dst_ports s) (port_counts s) (pending_syns s) (pending_syn_order s)
    (last_seen_ms s) (last_port_scan_alert_ms s) t.

Record Shard : Type := mk_Shard {
  per_ip : gmap Z PerIpState;
  observations_since_sweep : Z
}.

Record FlowTracker : Type := mk_FlowTracker {
  config_ : FlowTrackerConfig;
  shards_ : list Shard
}.

(** ** Packet classification *)

Definition timeval_to_ms (tv : timeval) : Z := tv_sec tv * 1000 + Z.quot (tv_usec tv) 1000.

Definition is_connection_attempt (m : ParsedPacket) : bool :=
  if bool_decide (transport m = kTCP) then
    flag_set (tcp_flags m) kTcpFlagSyn && negb (flag_set (tcp_flags m) kTcpFlagAck)
  else if bool_decide (transport m = kUDP) then 1024 <=? src_port m
  else false.

Definition flow_key (m : ParsedPacket) : FlowKey :=
  mk_FlowKey (src_ip m) (dst_ip m) (src_port m) (dst_port m).

(** ** Debouncing

    The result of the test and the new value of the alert time. *)
Definition debounce_allows (cfg : FlowTrackerConfig) (last_alert_ms : option Z) (now_ms : Z)
    : bool * option Z :=
  match last_alert_ms with
  | Some t => if now_ms - t <? alert_debounce_ms cfg then (false, last_alert_ms)
              else (true, Some now_ms)
  | None => (true, Some now_ms)
  end.

(** ** Port scan *)

(** [++state.port_counts[port]] on [uint32_t] counts. *)
Definition count_port (port : Z) (counts : gmap Z Z) : gmap Z Z :=
  <[port := wrap 32 (default 0 (counts !! port) + 1)]> counts.

(** One expired event: [--count_it->second], and the entry goes at zero. *)
Definition uncount_port (port : Z) (counts : gmap Z Z) : gmap Z Z :=
  match counts !! port with
  | Some c => let c := wrap 32 (c - 1) in
              if c =? 0 then delete port counts else <[port := c]> counts
  | None => counts
  end.

(** The [while] loop that drops expired events from the front of the deque. *)
Fixpoint expire_ports (cutoff : Z) (recent : list (Z * Z)) (counts : gmap Z Z)
    : list (Z * Z) * gmap Z Z :=
  match recent with
  | [] => ([], counts)
  | (t, port) :: rest =>
      if t <? cutoff then expire_ports cutoff rest (uncount_port port counts)
      else (recent, counts)
  end.

Definition port_scan_detail (distinct_ports window : Z) : string :=
  snprintf 96 (fmt_u distinct_ports +:+ " distinct ports in " +:+ fmt_lld window +:+ "ms").

Definition port_scan_rule (cfg : FlowTrackerConfig) (now_ms : Z) (m : ParsedPacket)
    (s : PerIpState) : PerIpState * list Alert :=
  if is_connection_attempt m then
    let recent := recent_dst_ports s ++ [(now_ms, dst_port m)] in
    let counts := count_port (dst_port m) (port_counts s) in
    let cutoff := now_ms - port_scan_window_ms cfg in
    let '(recent, counts) := expire_ports cutoff recent counts in
    let s := set_ports recent counts s in
    let distinct_ports := Z.of_nat (size counts) in
    if port_scan_distinct_port_threshold cfg <=? distinct_ports then
      let '(allowed, last) := debounce_allows cfg (last_port_scan_alert_ms s) now_ms in
      let s := set_scan_alert last s in
      if allowed
      then (s, [mk_Alert kPortScan (src_ip m) (dst_ip m) 0 0
                  (port_scan_detail distinct_ports (port_scan_window_ms cfg))])
      else (s, [])
    else (s, [])
  else (s, []).

(** ** SYN flood *)

Fixpoint expire_syns (cutoff : Z) (order : list (Z * FlowKey)) (pending : gmap FlowKey Z)
    : list (Z * FlowKey) * gmap FlowKey Z :=
  match order with
  | [] => ([], pending)
  | (queued_ms, key) :: rest =>
      if queued_ms <? cutoff then
        expire_syns cutoff rest
          (match pending !! key with
           | Some t => if t =? queued_ms then delete key pending else pending
           | None => pending
           end)
      else (order, pending)
  end.

Definition syn_flood_detail (pending window : Z) : string :=
  snprintf 96 (fmt_u pending +:+ " pending SYNs in " +:+ fmt_lld window +:+ "ms").

Definition syn_flood_rule (cfg : FlowTrackerConfig) (now_ms : Z) (m : ParsedPacket)
    (s : PerIpState) : PerIpState * list Alert :=
  if bool_decide (transport m = kTCP) then
    let key := flow_key m in
    let is_syn := flag_set (tcp_flags m) kTcpFlagSyn in
    let is_ack := flag_set (tcp_flags m) kTcpFlagAck in
    let '(pending, order) :=
      if is_syn && negb is_ack
      then (<[key := now_ms]> (pending_syns s), pending_syn_order s ++ [(now_ms, key)])
      else if is_ack
      then (delete key (pending_syns s), pending_syn_order s)
      else (pending_syns s, pending_syn_order s) in
    let cutoff := now_ms - syn_flood_window_ms cfg in
    let '(order, pending) := expire_syns cutoff order pending in
    let s := set_syns pending order s in
    let count := Z.of_nat (size pending) in
    if syn_flood_pending_threshold cfg <=? count then
      let '(allowed, last) := debounce_allows cfg (last_syn_flood_alert_ms s) now_ms in
      let s := set_flood_alert last s in
      if allowed
      then (s, [mk_Alert kSynFlood (src_ip m) 0 0 0
                  (syn_flood_detail count (syn_flood_window_ms cfg))])
      else (s, [])
    else (s, [])
  else (s, []).

(** The block of [observe] that holds the reference to one IP's state. *)
Definition observe_ip (cfg : FlowTrackerConfig) (m : ParsedPacket) (s : PerIpState)
    : PerIpState * list Alert :=
  let now_ms := timeval_to_ms (timestamp m) in
  let s := set_last_seen now_ms s in
  let '(s, scan_alerts) := port_scan_rule cfg now_ms m s in
  let '(s, flood_alerts) := syn_flood_rule cfg now_ms m s in
  (s, scan_alerts ++ flood_alerts).

(** ** Eviction *)

(** First loop of [evict_stale], over the keys in iteration order. *)
Fixpoint evict_idle (order : list Z) (idle_cutoff keep_ip : Z) (m : gmap Z PerIpState)
    : gmap Z PerIpState :=
  match order with
  | [] => m
  | ip :: rest =>
      match m !! ip with
      | Some s =>
          if negb (ip =? keep_ip) && (last_seen_ms s <? idle_cutoff)
          then evict_idle rest idle_cutoff keep_ip (delete ip m)
          else evict_idle rest idle_cutoff keep_ip m
      | None => evict_idle rest idle_cutoff keep_ip m
      end
  end.

(** Second loop: erase in iteration order while the map is above the cap. *)
Fixpoint evict_excess (order : list Z) (cap keep_ip : Z) (m : gmap Z PerIpState)
    : gmap Z PerIpState :=
  match order with
  | [] => m
  | ip :: rest =>
      if cap <? Z.of_nat (size m) then
        if ip =? keep_ip then evict_excess rest cap keep_ip m
        else evict_excess rest cap keep_ip (delete ip m)
      else m
  end.

Section Observe.
Context (hash32 : Z → Z) (iter : gmap Z PerIpState → list Z).

(** Erasing keeps the relative order of the elements that stay, so the second
    loop meets the surviving keys in the order of the first. *)
Definition evict_stale (cfg : FlowTrackerConfig) (shard : Shard) (now_ms keep_ip : Z) : Shard :=
  let idle_cutoff := now_ms - idle_ttl_ms cfg in
  let order := iter (per_ip shard) in
  let m := evict_idle order idle_cutoff keep_ip (per_ip shard) in
  let m := evict_excess (filter (λ ip, is_Some (m !! ip)) order)
             (max_tracked_ips_per_shard cfg) keep_ip m in
  mk_Shard m (observations_since_sweep shard).

(** The part of [observe] that runs under the shard's mutex. *)
Definition observe_shard (cfg : FlowTrackerConfig) (m : ParsedPacket) (shard : Shard)
    : Shard * list Alert :=
  let now_ms := timeval_to_ms (timestamp m) in
  let state := default PerIpState_default (per_ip shard !! src_ip m) in
  let '(state, alerts) := observe_ip cfg m state in
  let n := wrap 64 (observations_since_sweep shard + 1) in
  let shard := mk_Shard (<[src_ip m := state]> (per_ip shard)) n in
  if sweep_interval_packets cfg <=? n
  then (evict_stale cfg (mk_Shard (per_ip shard) 0) now_ms (src_ip m), alerts)
  else (shard, alerts).

Definition shard_index (t : FlowTracker) (ip : Z) : nat :=
  Z.to_nat (hash32 ip mod Zlength (shards_ t)).

Definition observe (t : FlowTracker) (packet : QueuedPacket) : FlowTracker * list Alert :=
  let m := meta packet in
  if has_ip m then
    let i := shard_index t (src_ip m) in
    match shards_ t !! i with
    | Some shard =>
        let '(shard, alerts) := observe_shard (config_ t) m shard in
        (mk_FlowTracker (config_ t) (<[i := shard]> (shards_ t)), alerts)
    | None => (t, [])
    end
  else (t, []).

(** A sequence of calls: the final tracker and each call's alerts. *)
Fixpoint observe_all (t : FlowTracker) (packets : list QueuedPacket)
    : FlowTracker * list (list Alert) :=
  match packets with
  | [] => (t, [])
  | p :: rest =>
      let '(t, alerts) := observe t p in
      let '(t, more) := observe_all t rest in
      (t, alerts :: more)
  end.

End Observe.

(** The constructor. *)
Definition FlowTracker_new (config : FlowTrackerConfig) : FlowTracker :=
  let n := if num_shards config =? 0 then 1 else num_shards config in
  mk_FlowTracker
    (mk_FlowTrackerConfig n (port_scan_window_ms config)
       (port_scan_distinct_port_threshold config) (syn_flood_window_ms config)
       (syn_flood_pending_threshold config) (alert_debounce_ms config) (idle_ttl_ms config)
       (sweep_interval_packets config) (max_tracked_ips_per_shard config))
    (replicate (Z.to_nat n) (mk_Shard ∅ 0)).

Definition tracked_ip_count (t : FlowTracker) : Z :=
  fold_left (λ total shard, total + Z.of_nat (size (per_ip shard))) (shards_ t) 0.

(** ** Runs of one IP's state, and the times of its alerts *)

Fixpoint observe_ip_all (cfg : FlowTrackerConfig) (s : PerIpState) (packets : list ParsedPacket)
    : PerIpState * list (list Alert) :=
  match packets with
  | [] => (s, [])
  | m :: rest =>
      let '(s, alerts) := observe_ip cfg m s in
      let '(s, more) := observe_ip_all cfg s rest in
      (s, alerts :: more)
  end.

(** The times at which a run raised an alert of one type. *)
Fixpoint alert_times (ty : AnomalyType) (packets : list ParsedPacket)
    (out : list (list Alert)) : list Z :=
  match packets, out with
  | m :: packets, alerts :: out =>
      ((λ _ : Alert, timeval_to_ms (timestamp m)) <$>
         filter (λ a, alert_type a = ty) alerts) ++
      alert_times ty packets out
  | _, _ => []
  end.

(** Consecutive times are at least [d] apart. *)
Fixpoint spaced (d : Z) (l : list Z) : Prop :=
  match l with
  | a :: (b :: _) as r => d ≤ b - a ∧ spaced d r
  | _ => True
  end.

(** The alert time a rule keeps. *)
Definition last_alert (ty : AnomalyType) (s : PerIpState) : option Z :=
  match ty with
  | kPortScan => last_port_scan_alert_ms s
  | kSynFlood => last_syn_flood_alert_ms s
  | _ => None
  end.

(** A TCP packet of a test trace: time in milliseconds, addresses, ports, flags. *)
Definition test_packet (t src dst sp dp flags : Z) : ParsedPacket :=
  mk_ParsedPacket (mk_timeval (t / 1000) (t mod 1000 * 1000)) 60 60
    [0; 0; 0; 0; 0; 0] [0; 0; 0; 0; 0; 0] true src dst 64 IPPROTO_TCP_ kTCP sp dp flags None 0.

(** ** The port window

    [occurrences port recent]: how often a port occurs in the deque;
    [counts_match]: the live counts are these numbers, without zero entries. *)
Definition occurrences (port : Z) (recent : list (Z * Z)) : Z :=
  Zlength (filter (λ e, e.2 = port) recent).

Definition counts_match (recent : list (Z * Z)) (counts : gmap Z Z) : Prop :=
  ∀ port, counts !! port =
    if decide (occurrences port recent = 0) then None else Some (occurrences port recent).

Definition small_window (recent : list (Z * Z)) : Prop := Zlength recent < 2 ^ 32.

Lemma occurrences_cons t p port recent :
  occurrences port ((t, p) :: recent) =
  (if decide (p = port) then 1 else 0) + occurrences port recent.
Proof.
  unfold occurrences. rewrite filter_cons. cbn. case_decide; [|lia].
  by rewrite Zlength_cons.
Qed.

Lemma occurrences_snoc t p port recent :
  occurrences port (recent ++ [(t, p)]) =
  occurrences port recent + (if decide (p = port) then 1 else 0).
Proof.
  unfold occurrences. rewrite filter_app, filter_cons, filter_nil, Zlength_app. cbn.
  case_decide; done.
Qed.

Lemma occurrences_bound port recent : 0 ≤ occurrences port recent ≤ Zlength recent.
Proof.
  unfold occurrences, Zlength. pose proof (length_filter (λ e : Z * Z, e.2 = port) recent). lia.
Qed.

Lemma counts_match_default recent counts port :
  counts_match recent counts → default 0 (counts !! port) = occurrences port recent.
Proof. intros H. rewrite H. by case_decide. Qed.

Lemma count_port_match t port recent counts :
  counts_match recent counts → small_window (recent ++ [(t, port)]) →
  counts_match (recent ++ [(t, port)]) (count_port port counts).
Proof.
  intros H Hs q. unfold small_window in Hs. rewrite Zlength_app, Zlength_cons, Zlength_nil in Hs.
  pose proof (occurrences_bound port recent). pose proof (occurrences_bound q recent).
  unfold count_port. rewrite (counts_match_default recent) by done.
  rewrite occurrences_snoc. rewrite wrap_small by (unfold is_uint; lia).
  destruct (decide (port = q)) as [<-|Hne].
  - rewrite lookup_insert_eq. by rewrite decide_False by lia.
  - rewrite lookup_insert_ne, Z.add_0_r by done. apply H.
Qed.

Lemma uncount_port_match t port recent counts :
  counts_match ((t, port) :: recent) counts → small_window ((t, port) :: recent) →
  counts_match recent (uncount_port port counts).
Proof.
  intros H Hs q. unfold small_window in Hs. rewrite Zlength_cons in Hs.
  pose proof (occurrences_bound port recent). pose proof (occurrences_bound q recent).
  unfold uncount_port. rewrite (H port), occurrences_cons.
  rewrite (decide_True _ _ (eq_refl port)), decide_False by lia. cbv beta iota zeta.
  rewrite wrap_small by (unfold is_uint; lia).
  specialize (H q). rewrite occurrences_cons in H.
  replace (1 + occurrences port recent - 1) with (occurrences port recent) by lia.
  destruct (decide (port = q)) as [<-|Hne].
  - destruct (Z.eqb_spec (occurrences port recent) 0) as [E|E].
    + rewrite lookup_delete_eq. by rewrite decide_True.
    + rewrite lookup_insert_eq. by rewrite decide_False.
  - rewrite Z.add_0_l in H. rewrite <- H.
    destruct (occurrences port recent =? 0); [by apply lookup_delete_ne|by apply lookup_insert_ne].
Qed.

(** The number of map entries is the number of distinct ports of the deque. *)
Lemma counts_match_size recent counts :
  counts_match recent counts → size counts = size (list_to_set recent.*2 : gset Z).
Proof.
  intros H. rewrite <- (size_dom counts). f_equal. apply set_eq. intros p.
  rewrite elem_of_dom, H, elem_of_list_to_set, list_elem_of_fmap.
  unfold occurrences, Zlength. split.
  - intros [n Hn]. case_decide as E; [done|].
    destruct (filter (λ e, e.2 = p) recent) as [|e l] eqn:Ef; [done|].
    assert (He : e ∈ filter (λ e, e.2 = p) recent) by (rewrite Ef; by left).
    apply list_elem_of_filter in He as [He Hin]. by exists e.
  - intros (e & -> & Hin). rewrite decide_False; [by eexists|].
    intros E. assert (He : e ∈ filter (λ e', e'.2 = e.2) recent) by by apply list_elem_of_filter.
    destruct (filter (λ e', e'.2 = e.2) recent); [by apply not_elem_of_nil in He|].
    cbn [length] in E. lia.
Qed.

(** ** Both expiry loops drop exactly the stale prefix *)

Lemma expire_ports_spec cutoff recent counts :
  counts_match recent counts → small_window recent →
  ∃ old, recent = old ++ (expire_ports cutoff recent counts).1 ∧
    Forall (λ e, e.1 < cutoff) old ∧
    (match (expire_ports cutoff recent counts).1 with [] => True | e :: _ => cutoff ≤ e.1 end) ∧
    counts_match (expire_ports cutoff recent counts).1 (expire_ports cutoff recent counts).2.
Proof.
  revert counts. induction recent as [|[t p] rest IH]; intros counts H Hs; cbn [expire_ports].
  - by exists [].
  - destruct (Z.ltb_spec t cutoff) as [Ht|Ht]; cbn [fst snd].
    + destruct (IH (uncount_port p counts)) as (old & E & F & G & K).
      * by eapply uncount_port_match.
      * unfold small_window in *. rewrite Zlength_cons in Hs. lia.
      * exists ((t, p) :: old). cbn. split_and!; [by f_equal|by constructor|done|done].
    + by exists [].
Qed.

Lemma not_elem_of_nil_iff {A} (x : A) : x ∉ [] ↔ True.
Proof. split; [done|]. intros _. apply not_elem_of_nil. Qed.

Lemma expire_syns_spec cutoff order pending :
  ∃ old, order = old ++ (expire_syns cutoff order pending).1 ∧
    Forall (λ e, e.1 < cutoff) old ∧
    (match (expire_syns cutoff order pending).1 with [] => True | e :: _ => cutoff ≤ e.1 end) ∧
    ∀ k t, (expire_syns cutoff order pending).2 !! k = Some t ↔
           pending !! k = Some t ∧ (t, k) ∉ old.
Proof.
  revert pending. induction order as [|[q key] rest IH]; intros pending; cbn [expire_syns].
  - exists []. split_and!; try done. intros k t. rewrite not_elem_of_nil_iff. tauto.
  - destruct (Z.ltb_spec q cutoff) as [Ht|Ht]; cbn [fst snd].
    + set (pending' := match pending !! key with Some _ => _ | None => _ end).
      destruct (IH pending') as (old & E & F & G & K).
      exists ((q, key) :: old). cbn. split_and!; [by f_equal|by constructor|done|].
      intros k t. rewrite K, not_elem_of_cons.
      enough (pending' !! k = Some t ↔ pending !! k = Some t ∧ (t, k) ≠ (q, key)) by tauto.
      unfold pending'. destruct (pending !! key) as [t'|] eqn:Ek.
      * destruct (Z.eqb_spec t' q) as [->|Hne].
        -- destruct (decide (key = k)) as [<-|Hk].
           ++ rewrite lookup_delete_eq, Ek. split; [done|]. intros [? []]. congruence.
           ++ rewrite lookup_delete_ne by done. split; [|tauto]. intros. split; congruence.
        -- split; [|tauto]. intros. split; congruence.
      * split; [|tauto]. intros. split; congruence.
    + exists []. split_and!; try done. intros k t. rewrite not_elem_of_nil_iff. tauto.
Qed.

(** ** What a rule does with its alert time *)

(** Either no alert and the time stays, or one alert, allowed by the debounce
    interval, and the time becomes [now]. *)
Definition rule_outcome (cfg : FlowTrackerConfig) (ty : AnomalyType) (now : Z)
    (last last' : option Z) (alerts : list Alert) : Prop :=
  (alerts = [] ∧ last' = last) ∨
  (∃ a, alerts = [a] ∧ alert_type a = ty ∧ last' = Some now ∧
        ∀ t, last = Some t → alert_debounce_ms cfg ≤ now - t).

Lemma debounce_spec cfg last now :
  (debounce_allows cfg last now = (false, last)) ∨
  (debounce_allows cfg last now = (true, Some now) ∧
   ∀ t, last = Some t → alert_debounce_ms cfg ≤ now - t).
Proof.
  unfold debounce_allows. destruct last as [t|].
  - destruct (Z.ltb_spec (now - t) (alert_debounce_ms cfg)); [by left|right].
    split; [done|]. intros ? [= <-]. done.
  - right. by split.
Qed.

Lemma port_scan_rule_outcome cfg now m s :
  rule_outcome cfg kPortScan now (last_port_scan_alert_ms s)
    (last_port_scan_alert_ms (port_scan_rule cfg now m s).1) (port_scan_rule cfg now m s).2 ∧
  last_syn_flood_alert_ms (port_scan_rule cfg now m s).1 = last_syn_flood_alert_ms s.
Proof.
  unfold port_scan_rule, rule_outcome. destruct (is_connection_attempt m); [|by auto].
  destruct (expire_ports _ _ _) as [recent counts]. cbn [set_ports last_port_scan_alert_ms].
  destruct (_ <=? _); [|by auto].
  destruct (debounce_spec cfg (last_port_scan_alert_ms s) now) as [->|[-> H]]; cbn; [by auto|].
  split; [|done]. right. eexists. by split_and!.
Qed.

Lemma syn_flood_rule_outcome cfg now m s :
  rule_outcome cfg kSynFlood now (last_syn_flood_alert_ms s)
    (last_syn_flood_alert_ms (syn_flood_rule cfg now m s).1) (syn_flood_rule cfg now m s).2 ∧
  last_port_scan_alert_ms (syn_flood_rule cfg now m s).1 = last_port_scan_alert_ms s.
Proof.
  unfold syn_flood_rule, rule_outcome. case_bool_decide; [|by auto].
  destruct (if _ && _ then _ else _) as [pending order].
  destruct (expire_syns _ _ _) as [order' pending']. cbn [set_syns last_syn_flood_alert_ms].
  destruct (_ <=? _); [|by auto].
  destruct (debounce_spec cfg (last_syn_flood_alert_ms s) now) as [->|[-> H']]; cbn; [by auto|].
  split; [|done]. right. eexists. by split_and!.
Qed.

(** One packet: for each stateful rule, the alerts of that type it raises. *)
Lemma observe_ip_outcome cfg m s ty :
  ty = kPortScan ∨ ty = kSynFlood →
  rule_outcome cfg ty (timeval_to_ms (timestamp m)) (last_alert ty s)
    (last_alert ty (observe_ip cfg m s).1)
    (filter (λ a, alert_type a = ty) (observe_ip cfg m s).2).
Proof.
  intros Hty. unfold observe_ip. set (now := timeval_to_ms (timestamp m)).
  pose proof (port_scan_rule_outcome cfg now m (set_last_seen now s)) as [P1 P2].
  destruct (port_scan_rule cfg now m (set_last_seen now s)) as [s1 scans]. cbn [fst snd] in *.
  pose proof (syn_flood_rule_outcome cfg now m s1) as [F1 F2].
  destruct (syn_flood_rule cfg now m s1) as [s2 floods]. cbn [fst snd] in *.
  rewrite filter_app. cbn in P1, P2. unfold rule_outcome in *.
  destruct Hty as [->| ->]; cbn [last_alert].
  - rewrite F2. assert (filter (λ a, alert_type a = kPortScan) floods = []) as ->.
    { destruct F1 as [[-> _]|(a & -> & Ha & _)]; [done|]. rewrite filter_cons_False; [done|].
      by rewrite Ha. }
    rewrite app_nil_r. destruct P1 as [[-> ->]|(a & -> & Ha & -> & Hd)]; [by left|right].
    exists a. rewrite filter_cons_True by done. by split_and!.
  - rewrite P2 in F1. assert (filter (λ a, alert_type a = kSynFlood) scans = []) as ->.
    { destruct P1 as [[-> _]|(a & -> & Ha & _)]; [done|]. rewrite filter_cons_False; [done|].
      by rewrite Ha. }
    destruct F1 as [[-> ->]|(a & -> & Ha & -> & Hd)]; [by left|right].
    exists a. rewrite filter_cons_True by done. by split_and!.
Qed.

Lemma observe_ip_all_spaced cfg s packets ty :
  ty = kPortScan ∨ ty = kSynFlood →
  spaced (alert_debounce_ms cfg)
    (option_list (last_alert ty s) ++ alert_times ty packets (observe_ip_all cfg s packets).2).
Proof.
  intros Hty. revert s. induction packets as [|m packets IH]; intros s; cbn [observe_ip_all].
  - cbn. rewrite app_nil_r. by destruct (last_alert ty s).
  - pose proof (observe_ip_outcome cfg m s ty Hty) as H.
    destruct (observe_ip cfg m s) as [s1 alerts]. cbn [fst snd] in H.
    specialize (IH s1). destruct (observe_ip_all cfg s1 packets) as [s2 more].
    cbn [snd alert_times] in *.
    destruct H as [[-> E]|(a & -> & Ha & E & Hd)]; rewrite E in IH; cbn in *; [done|].
    destruct (last_alert ty s) as [t|]; cbn in *; [|done]. split; [by apply Hd|done].
Qed.

(** ** Properties *)

(** C28. Debouncing: over any run of one source's state, in whatever order its
    packets come, two successive alerts of the same rule are at least
    [alert_debounce_ms] apart, the first one counted from the alert time the
    state starts with. *)
Theorem alerts_debounced cfg s packets ty :
  ty = kPortScan ∨ ty = kSynFlood →
  spaced (alert_debounce_ms cfg)
    (option_list (last_alert ty s) ++ alert_times ty packets (observe_ip_all cfg s packets).2).
Proof. apply observe_ip_all_spaced. Qed.

(** Twelve SYNs to distinct ports, one second apart. *)
Definition slow_scan : list ParsedPacket :=
  (λ i, test_packet (Z.of_nat i * 1000) 1 2 40000 (Z.of_nat i + 100) kTcpFlagSyn) <$> seq 0 12.

Definition wide_config : FlowTrackerConfig :=
  mk_FlowTrackerConfig 16 60000 5 2000 20 3000 60000 256 1024.

Lemma alerts_debounced_witness :
  alert_times kPortScan slow_scan (observe_ip_all wide_config PerIpState_default slow_scan).2 =
    [4000; 7000; 10000] ∧
  spaced 3000 [4000; 7000; 10000].
Proof.
  split; [by vm_compute|].
  apply (alerts_debounced wide_config PerIpState_default slow_scan kPortScan). by left.
Defined.

(** Times in milliseconds: for the timestamps a capture file can hold the
    conversion stays below 2^43 (no [int64_t] overflow in it or in the window
    arithmetic), and it keeps the order of the timestamps. *)
Theorem timeval_to_ms_bounds a b :
  is_uint 32 (tv_sec a) → 0 ≤ tv_usec a < 1000000 →
  is_uint 32 (tv_sec b) → 0 ≤ tv_usec b < 1000000 →
  0 ≤ timeval_to_ms a < 2 ^ 43 ∧
  (tv_sec a < tv_sec b ∨ (tv_sec a = tv_sec b ∧ tv_usec a ≤ tv_usec b) →
   timeval_to_ms a ≤ timeval_to_ms b).
Proof.
  unfold is_uint, timeval_to_ms. intros Ha Hua Hb Hub.
  rewrite !Z.quot_div_nonneg by lia. split.
  - Z.to_euclidean_division_equations; lia.
  - intros [H|[-> H]]; Z.to_euclidean_division_equations; lia.
Qed.

Lemma timeval_to_ms_bounds_witness :
  0 ≤ timeval_to_ms (mk_timeval 4294967295 999999) < 2 ^ 43 ∧
  (4294967295 < 4294967295 ∨ (4294967295 = 4294967295 ∧ 999999 ≤ 999999) →
   timeval_to_ms (mk_timeval 4294967295 999999) ≤ timeval_to_ms (mk_timeval 4294967295 999999)).
Proof.
  apply (timeval_to_ms_bounds (mk_timeval 4294967295 999999) (mk_timeval 4294967295 999999));
    by_decide.
Defined.
