(* ===== verification/FlowSpec.v ===== *)
(** * Reference rules and the refinement of the sliding windows

    The specification of the two stateful rules keeps the whole history of one
    source address and recounts it on every packet: the ports probed and the
    handshakes left half open inside the window.  [observe_ip] keeps only deques
    and live counts; on packets in time order it raises the same alerts. *)
From Stdlib Require Import Sorted.
From S2P Require Import Prelude Fmt Packet Alert FlowTracker.

(** ** The reference rules *)

Definition ms (m : ParsedPacket) : Z := timeval_to_ms (timestamp m).

Definition is_tcp (m : ParsedPacket) : bool := bool_decide (transport m = kTCP).
Definition syn_only (m : ParsedPacket) : bool :=
  is_tcp m && flag_set (tcp_flags m) kTcpFlagSyn && negb (flag_set (tcp_flags m) kTcpFlagAck).
Definition has_ack (m : ParsedPacket) : bool :=
  is_tcp m && flag_set (tcp_flags m) kTcpFlagAck.

(** Every connection attempt of a history, with its time and port. *)
Definition attempts (h : list ParsedPacket) : list (Z * Z) :=
  (λ m, (ms m, dst_port m)) <$> filter (λ m, is_connection_attempt m = true) h.

(** The distinct ports probed since [from]. *)
Definition probed_ports (from : Z) (h : list ParsedPacket) : gset Z :=
  list_to_set (filter (λ e, from ≤ e.1) (attempts h)).*2.

(** The half-open connections of a history: the time of the last SYN of every
    4-tuple that sent no ACK after it. *)
Definition half_open_step (p : gmap FlowKey Z) (m : ParsedPacket) : gmap FlowKey Z :=
  if syn_only m then <[flow_key m := ms m]> p
  else if has_ack m then delete (flow_key m) p else p.

Definition half_open (h : list ParsedPacket) : gmap FlowKey Z := foldl half_open_step ∅ h.

(** Those whose SYN is not older than [from]. *)
Definition half_open_since (from : Z) (h : list ParsedPacket) : gmap FlowKey Z :=
  filter (λ kt, from ≤ kt.2) (half_open h).

Record ref_state : Type := mk_ref_state {
  history : list ParsedPacket;
  ref_scan_alert : option Z;
  ref_flood_alert : option Z
}.

Definition ref_default : ref_state := mk_ref_state [] None None.

Definition ref_scan (cfg : FlowTrackerConfig) (m : ParsedPacket) (h : list ParsedPacket)
    (last : option Z) : option Z * list Alert :=
  let n := Z.of_nat (size (probed_ports (ms m - port_scan_window_ms cfg) h)) in
  if is_connection_attempt m && (port_scan_distinct_port_threshold cfg <=? n) then
    let '(allowed, last) := debounce_allows cfg last (ms m) in
    (last, if allowed
           then [mk_Alert kPortScan (src_ip m) (dst_ip m) 0 0
                   (port_scan_detail n (port_scan_window_ms cfg))]
           else [])
  else (last, []).

Definition ref_flood (cfg : FlowTrackerConfig) (m : ParsedPacket) (h : list ParsedPacket)
    (last : option Z) : option Z * list Alert :=
  let n := Z.of_nat (size (half_open_since (ms m - syn_flood_window_ms cfg) h)) in
  if is_tcp m && (syn_flood_pending_threshold cfg <=? n) then
    let '(allowed, last) := debounce_allows cfg last (ms m) in
    (last, if allowed
           then [mk_Alert kSynFlood (src_ip m) 0 0 0
                   (syn_flood_detail n (syn_flood_window_ms cfg))]
           else [])
  else (last, []).

Definition ref_observe (cfg : FlowTrackerConfig) (m : ParsedPacket) (r : ref_state)
    : ref_state * list Alert :=
  let h := history r ++ [m] in
  let '(scan, scan_alerts) := ref_scan cfg m h (ref_scan_alert r) in
  let '(flood, flood_alerts) := ref_flood cfg m h (ref_flood_alert r) in
  (mk_ref_state h scan flood, scan_alerts ++ flood_alerts).

Fixpoint ref_observe_all (cfg : FlowTrackerConfig) (r : ref_state) (packets : list ParsedPacket)
    : ref_state * list (list Alert) :=
  match packets with
  | [] => (r, [])
  | m :: rest =>
      let '(r, alerts) := ref_observe cfg m r in
      let '(r, more) := ref_observe_all cfg r rest in
      (r, alerts :: more)
  end.

(** Packets in time order. *)
Definition in_time_order (h : list ParsedPacket) : Prop := StronglySorted Z.le (ms <$> h).

(** ** The simulation relation *)

(** An event at [t] is outside every window of width [w] that can still be
    asked about from time [T] on. *)
Definition stale (w T t : Z) : Prop := t < T - w.

(** The SYN events of a history, in order. *)
Definition syn_events (h : list ParsedPacket) : list (Z * FlowKey) :=
  (λ m, (ms m, flow_key m)) <$> filter (λ m, syn_only m = true) h.

Record ports_rel (w T : Z) (h : list ParsedPacket) (s : PerIpState) : Prop := {
  ports_window : ∃ old, attempts h = old ++ recent_dst_ports s ∧
                        Forall (λ e, stale w T e.1) old;
  ports_counts : counts_match (recent_dst_ports s) (port_counts s)
}.

Record syns_rel (w T : Z) (h : list ParsedPacket) (s : PerIpState) : Prop := {
  syns_order : ∃ old, syn_events h = old ++ pending_syn_order s;
  syns_sound : ∀ k t, pending_syns s !! k = Some t → half_open h !! k = Some t;
  syns_complete : ∀ k t, half_open h !! k = Some t →
                         pending_syns s !! k = Some t ∨ stale w T t;
  syns_queued : ∀ k t, pending_syns s !! k = Some t → (t, k) ∈ pending_syn_order s
}.

(** The alert time kept is the reference's, or it was forgotten at a time when
    it no longer delays anything. *)
Definition alert_rel (cfg : FlowTrackerConfig) (T : Z) (last ref : option Z) : Prop :=
  last = ref ∨ (last = None ∧ ∃ t, ref = Some t ∧ alert_debounce_ms cfg ≤ T - t).

Record ip_rel (cfg : FlowTrackerConfig) (T : Z) (r : ref_state) (s : PerIpState) : Prop := {
  rel_ports : ports_rel (port_scan_window_ms cfg) T (history r) s;
  rel_syns : syns_rel (syn_flood_window_ms cfg) T (history r) s;
  rel_scan : alert_rel cfg T (last_port_scan_alert_ms s) (ref_scan_alert r);
  rel_flood : alert_rel cfg T (last_syn_flood_alert_ms s) (ref_flood_alert r)
}.

(** ** Lemmas *)

Lemma stale_mono w T T' t : T ≤ T' → stale w T t → stale w T' t.
Proof. unfold stale. lia. Qed.

Lemma ports_rel_mono w T T' h s : T ≤ T' → ports_rel w T h s → ports_rel w T' h s.
Proof.
  intros HT [(old & E & H) Hc]. split; [|done]. exists old. split; [done|].
  eapply Forall_impl; [exact H|]. intros e. by apply stale_mono.
Qed.

Lemma syns_rel_mono w T T' h s : T ≤ T' → syns_rel w T h s → syns_rel w T' h s.
Proof.
  intros HT [H1 H2 H3 H4]. split; try done. intros k t H.
  destruct (H3 k t H); [by left|right; by eapply stale_mono].
Qed.

Lemma alert_rel_mono cfg T T' last ref :
  T ≤ T' → alert_rel cfg T last ref → alert_rel cfg T' last ref.
Proof. intros HT [H|(H & t & E & Hd)]; [by left|right]. split; [done|]. exists t. split; [done|lia]. Qed.

Lemma ip_rel_mono cfg T T' r s : T ≤ T' → ip_rel cfg T r s → ip_rel cfg T' r s.
Proof.
  intros HT [H1 H2 H3 H4].
  split; [by eapply ports_rel_mono|by eapply syns_rel_mono|by eapply alert_rel_mono..].
Qed.

(** A forgotten alert time makes no difference to the debounce test. *)
Lemma alert_rel_debounce cfg T last ref now :
  T ≤ now → alert_rel cfg T last ref → debounce_allows cfg last now = debounce_allows cfg ref now.
Proof.
  intros HT [->|(-> & t & -> & Hd)]; [done|]. unfold debounce_allows.
  by rewrite (proj2 (Z.ltb_ge _ _)) by lia.
Qed.

Lemma in_time_order_app h k : in_time_order (h ++ k) → in_time_order h ∧ in_time_order k.
Proof.
  unfold in_time_order. rewrite fmap_app. intros H.
  induction h as [|m h IH]; cbn in *; [split; [constructor|done]|].
  apply StronglySorted_inv in H as [H1 H2]. destruct (IH H1) as [A B].
  split; [|done]. constructor; [done|]. by apply Forall_app in H2 as [? _].
Qed.

Lemma attempts_snoc h m :
  attempts (h ++ [m]) =
  attempts h ++ (if is_connection_attempt m then [(ms m, dst_port m)] else []).
Proof.
  unfold attempts. rewrite filter_app, fmap_app, filter_cons, filter_nil.
  by destruct (is_connection_attempt m).
Qed.

Lemma syn_events_snoc h m :
  syn_events (h ++ [m]) = syn_events h ++ (if syn_only m then [(ms m, flow_key m)] else []).
Proof.
  unfold syn_events. rewrite filter_app, fmap_app, filter_cons, filter_nil.
  by destruct (syn_only m).
Qed.

Lemma half_open_snoc h m : half_open (h ++ [m]) = half_open_step (half_open h) m.
Proof. unfold half_open. by rewrite foldl_app. Qed.

(** The times of selected events of an ordered history are ordered. *)
Lemma selected_sorted {A} (f : ParsedPacket → A) (P : ParsedPacket → Prop)
    `{∀ m, Decision (P m)} (time : A → Z) h :
  (∀ m, time (f m) = ms m) → in_time_order h →
  StronglySorted Z.le (time <$> (f <$> filter P h)).
Proof.
  intros Hf. unfold in_time_order. induction h as [|m h IH]; intros Hs; [constructor|].
  cbn in Hs. apply StronglySorted_inv in Hs as [Hs Hm]. rewrite filter_cons. case_decide; [|by apply IH].
  cbn. constructor; [by apply IH|]. rewrite Hf.
  rewrite !Forall_fmap in *. rewrite Forall_forall in Hm. apply Forall_forall.
  intros x [_ Hx]%list_elem_of_filter. cbn. rewrite Hf. by apply Hm.
Qed.

Lemma attempts_sorted h : in_time_order h → StronglySorted Z.le (attempts h).*1.
Proof. by apply (selected_sorted (λ m, (ms m, dst_port m)) _ fst). Qed.

Lemma syn_events_sorted h : in_time_order h → StronglySorted Z.le (syn_events h).*1.
Proof. by apply (selected_sorted (λ m, (ms m, flow_key m)) _ fst). Qed.

(** Nothing before the head of an ordered list is later than it. *)
Lemma sorted_head_le {A} (old l : list (Z * A)) c :
  StronglySorted Z.le (old ++ l).*1 →
  (match l with [] => True | e :: _ => c ≤ e.1 end) → ∀ e, e ∈ l → c ≤ e.1.
Proof.
  intros Hs Hl e He. destruct l as [|x l]; [by apply not_elem_of_nil in He|].
  induction old as [|o old IH]; cbn in Hs; apply StronglySorted_inv in Hs as [H1 H2].
  - apply elem_of_cons in He as [->|He]; [done|].
    rewrite Forall_fmap, Forall_forall in H2. apply H2 in He. cbn in He. lia.
  - by apply IH.
Qed.

(** What is left of an ordered deque after its stale prefix was dropped. *)
Lemma drop_prefix_filter {A} (old l : list (Z * A)) c :
  StronglySorted Z.le (old ++ l).*1 → Forall (λ e, e.1 < c) old →
  (match l with [] => True | e :: _ => c ≤ e.1 end) →
  filter (λ e, c ≤ e.1) (old ++ l) = l.
Proof.
  intros Hs Ho Hl. rewrite filter_app.
  assert (filter (λ e, c ≤ e.1) old = []) as ->.
  { induction Ho as [|e old He _ IH]; [done|]. rewrite filter_cons_False by lia.
    apply IH. cbn in Hs. by apply StronglySorted_inv in Hs as [? _]. }
  cbn. pose proof (sorted_head_le old l c Hs Hl) as Hall. clear Hs Ho Hl.
  induction l as [|x l IH]; [done|]. rewrite filter_cons_True by (apply Hall; by left).
  f_equal. apply IH. intros e He. apply Hall. by right.
Qed.

(** *** The half-open table, declaratively *)

Definition closes (k : FlowKey) (m : ParsedPacket) : Prop :=
  flow_key m = k ∧ (syn_only m = true ∨ has_ack m = true).

Lemma closes_dec_step k m p :
  ¬ closes k m → half_open_step p m !! k = p !! k.
Proof.
  unfold closes, half_open_step. intros Hn.
  destruct (syn_only m) eqn:E1.
  - apply lookup_insert_ne. intros E. by apply Hn; auto.
  - destruct (has_ack m) eqn:E2; [|done]. apply lookup_delete_ne. intros E. by apply Hn; auto.
Qed.

Lemma half_open_lookup h k t :
  half_open h !! k = Some t ↔
  ∃ h1 m h2, h = h1 ++ m :: h2 ∧ syn_only m = true ∧ flow_key m = k ∧ ms m = t ∧
             Forall (λ m', ¬ closes k m') h2.
Proof.
  induction h as [|x h IH] using rev_ind.
  { split; [done|]. intros (h1 & m & h2 & E & _). by destruct h1. }
  rewrite half_open_snoc. split.
  - unfold half_open_step. destruct (syn_only x) eqn:E1; [|destruct (has_ack x) eqn:E2].
    + rewrite lookup_insert_Some. intros [[<- <-]|[Hne H]].
      * exists h, x, []. by split_and!.
      * apply IH in H as (h1 & m & h2 & -> & ? & ? & ? & ?). exists h1, m, (h2 ++ [x]).
        rewrite <- app_assoc. split_and!; try done. apply Forall_app. split; [done|].
        apply Forall_singleton. by intros [? _].
    + rewrite lookup_delete_Some. intros [Hne H].
      apply IH in H as (h1 & m & h2 & -> & ? & ? & ? & ?). exists h1, m, (h2 ++ [x]).
      rewrite <- app_assoc. split_and!; try done. apply Forall_app. split; [done|].
      apply Forall_singleton. by intros [? _].
    + intros H. apply IH in H as (h1 & m & h2 & -> & ? & ? & ? & ?). exists h1, m, (h2 ++ [x]).
      rewrite <- app_assoc. split_and!; try done. apply Forall_app. split; [done|].
      apply Forall_singleton. intros [_ [?|?]]; congruence.
  - intros (h1 & m & h2 & E & Hm & Hk & Ht & Hnone).
    destruct h2 as [|y h2 _] using rev_ind.
    + apply app_inj_tail in E as [-> ->]. unfold half_open_step.
      rewrite Hm, Hk, Ht. apply lookup_insert_eq.
    + rewrite app_comm_cons, app_assoc in E. apply app_inj_tail in E as [-> ->].
      apply Forall_app in Hnone as [Hnone Hy]. rewrite Forall_singleton in Hy.
      rewrite closes_dec_step by done.
      apply IH. exists h1, m, h2. by split_and!.
Qed.

(** *** One packet *)
Section Step.
Context (cfg : FlowTrackerConfig) (T : Z) (h : list ParsedPacket) (m : ParsedPacket).
Hypothesis (Hsorted : in_time_order (h ++ [m])) (Hsmall : Zlength h + 1 < 2 ^ 32).
Hypothesis (HT : T ≤ ms m).

Lemma attempts_small : small_window (attempts (h ++ [m])).
Proof using All.
  unfold small_window, attempts, Zlength in *. rewrite length_fmap.
  pose proof (length_filter (λ m, is_connection_attempt m = true) (h ++ [m])) as H.
  rewrite length_app in H. cbn [length] in H. lia.
Qed.

(** The deque and the counts after the expiry loop. *)
Lemma port_window_step s :
  ports_rel (port_scan_window_ms cfg) T h s → is_connection_attempt m = true →
  let from := ms m - port_scan_window_ms cfg in
  let r := expire_ports from (recent_dst_ports s ++ [(ms m, dst_port m)])
             (count_port (dst_port m) (port_counts s)) in
  size r.2 = size (probed_ports from (h ++ [m])) ∧
  (∃ old, attempts (h ++ [m]) = old ++ r.1 ∧
          Forall (λ e, stale (port_scan_window_ms cfg) (ms m) e.1) old) ∧
  counts_match r.1 r.2.
Proof using All.
  intros [(old & Hold & Hstale) Hcounts] Hatt from r.
  assert (Hatts : attempts (h ++ [m]) = old ++ recent_dst_ports s ++ [(ms m, dst_port m)]).
  { by rewrite attempts_snoc, Hatt, Hold, <- app_assoc. }
  assert (Hsm : small_window (recent_dst_ports s ++ [(ms m, dst_port m)])).
  { pose proof attempts_small as Hs. unfold small_window in *. rewrite Hatts, Zlength_app in Hs.
    pose proof (Zlength_nonneg old). lia. }
  destruct (expire_ports_spec from _ (count_port (dst_port m) (port_counts s))
              (count_port_match (ms m) (dst_port m) _ _ Hcounts Hsm) Hsm)
    as (popped & Hpop & Hpopped & Hhead & Hmatch).
  fold r in Hpop, Hhead, Hmatch.
  assert (Hfull : attempts (h ++ [m]) = (old ++ popped) ++ r.1)
    by (rewrite <- app_assoc, <- Hpop; exact Hatts).
  assert (Hlt : Forall (λ e, e.1 < from) (old ++ popped)).
  { apply Forall_app. split; [|done]. eapply Forall_impl; [exact Hstale|].
    cbn. unfold stale. lia. }
  split_and!; [|exists (old ++ popped); split; [done|]|done].
  - rewrite (counts_match_size r.1) by done. unfold probed_ports. rewrite Hfull.
    rewrite drop_prefix_filter; [done| |done|done].
    rewrite <- Hfull. by apply attempts_sorted.
  - exact Hlt.
Qed.

Lemma ports_rel_other s :
  ports_rel (port_scan_window_ms cfg) T h s → is_connection_attempt m = false →
  ports_rel (port_scan_window_ms cfg) (ms m) (h ++ [m]) s.
Proof.
  intros [(old & Hold & Hstale) Hcounts] Hatt. split; [|done].
  exists old. rewrite attempts_snoc, Hatt, app_nil_r. split; [done|].
  eapply Forall_impl; [exact Hstale|]. intros e. by apply stale_mono.
Qed.

(** The pending table and its ordering deque, before the expiry loop. *)
Definition syn_order_step (order : list (Z * FlowKey)) : list (Z * FlowKey) :=
  order ++ (if syn_only m then [(ms m, flow_key m)] else []).

Lemma syns_enter s :
  syns_rel (syn_flood_window_ms cfg) T h s →
  let p := half_open_step (pending_syns s) m in
  (∃ old, syn_events (h ++ [m]) = old ++ syn_order_step (pending_syn_order s)) ∧
  (∀ k t, p !! k = Some t → half_open (h ++ [m]) !! k = Some t) ∧
  (∀ k t, half_open (h ++ [m]) !! k = Some t →
          p !! k = Some t ∨ stale (syn_flood_window_ms cfg) T t) ∧
  (∀ k t, p !! k = Some t → (t, k) ∈ syn_order_step (pending_syn_order s)).
Proof using All.
  intros [(old & Hold) Hsound Hcomplete Hqueued] p.
  split; [exists old; unfold syn_order_step; by rewrite syn_events_snoc, Hold, <- app_assoc|].
  rewrite half_open_snoc. unfold p, half_open_step, syn_order_step.
  destruct (syn_only m); [|destruct (has_ack m)]; rewrite ?app_nil_r; [| |by auto].
  - split_and!; intros k t; rewrite ?lookup_insert_Some; [naive_solver|naive_solver|].
    intros [[<- <-]|[_ H]]; apply elem_of_app; [right; by left|left; by apply Hqueued].
  - split_and!; intros k t; rewrite ?lookup_delete_Some; naive_solver.
Qed.

Lemma syn_window_step s :
  syns_rel (syn_flood_window_ms cfg) T h s →
  let from := ms m - syn_flood_window_ms cfg in
  let r := expire_syns from (syn_order_step (pending_syn_order s))
             (half_open_step (pending_syns s) m) in
  r.2 = half_open_since from (h ++ [m]) ∧
  syns_rel (syn_flood_window_ms cfg) (ms m) (h ++ [m]) (set_syns r.2 r.1 s).
Proof using All.
  intros Hrel from r.
  destruct (syns_enter s Hrel) as ((old & Hold) & Hsound & Hcomplete & Hqueued).
  destruct (expire_syns_spec from (syn_order_step (pending_syn_order s))
              (half_open_step (pending_syns s) m)) as (popped & Hpop & Hlt & Hhead & Hlook).
  fold r in Hpop, Hhead, Hlook.
  assert (Hall : syn_events (h ++ [m]) = (old ++ popped) ++ r.1)
    by (rewrite <- app_assoc, <- Hpop; exact Hold).
  assert (Hkept : ∀ e, e ∈ r.1 → from ≤ e.1).
  { intros e He. eapply (sorted_head_le (old ++ popped)); [|exact Hhead|exact He].
    rewrite <- Hall. by apply syn_events_sorted. }
  assert (Hr : ∀ k t, r.2 !! k = Some t ↔
                      half_open_step (pending_syns s) m !! k = Some t ∧ from ≤ t).
  { intros k t. rewrite Hlook. split; intros [H1 H2]; (split; [done|]).
    - apply Hqueued in H1. rewrite Hpop, elem_of_app in H1. destruct H1 as [?|H1]; [done|].
      by apply (Hkept (t, k)).
    - intros Hin. rewrite Forall_forall in Hlt. apply Hlt in Hin. cbn in Hin. lia. }
  assert (Hstale : ∀ t, stale (syn_flood_window_ms cfg) T t → t < from).
  { unfold stale. lia. }
  split.
  - apply map_eq. intros k. apply option_eq. intros t. unfold half_open_since.
    rewrite map_lookup_filter_Some, Hr. cbn. split; intros [H1 H2]; (split; [|done]).
    + by apply Hsound.
    + destruct (Hcomplete k t H1) as [?|Ht]; [done|]. apply Hstale in Ht. lia.
  - split; cbn.
    + by exists (old ++ popped).
    + intros k t [H _]%Hr. by apply Hsound.
    + intros k t H. destruct (decide (from ≤ t)) as [Hf|Hf].
      * left. apply Hr. split; [|done]. destruct (Hcomplete k t H) as [?|Ht]; [done|].
        apply Hstale in Ht. lia.
      * right. unfold stale. fold from. lia.
    + intros k t [H Hf]%Hr. apply Hqueued in H. rewrite Hpop, elem_of_app in H.
      destruct H as [H|H]; [|done]. rewrite Forall_forall in Hlt. apply Hlt in H. cbn in H. lia.
Qed.

Lemma syns_rel_other s :
  syns_rel (syn_flood_window_ms cfg) T h s → is_tcp m = false →
  syns_rel (syn_flood_window_ms cfg) (ms m) (h ++ [m]) s.
Proof using All.
  intros [(old & Hold) Hsound Hcomplete Hqueued] Htcp.
  assert (Hso : syn_only m = false) by (unfold syn_only; by rewrite Htcp).
  assert (Hsa : has_ack m = false) by (unfold has_ack; by rewrite Htcp).
  split; [|rewrite half_open_snoc; unfold half_open_step; rewrite Hso, Hsa..|done].
  - exists old. by rewrite syn_events_snoc, Hso, app_nil_r.
  - done.
  - intros k t H. destruct (Hcomplete k t H); [by left|right; by eapply stale_mono].
Qed.

(** The deque and the counts of [s'] are those of [s], and so on: what a rule
    leaves alone. *)
Definition same_ports (s s' : PerIpState) : Prop :=
  recent_dst_ports s' = recent_dst_ports s ∧ port_counts s' = port_counts s ∧
  last_port_scan_alert_ms s' = last_port_scan_alert_ms s.

Definition same_syns (s s' : PerIpState) : Prop :=
  pending_syns s' = pending_syns s ∧ pending_syn_order s' = pending_syn_order s ∧
  last_syn_flood_alert_ms s' = last_syn_flood_alert_ms s.

Lemma port_scan_rule_ref s :
  ports_rel (port_scan_window_ms cfg) T h s →
  let r := port_scan_rule cfg (ms m) m s in
  let q := ref_scan cfg m (h ++ [m]) (last_port_scan_alert_ms s) in
  r.2 = q.2 ∧ last_port_scan_alert_ms r.1 = q.1 ∧
  ports_rel (port_scan_window_ms cfg) (ms m) (h ++ [m]) r.1 ∧ same_syns s r.1.
Proof using All.
  intros Hrel. unfold port_scan_rule, ref_scan.
  destruct (is_connection_attempt m) eqn:Hatt; cbn [andb].
  - destruct (port_window_step s Hrel Hatt) as (Hsize & Hwin & Hcounts).
    rewrite <- Hsize.
    destruct (expire_ports _ _ _) as [recent counts]. cbn [fst snd] in *.
    assert (Hports : ports_rel (port_scan_window_ms cfg) (ms m) (h ++ [m]) (set_ports recent counts s))
      by (split; done).
    destruct (_ <=? _); [|by split_and!].
    cbn [set_ports last_port_scan_alert_ms].
    destruct (debounce_allows cfg _ (ms m)) as [[|] last]; split_and!; try done;
      by destruct Hports.
  - split_and!; try done. by apply ports_rel_other.
Qed.

Lemma syn_flood_rule_ref s :
  syns_rel (syn_flood_window_ms cfg) T h s →
  let r := syn_flood_rule cfg (ms m) m s in
  let q := ref_flood cfg m (h ++ [m]) (last_syn_flood_alert_ms s) in
  r.2 = q.2 ∧ last_syn_flood_alert_ms r.1 = q.1 ∧
  syns_rel (syn_flood_window_ms cfg) (ms m) (h ++ [m]) r.1 ∧ same_ports s r.1.
Proof using All.
  intros Hrel. unfold syn_flood_rule, ref_flood. fold (is_tcp m).
  destruct (is_tcp m) eqn:Htcp; cbn [andb].
  - pose proof (syn_window_step s Hrel) as [Hmap Hnext].
    assert (Henter : (if flag_set (tcp_flags m) kTcpFlagSyn &&
                         negb (flag_set (tcp_flags m) kTcpFlagAck)
       then (<[flow_key m:=ms m]> (pending_syns s), pending_syn_order s ++ [(ms m, flow_key m)])
       else if flag_set (tcp_flags m) kTcpFlagAck
            then (delete (flow_key m) (pending_syns s), pending_syn_order s)
            else (pending_syns s, pending_syn_order s)) =
      (half_open_step (pending_syns s) m, syn_order_step (pending_syn_order s))).
    { unfold half_open_step, syn_order_step, syn_only, has_ack. rewrite Htcp. cbn [andb].
      destruct (_ && _); [done|]. rewrite app_nil_r. by destruct (flag_set _ _). }
    cbv zeta. rewrite Henter. rewrite <- Hmap.
    destruct (expire_syns _ _ _) as [order pending]. cbn [fst snd] in *.
    destruct (_ <=? _); [|by split_and!].
    cbn [set_syns last_syn_flood_alert_ms].
    destruct (debounce_allows cfg _ (ms m)) as [[|] last]; split_and!; try done;
      by destruct Hnext.
  - split_and!; try done. by apply syns_rel_other.
Qed.

End Step.

Lemma ports_rel_same w T h s s' : same_ports s s' → ports_rel w T h s → ports_rel w T h s'.
Proof. intros (E1 & E2 & _) [H1 H2]. by split; rewrite ?E1, ?E2. Qed.

Lemma syns_rel_same w T h s s' : same_syns s s' → syns_rel w T h s → syns_rel w T h s'.
Proof. intros (E1 & E2 & _) [H1 H2 H3 H4]. by split; rewrite ?E1, ?E2. Qed.

(** Related alert times give the same alerts and related alert times. *)
Lemma ref_scan_rel cfg T m h last ref :
  T ≤ ms m → alert_rel cfg T last ref →
  (ref_scan cfg m h last).2 = (ref_scan cfg m h ref).2 ∧
  alert_rel cfg (ms m) (ref_scan cfg m h last).1 (ref_scan cfg m h ref).1.
Proof.
  intros HT Hrel. unfold ref_scan. destruct (_ && _); [|split; [done|by eapply alert_rel_mono]].
  rewrite (alert_rel_debounce cfg T last ref) by done.
  destruct (debounce_allows cfg ref (ms m)). split; [done|by left].
Qed.

Lemma ref_flood_rel cfg T m h last ref :
  T ≤ ms m → alert_rel cfg T last ref →
  (ref_flood cfg m h last).2 = (ref_flood cfg m h ref).2 ∧
  alert_rel cfg (ms m) (ref_flood cfg m h last).1 (ref_flood cfg m h ref).1.
Proof.
  intros HT Hrel. unfold ref_flood. destruct (_ && _); [|split; [done|by eapply alert_rel_mono]].
  rewrite (alert_rel_debounce cfg T last ref) by done.
  destruct (debounce_allows cfg ref (ms m)). split; [done|by left].
Qed.

Lemma ref_observe_history cfg m r : history (ref_observe cfg m r).1 = history r ++ [m].
Proof. unfold ref_observe. by destruct (ref_scan _ _ _ _), (ref_flood _ _ _ _). Qed.

(** One packet keeps the relation and raises the same alerts. *)
Lemma observe_ip_ref cfg T m r s :
  ip_rel cfg T r s → T ≤ ms m →
  in_time_order (history r ++ [m]) → Zlength (history r) + 1 < 2 ^ 32 →
  (observe_ip cfg m s).2 = (ref_observe cfg m r).2 ∧
  ip_rel cfg (ms m) (ref_observe cfg m r).1 (observe_ip cfg m s).1.
Proof.
  intros [Hp Hs Hscan Hflood] HT Hsorted Hsmall.
  unfold observe_ip, ref_observe. fold (ms m).
  destruct (port_scan_rule_ref cfg T (history r) m Hsorted Hsmall HT (set_last_seen (ms m) s))
    as (A1 & A2 & A3 & A4); [by eapply ports_rel_same, Hp|].
  change (last_port_scan_alert_ms (set_last_seen (ms m) s)) with (last_port_scan_alert_ms s) in *.
  destruct (ref_scan_rel cfg T m (history r ++ [m]) _ _ HT Hscan) as [R1 R2].
  rewrite R1 in A1. rewrite <- A2 in R2.
  destruct (port_scan_rule _ _ _ _) as [s1 scans].
  destruct (ref_scan cfg m (history r ++ [m]) (ref_scan_alert r)) as [scan scans'].
  cbn [fst snd] in *.
  destruct (syn_flood_rule_ref cfg T (history r) m Hsorted Hsmall HT s1) as (B1 & B2 & B3 & B4).
  { eapply syns_rel_same; [exact A4|]. by eapply syns_rel_same, Hs. }
  assert (Hflood1 : alert_rel cfg T (last_syn_flood_alert_ms s1) (ref_flood_alert r)).
  { destruct A4 as (_ & _ & ->). done. }
  destruct (ref_flood_rel cfg T m (history r ++ [m]) _ _ HT Hflood1) as [F1 F2].
  rewrite F1 in B1. rewrite <- B2 in F2.
  destruct (syn_flood_rule _ _ _ _) as [s2 floods].
  destruct (ref_flood cfg m (history r ++ [m]) (ref_flood_alert r)) as [flood floods'].
  cbn [fst snd] in *. subst scans' floods'. split; [done|].
  split; cbn; [by eapply ports_rel_same|done| |done].
  destruct B4 as (_ & _ & ->). done.
Qed.

Lemma ip_rel_default cfg T : ip_rel cfg T ref_default PerIpState_default.
Proof.
  split; try (by left); split; try done.
  - by exists [].
  - by exists [].
Qed.

(** Forgetting a source that has been silent longer than both windows and the
    debounce interval leaves a related state. *)
Lemma ip_rel_forget cfg T T' r :
  Forall (λ m, ms m ≤ T) (history r) →
  (∀ t, ref_scan_alert r = Some t → t ≤ T) → (∀ t, ref_flood_alert r = Some t → t ≤ T) →
  T < T' - port_scan_window_ms cfg → T < T' - syn_flood_window_ms cfg →
  T ≤ T' - alert_debounce_ms cfg →
  ip_rel cfg T' r PerIpState_default.
Proof.
  intros Hh Hs Hf Hw1 Hw2 Hd. rewrite Forall_forall in Hh.
  split; [split|split| |]; cbn.
  - exists (attempts (history r)). rewrite app_nil_r. split; [done|].
    unfold attempts. rewrite Forall_fmap, Forall_forall.
    intros m [_ Hm]%list_elem_of_filter. apply Hh in Hm. unfold stale. cbn. lia.
  - done.
  - exists (syn_events (history r)). by rewrite app_nil_r.
  - done.
  - intros k t (h1 & m & h2 & E & _ & _ & <- & _)%half_open_lookup. right.
    assert (ms m ≤ T) by (apply Hh; rewrite E; set_solver). unfold stale. lia.
  - done.
  - destruct (ref_scan_alert r) as [t|]; [|by left]. right. split; [done|].
    exists t. specialize (Hs t eq_refl). split; [done|lia].
  - destruct (ref_flood_alert r) as [t|]; [|by left]. right. split; [done|].
    exists t. specialize (Hf t eq_refl). split; [done|lia].
Qed.

Lemma in_time_order_from m k : in_time_order (m :: k) → Forall (λ m', ms m ≤ ms m') k.
Proof.
  unfold in_time_order. cbn. intros [_ H]%StronglySorted_inv. by rewrite Forall_fmap in H.
Qed.

Lemma observe_ip_all_ref cfg packets T r s :
  ip_rel cfg T r s → Forall (λ m, T ≤ ms m) packets → in_time_order (history r ++ packets) →
  Zlength (history r) + Zlength packets < 2 ^ 32 →
  (observe_ip_all cfg s packets).2 = (ref_observe_all cfg r packets).2.
Proof.
  revert T r s. induction packets as [|m rest IH]; intros T r s Hrel Hlater Hsorted Hsmall;
    cbn [observe_ip_all ref_observe_all]; [done|].
  rewrite Zlength_cons in Hsmall. pose proof (Zlength_nonneg rest).
  apply Forall_cons in Hlater as [HT Hlater].
  destruct (observe_ip_ref cfg T m r s Hrel HT) as [Halerts Hrel'].
  - rewrite (app_assoc _ [m] rest) in Hsorted. by apply in_time_order_app in Hsorted as [? _].
  - lia.
  - specialize (IH (ms m) _ _ Hrel'). revert IH Halerts. rewrite ref_observe_history.
    destruct (observe_ip cfg m s) as [s' a], (ref_observe cfg m r) as [r' a'].
    cbn [fst snd]. intros IH ->. rewrite <- app_assoc, Zlength_app in IH.
    assert (Hrest : Forall (λ m', ms m ≤ ms m') rest).
    { apply in_time_order_from. by apply in_time_order_app in Hsorted as [_ ?]. }
    specialize (IH Hrest Hsorted ltac:(rewrite Zlength_cons, Zlength_nil; lia)).
    destruct (observe_ip_all _ _ _), (ref_observe_all _ _ _). cbn in *. by f_equal.
Qed.

(** *** Replies *)

(** A packet of an answering host: TCP with ACK set, UDP from a service port, or
    another protocol. *)
Definition is_reply (m : ParsedPacket) : Prop :=
  (transport m = kTCP ∧ flag_set (tcp_flags m) kTcpFlagAck = true) ∨
  (transport m = kUDP ∧ src_port m < 1024) ∨
  transport m = kICMP ∨ transport m = kUnknown.

(** Nothing is pending and no port was counted. *)
Definition quiet (s : PerIpState) : Prop :=
  port_counts s = ∅ ∧ recent_dst_ports s = [] ∧ pending_syns s = ∅ ∧ pending_syn_order s = [].

Lemma is_reply_attempt m : is_reply m → is_connection_attempt m = false.
Proof.
  unfold is_connection_attempt. intros [[-> ->]|[[-> H]|[-> | ->]]]; cbn; try done.
  - by rewrite andb_false_r.
  - apply Z.leb_gt. lia.
Qed.

Lemma observe_ip_reply cfg m s :
  1 ≤ syn_flood_pending_threshold cfg → is_reply m → quiet s →
  (observe_ip cfg m s).2 = [] ∧ quiet (observe_ip cfg m s).1.
Proof.
  intros Hthr Hm (Q1 & Q2 & Q3 & Q4). pose proof (is_reply_attempt m Hm) as Hatt.
  unfold observe_ip, port_scan_rule, syn_flood_rule. rewrite Hatt.
  unfold set_last_seen. rewrite Q1, Q2, Q3, Q4. cbn [pending_syns pending_syn_order].
  case_bool_decide as Htcp; [|by split].
  destruct Hm as [[_ Hack]|[[E _]|[E|E]]]; [|congruence..].
  rewrite Hack, andb_false_r, delete_empty. cbn [expire_syns set_syns].
  rewrite map_size_empty. by rewrite (proj2 (Z.leb_gt _ _)) by lia.
Qed.

(** ** Properties *)

(** The sliding windows are equivalent to recounting the history: for every
    sequence of packets of one source in time order, the deques, live counts and
    pending table raise, packet by packet, exactly the alerts (with the same
    counts in their text) of the reference rules, which rescan the whole
    history. *)
Theorem sliding_windows_refine cfg packets :
  in_time_order packets → Zlength packets < 2 ^ 32 →
  (observe_ip_all cfg PerIpState_default packets).2 = (ref_observe_all cfg ref_default packets).2.
Proof.
  intros Hsorted Hsmall. destruct packets as [|m rest]; [done|].
  apply (observe_ip_all_ref cfg _ (ms m)); [apply ip_rel_default| |done|done].
  constructor; [done|by apply in_time_order_from].
Qed.

(** What the SYN-flood reference counts: a 4-tuple is half open since [from]
    iff its last SYN without ACK is at or after [from] and no packet of that
    4-tuple with ACK set came after it. *)
Theorem half_open_since_iff from h k t :
  half_open_since from h !! k = Some t ↔
  from ≤ t ∧
  ∃ h1 m h2, h = h1 ++ m :: h2 ∧ syn_only m = true ∧ flow_key m = k ∧ ms m = t ∧
             Forall (λ m', ¬ closes k m') h2.
Proof.
  unfold half_open_since. rewrite map_lookup_filter_Some, half_open_lookup. cbn. tauto.
Qed.

(** C29. No false positive on answering hosts: a source that only sends TCP
    packets with ACK set, UDP datagrams from ports below 1024 or other protocols
    never raises an alert, however many ports it sends to and in whatever order
    its packets are processed. *)
Theorem replies_raise_no_alert cfg packets :
  1 ≤ syn_flood_pending_threshold cfg → Forall is_reply packets →
  Forall (λ alerts, alerts = []) (observe_ip_all cfg PerIpState_default packets).2.
Proof.
  intros Hthr Hall. assert (Hq : quiet PerIpState_default) by done.
  revert Hq. generalize PerIpState_default as s.
  induction Hall as [|m rest Hm _ IH]; intros s Hq; cbn [observe_ip_all]; [constructor|].
  destruct (observe_ip_reply cfg m s Hthr Hm Hq) as [Ha Hq'].
  destruct (observe_ip cfg m s) as [s' alerts]. cbn [fst snd] in *.
  specialize (IH s' Hq'). destruct (observe_ip_all cfg s' rest). by constructor.
Qed.

(** A scan: ten SYNs to ports 1000..1009, ten milliseconds apart. *)
Definition fast_scan : list ParsedPacket :=
  (λ i, test_packet (1000 + Z.of_nat i * 10) 66 1 40000 (1000 + Z.of_nat i) kTcpFlagSyn) <$>
    seq 0 10.

Lemma sliding_windows_refine_witness :
  (observe_ip_all FlowTrackerConfig_default PerIpState_default fast_scan).2 =
    replicate 9 [] ++ [[mk_Alert kPortScan 66 1 0 0 "10 distinct ports in 5000ms"]] ∧
  (observe_ip_all FlowTrackerConfig_default PerIpState_default fast_scan).2 =
  (ref_observe_all FlowTrackerConfig_default ref_default fast_scan).2.
Proof.
  split; [by vm_compute|].
  apply (sliding_windows_refine FlowTrackerConfig_default fast_scan).
  - unfold in_time_order. vm_compute. repeat constructor; done.
  - by_decide.
Defined.

(** A web server's SYN-ACKs to twelve clients. *)
Definition server_replies : list ParsedPacket :=
  (λ i, test_packet (1000 + Z.of_nat i) 5 1 443 (40000 + Z.of_nat i) 0x12) <$> seq 0 12.

Lemma replies_raise_no_alert_witness :
  Forall (λ alerts, alerts = [])
    (observe_ip_all FlowTrackerConfig_default PerIpState_default server_replies).2.
Proof.
  apply (replies_raise_no_alert FlowTrackerConfig_default server_replies); [by_decide|].
  unfold server_replies. apply Forall_fmap, Forall_true. intros i. left. by split.
Defined.

(** One SYN at 1 ms, eight more of the same source stamped 0 ms but processed
    after it, and one SYN 5001 ms into the capture. *)
Definition reordered_scan : list ParsedPacket :=
  test_packet 1 66 1 40000 1000 kTcpFlagSyn ::
  ((λ i, test_packet 0 66 1 40000 (1001 + Z.of_nat i) kTcpFlagSyn) <$> seq 0 8) ++
  [test_packet 5001 66 1 40000 1009 kTcpFlagSyn].

(** The time order is needed: when two workers process packets of one source
    a millisecond out of order, the stale events queued behind a newer one stay
    in the window, and a port-scan alert is raised for ten ports of which only
    two were probed within the window. *)
Theorem reordering_keeps_stale_ports :
  last (observe_ip_all FlowTrackerConfig_default PerIpState_default reordered_scan).2 =
    Some [mk_Alert kPortScan 66 1 0 0 "10 distinct ports in 5000ms"] ∧
  last (ref_observe_all FlowTrackerConfig_default ref_default reordered_scan).2 = Some [] ∧
  probed_ports (5001 - 5000) reordered_scan = {[1000; 1009]}.
Proof. split_and!; by vm_compute. Qed.
