(* ===== verification/FlowShards.v ===== *)
(** * Sharding, sweeps and the tracker as a whole

    What [FlowTracker] promises about its memory, about sources other than the
    one observed, about packets of different shards processed in either order,
    and, over whole traces, that eviction loses no alert of the reference rules
    while the hosts fit the cap. *)
From Stdlib Require Import Sorted.
From S2P Require Import Prelude Fmt Packet Alert FlowTracker FlowSpec.

(** ** Iteration order

    The traversal of an [std::unordered_map] lists each key once. *)
Class KeyOrder (iter : gmap Z PerIpState → list Z) : Prop := {
  key_order_nodup m : NoDup (iter m);
  key_order_elem m ip : ip ∈ iter m ↔ is_Some (m !! ip)
}.

Definition map_keys (m : gmap Z PerIpState) : list Z := (map_to_list m).*1.

#[export] Instance map_keys_order : KeyOrder map_keys.
Proof.
  split; intros m; unfold map_keys.
  - apply NoDup_fst_map_to_list.
  - intros ip. rewrite list_elem_of_fmap. split.
    + intros ([ip' s] & -> & H%elem_of_map_to_list). by exists s.
    + intros [s H]. exists (ip, s). by rewrite elem_of_map_to_list.
Qed.

(** ** One sweep *)

Definition idle (cutoff keep_ip ip : Z) (s : PerIpState) : Prop :=
  ip ≠ keep_ip ∧ last_seen_ms s < cutoff.

#[export] Instance idle_dec cutoff keep_ip ip s : Decision (idle cutoff keep_ip ip s).
Proof. unfold idle. apply _. Defined.

Lemma evict_idle_filter order cutoff keep m :
  (∀ ip, is_Some (m !! ip) → ip ∈ order) →
  evict_idle order cutoff keep m = filter (λ x, ¬ idle cutoff keep x.1 x.2) m.
Proof.
  assert (H : ∀ ip, evict_idle order cutoff keep m !! ip =
    match m !! ip with
    | Some s => if decide (ip ∈ order ∧ idle cutoff keep ip s) then None else Some s
    | None => None
    end).
  { revert m. induction order as [|o order IH]; intros m ip; cbn [evict_idle].
    - destruct (m !! ip); [|done]. rewrite decide_False; [done|]. intros [[]%elem_of_nil _].
    - destruct (m !! o) as [s|] eqn:Eo.
      + unfold idle in *. destruct (Z.eqb_spec o keep) as [->|Hk]; cbn [negb andb].
        { rewrite IH. destruct (m !! ip) as [s'|] eqn:Ei; [|done].
          apply decide_ext. rewrite elem_of_cons. naive_solver. }
        destruct (Z.ltb_spec (last_seen_ms s) cutoff) as [Hl|Hl]; rewrite IH.
        * destruct (decide (o = ip)) as [<-|Hne].
          -- rewrite lookup_delete_eq, Eo, decide_True; [done|]. rewrite elem_of_cons. auto.
          -- rewrite lookup_delete_ne by done. destruct (m !! ip); [|done].
             apply decide_ext. rewrite elem_of_cons. naive_solver.
        * destruct (m !! ip) as [s'|] eqn:Ei; [|done]. apply decide_ext.
          rewrite elem_of_cons. split; [tauto|]. intros [[->|?] ?]; [|tauto].
          simplify_eq. lia.
      + rewrite IH. destruct (m !! ip) as [s'|] eqn:Ei; [|done].
        apply decide_ext. rewrite elem_of_cons. split; [tauto|].
        intros [[->|?] ?]; [congruence|tauto]. }
  intros Hdom. apply map_eq. intros ip. rewrite H, map_lookup_filter.
  destruct (m !! ip) as [s|] eqn:E; [|done]. cbn.
  assert (ip ∈ order) by (apply Hdom; by rewrite E).
  destruct (decide (idle cutoff keep ip s)).
  - rewrite decide_True by done. unfold guard. by case_decide.
  - rewrite decide_False by tauto. unfold guard. by case_decide.
Qed.

Lemma evict_excess_cases order cap keep m ip :
  evict_excess order cap keep m !! ip = m !! ip ∨
  (ip ≠ keep ∧ evict_excess order cap keep m !! ip = None ∧ cap < Z.of_nat (size m)).
Proof.
  revert m. induction order as [|o order IH]; intros m; cbn [evict_excess]; [by left|].
  destruct (Z.ltb_spec cap (Z.of_nat (size m))); [|by left].
  destruct (Z.eqb_spec o keep) as [->|Hne]; [by apply IH|].
  destruct (IH (delete o m)) as [E|(H1 & H2 & H3)].
  - rewrite E. destruct (decide (o = ip)) as [<-|]; [|left; by apply lookup_delete_ne].
    right. by rewrite lookup_delete_eq.
  - right. by split_and!.
Qed.

Lemma evict_excess_small order cap keep m :
  Z.of_nat (size m) ≤ cap → evict_excess order cap keep m = m.
Proof. intros H. destruct order; cbn; [done|]. by rewrite (proj2 (Z.ltb_ge _ _)). Qed.

(** The second loop reaches the cap unless only the kept source is left. *)
Lemma evict_excess_size order cap keep m :
  0 ≤ cap → (∀ ip, is_Some (m !! ip) → ip ∈ order ∨ ip = keep) →
  Z.of_nat (size (evict_excess order cap keep m)) ≤ Z.max 1 cap.
Proof.
  intros Hcap. revert m. induction order as [|o order IH]; intros m Hdom; cbn [evict_excess].
  - enough (size m ≤ 1)%nat by lia. rewrite <- size_dom. transitivity (size ({[keep]} : gset Z)).
    + apply subseteq_size. intros ip Hip%elem_of_dom.
      destruct (Hdom ip Hip) as [H| ->]; [by apply not_elem_of_nil in H|set_solver].
    + by rewrite size_singleton.
  - destruct (Z.ltb_spec cap (Z.of_nat (size m))) as [_|]; [|lia].
    destruct (Z.eqb_spec o keep) as [->|Hne]; apply IH; intros ip Hip.
    + destruct (Hdom ip Hip) as [[-> | ?]%elem_of_cons|]; auto.
    + destruct (decide (o = ip)) as [<-|]; [by rewrite lookup_delete_eq in Hip; destruct Hip|].
      rewrite lookup_delete_ne in Hip by done.
      destruct (Hdom ip Hip) as [[-> | ?]%elem_of_cons|]; auto. done.
Qed.

Section Sweep.
Context (iter : gmap Z PerIpState → list Z) `{!KeyOrder iter}.
Context (cfg : FlowTrackerConfig).

(** What is not idle. *)
Definition active (now_ms keep_ip : Z) (m : gmap Z PerIpState) : gmap Z PerIpState :=
  filter (λ x, ¬ idle (now_ms - idle_ttl_ms cfg) keep_ip x.1 x.2) m.

Lemma evict_stale_unfold shard now keep :
  per_ip (evict_stale iter cfg shard now keep) =
  evict_excess (filter (λ ip, is_Some (active now keep (per_ip shard) !! ip)) (iter (per_ip shard)))
    (max_tracked_ips_per_shard cfg) keep (active now keep (per_ip shard)).
Proof.
  unfold evict_stale. cbn [per_ip]. rewrite evict_idle_filter; [done|].
  intros ip Hip. by apply key_order_elem.
Qed.

Lemma active_size now keep m : (size (active now keep m) ≤ size m)%nat.
Proof. apply map_subseteq_size, map_filter_subseteq. Qed.

Lemma evict_stale_cases shard now keep ip :
  per_ip (evict_stale iter cfg shard now keep) !! ip = per_ip shard !! ip ∨
  (ip ≠ keep ∧ per_ip (evict_stale iter cfg shard now keep) !! ip = None ∧
   ∃ s, per_ip shard !! ip = Some s ∧
        (last_seen_ms s < now - idle_ttl_ms cfg ∨
         max_tracked_ips_per_shard cfg < Z.of_nat (size (per_ip shard)))).
Proof using All.
  rewrite evict_stale_unfold.
  destruct (evict_excess_cases
    (filter (λ ip, is_Some (active now keep (per_ip shard) !! ip)) (iter (per_ip shard)))
    (max_tracked_ips_per_shard cfg) keep (active now keep (per_ip shard)) ip)
    as [E|(Hk & E & Hcap)]; rewrite E.
  - unfold active. rewrite map_lookup_filter.
    destruct (per_ip shard !! ip) as [s|] eqn:Es; [|by left]. cbn.
    destruct (decide (idle (now - idle_ttl_ms cfg) keep ip s)) as [[H1 H2]|H].
    + right. split_and!; [done| |by eauto]. unfold guard. case_decide; [|done].
      exfalso. by match goal with H : ¬ _ |- _ => apply H end.
    + left. unfold guard. by case_decide.
  - destruct (per_ip shard !! ip) as [s|] eqn:Es; [|by left].
    right. split_and!; [done..|]. exists s. split; [done|]. right.
    pose proof (active_size now keep (per_ip shard)). lia.
Qed.

Lemma evict_stale_size shard now keep :
  0 ≤ max_tracked_ips_per_shard cfg →
  Z.of_nat (size (per_ip (evict_stale iter cfg shard now keep)))
    ≤ Z.max 1 (max_tracked_ips_per_shard cfg).
Proof using All.
  intros Hcap. rewrite evict_stale_unfold. apply evict_excess_size; [done|].
  intros ip Hip. left. apply list_elem_of_filter. split; [done|].
  apply key_order_elem. destruct Hip as [s Hs].
  apply map_lookup_filter_Some in Hs as [Hs _]. by exists s.
Qed.

(** ** The bound on one shard *)

Definition shard_ok (shard : Shard) : Prop :=
  0 ≤ observations_since_sweep shard < Z.max 1 (sweep_interval_packets cfg) ∧
  Z.of_nat (size (per_ip shard))
    ≤ Z.max 1 (max_tracked_ips_per_shard cfg) + observations_since_sweep shard.

Lemma shard_ok_empty : shard_ok (mk_Shard ∅ 0).
Proof. unfold shard_ok. cbn. rewrite map_size_empty. lia. Qed.

Lemma size_insert_le {V} (m : gmap Z V) k v : (size (<[k := v]> m) ≤ S (size m))%nat.
Proof.
  destruct (m !! k) eqn:E.
  - rewrite map_size_insert_Some by eauto. lia.
  - rewrite map_size_insert_None by done. lia.
Qed.

Lemma observe_shard_ok m shard :
  is_uint 64 (sweep_interval_packets cfg) → 0 ≤ max_tracked_ips_per_shard cfg →
  shard_ok shard → shard_ok (observe_shard iter cfg m shard).1.
Proof using All.
  intros Hint Hcap [Hobs Hsize]. unfold observe_shard.
  destruct (observe_ip cfg m _) as [s alerts].
  unfold is_uint in Hint.
  rewrite wrap_small by (unfold is_uint; lia).
  destruct (Z.leb_spec (sweep_interval_packets cfg) (observations_since_sweep shard + 1));
    unfold shard_ok; cbn [fst observations_since_sweep evict_stale].
  - split; [lia|]. rewrite Z.add_0_r. by apply evict_stale_size.
  - cbn [per_ip]. split; [lia|].
    pose proof (size_insert_le (per_ip shard) (src_ip m) s). lia.
Qed.

End Sweep.

(** ** The tracker *)

Section Tracker.
Context (hash32 : Z → Z) (iter : gmap Z PerIpState → list Z) `{!KeyOrder iter}.

(** The record of one source. *)
Definition tracked (t : FlowTracker) (ip : Z) : option PerIpState :=
  shards_ t !! shard_index hash32 t ip ≫= λ shard, per_ip shard !! ip.

Definition state_of (t : FlowTracker) (ip : Z) : PerIpState :=
  default PerIpState_default (tracked t ip).

(** There is a shard, and every record is in the shard of its address. *)
Definition placed (t : FlowTracker) : Prop :=
  shards_ t ≠ [] ∧
  ∀ i shard ip, shards_ t !! i = Some shard → is_Some (per_ip shard !! ip) →
    shard_index hash32 t ip = i.

Lemma shard_index_lt t ip : shards_ t ≠ [] → (shard_index hash32 t ip < length (shards_ t))%nat.
Proof.
  intros H. unfold shard_index, Zlength.
  assert (0 < length (shards_ t))%nat by (destruct (shards_ t); cbn; [done|lia]).
  pose proof (Z.mod_pos_bound (hash32 ip) (Z.of_nat (length (shards_ t))) ltac:(lia)). lia.
Qed.

Lemma shard_for_exists t ip : shards_ t ≠ [] →
  ∃ shard, shards_ t !! shard_index hash32 t ip = Some shard.
Proof. intros H. by apply lookup_lt_is_Some_2, shard_index_lt. Qed.

Lemma FlowTracker_new_placed cfg : 0 ≤ num_shards cfg → placed (FlowTracker_new cfg).
Proof.
  intros H. unfold FlowTracker_new. split; cbn [shards_].
  - destruct (Z.eqb_spec (num_shards cfg) 0); [done|].
    destruct (Z.to_nat (num_shards cfg)) eqn:E; [lia|done].
  - intros i shard ip [-> _]%lookup_replicate [s Hs]. done.
Qed.

Lemma observe_no_ip t p : has_ip (meta p) = false → observe hash32 iter t p = (t, []).
Proof. unfold observe. by intros ->. Qed.

(** One call in terms of the shard it locks. *)
Lemma observe_shard_eq t p shard :
  has_ip (meta p) = true → shards_ t !! shard_index hash32 t (src_ip (meta p)) = Some shard →
  observe hash32 iter t p =
  (mk_FlowTracker (config_ t)
     (<[shard_index hash32 t (src_ip (meta p)) := (observe_shard iter (config_ t) (meta p) shard).1]>
        (shards_ t)),
   (observe_shard iter (config_ t) (meta p) shard).2).
Proof.
  intros Hip Hs. unfold observe. rewrite Hip, Hs. by destruct (observe_shard _ _ _ _).
Qed.

Lemma observe_config t p : config_ (observe hash32 iter t p).1 = config_ t.
Proof.
  unfold observe. destruct (has_ip _); [|done]. destruct (_ !! _); [|done].
  by destruct (observe_shard _ _ _ _).
Qed.

Lemma observe_length t p : length (shards_ (observe hash32 iter t p).1) = length (shards_ t).
Proof.
  unfold observe. destruct (has_ip _); [|done]. destruct (_ !! _); [|done].
  destruct (observe_shard _ _ _ _). apply length_insert.
Qed.

Lemma shard_index_observe t p ip :
  shard_index hash32 (observe hash32 iter t p).1 ip = shard_index hash32 t ip.
Proof. unfold shard_index, Zlength. by rewrite observe_length. Qed.

(** The records of a shard after one packet. *)
Lemma observe_shard_alerts cfg m shard :
  (observe_shard iter cfg m shard).2 =
  (observe_ip cfg m (default PerIpState_default (per_ip shard !! src_ip m))).2.
Proof. unfold observe_shard. destruct (observe_ip _ _ _). by destruct (_ <=? _). Qed.

Lemma observe_shard_cases cfg m shard ip :
  let s' := (observe_ip cfg m (default PerIpState_default (per_ip shard !! src_ip m))).1 in
  let shard' := (observe_shard iter cfg m shard).1 in
  (ip = src_ip m ∧ per_ip shard' !! ip = Some s') ∨
  (ip ≠ src_ip m ∧ per_ip shard' !! ip = per_ip shard !! ip) ∨
  (ip ≠ src_ip m ∧ per_ip shard' !! ip = None ∧
   ∃ s, per_ip shard !! ip = Some s ∧
        (last_seen_ms s < ms m - idle_ttl_ms cfg ∨
         max_tracked_ips_per_shard cfg
           < Z.of_nat (size (<[src_ip m := s']> (per_ip shard))))).
Proof using All.
  cbv zeta. unfold observe_shard.
  destruct (observe_ip cfg m _) as [s alerts]. cbn [fst].
  assert (Hins : per_ip (mk_Shard (<[src_ip m := s]> (per_ip shard)) 0) !! ip =
    if decide (src_ip m = ip) then Some s else per_ip shard !! ip).
  { cbn. destruct (decide (src_ip m = ip)) as [<-|]; [apply lookup_insert_eq|by apply lookup_insert_ne]. }
  destruct (_ <=? _).
  - cbn [fst per_ip].
    destruct (evict_stale_cases iter cfg (mk_Shard (<[src_ip m:=s]> (per_ip shard)) 0)
                (timeval_to_ms (timestamp m)) (src_ip m) ip) as [E|(Hne & E & s' & Hs' & Hor)];
      rewrite E.
    + rewrite Hins. case_decide; [left|right; left]; by split.
    + right; right. split_and!; [done..|]. exists s'. split; [|done].
      rewrite Hins in Hs'. by rewrite decide_False in Hs' by done.
  - cbn [fst per_ip] in *. rewrite Hins. case_decide; [left|right; left]; by split.
Qed.

Lemma observe_tracked t p ip :
  placed t → has_ip (meta p) = true →
  let m := meta p in
  let t' := (observe hash32 iter t p).1 in
  (ip = src_ip m ∧
   tracked t' ip = Some (observe_ip (config_ t) m (state_of t ip)).1) ∨
  (ip ≠ src_ip m ∧ tracked t' ip = tracked t ip) ∨
  (ip ≠ src_ip m ∧ tracked t' ip = None ∧
   ∃ s shard, tracked t ip = Some s ∧
     shards_ t !! shard_index hash32 t (src_ip m) = Some shard ∧
     (last_seen_ms s < ms m - idle_ttl_ms (config_ t) ∨
      max_tracked_ips_per_shard (config_ t)
        < Z.of_nat (size (<[src_ip m := (observe_ip (config_ t) m (state_of t (src_ip m))).1]>
                            (per_ip shard))))).
Proof using All.
  intros [Hne Hplaced] Hip m t'.
  destruct (shard_for_exists t (src_ip m) Hne) as [shard Hshard].
  assert (Hst : state_of t (src_ip m) = default PerIpState_default (per_ip shard !! src_ip m)).
  { unfold state_of, tracked. by rewrite Hshard. }
  assert (Ht' : tracked t' ip =
    if decide (shard_index hash32 t ip = shard_index hash32 t (src_ip m))
    then per_ip (observe_shard iter (config_ t) m shard).1 !! ip else tracked t ip).
  { unfold tracked, t'. rewrite shard_index_observe. rewrite (observe_shard_eq t p shard) by done. cbn [fst shards_].
    destruct (decide (shard_index hash32 t ip = shard_index hash32 t (src_ip m))) as [E|E].
    - unfold m in *. rewrite E, list_lookup_insert_eq by by apply shard_index_lt. done.
    - by rewrite list_lookup_insert_ne by (unfold m in *; congruence). }
  rewrite Ht'. case_decide as Hidx.
  - assert (Htip : tracked t ip = per_ip shard !! ip) by (unfold tracked; by rewrite Hidx, Hshard).
    rewrite Hst.
    destruct (observe_shard_cases (config_ t) m shard ip) as [[-> E]|[[H E]|(H & E & s & Hs & Hor)]].
    + left. split; [done|]. by rewrite E, Hst.
    + right; left. by rewrite E, Htip.
    + right; right. split_and!; [done..|]. exists s, shard. by rewrite Htip.
  - right; left. split; [|done]. by intros ->.
Qed.

Lemma observe_alerts t p :
  shards_ t ≠ [] → has_ip (meta p) = true →
  (observe hash32 iter t p).2 =
  (observe_ip (config_ t) (meta p) (state_of t (src_ip (meta p)))).2.
Proof.
  intros Hne Hip. destruct (shard_for_exists t (src_ip (meta p)) Hne) as [shard Hshard].
  rewrite (observe_shard_eq t p shard) by done. cbn [snd].
  rewrite observe_shard_alerts. unfold state_of, tracked. by rewrite Hshard.
Qed.

Lemma observe_placed t p : placed t → placed (observe hash32 iter t p).1.
Proof using All.
  intros Hpl. pose proof Hpl as [Hne Hplaced]. split.
  { intros E. apply (f_equal length) in E. rewrite observe_length in E.
    by destruct (shards_ t). }
  intros i shard' ip Hi His. rewrite shard_index_observe.
  destruct (has_ip (meta p)) eqn:Hip; [|rewrite observe_no_ip in Hi by done; by eapply Hplaced].
  destruct (shard_for_exists t (src_ip (meta p)) Hne) as [shard Hshard].
  rewrite (observe_shard_eq t p shard) in Hi by done. cbn [fst shards_] in Hi.
  apply list_lookup_insert_Some in Hi as [(<- & <- & _)|[Hi Hl]]; [|by eapply Hplaced].
  destruct (observe_shard_cases (config_ t) (meta p) shard ip) as [[-> _]|[[_ E]|(_ & E & _)]];
    [done| |rewrite E in His; by destruct His].
  rewrite E in His. by eapply Hplaced.
Qed.

End Tracker.

(** ** Traces *)

Section Runs.
Context (hash32 : Z → Z) (iter : gmap Z PerIpState → list Z) `{!KeyOrder iter}.

Lemma observe_all_cons t p rest :
  observe_all hash32 iter t (p :: rest) =
  ((observe_all hash32 iter (observe hash32 iter t p).1 rest).1,
   (observe hash32 iter t p).2 :: (observe_all hash32 iter (observe hash32 iter t p).1 rest).2).
Proof.
  cbn [observe_all]. destruct (observe _ _ t p) as [t' alerts]. cbn [fst snd].
  by destruct (observe_all _ _ t' rest).
Qed.

Definition tracker_ok (cfg : FlowTrackerConfig) (t : FlowTracker) : Prop :=
  Forall (shard_ok cfg) (shards_ t).

Lemma observe_tracker_ok t p :
  is_uint 64 (sweep_interval_packets (config_ t)) →
  0 ≤ max_tracked_ips_per_shard (config_ t) →
  tracker_ok (config_ t) t → tracker_ok (config_ t) (observe hash32 iter t p).1.
Proof using All.
  unfold tracker_ok, observe. intros Hint Hcap Hok. destruct (has_ip _); [|done].
  destruct (_ !! _) as [shard|] eqn:E; [|done].
  destruct (observe_shard _ _ _ _) as [shard' alerts] eqn:E'. cbn [fst shards_].
  apply Forall_insert; [done|]. replace shard' with (observe_shard iter (config_ t) (meta p) shard).1
    by by rewrite E'.
  apply observe_shard_ok; [done..|]. rewrite Forall_lookup in Hok. by eapply Hok.
Qed.

Lemma observe_all_tracker_ok packets t :
  is_uint 64 (sweep_interval_packets (config_ t)) →
  0 ≤ max_tracked_ips_per_shard (config_ t) →
  tracker_ok (config_ t) t →
  let t' := (observe_all hash32 iter t packets).1 in
  tracker_ok (config_ t) t' ∧ length (shards_ t') = length (shards_ t).
Proof using All.
  intros Hint Hcap. revert t Hint Hcap. induction packets as [|p rest IH]; intros t Hint Hcap Hok; [done|].
  rewrite observe_all_cons. cbn [fst].
  pose proof (observe_config hash32 iter t p) as Hc.
  destruct (IH (observe hash32 iter t p).1) as [H1 H2]; rewrite ?Hc; [done..| |].
  - by apply observe_tracker_ok.
  - rewrite Hc in H1. split; [done|]. by rewrite H2, observe_length.
Qed.

Lemma tracked_ip_count_le t b :
  Forall (λ shard, Z.of_nat (size (per_ip shard)) ≤ b) (shards_ t) →
  tracked_ip_count t ≤ Zlength (shards_ t) * b.
Proof.
  intros H. unfold tracked_ip_count.
  enough (E : ∀ acc, fold_left (λ total shard, total + Z.of_nat (size (per_ip shard))) (shards_ t) acc
                ≤ acc + Zlength (shards_ t) * b) by apply E.
  induction H as [|shard l Hs _ IH]; intros acc; cbn [fold_left].
  - unfold Zlength. cbn. lia.
  - rewrite Zlength_cons. specialize (IH (acc + Z.of_nat (size (per_ip shard)))). lia.
Qed.

(** *** The work of one shard *)

Fixpoint shard_run (cfg : FlowTrackerConfig) (shard : Shard) (packets : list QueuedPacket)
    : Shard * list (list Alert) :=
  match packets with
  | [] => (shard, [])
  | p :: rest =>
      let '(shard, alerts) := observe_shard iter cfg (meta p) shard in
      let '(shard, more) := shard_run cfg shard rest in
      (shard, alerts :: more)
  end.

(** The packets a tracker of [n] shards sends to shard [i]. *)
Definition on_shard (n : Z) (i : nat) (p : QueuedPacket) : Prop :=
  has_ip (meta p) = true ∧ Z.to_nat (hash32 (src_ip (meta p)) mod n) = i.

#[export] Instance on_shard_dec n i p : Decision (on_shard n i p).
Proof. unfold on_shard. apply _. Defined.

(** The alerts of the packets of one shard, call by call. *)
Definition alerts_on (n : Z) (i : nat) (packets : list QueuedPacket) (out : list (list Alert))
    : list (list Alert) :=
  (filter (λ x, on_shard n i x.1) (zip packets out)).*2.

Lemma observe_all_shard packets t i shard :
  shards_ t !! i = Some shard →
  let n := Zlength (shards_ t) in
  let r := shard_run (config_ t) shard (filter (on_shard n i) packets) in
  shards_ (observe_all hash32 iter t packets).1 !! i = Some r.1 ∧
  alerts_on n i packets (observe_all hash32 iter t packets).2 = r.2.
Proof using Type.
  revert t shard. induction packets as [|p rest IH]; intros t shard Hi n r; [done|].
  rewrite observe_all_cons. cbn [fst snd]. unfold r, alerts_on. cbn [zip_with].
  rewrite !filter_cons. cbn [fst].
  assert (Hn : Zlength (shards_ (observe hash32 iter t p).1) = n).
  { unfold n, Zlength. by rewrite observe_length. }
  destruct (decide (on_shard n i p)) as [[Hip Hidx]|Hoff].
  - assert (Hsh : shards_ t !! shard_index hash32 t (src_ip (meta p)) = Some shard)
      by (unfold shard_index; fold n; by rewrite Hidx).
    rewrite (observe_shard_eq hash32 iter t p shard Hip Hsh) in *. cbn [fst snd] in *.
    cbn [shard_run]. destruct (observe_shard iter (config_ t) (meta p) shard) as [sh' alerts].
    cbn [fst snd] in *.
    destruct (IH (mk_FlowTracker (config_ t)
                   (<[shard_index hash32 t (src_ip (meta p)):=sh']> (shards_ t))) sh') as [A B].
    { cbn [shards_]. unfold shard_index. fold n. rewrite Hidx.
      apply list_lookup_insert_eq. by eapply lookup_lt_Some. }
    cbn [shards_ config_] in Hn, A, B. rewrite Hn in A, B.
    destruct (shard_run (config_ t) sh' _) as [sh'' more]. cbn [fst snd] in *.
    split; [done|]. rewrite fmap_cons. by f_equal.
  - pose proof (observe_config hash32 iter t p) as Hc.
    destruct (IH (observe hash32 iter t p).1 shard) as [A B].
    { destruct (has_ip (meta p)) eqn:Hip; [|by rewrite observe_no_ip].
      unfold observe. rewrite Hip. destruct (shards_ t !! shard_index _ _ _) eqn:E; [|done].
      destruct (observe_shard _ _ _ _). cbn [fst shards_]. rewrite list_lookup_insert_ne; [done|].
      intros Hidx. apply Hoff. by split. }
    rewrite Hn, Hc in A, B. by split.
Qed.

(** *** The reference rules of every source *)

Definition ref_of (R : gmap Z ref_state) (ip : Z) : ref_state := default ref_default (R !! ip).

Definition ref_tracker_observe (cfg : FlowTrackerConfig) (R : gmap Z ref_state) (p : QueuedPacket)
    : gmap Z ref_state * list Alert :=
  let m := meta p in
  if has_ip m then
    let '(r, alerts) := ref_observe cfg m (ref_of R (src_ip m)) in
    (<[src_ip m := r]> R, alerts)
  else (R, []).

Fixpoint ref_tracker_all (cfg : FlowTrackerConfig) (R : gmap Z ref_state)
    (packets : list QueuedPacket) : gmap Z ref_state * list (list Alert) :=
  match packets with
  | [] => (R, [])
  | p :: rest =>
      let '(R, alerts) := ref_tracker_observe cfg R p in
      let '(R, more) := ref_tracker_all cfg R rest in
      (R, alerts :: more)
  end.

(** The IPv4 packets of a trace, and their distinct sources. *)
Definition ip_packets (packets : list QueuedPacket) : list ParsedPacket :=
  filter (λ m, has_ip m = true) (meta <$> packets).

Definition sources (packets : list QueuedPacket) : gset Z :=
  list_to_set (src_ip <$> ip_packets packets).

End Runs.

(** ** Simulation of the reference rules by the whole tracker *)

Lemma observe_ip_last_seen cfg m s : last_seen_ms (observe_ip cfg m s).1 = ms m.
Proof.
  unfold observe_ip, port_scan_rule, syn_flood_rule. fold (ms m).
  repeat (case_match; simplify_eq/=; try done).
Qed.

Lemma ref_observe_alert_le cfg m r B :
  B ≤ ms m →
  (∀ t, ref_scan_alert r = Some t → t ≤ B) → (∀ t, ref_flood_alert r = Some t → t ≤ B) →
  (∀ t, ref_scan_alert (ref_observe cfg m r).1 = Some t → t ≤ ms m) ∧
  (∀ t, ref_flood_alert (ref_observe cfg m r).1 = Some t → t ≤ ms m).
Proof.
  intros HB Hs Hf.
  assert (D : ∀ last, (∀ t, last = Some t → t ≤ B) →
                      ∀ t, (debounce_allows cfg last (ms m)).2 = Some t → t ≤ ms m).
  { intros last Hl t. destruct (debounce_spec cfg last (ms m)) as [->|[-> _]]; cbn.
    - intros E. specialize (Hl t E). lia.
    - intros [= <-]. lia. }
  unfold ref_observe, ref_scan, ref_flood.
  set (h := history r ++ [m]).
  specialize (D (ref_scan_alert r) Hs) as D1. specialize (D (ref_flood_alert r) Hf) as D2.
  destruct (debounce_allows cfg (ref_scan_alert r) (ms m)),
    (debounce_allows cfg (ref_flood_alert r) (ms m)). cbn [snd] in *.
  destruct (is_connection_attempt m && _), (is_tcp m && _); cbn; split; try done; intros t E;
    first [specialize (Hs t E); lia | specialize (Hf t E); lia].
Qed.

(** What one source's record and reference state have in common at time [T];
    the history and the alert times are no later than the record's last packet. *)
Definition seen_until (T : Z) (o : option PerIpState) : Z :=
  match o with Some s => last_seen_ms s | None => T end.

Record source_rel (cfg : FlowTrackerConfig) (T : Z) (r : ref_state) (o : option PerIpState)
    : Prop := {
  sr_rel : ip_rel cfg T r (default PerIpState_default o);
  sr_sorted : in_time_order (history r);
  sr_until : seen_until T o ≤ T;
  sr_history : Forall (λ m, ms m ≤ seen_until T o) (history r);
  sr_scan : ∀ t, ref_scan_alert r = Some t → t ≤ seen_until T o;
  sr_flood : ∀ t, ref_flood_alert r = Some t → t ≤ seen_until T o
}.

Lemma source_rel_mono cfg T T' r o : T ≤ T' → source_rel cfg T r o → source_rel cfg T' r o.
Proof.
  intros HT [H1 H2 H3 H4 H5 H6].
  assert (Hle : seen_until T o ≤ seen_until T' o) by (destruct o; cbn; lia).
  split; [by eapply ip_rel_mono|done|destruct o; cbn in *; lia| | |].
  - eapply Forall_impl; [exact H4|]. cbn. lia.
  - intros t E. specialize (H5 t E). lia.
  - intros t E. specialize (H6 t E). lia.
Qed.

Lemma in_time_order_snoc h m :
  in_time_order h → Forall (λ m', ms m' ≤ ms m) h → in_time_order (h ++ [m]).
Proof.
  unfold in_time_order. rewrite fmap_app. induction h as [|x h IH]; intros Hs Hle; cbn in *.
  - repeat constructor.
  - apply StronglySorted_inv in Hs as [Hs Hx]. apply Forall_cons in Hle as [Hxm Hle].
    constructor; [by apply IH|]. apply Forall_app. split; [done|]. by constructor.
Qed.

(** The source of the packet. *)
Lemma source_rel_observe cfg T r o m :
  source_rel cfg T r o → T ≤ ms m → Zlength (history r) + 1 < 2 ^ 32 →
  let s := default PerIpState_default o in
  (observe_ip cfg m s).2 = (ref_observe cfg m r).2 ∧
  source_rel cfg (ms m) (ref_observe cfg m r).1 (Some (observe_ip cfg m s).1).
Proof.
  intros [H1 H2 H3 H4 H5 H6] HT Hlen s.
  assert (Hall : Forall (λ m', ms m' ≤ ms m) (history r))
    by (eapply Forall_impl; [exact H4|]; cbn; lia).
  pose proof (in_time_order_snoc _ _ H2 Hall) as Hsorted.
  destruct (observe_ip_ref cfg T m r s H1 HT Hsorted Hlen) as [A B]. split; [done|].
  destruct (ref_observe_alert_le cfg m r (seen_until T o)) as [C D]; [lia|done..|].
  split; cbn [default seen_until]; rewrite ?observe_ip_last_seen, ?ref_observe_history; try done.
  apply Forall_app. split; [done|]. by constructor.
Qed.

(** A source whose idle record a sweep drops. *)
Lemma source_rel_forget cfg T T' r s :
  port_scan_window_ms cfg ≤ idle_ttl_ms cfg → syn_flood_window_ms cfg ≤ idle_ttl_ms cfg →
  alert_debounce_ms cfg ≤ idle_ttl_ms cfg →
  source_rel cfg T r (Some s) → T ≤ T' → last_seen_ms s < T' - idle_ttl_ms cfg →
  source_rel cfg T' r None.
Proof.
  intros Hw1 Hw2 Hd [H1 H2 H3 H4 H5 H6] HT Hidle. cbn [seen_until] in *.
  split; cbn [default seen_until]; try done.
  - apply (ip_rel_forget cfg (last_seen_ms s)); try done; lia.
  - eapply Forall_impl; [exact H4|]. cbn. lia.
  - intros t E. specialize (H5 t E). lia.
  - intros t E. specialize (H6 t E). lia.
Qed.

Section Simulation.
Context (hash32 : Z → Z) (iter : gmap Z PerIpState → list Z) `{!KeyOrder iter}.
Context (cfg : FlowTrackerConfig) (ips : gset Z).
Hypothesis (Hw1 : port_scan_window_ms cfg ≤ idle_ttl_ms cfg).
Hypothesis (Hw2 : syn_flood_window_ms cfg ≤ idle_ttl_ms cfg).
Hypothesis (Hd : alert_debounce_ms cfg ≤ idle_ttl_ms cfg).
Hypothesis (Hcap : Z.of_nat (size ips) ≤ max_tracked_ips_per_shard cfg).

(** [k]: how many packets are still to come. *)
Record tracker_rel (T k : Z) (R : gmap Z ref_state) (t : FlowTracker) : Prop := {
  tr_config : config_ t = cfg;
  tr_placed : placed hash32 t;
  tr_ips : ∀ ip, is_Some (tracked hash32 t ip) → ip ∈ ips;
  tr_source : ∀ ip, source_rel cfg T (ref_of R ip) (tracked hash32 t ip);
  tr_length : ∀ ip, Zlength (history (ref_of R ip)) + k < 2 ^ 32
}.

(** A shard never holds more than the sources of the trace. *)
Lemma tracker_rel_no_excess T k R t m i shard s :
  tracker_rel T k R t → src_ip m ∈ ips → shards_ t !! i = Some shard →
  Z.of_nat (size (<[src_ip m := s]> (per_ip shard))) ≤ max_tracked_ips_per_shard cfg.
Proof using Hcap.
  intros [_ [_ Hpl] Hips _ _] Hm Hi. transitivity (Z.of_nat (size ips)); [|done].
  apply inj_le. rewrite <- size_dom. apply subseteq_size.
  intros ip Hip%elem_of_dom. destruct (decide (src_ip m = ip)) as [<-|Hne]; [done|].
  rewrite lookup_insert_ne in Hip by done. apply Hips. unfold tracked.
  by rewrite (Hpl i shard ip), Hi.
Qed.

Lemma ref_of_observe R p ip :
  has_ip (meta p) = true →
  ref_of (ref_tracker_observe cfg R p).1 ip =
  if decide (ip = src_ip (meta p)) then (ref_observe cfg (meta p) (ref_of R ip)).1 else ref_of R ip.
Proof.
  intros Hip. unfold ref_tracker_observe. rewrite Hip.
  destruct (ref_observe cfg (meta p) (ref_of R (src_ip (meta p)))) as [r a] eqn:E. cbn [fst].
  unfold ref_of at 1. case_decide as Hi.
  - rewrite Hi, lookup_insert_eq, E. done.
  - by rewrite lookup_insert_ne.
Qed.

Lemma tracker_rel_observe T k R t p :
  tracker_rel T k R t → 1 ≤ k → has_ip (meta p) = true → src_ip (meta p) ∈ ips →
  T ≤ ms (meta p) →
  (observe hash32 iter t p).2 = (ref_tracker_observe cfg R p).2 ∧
  tracker_rel (ms (meta p)) (k - 1) (ref_tracker_observe cfg R p).1 (observe hash32 iter t p).1.
Proof using All.
  intros Hrel Hk Hip Hsrc HT. pose proof Hrel as [Hc Hpl Hips Hsr Hlen].
  destruct (source_rel_observe cfg T (ref_of R (src_ip (meta p))) (tracked hash32 t (src_ip (meta p))) (meta p) (Hsr (src_ip (meta p))) HT)
    as [Halerts Hnew]; [specialize (Hlen (src_ip (meta p))); lia|].
  split.
  { rewrite observe_alerts by (done || apply Hpl). rewrite Hc. unfold state_of.
    rewrite Halerts. unfold ref_tracker_observe. rewrite Hip.
    by destruct (ref_observe _ _ _). }
  assert (Hcases : ∀ ip, source_rel cfg (ms (meta p)) (ref_of (ref_tracker_observe cfg R p).1 ip)
                           (tracked hash32 (observe hash32 iter t p).1 ip)).
  { intros ip. rewrite ref_of_observe by done.
    destruct (observe_tracked hash32 iter t p ip Hpl Hip) as [[Heq ->]|[[Hne ->]|(Hne & -> & H)]].
    - rewrite decide_True by done. by rewrite Heq, Hc.
    - rewrite decide_False by done. by eapply source_rel_mono, Hsr.
    - rewrite decide_False by done. destruct H as (s & shard & Hs & Hshard & Hor).
      specialize (Hsr ip). rewrite Hs in Hsr. rewrite Hc in Hor.
      destruct Hor as [Hidle|Hover]; [by eapply source_rel_forget|].
      exfalso. pose proof (tracker_rel_no_excess T k R t (meta p) _ shard
        (observe_ip cfg (meta p) (state_of hash32 t (src_ip (meta p)))).1 Hrel Hsrc Hshard).
      lia. }
  split; [by rewrite observe_config|by apply observe_placed| |done|].
  - intros ip [s Hs].
    destruct (observe_tracked hash32 iter t p ip Hpl Hip) as [[Heq _]|[[_ E]|(_ & E & _)]];
      [by rewrite Heq| |by rewrite E in Hs].
    apply Hips. exists s. by rewrite <- E.
  - intros ip. rewrite ref_of_observe by done. specialize (Hlen ip).
    case_decide; [|lia]. rewrite ref_observe_history, Zlength_app.
    unfold Zlength in *. cbn [length]. lia.
Qed.

Lemma ip_packets_cons p packets :
  ip_packets (p :: packets) =
  if has_ip (meta p) then meta p :: ip_packets packets else ip_packets packets.
Proof. unfold ip_packets. rewrite fmap_cons, filter_cons. by destruct (has_ip (meta p)). Qed.

Lemma tracker_rel_weaken T k k' R t : k' ≤ k → tracker_rel T k R t → tracker_rel T k' R t.
Proof.
  intros Hk [H1 H2 H3 H4 H5]. split; try done. intros ip. specialize (H5 ip). lia.
Qed.

Lemma observe_all_sim packets T R t :
  tracker_rel T (Zlength packets) R t → sources packets ⊆ ips →
  Forall (λ m, T ≤ ms m) (ip_packets packets) → in_time_order (ip_packets packets) →
  (observe_all hash32 iter t packets).2 = (ref_tracker_all cfg R packets).2.
Proof using All.
  revert T R t. induction packets as [|p rest IH]; intros T R t Hrel Hips Hlater Hsorted; [done|].
  rewrite observe_all_cons. cbn [ref_tracker_all snd]. rewrite Zlength_cons in Hrel.
  pose proof (Zlength_nonneg rest).
  unfold sources in Hips. rewrite ip_packets_cons in *.
  destruct (has_ip (meta p)) eqn:Hip.
  - apply Forall_cons in Hlater as [HT Hlater].
    cbn [fmap list_fmap list_to_set] in Hips.
    destruct (tracker_rel_observe T _ R t p Hrel) as [Ha Hrel']; [lia|done|set_solver|done|].
    rewrite Ha. destruct (ref_tracker_observe cfg R p) as [R' a]. cbn [fst snd] in *.
    rewrite (IH (ms (meta p)) R').
    + by destruct (ref_tracker_all cfg R' rest).
    + by eapply tracker_rel_weaken, Hrel'; lia.
    + unfold sources. set_solver.
    + by apply in_time_order_from.
    + by apply (in_time_order_app [meta p]) in Hsorted as [_ ?].
  - rewrite observe_no_ip by done. unfold ref_tracker_observe. rewrite Hip. cbn [fst snd].
    rewrite (IH T R); [|by eapply tracker_rel_weaken, Hrel; lia|done..].
    by destruct (ref_tracker_all cfg R rest).
Qed.

Lemma tracker_rel_new T k :
  1 ≤ num_shards cfg → k < 2 ^ 32 → tracker_rel T k ∅ (FlowTracker_new cfg).
Proof using All.
  intros Hn Hk.
  assert (E : ∀ ip, tracked hash32 (FlowTracker_new cfg) ip = None).
  { intros ip. unfold tracked. destruct (_ !! _) as [shard|] eqn:E; [|done].
    cbn in E. apply lookup_replicate in E as [-> _]. done. }
  split.
  - unfold FlowTracker_new. cbn. rewrite (proj2 (Z.eqb_neq _ _)) by lia. by destruct cfg.
  - apply FlowTracker_new_placed. lia.
  - intros ip [s Hs]. by rewrite E in Hs.
  - intros ip. rewrite E. unfold ref_of. rewrite lookup_empty. cbn.
    split; cbn; try done. apply ip_rel_default. constructor.
  - intros ip. unfold ref_of. rewrite lookup_empty. unfold Zlength. cbn. lia.
Qed.

End Simulation.

(** ** Properties *)

(** C1. The tracker implements the reference rules: on a trace whose IPv4
    packets are in time order, with windows and debounce no longer than the idle
    time and no more distinct sources than the per-shard cap, the sharded,
    swept, evicting tracker raises for every packet exactly the alerts of the
    reference rules that keep and rescan every source's whole history; whatever
    the hash, the number of shards, the sweep interval and the iteration order
    of the maps. *)
Theorem tracker_refines_reference hash32 iter `{!KeyOrder iter} cfg packets :
  1 ≤ num_shards cfg →
  port_scan_window_ms cfg ≤ idle_ttl_ms cfg → syn_flood_window_ms cfg ≤ idle_ttl_ms cfg →
  alert_debounce_ms cfg ≤ idle_ttl_ms cfg →
  Z.of_nat (size (sources packets)) ≤ max_tracked_ips_per_shard cfg →
  in_time_order (ip_packets packets) → Zlength packets < 2 ^ 32 →
  (observe_all hash32 iter (FlowTracker_new cfg) packets).2 = (ref_tracker_all cfg ∅ packets).2.
Proof.
  intros Hn Hw1 Hw2 Hd Hcap Hsorted Hlen.
  set (T := match ip_packets packets with m :: _ => ms m | [] => 0 end).
  apply (observe_all_sim hash32 iter cfg (sources packets) Hw1 Hw2 Hd Hcap packets T).
  - by apply (tracker_rel_new hash32 iter).
  - done.
  - unfold T. destruct (ip_packets packets) as [|m rest]; [constructor|].
    constructor; [done|by apply in_time_order_from].
  - done.
Qed.

(** C18. Tracked state is bounded: after any sequence of observations, in any
    time order and from any sources, the tracker holds at most
    [cap + sweep interval - 1] records per shard (each at least 1). *)
Theorem tracked_ip_count_bounded hash32 iter `{!KeyOrder iter} cfg packets :
  is_uint 64 (num_shards cfg) → is_uint 64 (sweep_interval_packets cfg) →
  is_uint 64 (max_tracked_ips_per_shard cfg) →
  tracked_ip_count (observe_all hash32 iter (FlowTracker_new cfg) packets).1 ≤
  Z.max 1 (num_shards cfg) *
    (Z.max 1 (max_tracked_ips_per_shard cfg) + Z.max 1 (sweep_interval_packets cfg) - 1).
Proof.
  intros [Hn _] Hint [Hcap _]. set (t := FlowTracker_new cfg).
  destruct (observe_all_tracker_ok hash32 iter packets t) as [Hok Hlen]; [done..| |].
  { unfold tracker_ok, t, FlowTracker_new. cbn [shards_ config_].
    apply Forall_replicate, shard_ok_empty. }
  etransitivity.
  - apply tracked_ip_count_le. eapply Forall_impl; [exact Hok|].
    intros shard [Ho Hs]. unfold t, FlowTracker_new in Ho, Hs. cbn in Ho, Hs.
    instantiate (1 := Z.max 1 (max_tracked_ips_per_shard cfg) +
                      Z.max 1 (sweep_interval_packets cfg) - 1). lia.
  - apply Z.eq_le_incl. f_equal. unfold Zlength. rewrite Hlen. unfold t, FlowTracker_new.
    cbn [shards_]. rewrite length_replicate. destruct (Z.eqb_spec (num_shards cfg) 0); lia.
Qed.

(** C19. Interleaving: the work of one shard depends only on that shard's
    packets.  Two orders of processing that agree shard by shard (which is all
    that the shards' mutexes fix) leave the same tracker and raise, for the
    packets of every shard, the same alerts call by call. *)
Theorem shard_interleaving_irrelevant hash32 iter t packets packets' :
  (∀ i, filter (on_shard hash32 (Zlength (shards_ t)) i) packets =
        filter (on_shard hash32 (Zlength (shards_ t)) i) packets') →
  let r := observe_all hash32 iter t packets in
  let r' := observe_all hash32 iter t packets' in
  (∀ i, shards_ r.1 !! i = shards_ r'.1 !! i) ∧
  ∀ i, (i < length (shards_ t))%nat →
       alerts_on hash32 (Zlength (shards_ t)) i packets r.2 =
       alerts_on hash32 (Zlength (shards_ t)) i packets' r'.2.
Proof.
  intros H r r'.
  assert (Hlen : ∀ l, length (shards_ (observe_all hash32 iter t l).1) = length (shards_ t)).
  { intros l. generalize t. induction l as [|p l IH]; intros t0; [done|].
    rewrite observe_all_cons. cbn [fst]. by rewrite IH, observe_length. }
  assert (Hi : ∀ i shard, shards_ t !! i = Some shard →
    shards_ r.1 !! i = shards_ r'.1 !! i ∧
    alerts_on hash32 (Zlength (shards_ t)) i packets r.2 =
    alerts_on hash32 (Zlength (shards_ t)) i packets' r'.2).
  { intros i shard Hs.
    destruct (observe_all_shard hash32 iter packets t i shard Hs) as [A B].
    destruct (observe_all_shard hash32 iter packets' t i shard Hs) as [A' B'].
    unfold r, r'. by rewrite A, A', B, B', H. }
  split.
  - intros i. destruct (shards_ t !! i) as [shard|] eqn:E; [by eapply Hi|].
    apply lookup_ge_None in E. unfold r, r'.
    by rewrite !lookup_ge_None_2 by by rewrite Hlen.
  - intros i [shard Hs]%lookup_lt_is_Some. by eapply Hi.
Qed.

(** C20. One observation touches one source: the source of the packet gets the
    state the two rules compute from its previous one (a fresh one for an
    unknown source) and is never dropped by its own sweep; every other record is
    unchanged, or was dropped, and then it was idle or its shard was over the
    cap. *)
Theorem observe_one_source hash32 iter `{!KeyOrder iter} t p ip :
  placed hash32 t → has_ip (meta p) = true →
  let m := meta p in
  let r := observe hash32 iter t p in
  let s := observe_ip (config_ t) m (state_of hash32 t (src_ip m)) in
  r.2 = s.2 ∧ tracked hash32 r.1 (src_ip m) = Some s.1 ∧ placed hash32 r.1 ∧
  (ip ≠ src_ip m →
   tracked hash32 r.1 ip = tracked hash32 t ip ∨
   (tracked hash32 r.1 ip = None ∧
    ∃ s0 shard, tracked hash32 t ip = Some s0 ∧
      shards_ t !! shard_index hash32 t (src_ip m) = Some shard ∧
      (last_seen_ms s0 < ms m - idle_ttl_ms (config_ t) ∨
       max_tracked_ips_per_shard (config_ t)
         < Z.of_nat (size (<[src_ip m := s.1]> (per_ip shard)))))).
Proof.
  intros Hpl Hip m r s. split_and!.
  - apply observe_alerts; [apply Hpl|done].
  - destruct (observe_tracked hash32 iter t p (src_ip m) Hpl Hip) as [[_ E]|[[H _]|(H & _)]]; done.
  - by apply observe_placed.
  - intros Hne.
    destruct (observe_tracked hash32 iter t p ip Hpl Hip) as [[H _]|[[_ E]|(_ & E & H)]]; auto.
    done.
Qed.

(** *** Witnesses *)

(** The identity, as [std::hash<uint32_t>] is in the common implementations. *)
Definition id_hash (ip : Z) : Z := ip.

Definition queued (m : ParsedPacket) : QueuedPacket := mk_QueuedPacket m [].

(** A small configuration: two shards, sweeps every second packet, two records
    a shard, windows of 50 and 20 ms, idle after 60 ms. *)
Definition small_config : FlowTrackerConfig := mk_FlowTrackerConfig 2 50 2 20 2 30 60 2 2.

(** Two interleaved scans with a long pause, in which both records expire. *)
Definition two_scans : list QueuedPacket :=
  queued <$>
  [test_packet 0 1 9 40000 80 kTcpFlagSyn; test_packet 5 3 9 40000 80 kTcpFlagSyn;
   test_packet 10 1 9 40000 81 kTcpFlagSyn; test_packet 100 3 9 40000 81 kTcpFlagSyn;
   test_packet 101 3 9 40001 82 kTcpFlagSyn; test_packet 200 1 9 40000 80 kTcpFlagSyn].

Lemma tracker_refines_reference_witness :
  (length <$> (observe_all id_hash map_keys (FlowTracker_new small_config) two_scans).2) =
    [0; 0; 2; 0; 2; 0]%nat ∧
  (observe_all id_hash map_keys (FlowTracker_new small_config) two_scans).2 =
  (ref_tracker_all small_config ∅ two_scans).2.
Proof.
  split; [by vm_compute|].
  apply (tracker_refines_reference id_hash map_keys small_config two_scans); try by_decide.
  unfold in_time_order. vm_compute. repeat constructor; done.
Defined.

(** SYNs of [n] distinct sources, all on shard 0 of 16. *)
Definition spoofed_flood (n : nat) : list QueuedPacket :=
  (λ i, queued (test_packet (Z.of_nat i) (16 * Z.of_nat i) 9 40000 80 kTcpFlagSyn)) <$> seq 0 n.

(** Between sweeps the cap is exceeded: with the default configuration
    (1024 records a shard, a sweep every 256 packets) 1279 packets of distinct
    sources leave 1279 records in one shard, and the next packet's sweep brings
    it back to 1024. *)
Theorem cap_exceeded_between_sweeps :
  let t := (observe_all id_hash map_keys (FlowTracker_new FlowTrackerConfig_default)
              (spoofed_flood 1279)).1 in
  (λ shard, size (per_ip shard)) <$> head (shards_ t) = Some 1279%nat ∧
  tracked_ip_count (observe id_hash map_keys t
    (queued (test_packet 1279 (16 * 1279) 9 40000 80 kTcpFlagSyn))).1 = 1024.
Proof. cbv zeta. split; by vm_compute. Qed.

Lemma tracked_ip_count_bounded_witness :
  tracked_ip_count (observe_all id_hash map_keys (FlowTracker_new FlowTrackerConfig_default)
    (spoofed_flood 300)).1 ≤ 16 * (1024 + 256 - 1).
Proof.
  apply (tracked_ip_count_bounded id_hash map_keys FlowTrackerConfig_default (spoofed_flood 300));
    by_decide.
Defined.

(** Two sources on different shards, their packets interleaved in two ways. *)
Definition order_a : list QueuedPacket :=
  queued <$> [test_packet 0 1 9 1 80 kTcpFlagSyn; test_packet 1 2 9 1 80 kTcpFlagSyn;
              test_packet 2 1 9 1 81 kTcpFlagSyn; test_packet 3 2 9 1 81 kTcpFlagSyn].
Definition order_b : list QueuedPacket :=
  queued <$> [test_packet 1 2 9 1 80 kTcpFlagSyn; test_packet 3 2 9 1 81 kTcpFlagSyn;
              test_packet 0 1 9 1 80 kTcpFlagSyn; test_packet 2 1 9 1 81 kTcpFlagSyn].

Lemma shard_interleaving_irrelevant_witness :
  let t := FlowTracker_new small_config in
  let r := observe_all id_hash map_keys t order_a in
  let r' := observe_all id_hash map_keys t order_b in
  (∀ i, shards_ r.1 !! i = shards_ r'.1 !! i) ∧
  ∀ i, (i < length (shards_ t))%nat →
       alerts_on id_hash (Zlength (shards_ t)) i order_a r.2 =
       alerts_on id_hash (Zlength (shards_ t)) i order_b r'.2.
Proof.
  apply (shard_interleaving_irrelevant id_hash map_keys (FlowTracker_new small_config)
           order_a order_b).
  intros [|[|i]]; by vm_compute.
Defined.

Lemma observe_one_source_witness :
  let t := FlowTracker_new small_config in
  let p := queued (test_packet 0 1 9 40000 80 kTcpFlagSyn) in
  tracked id_hash (observe id_hash map_keys t p).1 1 =
    Some (observe_ip (config_ t) (meta p) (state_of id_hash t 1)).1 ∧
  tracked id_hash (observe id_hash map_keys t p).1 2 = None.
Proof.
  cbv zeta.
  destruct (observe_one_source id_hash map_keys (FlowTracker_new small_config)
              (queued (test_packet 0 1 9 40000 80 kTcpFlagSyn)) 2) as (_ & A & _ & B).
  - by apply FlowTracker_new_placed.
  - done.
  - split; [exact A|]. by vm_compute.
Defined.
