(* ===== verification/PacketQueue.v ===== *)
(** * Bounded packet queue ([include/netsentinel/packet_queue.hpp],
      [src/queue/packet_queue.cpp])

    The state behind [mutex_], and one function per critical section: what a
    thread does between taking the lock and releasing it, by returning, by
    blocking on a condition variable or by unlocking before a notification.
    The notifications, the waiting threads and the timeouts are steps of
    [Pipeline]; the clock readings are arguments. *)
From S2P Require Import Prelude Packet.

Record PacketQueue : Type := mk_PacketQueue {
  items_ : list QueuedPacket;
  capacity_ : Z;
  wanted_ : Z;
  shutdown_ : bool;
  push_wait_ns_ : Z;
  pop_wait_ns_ : Z
}.

Definition PacketQueue_new (capacity : Z) : PacketQueue := mk_PacketQueue [] capacity 1 false 0 0.

Definition set_items (l : list QueuedPacket) (q : PacketQueue) : PacketQueue :=
  mk_PacketQueue l (capacity_ q) (wanted_ q) (shutdown_ q) (push_wait_ns_ q) (pop_wait_ns_ q).

Definition set_wanted (n : Z) (q : PacketQueue) : PacketQueue :=
  mk_PacketQueue (items_ q) (capacity_ q) n (shutdown_ q) (push_wait_ns_ q) (pop_wait_ns_ q).

(** [fetch_add] on the [std::atomic<uint64_t>] totals. *)
Definition add_push_wait (ns : Z) (q : PacketQueue) : PacketQueue :=
  mk_PacketQueue (items_ q) (capacity_ q) (wanted_ q) (shutdown_ q)
    (wrap 64 (push_wait_ns_ q + ns)) (pop_wait_ns_ q).

Definition add_pop_wait (ns : Z) (q : PacketQueue) : PacketQueue :=
  mk_PacketQueue (items_ q) (capacity_ q) (wanted_ q) (shutdown_ q)
    (push_wait_ns_ q) (wrap 64 (pop_wait_ns_ q + ns)).

(** [size]. *)
Definition queue_size (q : PacketQueue) : Z := Zlength (items_ q).

(** ** [push] *)

(** The predicate [push] waits for; its negation is the guard in front. *)
Definition may_push (q : PacketQueue) : bool := (queue_size q <? capacity_ q) || shutdown_ q.

Inductive push_result : Type :=
  | PushBlocked               (* waits on [not_full_] *)
  | PushRefused               (* returns false *)
  | PushQueued (wake : bool). (* unlocked; [wake]: it goes on to notify *)

(** From the lock, or from a wake-up with the time waited so far, to the next
    wait or to the unlock. *)
Definition push (packet : QueuedPacket) (waited_ns : option Z) (q : PacketQueue)
    : PacketQueue * push_result :=
  if may_push q then
    let q := match waited_ns with Some ns => add_push_wait ns q | None => q end in
    if shutdown_ q then (q, PushRefused)
    else
      let q := set_items (items_ q ++ [packet]) q in
      let size := queue_size q in
      (q, PushQueued ((size =? 1) || (size =? wanted_ q)))
  else (q, PushBlocked).

(** ** [pop_batch] *)

Inductive pop_result : Type :=
  | PopWaitItems                                        (* first wait on [not_empty_] *)
  | PopWaitLinger                                       (* second wait, for a full batch *)
  | PopTaken (batch : list QueuedPacket) (more_waiting : bool).

Definition is_empty (q : PacketQueue) : bool :=
  match items_ q with [] => true | _ => false end.

(** The two predicates. *)
Definition may_pop (q : PacketQueue) : bool := negb (is_empty q) || shutdown_ q.
Definition batch_full (max_n : Z) (q : PacketQueue) : bool :=
  (max_n <=? queue_size q) || shutdown_ q.

(** The loop that moves [n] packets from the front of the queue to the batch. *)
Fixpoint take_front (n : nat) (items batch : list QueuedPacket)
    : list QueuedPacket * list QueuedPacket :=
  match n, items with
  | S n, p :: items => take_front n items (batch ++ [p])
  | _, _ => (batch, items)
  end.

Definition pop_take (max_n waited_ns : Z) (q : PacketQueue) : PacketQueue * pop_result :=
  let q := add_pop_wait waited_ns q in
  let n := std_min max_n (queue_size q) in
  let '(batch, rest) := take_front (Z.to_nat n) (items_ q) [] in
  let q := set_items rest q in
  (q, PopTaken batch (negb (is_empty q))).

(** After the first wait. *)
Definition pop_linger_or_take (max_n linger waited_ns : Z) (q : PacketQueue)
    : PacketQueue * pop_result :=
  if negb (is_empty q) && (queue_size q <? max_n) && negb (shutdown_ q) && (0 <? linger)
  then (q, PopWaitLinger)
  else pop_take max_n waited_ns q.

(** First test of the predicate, with [wanted_] set on entry. *)
Definition pop_enter (max_n linger waited_ns : Z) (q : PacketQueue) : PacketQueue * pop_result :=
  let q := set_wanted max_n q in
  if may_pop q then pop_linger_or_take max_n linger waited_ns q else (q, PopWaitItems).

(** Back from the first wait, after a wake-up or a timeout. *)
Definition pop_resume (timed_out : bool) (max_n linger waited_ns : Z) (q : PacketQueue)
    : PacketQueue * pop_result :=
  if may_pop q || timed_out then pop_linger_or_take max_n linger waited_ns q
  else (q, PopWaitItems).

(** Back from the second wait. *)
Definition pop_resume_linger (timed_out : bool) (max_n waited_ns : Z) (q : PacketQueue)
    : PacketQueue * pop_result :=
  if batch_full max_n q || timed_out then pop_take max_n waited_ns q else (q, PopWaitLinger).

(** ** [shutdown], [is_finished] *)

Definition shutdown (q : PacketQueue) : PacketQueue :=
  mk_PacketQueue (items_ q) (capacity_ q) (wanted_ q) true (push_wait_ns_ q) (pop_wait_ns_ q).

Definition is_finished (q : PacketQueue) : bool := shutdown_ q && is_empty q.

(** ** Lemmas *)

Lemma take_front_eq n items batch :
  take_front n items batch = (batch ++ take n items, drop n items).
Proof.
  revert items batch. induction n as [|n IH]; intros [|p items] batch; cbn;
    rewrite ?app_nil_r; try done.
  rewrite IH. by rewrite <- app_assoc.
Qed.

Lemma is_empty_spec q : is_empty q = true ↔ items_ q = [].
Proof. unfold is_empty. by destruct (items_ q). Qed.

Lemma is_empty_false q : is_empty q = false ↔ items_ q ≠ [].
Proof. unfold is_empty. by destruct (items_ q). Qed.

Lemma is_empty_size q : is_empty q = (queue_size q =? 0).
Proof. unfold is_empty, queue_size, Zlength. destruct (items_ q); cbn [length]; [done|]. symmetry. apply Z.eqb_neq. lia. Qed.

(** What [pop_take] takes. *)
Lemma pop_take_eq max_n ns q :
  pop_take max_n ns q =
  (set_items (drop (Z.to_nat max_n) (items_ q)) (add_pop_wait ns q),
   PopTaken (take (Z.to_nat max_n) (items_ q))
     (match drop (Z.to_nat max_n) (items_ q) with [] => false | _ => true end)).
Proof.
  unfold pop_take. rewrite take_front_eq. cbn [app].
  unfold queue_size, std_min, Zlength. cbn [add_pop_wait items_].
  assert (E : ∀ n, take (Z.to_nat (n `min` Z.of_nat (length (items_ q)))) (items_ q) =
                   take (Z.to_nat n) (items_ q) ∧
                   drop (Z.to_nat (n `min` Z.of_nat (length (items_ q)))) (items_ q) =
                   drop (Z.to_nat n) (items_ q)).
  { intros n. destruct (Z.min_spec n (Z.of_nat (length (items_ q)))) as [[_ ->]|[H ->]]; [done|].
    rewrite Nat2Z.id, !take_ge, !drop_ge by lia. done. }
  destruct (E max_n) as [-> ->]. unfold is_empty. cbn [set_items items_].
  by destruct (drop _ _).
Qed.

(** The three entries end in a wait, which leaves the queue as it is up to
    [wanted_], or in [pop_take]. *)
Lemma pop_linger_or_take_cases max_n linger ns q :
  (pop_linger_or_take max_n linger ns q = (q, PopWaitLinger) ∧
   items_ q ≠ [] ∧ queue_size q < max_n ∧ shutdown_ q = false ∧ 0 < linger) ∨
  (pop_linger_or_take max_n linger ns q = pop_take max_n ns q ∧
   (items_ q = [] ∨ max_n ≤ queue_size q ∨ shutdown_ q = true ∨ linger ≤ 0)).
Proof.
  unfold pop_linger_or_take. destruct (is_empty q) eqn:E; cbn [negb andb].
  - right. split; [done|]. left. by apply is_empty_spec.
  - destruct (Z.ltb_spec (queue_size q) max_n); cbn [andb]; [|right; split; [done|lia]].
    destruct (shutdown_ q) eqn:E2; cbn [negb andb]; [right; by auto|].
    destruct (Z.ltb_spec 0 linger); [left|right; split; [done|lia]].
    split_and!; try done. by apply is_empty_false.
Qed.
