(* ===== verification/Pipeline.v ===== *)
(** * The running pipeline ([src/main.cpp], [src/queue/worker_pool.cpp])

    One capture thread that pushes, the workers of [WorkerPool] that pop batches
    and hand them to the callback, and the main thread that joins the capture
    thread, shuts the queue down and joins the workers.  A step is one action of
    one thread: a critical section of [PacketQueue] (the mutex makes it atomic),
    a notification after the unlock, the callback, an atomic counter, a join.
    Waiting threads are woken by notifications, by their timeout, or spuriously.
    The callback itself is opaque here: the model records the batches it is
    given, in order.  The times the threads measure are open too; [PipelineTime]
    fills them in. *)
From S2P Require Import Prelude Packet PacketQueue.

(** ** State *)

(** The parameters of [WorkerPool]; the timeouts are [poll_timeout] (that the
    first wait can time out) and [linger_us]. *)
Record pool_config : Type := mk_pool_config {
  num_workers_ : Z;
  batch_size_ : Z;
  linger_us : Z
}.

(** The constructor. *)
Definition WorkerPool_new (num_workers batch_size linger : Z) : pool_config :=
  mk_pool_config (if num_workers =? 0 then 1 else num_workers) batch_size linger.

Inductive wait_state : Type := Asleep | Woken | TimedOut.

(** Where the capture thread is in the handler's [push]; the packet is the head
    of the packets to come. *)
Inductive producer_pc : Type :=
  | PTop | PWait | PWoken
  | PNotify        (* unlocked, about to [not_empty_.notify_one()] *)
  | PDone.         (* [Capture::run] has returned *)

(** Where a worker is in [worker_loop] and the [pop_batch] it calls. *)
Inductive worker_pc : Type :=
  | WTop
  | WItems (w : wait_state)
  | WLinger (w : wait_state)
  | WNotifyFull (batch : list QueuedPacket) (more : bool)
  | WNotifyMore (batch : list QueuedPacket) (more : bool)
  | WGot (batch : list QueuedPacket)
  | WAnalyzed (batch : list QueuedPacket)
  | WCounted
  | WCheck
  | WExit.

Inductive main_pc : Type :=
  | MJoinCapture | MShutdown | MNotifyFull | MNotifyEmpty
  | MJoin (i : nat)
  | MEnd.

(** [pushed], [taken] and [analyzed] record the packets [push] accepted, the
    batches in the order of their critical sections, and the batches given to
    the callback. *)
Record pipeline : Type := mk_pipeline {
  queue : PacketQueue;
  todo : list QueuedPacket;
  producer : producer_pc;
  workers : list worker_pc;
  main : main_pc;
  processed_ : Z;
  batches_ : Z;
  pushed : list QueuedPacket;
  taken : list (list QueuedPacket);
  analyzed : list (list QueuedPacket)
}.

(** After [pool.start()] and the creation of the capture thread. *)
Definition pipeline_start (cfg : pool_config) (capacity : Z) (packets : list QueuedPacket)
    : pipeline :=
  mk_pipeline (PacketQueue_new capacity) packets PTop
    (replicate (Z.to_nat (num_workers_ cfg)) WTop) MJoinCapture 0 0 [] [] [].

(** ** Notifications *)

Definition asleep (w : worker_pc) : bool :=
  match w with WItems Asleep | WLinger Asleep => true | _ => false end.

Definition wake (w : worker_pc) : worker_pc :=
  match w with
  | WItems Asleep => WItems Woken
  | WLinger Asleep => WLinger Woken
  | _ => w
  end.

Definition wake_producer (p : producer_pc) : producer_pc :=
  match p with PWait => PWoken | _ => p end.

(** [not_empty_.notify_one()]: one sleeping worker [j], or nothing when none
    sleeps. *)
Definition notify_one (j : nat) (ws : list worker_pc) : option (list worker_pc) :=
  match ws !! j with
  | Some w => if asleep w then Some (<[j := wake w]> ws)
              else if existsb asleep ws then None else Some ws
  | None => if existsb asleep ws then None else Some ws
  end.

(** ** Threads *)

Definition set_queue (q : PacketQueue) (s : pipeline) : pipeline :=
  mk_pipeline q (todo s) (producer s) (workers s) (main s) (processed_ s) (batches_ s)
    (pushed s) (taken s) (analyzed s).
Definition set_producer (p : producer_pc) (s : pipeline) : pipeline :=
  mk_pipeline (queue s) (todo s) p (workers s) (main s) (processed_ s) (batches_ s)
    (pushed s) (taken s) (analyzed s).
Definition set_todo (l : list QueuedPacket) (s : pipeline) : pipeline :=
  mk_pipeline (queue s) l (producer s) (workers s) (main s) (processed_ s) (batches_ s)
    (pushed s) (taken s) (analyzed s).
Definition set_workers (ws : list worker_pc) (s : pipeline) : pipeline :=
  mk_pipeline (queue s) (todo s) (producer s) ws (main s) (processed_ s) (batches_ s)
    (pushed s) (taken s) (analyzed s).
Definition set_worker (i : nat) (w : worker_pc) (s : pipeline) : pipeline :=
  set_workers (<[i := w]> (workers s)) s.
Definition set_main (m : main_pc) (s : pipeline) : pipeline :=
  mk_pipeline (queue s) (todo s) (producer s) (workers s) m (processed_ s) (batches_ s)
    (pushed s) (taken s) (analyzed s).
Definition add_processed (n : Z) (s : pipeline) : pipeline :=
  mk_pipeline (queue s) (todo s) (producer s) (workers s) (main s)
    (wrap 64 (processed_ s + n)) (batches_ s) (pushed s) (taken s) (analyzed s).
Definition add_batches (n : Z) (s : pipeline) : pipeline :=
  mk_pipeline (queue s) (todo s) (producer s) (workers s) (main s) (processed_ s)
    (wrap 64 (batches_ s + n)) (pushed s) (taken s) (analyzed s).
Definition log_pushed (p : QueuedPacket) (s : pipeline) : pipeline :=
  mk_pipeline (queue s) (todo s) (producer s) (workers s) (main s) (processed_ s) (batches_ s)
    (pushed s ++ [p]) (taken s) (analyzed s).
Definition log_taken (b : list QueuedPacket) (s : pipeline) : pipeline :=
  mk_pipeline (queue s) (todo s) (producer s) (workers s) (main s) (processed_ s) (batches_ s)
    (pushed s) (taken s ++ [b]) (analyzed s).
Definition log_analyzed (b : list QueuedPacket) (s : pipeline) : pipeline :=
  mk_pipeline (queue s) (todo s) (producer s) (workers s) (main s) (processed_ s) (batches_ s)
    (pushed s) (taken s) (analyzed s ++ [b]).

(** What [push] leaves behind. *)
Definition after_push (p : QueuedPacket) (rest : list QueuedPacket)
    (r : PacketQueue * push_result) (s : pipeline) : pipeline :=
  let s := set_queue r.1 s in
  match r.2 with
  | PushBlocked => set_producer PWait s
  | PushRefused => set_todo rest (set_producer PTop s)
  | PushQueued wake =>
      log_pushed p (set_todo rest (set_producer (if wake then PNotify else PTop) s))
  end.

(** What a critical section of worker [i]'s [pop_batch] leaves behind. *)
Definition after_pop (i : nat) (r : PacketQueue * pop_result) (s : pipeline) : pipeline :=
  let s := set_queue r.1 s in
  match r.2 with
  | PopWaitItems => set_worker i (WItems Asleep) s
  | PopWaitLinger => set_worker i (WLinger Asleep) s
  | PopTaken batch more => log_taken batch (set_worker i (WNotifyFull batch more) s)
  end.

(** The critical section a worker is about to enter. *)
Definition pop_section (cfg : pool_config) (ns : Z) (w : worker_pc) (q : PacketQueue)
    : option (PacketQueue * pop_result) :=
  match w with
  | WTop => Some (pop_enter (batch_size_ cfg) (linger_us cfg) ns q)
  | WItems Woken => Some (pop_resume false (batch_size_ cfg) (linger_us cfg) ns q)
  | WItems TimedOut => Some (pop_resume true (batch_size_ cfg) (linger_us cfg) ns q)
  | WLinger Woken => Some (pop_resume_linger false (batch_size_ cfg) ns q)
  | WLinger TimedOut => Some (pop_resume_linger true (batch_size_ cfg) ns q)
  | _ => None
  end.

(** ** Steps

    [step cfg true] is a step of the program, the linger timeout included;
    [step cfg false] is a poll timeout or a spurious wake-up. *)
Inductive step (cfg : pool_config) : bool → pipeline → pipeline → Prop :=
  | step_push s p rest waited :
      todo s = p :: rest →
      (producer s = PTop ∧ waited = None) ∨ (producer s = PWoken ∧ is_Some waited) →
      step cfg true s (after_push p rest (push p waited (queue s)) s)
  | step_push_notify s j ws :
      producer s = PNotify → notify_one j (workers s) = Some ws →
      step cfg true s (set_workers ws (set_producer PTop s))
  | step_capture_done s :
      producer s = PTop → todo s = [] → step cfg true s (set_producer PDone s)
  | step_pop s i w ns r :
      workers s !! i = Some w → pop_section cfg ns w (queue s) = Some r →
      step cfg true s (after_pop i r s)
  | step_notify_full s i batch more :
      workers s !! i = Some (WNotifyFull batch more) →
      step cfg true s
        (set_worker i (WNotifyMore batch more)
           (set_producer (match batch with [] => producer s | _ => wake_producer (producer s) end) s))
  | step_notify_more s i batch more j ws :
      workers s !! i = Some (WNotifyMore batch more) →
      (if more then notify_one j (workers s) else Some (workers s)) = Some ws →
      step cfg true s (set_workers (<[i := WGot batch]> ws) s)
  | step_analyze s i batch :
      workers s !! i = Some (WGot batch) → batch ≠ [] →
      step cfg true s (log_analyzed batch (set_worker i (WAnalyzed batch) s))
  | step_idle s i :
      workers s !! i = Some (WGot []) → step cfg true s (set_worker i WCheck s)
  | step_processed s i batch :
      workers s !! i = Some (WAnalyzed batch) →
      step cfg true s (add_processed (Zlength batch) (set_worker i WCounted s))
  | step_batches s i :
      workers s !! i = Some WCounted →
      step cfg true s (add_batches 1 (set_worker i WTop s))
  | step_check s i :
      workers s !! i = Some WCheck →
      step cfg true s (set_worker i (if is_finished (queue s) then WExit else WTop) s)
  | step_linger_timeout s i :
      workers s !! i = Some (WLinger Asleep) →
      step cfg true s (set_worker i (WLinger TimedOut) s)
  | step_capture_joined s :
      main s = MJoinCapture → producer s = PDone → step cfg true s (set_main MShutdown s)
  | step_shutdown s :
      main s = MShutdown →
      step cfg true s (set_main MNotifyFull (set_queue (shutdown (queue s)) s))
  | step_shutdown_full s :
      main s = MNotifyFull →
      step cfg true s (set_main MNotifyEmpty (set_producer (wake_producer (producer s)) s))
  | step_shutdown_empty s :
      main s = MNotifyEmpty →
      step cfg true s (set_main (MJoin 0) (set_workers (wake <$> workers s) s))
  | step_join s i :
      main s = MJoin i → workers s !! i = Some WExit → step cfg true s (set_main (MJoin (S i)) s)
  | step_joined s i :
      main s = MJoin i → length (workers s) = i → step cfg true s (set_main MEnd s)
  | step_poll_timeout s i :
      workers s !! i = Some (WItems Asleep) →
      step cfg false s (set_worker i (WItems TimedOut) s)
  | step_spurious_worker s i w :
      workers s !! i = Some w → asleep w = true →
      step cfg false s (set_worker i (wake w) s)
  | step_spurious_producer s :
      producer s = PWait → step cfg false s (set_producer PWoken s).

(** An execution of [w] program steps and [p] timeouts and spurious wake-ups. *)
Inductive run (cfg : pool_config) : nat → nat → pipeline → pipeline → Prop :=
  | run_nil s : run cfg 0 0 s s
  | run_work w p s s1 s2 : run cfg w p s s1 → step cfg true s1 s2 → run cfg (S w) p s s2
  | run_poll w p s s1 s2 : run cfg w p s s1 → step cfg false s1 s2 → run cfg w (S p) s s2.

Definition reachable (cfg : pool_config) (capacity : Z) (packets : list QueuedPacket)
    (s : pipeline) : Prop :=
  ∃ w p, run cfg w p (pipeline_start cfg capacity packets) s.

(** ** Executable schedules *)

Inductive action : Type :=
  | ACapture (j : nat)            (* the capture thread; [j]: whom it notifies *)
  | AWorker (i j : nat)           (* worker [i]; [j]: whom it notifies *)
  | ALinger (i : nat)             (* its linger timeout *)
  | AMain
  | APoll (i : nat)               (* its poll timeout *)
  | ASpurious (i : nat)           (* its spurious wake-up *)
  | ASpuriousPush.                (* the capture thread's *)

(** One action; [ns] is what [elapsed_ns] returns if the action calls it. *)
Definition act_ns (cfg : pool_config) (ns : Z) (a : action) (s : pipeline) : option pipeline :=
  match a with
  | ACapture j =>
      match producer s, todo s with
      | PTop, [] => Some (set_producer PDone s)
      | PTop, p :: rest => Some (after_push p rest (push p None (queue s)) s)
      | PWoken, p :: rest => Some (after_push p rest (push p (Some ns) (queue s)) s)
      | PNotify, _ => (λ ws, set_workers ws (set_producer PTop s)) <$> notify_one j (workers s)
      | _, _ => None
      end
  | AWorker i j =>
      match workers s !! i with
      | Some (WNotifyFull batch more) =>
          Some (set_worker i (WNotifyMore batch more)
            (set_producer (match batch with [] => producer s | _ => wake_producer (producer s) end) s))
      | Some (WNotifyMore batch more) =>
          (λ ws, set_workers (<[i := WGot batch]> ws) s) <$>
            (if more then notify_one j (workers s) else Some (workers s))
      | Some (WGot []) => Some (set_worker i WCheck s)
      | Some (WGot batch) => Some (log_analyzed batch (set_worker i (WAnalyzed batch) s))
      | Some (WAnalyzed batch) => Some (add_processed (Zlength batch) (set_worker i WCounted s))
      | Some WCounted => Some (add_batches 1 (set_worker i WTop s))
      | Some WCheck => Some (set_worker i (if is_finished (queue s) then WExit else WTop) s)
      | Some w => (λ r, after_pop i r s) <$> pop_section cfg ns w (queue s)
      | None => None
      end
  | ALinger i =>
      match workers s !! i with
      | Some (WLinger Asleep) => Some (set_worker i (WLinger TimedOut) s)
      | _ => None
      end
  | AMain =>
      match main s with
      | MJoinCapture => match producer s with PDone => Some (set_main MShutdown s) | _ => None end
      | MShutdown => Some (set_main MNotifyFull (set_queue (shutdown (queue s)) s))
      | MNotifyFull => Some (set_main MNotifyEmpty (set_producer (wake_producer (producer s)) s))
      | MNotifyEmpty => Some (set_main (MJoin 0) (set_workers (wake <$> workers s) s))
      | MJoin i =>
          match workers s !! i with
          | Some WExit => Some (set_main (MJoin (S i)) s)
          | Some _ => None
          | None => if bool_decide (length (workers s) = i) then Some (set_main MEnd s) else None
          end
      | MEnd => None
      end
  | APoll i =>
      match workers s !! i with
      | Some (WItems Asleep) => Some (set_worker i (WItems TimedOut) s)
      | _ => None
      end
  | ASpurious i =>
      match workers s !! i with
      | Some w => if asleep w then Some (set_worker i (wake w) s) else None
      | None => None
      end
  | ASpuriousPush =>
      match producer s with PWait => Some (set_producer PWoken s) | _ => None end
  end.

(** With the clock standing still. *)
Definition act (cfg : pool_config) : action → pipeline → option pipeline := act_ns cfg 0.

Definition is_poll (a : action) : bool :=
  match a with APoll _ | ASpurious _ | ASpuriousPush => true | _ => false end.

Fixpoint play (cfg : pool_config) (schedule : list action) (s : pipeline) : option pipeline :=
  match schedule with
  | [] => Some s
  | a :: rest => act cfg a s ≫= play cfg rest
  end.

#[export] Hint Constructors step : netdb.

Lemma act_ns_step cfg ns a s s' : act_ns cfg ns a s = Some s' → step cfg (negb (is_poll a)) s s'.
Proof.
  destruct a; cbn [act_ns is_poll negb]; intros H;
    repeat (case_match; try discriminate H);
    try (apply fmap_Some in H as (? & ? & ->)); simplify_eq;
    try (by eauto with netdb); try (by eapply step_pop; eauto).
  - by eapply (step_notify_more cfg s i batch true).
  - match goal with H : is_finished _ = _ |- _ => pose proof (step_check cfg s i) as C; rewrite H in C end.
    by apply C.
  - match goal with H : is_finished _ = _ |- _ => pose proof (step_check cfg s i) as C; rewrite H in C end.
    by apply C.
  - eapply step_joined; [done|]. by eapply bool_decide_eq_true_1.
  Unshelve. exact 0%nat.
Qed.

Lemma act_step cfg a s s' : act cfg a s = Some s' → step cfg (negb (is_poll a)) s s'.
Proof. apply act_ns_step. Qed.

(** The goal is that the action [a] is enabled and leads here. *)
Local Ltac by_action ns a :=
  exists ns, a; cbn [act_ns];
  repeat match goal with H : _ = _ |- _ => rewrite H end; done.

(** Conversely every step is an action, for some measured time. *)
Lemma step_act cfg b s s' : step cfg b s s' → ∃ ns a, act_ns cfg ns a s = Some s' ∧ is_poll a = negb b.
Proof.
  destruct 1 as [s p rest waited Ht [[Hp ->]|[Hp [ns ->]]]|s j ws Hp Hn|s Hp Ht|s i w ns r Hi Hr
    |s i batch more Hi|s i batch more j ws Hi Hn|s i batch Hi Hb|s i Hi|s i batch Hi|s i Hi|s i Hi
    |s i Hi|s Hm Hp|s Hm|s Hm|s Hm|s i Hm Hi|s i Hm Hi|s i Hi|s i w Hi Hw|s Hp].
  - by_action 0 (ACapture 0).
  - by_action ns (ACapture 0).
  - by_action 0 (ACapture j).
  - by_action 0 (ACapture 0).
  - exists ns, (AWorker i 0). cbn [act_ns]. rewrite Hi. destruct w; try discriminate Hr; by rewrite Hr.
  - by_action 0 (AWorker i 0).
  - by_action 0 (AWorker i j).
  - destruct batch; [done|]. by_action 0 (AWorker i 0).
  - by_action 0 (AWorker i 0).
  - by_action 0 (AWorker i 0).
  - by_action 0 (AWorker i 0).
  - by_action 0 (AWorker i 0).
  - by_action 0 (ALinger i).
  - by_action 0 AMain.
  - by_action 0 AMain.
  - by_action 0 AMain.
  - by_action 0 AMain.
  - by_action 0 AMain.
  - exists 0, AMain. cbn [act_ns]. rewrite Hm, lookup_ge_None_2 by lia. by rewrite bool_decide_true.
  - by_action 0 (APoll i).
  - by_action 0 (ASpurious i).
  - by_action 0 ASpuriousPush.
Qed.

Lemma run_app cfg w p w' p' s s1 s2 :
  run cfg w p s s1 → run cfg w' p' s1 s2 → run cfg (w' + w) (p' + p) s s2.
Proof. intros H1 H2. induction H2; [done|eapply run_work|eapply run_poll]; eauto. Qed.

Lemma play_run cfg schedule s s' : play cfg schedule s = Some s' → ∃ w p, run cfg w p s s'.
Proof.
  revert s. induction schedule as [|a rest IH]; intros s; cbn [play].
  - intros [= <-]. exists 0%nat, 0%nat. constructor.
  - intros (s1 & Ha & Hp)%bind_Some. apply act_step in Ha. apply IH in Hp as (w & p & Hr).
    destruct (is_poll a).
    + exists (w + 0)%nat, (p + 1)%nat. eapply run_app; [|exact Hr]. eapply run_poll; [constructor|done].
    + exists (w + 1)%nat, (p + 0)%nat. eapply run_app; [|exact Hr]. eapply run_work; [constructor|done].
Qed.

Lemma play_reachable cfg capacity packets schedule s :
  play cfg schedule (pipeline_start cfg capacity packets) = Some s →
  reachable cfg capacity packets s.
Proof. apply play_run. Qed.
