(* ===== verification/PipelineSpec.v ===== *)
(** * What the pipeline guarantees

    Invariants of every reachable state of [Pipeline]: packets are conserved and
    stay in order, the queue stays within its capacity, no wake-up is lost. *)
From S2P Require Import Prelude Packet PacketQueue Pipeline.

(** ** The critical sections, by outcome *)

Lemma push_cases p waited q :
  (push p waited q = (q, PushBlocked) ∧ capacity_ q ≤ queue_size q ∧ shutdown_ q = false) ∨
  ((push p waited q).2 = PushRefused ∧ shutdown_ q = true) ∨
  (∃ wake, (push p waited q).2 = PushQueued wake ∧ shutdown_ q = false ∧
     queue_size q < capacity_ q ∧ items_ (push p waited q).1 = items_ q ++ [p] ∧
     capacity_ (push p waited q).1 = capacity_ q ∧ shutdown_ (push p waited q).1 = false ∧
     (items_ q = [] → wake = true)).
Proof.
  unfold push, may_push.
  destruct (shutdown_ q) eqn:Es; rewrite ?orb_true_r, ?orb_false_r.
  - right; left. by destruct waited; cbn; rewrite Es.
  - destruct (Z.ltb_spec (queue_size q) (capacity_ q)); [right; right|left; by split_and!].
    destruct waited as [ns|]; cbn [add_push_wait shutdown_]; rewrite Es;
      eexists; cbn; split_and!; try done;
      intros E; unfold queue_size; cbn; by rewrite E.
Qed.

Lemma take_nil_n {A} (n : nat) (l : list A) : take n l ++ drop n l = l.
Proof. apply take_drop. Qed.

Definition wakes_more (l : list QueuedPacket) : bool := match l with [] => false | _ => true end.

Lemma pop_section_cases cfg ns w q r :
  pop_section cfg ns w q = Some r →
  let n := Z.to_nat (batch_size_ cfg) in
  capacity_ r.1 = capacity_ q ∧ shutdown_ r.1 = shutdown_ q ∧
  ((r.2 = PopWaitItems ∧ items_ r.1 = items_ q ∧ items_ q = [] ∧ shutdown_ q = false ∧
    (w = WTop ∨ w = WItems Woken)) ∨
   (r.2 = PopWaitLinger ∧ items_ r.1 = items_ q ∧ shutdown_ q = false ∧
    (items_ q ≠ [] ∧ (w = WTop ∨ w = WItems Woken ∨ w = WItems TimedOut) ∨ w = WLinger Woken)) ∨
   (r.2 = PopTaken (take n (items_ q)) (wakes_more (drop n (items_ q))) ∧
    items_ r.1 = drop n (items_ q) ∧
    (items_ q ≠ [] ∨ shutdown_ q = true ∨ w = WItems TimedOut ∨ w = WLinger TimedOut ∨
     batch_size_ cfg ≤ 0))).
Proof.
  assert (HL : ∀ q', items_ q' = items_ q → capacity_ q' = capacity_ q → shutdown_ q' = shutdown_ q →
    let r := pop_linger_or_take (batch_size_ cfg) (linger_us cfg) ns q' in
    capacity_ r.1 = capacity_ q ∧ shutdown_ r.1 = shutdown_ q ∧
    ((r.2 = PopWaitLinger ∧ items_ r.1 = items_ q ∧ shutdown_ q = false ∧ items_ q ≠ []) ∨
     (r.2 = PopTaken (take (Z.to_nat (batch_size_ cfg)) (items_ q))
              (wakes_more (drop (Z.to_nat (batch_size_ cfg)) (items_ q))) ∧
      items_ r.1 = drop (Z.to_nat (batch_size_ cfg)) (items_ q)))).
  { intros q' E1 E2 E3.
    destruct (pop_linger_or_take_cases (batch_size_ cfg) (linger_us cfg) ns q')
      as [(-> & H1 & _ & H2 & _)|[-> _]]; cbn [fst snd].
    - rewrite E1 in H1. rewrite E3 in H2. split_and!; [done..|]. by left; rewrite E1.
    - rewrite pop_take_eq. cbn. rewrite E1. split_and!; [done..|]. by right. }
  assert (HE : may_pop q = true → items_ q ≠ [] ∨ shutdown_ q = true).
  { unfold may_pop. intros [H|H]%orb_true_iff; [left|by right].
    by apply is_empty_false, negb_true_iff. }
  assert (HN : may_pop q = false → items_ q = [] ∧ shutdown_ q = false).
  { unfold may_pop. intros [H ?]%orb_false_iff. split; [|done].
    by apply is_empty_spec, negb_false_iff. }
  destruct w as [|[]|[]| | | | | | |]; cbn [pop_section]; intros [= <-]; cbv zeta.
  - unfold pop_enter. replace (may_pop (set_wanted (batch_size_ cfg) q)) with (may_pop q) by done.
    destruct (may_pop q).
    + destruct (HL (set_wanted (batch_size_ cfg) q)) as (A & B & [(C1 & C2 & C3 & C4)|(C1 & C2)]);
        [done..| |]; split_and!; try done; right; [left|right]; split_and!; naive_solver.
    + cbn. split_and!; try done. left. naive_solver.
  - unfold pop_resume. rewrite orb_false_r. destruct (may_pop q).
    + destruct (HL q) as (A & B & [(C1 & C2 & C3 & C4)|(C1 & C2)]);
        [done..| |]; split_and!; try done; right; [left|right]; split_and!; naive_solver.
    + cbn. split_and!; try done. left. naive_solver.
  - unfold pop_resume. rewrite orb_true_r.
    destruct (HL q) as (A & B & [(C1 & C2 & C3 & C4)|(C1 & C2)]);
      [done..| |]; split_and!; try done; right; [left|right]; split_and!; naive_solver.
  - unfold pop_resume_linger. rewrite orb_false_r. destruct (batch_full (batch_size_ cfg) q) eqn:E.
    + rewrite pop_take_eq. cbn. split_and!; try done. right; right. split_and!; try done.
      unfold batch_full in E. apply orb_true_iff in E as [E|E]; [|auto].
      destruct (decide (items_ q = [])) as [Hi|]; [|auto]. right; right; right; right.
      apply Z.leb_le in E. unfold queue_size in E. rewrite Hi in E. done.
    + apply orb_false_iff in E as [_ E]. cbn. split_and!; try done. right; left. auto.
  - unfold pop_resume_linger. rewrite orb_true_r. rewrite pop_take_eq. cbn.
    split_and!; try done. right; right. split_and!; try done. auto.
Qed.

(** [notify_one] wakes one sleeper, or there is none. *)
Lemma notify_one_cases j ws ws' :
  notify_one j ws = Some ws' →
  (∃ w, ws !! j = Some w ∧ asleep w = true ∧ ws' = <[j := wake w]> ws) ∨
  (ws' = ws ∧ Forall (λ w, asleep w = false) ws).
Proof.
  assert (H : existsb asleep ws = false → Forall (λ w, asleep w = false) ws).
  { intros E. apply Forall_forall. intros w Hw.
    destruct (asleep w) eqn:Ea; [|done].
    rewrite <- E. symmetry. apply existsb_exists. exists w. split; [by apply list_elem_of_In|done]. }
  unfold notify_one. intros Hn.
  destruct (ws !! j) as [w|] eqn:Ej; [destruct (asleep w) eqn:Ea|].
  - left. exists w. by injection Hn as <-.
  - destruct (existsb asleep ws); [done|]. injection Hn as <-. right. by split; [|apply H].
  - destruct (existsb asleep ws); [done|]. injection Hn as <-. right. by split; [|apply H].
Qed.

Lemma notify_one_exists ws : ∃ j ws', notify_one j ws = Some ws'.
Proof.
  destruct (existsb asleep ws) eqn:E.
  - apply existsb_exists in E as (w & Hin & Ha). apply list_elem_of_In, list_elem_of_lookup in Hin as [j Hj].
    exists j, (<[j := wake w]> ws). unfold notify_one. by rewrite Hj, Ha.
  - exists (length ws), ws. unfold notify_one. by rewrite lookup_ge_None_2, E.
Qed.

(** ** Flow of packets *)

Definition main_shut (m : main_pc) : bool :=
  match m with MJoinCapture | MShutdown => false | _ => true end.

Record inv_flow (cfg : pool_config) (capacity : Z) (packets : list QueuedPacket) (s : pipeline)
    : Prop := {
  fl_capacity : capacity_ (queue s) = capacity;
  fl_size : queue_size (queue s) ≤ capacity;
  fl_input : packets = pushed s ++ todo s;
  fl_fifo : pushed s = concat (taken s) ++ items_ (queue s);
  fl_done : producer s = PDone → todo s = [];
  fl_pending : producer s = PWait ∨ producer s = PWoken → todo s ≠ [];
  fl_joined : main s ≠ MJoinCapture → producer s = PDone;
  fl_shutdown : shutdown_ (queue s) = main_shut (main s);
  fl_batches : Forall (λ b, Zlength b ≤ batch_size_ cfg) (taken s)
}.

Lemma inv_flow_start cfg capacity packets :
  0 ≤ capacity → inv_flow cfg capacity packets (pipeline_start cfg capacity packets).
Proof. intros H. split; cbn; try done. by intros [?|?]. Qed.

Lemma main_running m : main_shut m = false → m = MJoinCapture ∨ m = MShutdown.
Proof. destruct m; auto; done. Qed.

(** A step that leaves the packets alone. *)
Lemma inv_flow_frame cfg capacity packets s s' :
  inv_flow cfg capacity packets s →
  queue s' = queue s → todo s' = todo s → pushed s' = pushed s → taken s' = taken s →
  (producer s' = producer s ∨ producer s' = wake_producer (producer s) ∨
   producer s = PNotify ∧ producer s' = PTop) →
  main s' = main s → inv_flow cfg capacity packets s'.
Proof.
  intros [H1 H2 H3 H4 H5 H6 H7 H8 H9] E1 E2 E3 E4 E5 E6.
  split; rewrite ?E1, ?E2, ?E3, ?E4, ?E6; try done.
  - intros Hd. apply H5. destruct E5 as [E|[E|[E E']]]; rewrite ?E in Hd; [done| |congruence].
    by destruct (producer s).
  - intros Hp. apply H6. destruct E5 as [E|[E|[E E']]]; [by rewrite <- E| |destruct Hp; congruence].
    rewrite E in Hp. destruct (producer s); cbn in Hp; naive_solver.
  - intros Hm. specialize (H7 Hm). destruct E5 as [E|[E|[E E']]]; [congruence| |congruence].
    by rewrite E, H7.
Qed.

Lemma inv_flow_push cfg capacity packets s p rest waited :
  inv_flow cfg capacity packets s → todo s = p :: rest → producer s ≠ PDone →
  inv_flow cfg capacity packets (after_push p rest (push p waited (queue s)) s).
Proof.
  intros [H1 H2 H3 H4 H5 H6 H7 H8 H9] Ht Hp.
  assert (Hm : main s = MJoinCapture).
  { destruct (main s) eqn:E; try done; exfalso; apply Hp; by apply H7. }
  unfold after_push.
  destruct (push_cases p waited (queue s)) as [(E & Hfull & Hs)|[(E & Hs)|(wk & E & Hs & Hsz & Hi & Hc & Hs' & _)]].
  - rewrite E. split; cbn; rewrite ?Ht, ?Hm in *; try done.
  - rewrite Hm in H8. rewrite Hs in H8. done.
  - rewrite E. split; cbn; rewrite ?Hm in *; try done.
    + by rewrite Hc.
    + unfold queue_size in *. rewrite Hi, Zlength_app. unfold Zlength in *. cbn [length]. lia.
    + rewrite H3, Ht. by rewrite <- app_assoc.
    + rewrite Hi, H4. by rewrite <- app_assoc.
    + by destruct wk.
    + by destruct wk; intros [?|?].
Qed.

Lemma inv_flow_pop cfg capacity packets s i w ns r :
  0 ≤ batch_size_ cfg →
  inv_flow cfg capacity packets s → pop_section cfg ns w (queue s) = Some r →
  inv_flow cfg capacity packets (after_pop i r s).
Proof.
  intros Hb [H1 H2 H3 H4 H5 H6 H7 H8 H9] Hr.
  destruct (pop_section_cases _ _ _ _ _ Hr) as (Hc & Hs & Hcases). unfold after_pop.
  destruct Hcases as [(E & Hi & _)|[(E & Hi & _)|(E & Hi & _)]]; rewrite E;
    split; cbn; rewrite ?Hc, ?Hs; try done.
  - unfold queue_size in *. by rewrite Hi.
  - by rewrite Hi.
  - unfold queue_size in *. by rewrite Hi.
  - by rewrite Hi.
  - unfold queue_size, Zlength in *. rewrite Hi, length_drop. lia.
  - rewrite Hi, concat_app, H4. cbn. rewrite app_nil_r, <- app_assoc. by rewrite take_drop.
  - apply Forall_app. split; [done|]. constructor; [|done].
    unfold Zlength. rewrite length_take. lia.
Qed.

Lemma inv_flow_step cfg capacity packets k s s' :
  0 ≤ batch_size_ cfg →
  inv_flow cfg capacity packets s → step cfg k s s' → inv_flow cfg capacity packets s'.
Proof.
  intros Hb Hinv Hstep. pose proof Hinv as [H1 H2 H3 H4 H5 H6 H7 H8 H9].
  destruct Hstep; try (eapply inv_flow_frame; [exact Hinv|try done; by auto..]).
  - apply inv_flow_push; [done..|]. destruct H0 as [[-> _]|[-> _]]; done.
  - split; cbn; try done. by intros [?|?].
  - by eapply inv_flow_pop.
  - eapply inv_flow_frame; [exact Hinv|try done..]. cbn. destruct batch; auto.
  - split; cbn; try done. rewrite H8. by rewrite H.
  - split; cbn; try done. intros _. apply H7. by rewrite H.
  - assert (Hd : producer s = PDone) by (apply H7; by rewrite H).
    split; cbn; rewrite ?Hd; try done;
      [intros _; by apply H5|by intros [?|?]|rewrite H8; by rewrite H].
  - split; cbn; try done; [intros _; apply H7; by rewrite H|rewrite H8; by rewrite H].
  - split; cbn; try done; [intros _; apply H7; by rewrite H|rewrite H8; by rewrite H].
  - split; cbn; try done; [intros _; apply H7; by rewrite H|rewrite H8; by rewrite H].
  - eapply inv_flow_frame; [exact Hinv|try done..]. cbn. right; left. by rewrite H.
Qed.

Lemma run_ind_inv cfg (P : pipeline → Prop) :
  (∀ k s s', P s → step cfg k s s' → P s') → ∀ w p s s', run cfg w p s s' → P s → P s'.
Proof. intros Hstep w p s s' Hr. induction Hr; eauto. Qed.

Lemma reachable_flow cfg capacity packets s :
  0 ≤ batch_size_ cfg → 0 ≤ capacity → reachable cfg capacity packets s →
  inv_flow cfg capacity packets s.
Proof.
  intros Hb Hc (w & p & Hr). eapply run_ind_inv; [|exact Hr|by apply inv_flow_start].
  intros k s1 s2. by apply inv_flow_step.
Qed.

(** ** Batches in the workers' hands *)

(** Waking a worker changes nothing it holds. *)
Definition wake_blind {A} (f : worker_pc → list A) : Prop := ∀ w, f (wake w) = f w.

Lemma gather_notify_one {A} (f : worker_pc → list A) j ws ws' :
  wake_blind f → notify_one j ws = Some ws' → gather f ws' = gather f ws.
Proof.
  intros Hf [(w & Hj & _ & ->)|[-> _]]%notify_one_cases; [|done].
  by apply (insert_same_gather f ws j w).
Qed.

Lemma gather_wake {A} (f : worker_pc → list A) ws :
  wake_blind f → gather f (wake <$> ws) = gather f ws.
Proof.
  intros Hf. unfold gather. f_equal. rewrite <- list_fmap_compose.
  apply list_fmap_ext. intros ? w _. apply Hf.
Qed.

(** The batches, the empty ones left out. *)
Definition keep (b : list QueuedPacket) : list (list QueuedPacket) :=
  match b with [] => [] | _ => [b] end.

(** Taken and not yet given to the callback. *)
Definition in_hand (w : worker_pc) : list (list QueuedPacket) :=
  match w with
  | WNotifyFull b _ | WNotifyMore b _ | WGot b => keep b
  | _ => []
  end.

(** Given to the callback and not yet counted in [processed_], in [batches_]. *)
Definition unprocessed (w : worker_pc) : list (list QueuedPacket) :=
  match w with WAnalyzed b => [b] | _ => [] end.
Definition unbatched (w : worker_pc) : list unit :=
  match w with WAnalyzed _ | WCounted => [tt] | _ => [] end.

Lemma in_hand_blind : wake_blind in_hand.
Proof. by intros [|[]|[]| | | | | | |]. Qed.
Lemma unprocessed_blind : wake_blind unprocessed.
Proof. by intros [|[]|[]| | | | | | |]. Qed.
Lemma unbatched_blind : wake_blind unbatched.
Proof. by intros [|[]|[]| | | | | | |]. Qed.

Definition packets_of (bs : list (list QueuedPacket)) : Z := Zlength (concat bs).
#[global] Arguments packets_of : simpl never.
#[global] Arguments wrap : simpl never.

Record inv_work (s : pipeline) : Prop := {
  wk_batches : concat (keep <$> taken s) ≡ₚ analyzed s ++ gather in_hand (workers s);
  wk_processed : processed_ s =
    wrap 64 (packets_of (analyzed s) - packets_of (gather unprocessed (workers s)));
  wk_count : batches_ s =
    wrap 64 (Zlength (analyzed s) - Zlength (gather unbatched (workers s)))
}.

(** A step that leaves the batches and the counters alone. *)
Lemma inv_work_frame s s' :
  inv_work s → taken s' = taken s → analyzed s' = analyzed s →
  processed_ s' = processed_ s → batches_ s' = batches_ s →
  gather in_hand (workers s') = gather in_hand (workers s) →
  gather unprocessed (workers s') = gather unprocessed (workers s) →
  gather unbatched (workers s') = gather unbatched (workers s) → inv_work s'.
Proof. intros [H1 H2 H3] E1 E2 E3 E4 E5 E6 E7. by split; rewrite ?E1, ?E2, ?E3, ?E4, ?E5, ?E6, ?E7. Qed.

(** One worker moves on without changing what it holds. *)
Lemma inv_work_worker s s' i w w' :
  inv_work s → workers s !! i = Some w → workers s' = <[i := w']> (workers s) →
  taken s' = taken s → analyzed s' = analyzed s →
  processed_ s' = processed_ s → batches_ s' = batches_ s →
  in_hand w' = in_hand w → unprocessed w' = unprocessed w → unbatched w' = unbatched w →
  inv_work s'.
Proof.
  intros Hinv Hw Hws E1 E2 E3 E4 F1 F2 F3.
  eapply inv_work_frame; [exact Hinv|done..| | |]; rewrite Hws; by eapply insert_same_gather.
Qed.

Lemma pop_section_hands cfg ns w q r :
  pop_section cfg ns w q = Some r → in_hand w = [] ∧ unprocessed w = [] ∧ unbatched w = [].
Proof. by destruct w as [|[]|[]| | | | | | |]. Qed.

Lemma inv_work_pop s i w cfg ns r :
  inv_work s → workers s !! i = Some w → pop_section cfg ns w (queue s) = Some r →
  inv_work (after_pop i r s).
Proof.
  intros Hinv Hw Hr. destruct (pop_section_hands _ _ _ _ _ Hr) as (F1 & F2 & F3).
  unfold after_pop. destruct (r.2) as [| |batch more].
  - by eapply (inv_work_worker s _ i w (WItems Asleep)).
  - by eapply (inv_work_worker s _ i w (WLinger Asleep)).
  - destruct Hinv as [H1 H2 H3]. split; cbn.
    + rewrite fmap_app, concat_app. cbn. rewrite app_nil_r, H1.
      pose proof (gather_insert in_hand (workers s) i w (WNotifyFull batch more) Hw) as P.
      rewrite F1 in P. cbn in P. rewrite P. solve_Permutation.
    + by rewrite (insert_same_gather _ _ _ w).
    + by rewrite (insert_same_gather _ _ _ w).
Qed.

Lemma inv_work_analyze s i batch :
  inv_work s → workers s !! i = Some (WGot batch) → batch ≠ [] →
  inv_work (log_analyzed batch (set_worker i (WAnalyzed batch) s)).
Proof.
  intros [H1 H2 H3] Hw Hne. split; cbn.
  - rewrite H1. pose proof (gather_insert in_hand _ i _ (WAnalyzed batch) Hw) as P.
    cbn in P. destruct batch as [|p batch]; [done|]. cbn [keep app] in P.
    rewrite <- P. solve_Permutation.
  - rewrite H2. pose proof (gather_insert unprocessed _ i _ (WAnalyzed batch) Hw) as P.
    cbn in P. unfold packets_of, Zlength. rewrite P. rewrite concat_app, length_app. cbn.
    rewrite app_nil_r, length_app. f_equal. lia.
  - rewrite H3. pose proof (gather_insert unbatched _ i _ (WAnalyzed batch) Hw) as P.
    cbn in P. unfold Zlength. rewrite P, length_app. cbn [length]. f_equal. lia.
Qed.

Lemma inv_work_step cfg k s s' : inv_work s → step cfg k s s' → inv_work s'.
Proof.
  intros Hinv Hstep. destruct Hstep;
    try (by eapply inv_work_frame; [exact Hinv|done..]);
    try (by eapply inv_work_worker; [exact Hinv|done..]).
  - unfold after_push. destruct (push p waited (queue s)) as [q [| |[]]];
      by eapply inv_work_frame; [exact Hinv|done..].
  - eapply inv_work_frame; [exact Hinv|done..| | |]; cbn; eapply gather_notify_one; eauto using
      in_hand_blind, unprocessed_blind, unbatched_blind.
  - by eapply inv_work_pop.
  - assert (N : ∀ A (f : worker_pc → list A), wake_blind f → gather f ws = gather f (workers s)).
    { intros A f Hf. destruct more; [by eapply gather_notify_one|by simplify_eq]. }
    assert (L : ws !! i = Some (WNotifyMore batch more)).
    { destruct more; [|by simplify_eq].
      apply notify_one_cases in H0 as [(w & Hj & Ha & ->)|[-> _]]; [|done].
      rewrite list_lookup_insert_ne; [done|]. intros ->. by simplify_eq. }
    eapply inv_work_frame; [exact Hinv|done..| | |]; cbn;
      (rewrite (insert_same_gather _ _ _ _ _ L) by done); apply N;
      auto using in_hand_blind, unprocessed_blind, unbatched_blind.
  - by apply inv_work_analyze.
  - destruct Hinv as [H1 H2 H3]. split; cbn.
    + by rewrite (insert_same_gather _ _ _ _ _ H).
    + rewrite H2, wrap_add_l. pose proof (gather_insert unprocessed _ i _ WCounted H) as P.
      cbn in P. unfold packets_of, Zlength. rewrite <- P. cbn. rewrite length_app. f_equal. lia.
    + by rewrite (insert_same_gather _ _ _ _ _ H).
  - destruct Hinv as [H1 H2 H3]. split; cbn.
    + by rewrite (insert_same_gather _ _ _ _ _ H).
    + by rewrite (insert_same_gather _ _ _ _ _ H).
    + rewrite H3, wrap_add_l. pose proof (gather_insert unbatched _ i _ WTop H) as P.
      cbn in P. unfold Zlength. rewrite <- P. cbn [length]. f_equal. lia.
  - eapply inv_work_worker; [exact Hinv|done..| | |]; by destruct (is_finished (queue s)).
  - eapply inv_work_frame; [exact Hinv|done..| | |]; apply gather_wake;
      auto using in_hand_blind, unprocessed_blind, unbatched_blind.
  - eapply inv_work_worker; [exact Hinv|done..|apply in_hand_blind|apply unprocessed_blind|
      apply unbatched_blind].
Qed.

(** ** Wake-ups *)

Definition some_worker (f : worker_pc → bool) (ws : list worker_pc) : Prop :=
  ∃ i w, ws !! i = Some w ∧ f w = true.

(** Asleep in the first wait. *)
Definition dozing (w : worker_pc) : bool := match w with WItems Asleep => true | _ => false end.

(** On its way to the queue, or about to hand over to a sleeper. *)
Definition alert_worker (w : worker_pc) : bool :=
  match w with
  | WTop | WItems Woken | WItems TimedOut | WLinger _ | WCheck => true
  | WNotifyFull _ more | WNotifyMore _ more => more
  | _ => false
  end.

(** Has made room and is about to notify [not_full_]. *)
Definition made_room (w : worker_pc) : bool :=
  match w with WNotifyFull (_ :: _) _ => true | _ => false end.

Lemma some_worker_insert f ws i w w' :
  ws !! i = Some w → (f w = true → f w' = true) →
  some_worker f ws → some_worker f (<[i := w']> ws).
Proof.
  intros Hi Hf (j & x & Hj & Hx). destruct (decide (i = j)) as [<-|Hne].
  - exists i, w'. rewrite list_lookup_insert_eq by by eapply lookup_lt_Some.
    split; [done|]. simplify_eq. auto.
  - exists j, x. by rewrite list_lookup_insert_ne.
Qed.

Lemma some_worker_here f ws i w w' :
  ws !! i = Some w → f w' = true → some_worker f (<[i := w']> ws).
Proof.
  intros Hi Hf. exists i, w'. split; [|done].
  apply list_lookup_insert_eq. by eapply lookup_lt_Some.
Qed.

Lemma some_worker_wake f ws :
  (∀ w, f w = true → f (wake w) = true) → some_worker f ws → some_worker f (wake <$> ws).
Proof.
  intros Hf (i & w & Hi & Hw). exists i, (wake w). rewrite list_lookup_fmap, Hi. by split; [|apply Hf].
Qed.

Lemma some_worker_notify_one f j ws ws' :
  (∀ w, f w = true → f (wake w) = true) → notify_one j ws = Some ws' →
  some_worker f ws → some_worker f ws'.
Proof.
  intros Hf [(w & Hj & _ & ->)|[-> _]]%notify_one_cases; [|done].
  apply (some_worker_insert f ws j w); [done|]. apply Hf.
Qed.

Lemma alert_wake w : alert_worker w = true → alert_worker (wake w) = true.
Proof. by destruct w as [|[]|[]| | | | | | |]. Qed.
Lemma room_wake w : made_room w = true → made_room (wake w) = true.
Proof. by destruct w as [|[]|[]| | | | | | |]. Qed.
Lemma woken_alert w : asleep w = true → alert_worker (wake w) = true.
Proof. by destruct w as [|[]|[]| | | | | | |]. Qed.
Lemma awake_not_dozing w : asleep w = false → dozing w = false.
Proof. by destruct w as [|[]|[]| | | | | | |]. Qed.

(** Whoever can drain a non-empty queue. *)
Definition attended (items : list QueuedPacket) (p : producer_pc) (ws : list worker_pc) : Prop :=
  items ≠ [] → p = PNotify ∨ some_worker alert_worker ws ∨ Forall (λ w, dozing w = false) ws.

Lemma attended_insert items p ws i w w' :
  ws !! i = Some w → (alert_worker w = true → alert_worker w' = true) → dozing w' = false →
  attended items p ws → attended items p (<[i := w']> ws).
Proof.
  intros Hi Ha Hd H Hne. destruct (H Hne) as [Hp|[Hs|Hf]]; [by left|right; left|right; right].
  - by eapply some_worker_insert.
  - by apply Forall_insert.
Qed.

Lemma attended_here items p ws i w w' :
  ws !! i = Some w → alert_worker w' = true → attended items p (<[i := w']> ws).
Proof. intros Hi Ha _. right; left. by eapply some_worker_here. Qed.

(** A notification leaves an alert worker, or nobody slept. *)
Lemma notify_one_attends j ws ws' items p :
  notify_one j ws = Some ws' → attended items p ws'.
Proof.
  intros [(w & Hj & Ha & ->)|[-> Hf]]%notify_one_cases.
  - eapply attended_here; [done|]. by apply woken_alert.
  - intros _. right; right. eapply Forall_impl; [exact Hf|]. apply awake_not_dozing.
Qed.

Lemma attended_producer items p p' ws :
  (p = PNotify → p' = PNotify) → attended items p ws → attended items p' ws.
Proof. intros Hp H Hne. destruct (H Hne) as [?|?]; [left; auto|by right]. Qed.

Lemma attended_nil p ws : attended [] p ws.
Proof. by intros []. Qed.

(** Nobody is left sleeping on a non-empty queue. *)
Definition inv_attended (s : pipeline) : Prop :=
  attended (items_ (queue s)) (producer s) (workers s).

Lemma wake_producer_notify p : p = PNotify → wake_producer p = PNotify.
Proof. by intros ->. Qed.

Lemma inv_attended_push s p rest waited :
  inv_attended s → producer s ≠ PNotify →
  inv_attended (after_push p rest (push p waited (queue s)) s).
Proof.
  intros H Hp. unfold after_push, inv_attended in *.
  destruct (push_cases p waited (queue s)) as [(E & _)|[(E & Hs)|(wk & E & _ & _ & Hi & _ & _ & Hw)]].
  - rewrite E. cbn. by eapply (attended_producer _ (producer s)), H.
  - rewrite E. cbn. apply (attended_producer _ (producer s)); [done|].
    replace (items_ (push p waited (queue s)).1) with (items_ (queue s)); [done|].
    unfold push, may_push in *. destruct waited; cbn; destruct (_ || _); cbn; by rewrite ?Hs.
  - rewrite E. cbn. rewrite Hi. destruct wk; [by left|].
    intros _. assert (Hne : items_ (queue s) ≠ []) by (intros F; by specialize (Hw F)).
    destruct (H Hne) as [?|?]; [done|by right].
Qed.

Lemma inv_attended_pop s i w cfg ns r :
  inv_attended s → workers s !! i = Some w → pop_section cfg ns w (queue s) = Some r →
  inv_attended (after_pop i r s).
Proof.
  intros H Hw Hr. unfold inv_attended, after_pop in *.
  destruct (pop_section_cases _ _ _ _ _ Hr) as (_ & _ & [(E & Hi & Hnil & _)|[(E & Hi & _)|(E & Hi & _)]]);
    rewrite E; cbn; rewrite Hi.
  - rewrite Hnil. apply attended_nil.
  - by eapply attended_here.
  - destruct (drop _ _); [apply attended_nil|]. by eapply attended_here.
Qed.

(** A worker that [notify_one] does not touch. *)
Lemma notify_one_other j ws ws' i w :
  notify_one j ws = Some ws' → ws !! i = Some w → asleep w = false → ws' !! i = Some w.
Proof.
  intros [(x & Hj & Ha & ->)|[-> _]]%notify_one_cases Hi Hw; [|done].
  rewrite list_lookup_insert_ne; [done|]. intros ->. simplify_eq. congruence.
Qed.

Lemma inv_attended_notify_more s i batch more j ws :
  inv_attended s → workers s !! i = Some (WNotifyMore batch more) →
  (if more then notify_one j (workers s) else Some (workers s)) = Some ws →
  inv_attended (set_workers (<[i := WGot batch]> ws) s).
Proof.
  intros H Hw Hn. unfold inv_attended in *. cbn. destruct more.
  - apply notify_one_cases in Hn as [(x & Hj & Ha & ->)|[-> Hf]].
    + assert (Hij : i ≠ j) by (intros ->; by simplify_eq).
      rewrite list_insert_insert_ne by done. eapply attended_here; [|by apply woken_alert].
      by rewrite list_lookup_insert_ne.
    + intros _. right; right. apply Forall_insert; [|done].
      eapply Forall_impl; [exact Hf|]. apply awake_not_dozing.
  - simplify_eq. by eapply attended_insert.
Qed.

Lemma inv_attended_step cfg k s s' : inv_attended s → step cfg k s s' → inv_attended s'.
Proof.
  intros Hinv Hstep. destruct Hstep; try done;
    try (by eapply attended_insert; [done|done|done|exact Hinv]);
    try (by eapply attended_here; [done|]).
  - apply inv_attended_push; [done|]. by destruct H0 as [[-> _]|[-> _]].
  - by eapply notify_one_attends.
  - eapply attended_producer; [|exact Hinv]. intros E. by rewrite E in H.
  - by eapply inv_attended_pop.
  - unfold inv_attended. cbn. eapply attended_insert; [done|done|done|].
    eapply attended_producer; [|exact Hinv]. destruct batch; [done|]. apply wake_producer_notify.
  - by eapply inv_attended_notify_more.
  - unfold inv_attended. cbn. destruct (is_finished (queue s)) eqn:E.
    + apply andb_true_iff in E as [_ E]. apply is_empty_spec in E. rewrite E. apply attended_nil.
    + by eapply attended_here.
  - eapply attended_producer; [|exact Hinv]. apply wake_producer_notify.
  - intros _. right; right. cbn. apply Forall_fmap, Forall_true. intros w.
    by destruct w as [|[]|[]| | | | | | |].
  - eapply attended_here; [done|]. by apply woken_alert.
  - eapply attended_producer; [|exact Hinv]. intros E. by rewrite E in H.
Qed.

(** A blocked producer: the queue is full, or a worker that made room is about
    to notify it. *)
Definition inv_room (s : pipeline) : Prop :=
  producer s = PWait →
  capacity_ (queue s) ≤ queue_size (queue s) ∨ some_worker made_room (workers s).

Lemma inv_room_worker s s' i w w' :
  inv_room s → workers s !! i = Some w → made_room w = false →
  workers s' = <[i := w']> (workers s) → queue s' = queue s → producer s' = producer s →
  inv_room s'.
Proof.
  unfold inv_room. intros H Hw Hr Hws Hq Hp Hwait. rewrite Hws, Hq. rewrite Hp in Hwait.
  destruct (H Hwait) as [?|?]; [by left|right].
  eapply some_worker_insert; [done| |done]. by rewrite Hr.
Qed.

Lemma inv_room_pop s i w cfg ns r :
  inv_room s → workers s !! i = Some w → pop_section cfg ns w (queue s) = Some r →
  inv_room (after_pop i r s).
Proof.
  intros H Hw Hr. unfold inv_room, after_pop in *.
  assert (Hroom : made_room w = false) by by destruct w as [|[]|[]| | | | | | |].
  assert (Hkeep : ∀ w', some_worker made_room (workers s) →
                        some_worker made_room (<[i:=w']> (workers s))).
  { intros w'. eapply some_worker_insert; [done|]. by rewrite Hroom. }
  destruct (pop_section_cases _ _ _ _ _ Hr) as (Hc & _ & [(E & Hi & _)|[(E & Hi & _)|(E & Hi & _)]]);
    rewrite E; cbn; unfold queue_size in *; rewrite Hc, Hi.
  - intros Hp. destruct (H Hp); auto.
  - intros Hp. destruct (H Hp); auto.
  - intros Hp. destruct (take (Z.to_nat (batch_size_ cfg)) (items_ (queue s))) as [|x b] eqn:Et.
    + assert (Ed : drop (Z.to_nat (batch_size_ cfg)) (items_ (queue s)) = items_ (queue s)).
      { rewrite <- (take_drop (Z.to_nat (batch_size_ cfg)) (items_ (queue s))) at 2. by rewrite Et. }
      rewrite Ed. destruct (H Hp); auto.
    + right. by eapply some_worker_here.
Qed.

Lemma inv_room_step cfg k s s' : inv_room s → step cfg k s s' → inv_room s'.
Proof.
  intros Hinv Hstep. destruct Hstep; try done;
    try (by eapply inv_room_worker; [exact Hinv|done..]).
  - unfold inv_room, after_push.
    destruct (push_cases p waited (queue s)) as [(E & Hfull & _)|[(E & _)|(wk & E & _)]];
      rewrite E; cbn; [by left|done|by destruct wk].
  - by eapply inv_room_pop.
  - unfold inv_room. cbn. destruct batch as [|p batch].
    + intros Hp. destruct (Hinv Hp) as [?|?]; [by left|right].
      by eapply some_worker_insert.
    + destruct (producer s); cbn; done.
  - intros Hp. cbn in *. destruct (Hinv Hp) as [?|Hs]; [by left|right].
    assert (Hs' : some_worker made_room ws).
    { destruct more; [by eapply some_worker_notify_one; [apply room_wake|..]|by simplify_eq]. }
    apply (some_worker_insert _ _ i (WNotifyMore batch more)); [|done..].
    destruct more; [by eapply notify_one_other|by simplify_eq].
  - intros Hp. cbn in *. destruct (producer s); done.
  - intros Hp. cbn in *. destruct (Hinv Hp) as [?|Hs]; [by left|right].
    by apply some_worker_wake; [apply room_wake|].
  - eapply inv_room_worker; [exact Hinv|done| |done..]. by destruct w as [|[]|[]| | | | | | |].
Qed.

(** ** Shutdown and joins *)

Definition is_exit (w : worker_pc) : bool := match w with WExit => true | _ => false end.

Definition exited (i : nat) (ws : list worker_pc) : Prop := ws !! i = Some WExit.

(** How many workers have been joined. *)
Definition joined (m : main_pc) (n : nat) : nat :=
  match m with MJoin i => i | MEnd => n | _ => 0 end.

Record inv_threads (cfg : pool_config) (s : pipeline) : Prop := {
  th_length : length (workers s) = Z.to_nat (num_workers_ cfg);
  th_exit : some_worker is_exit (workers s) → is_finished (queue s) = true;
  th_sleep : shutdown_ (queue s) = true →
    main s = MNotifyFull ∨ main s = MNotifyEmpty ∨ Forall (λ w, asleep w = false) (workers s);
  th_join : ∀ i, (i < joined (main s) (length (workers s)))%nat → exited i (workers s)
}.

(** A worker moves on, the rest stays; a worker that has exited does not move. *)
Lemma inv_threads_worker cfg s s' i w w' :
  inv_threads cfg s → workers s !! i = Some w → w ≠ WExit →
  workers s' = <[i := w']> (workers s) → queue s' = queue s → main s' = main s →
  (w' = WExit → is_finished (queue s) = true) → asleep w' = false →
  inv_threads cfg s'.
Proof.
  intros [H1 H2 H3 H4] Hi Hw Hws Hq Hm He Ha.
  split; rewrite Hws, ?Hq, ?Hm, ?length_insert; try done.
  - intros (j & x & Hj & Hx).
    apply list_lookup_insert_Some in Hj as [(<- & <- & _)|[_ Hj]].
    + apply He. by destruct w'.
    + apply H2. by exists j, x.
  - intros Hs. destruct (H3 Hs) as [?|[?|?]]; [by auto..|]. right; right. by apply Forall_insert.
  - intros j Hj. specialize (H4 j Hj). unfold exited in *.
    rewrite list_lookup_insert_ne; [done|]. intros ->. congruence.
Qed.

Lemma inv_threads_frame cfg s s' :
  inv_threads cfg s → workers s' = workers s → main s' = main s →
  shutdown_ (queue s') = shutdown_ (queue s) →
  (is_finished (queue s) = true → is_finished (queue s') = true) → inv_threads cfg s'.
Proof. intros [H1 H2 H3 H4] E1 E2 E3 E4. split; rewrite ?E1, ?E2, ?E3; auto. Qed.

Lemma is_exit_wake w : is_exit (wake w) = is_exit w.
Proof. by destruct w as [|[]|[]| | | | | | |]. Qed.

Lemma exited_wake i ws : exited i ws → exited i (wake <$> ws).
Proof. unfold exited. intros H. by rewrite list_lookup_fmap, H. Qed.

Lemma notify_one_length j ws ws' : notify_one j ws = Some ws' → length ws' = length ws.
Proof. intros [(w & _ & _ & ->)|[-> _]]%notify_one_cases; [apply length_insert|done]. Qed.

Lemma inv_threads_notify_one cfg s s' j :
  inv_threads cfg s → notify_one j (workers s) = Some (workers s') →
  queue s' = queue s → main s' = main s → inv_threads cfg s'.
Proof.
  intros Hinv Hn Hq Hm. apply notify_one_cases in Hn as [(w & Hj & Ha & E)|[E _]].
  - eapply (inv_threads_worker cfg s s' j w (wake w)); try done.
    + by intros ->.
    + by destruct w as [|[]|[]| | | | | | |].
    + by destruct w as [|[]|[]| | | | | | |].
  - eapply inv_threads_frame; [exact Hinv|done..| |]; by rewrite Hq.
Qed.

Lemma inv_threads_pop cfg s i w ns r :
  inv_threads cfg s → workers s !! i = Some w → pop_section cfg ns w (queue s) = Some r →
  inv_threads cfg (after_pop i r s).
Proof.
  intros [H1 H2 H3 H4] Hi Hr.
  assert (Hw : w ≠ WExit) by by intros ->.
  destruct (pop_section_cases _ _ _ _ _ Hr) as (Hc & Hs & Hcases).
  assert (Hfin : is_finished (queue s) = true → is_finished r.1 = true).
  { unfold is_finished, is_empty. rewrite Hs. intros [-> E]%andb_true_iff. cbn.
    destruct (items_ (queue s)) eqn:Ei; [|done].
    destruct Hcases as [(_ & -> & _)|[(_ & -> & _)|(_ & -> & _)]]; by rewrite ?drop_nil. }
  assert (Hset : ∀ w', w' ≠ WExit → (asleep w' = true → shutdown_ (queue s) = false) →
    inv_threads cfg (set_worker i w' (set_queue r.1 s))).
  { intros w' Hne Ha. split; cbn; rewrite ?length_insert, ?Hs; try done.
    - intros (j & x & Hj & Hx). apply Hfin, H2.
      apply list_lookup_insert_Some in Hj as [(<- & <- & _)|[_ Hj]]; [by destruct w'|by exists j, x].
    - intros Hsd. destruct (H3 Hsd) as [?|[?|?]]; [by auto..|]. right; right.
      apply Forall_insert; [done|]. destruct (asleep w'); [|done]. rewrite Ha in Hsd; done.
    - intros j Hj. specialize (H4 j Hj). unfold exited in *.
      rewrite list_lookup_insert_ne; [done|]. intros ->. congruence. }
  assert (Hsd : r.2 = PopWaitItems ∨ r.2 = PopWaitLinger → shutdown_ (queue s) = false).
  { destruct Hcases as [(_ & _ & _ & E & _)|[(_ & _ & E & _)|(E & _)]]; [done..|].
    rewrite E. by intros [?|?]. }
  unfold after_pop. destruct (r.2) as [| |b more].
  - apply Hset; [done|]. auto.
  - apply Hset; [done|]. auto.
  - by eapply (inv_threads_frame _ _ _ (Hset (WNotifyFull b more) ltac:(done) ltac:(done))).
Qed.

Lemma inv_threads_step cfg capacity packets k s s' :
  inv_flow cfg capacity packets s → inv_threads cfg s → step cfg k s s' → inv_threads cfg s'.
Proof.
  intros Hflow Hinv Hstep. pose proof (fl_shutdown _ _ _ _ Hflow) as Hshut.
  pose proof Hinv as [H1 H2 H3 H4].
  destruct Hstep;
    try (by eapply inv_threads_worker; [exact Hinv|done..]);
    try (by eapply inv_threads_frame; [exact Hinv|done..]).
  - assert (Hsd : shutdown_ (queue s) = false).
    { rewrite Hshut. destruct (main_shut (main s)) eqn:E; [|done]. exfalso.
      assert (producer s = PDone) by (apply (fl_joined _ _ _ _ Hflow); by intros F; rewrite F in E).
      naive_solver congruence. }
    unfold after_push.
    destruct (push_cases p waited (queue s)) as [(E & _)|[(E & Hs)|(wk & E & _ & _ & Hi & _ & Hs & _)]];
      [|congruence|].
    + rewrite E. by eapply inv_threads_frame; [exact Hinv|done..].
    + rewrite E. eapply inv_threads_frame; [exact Hinv|done..| |]; cbn; [congruence|].
      unfold is_finished. rewrite Hsd. done.
  - by eapply inv_threads_notify_one.
  - by eapply inv_threads_pop.
  - assert (Hn : inv_threads cfg (set_workers ws s)).
    { destruct more; [by eapply inv_threads_notify_one|simplify_eq]. by destruct s. }
    eapply (inv_threads_worker cfg (set_workers ws s) _ i (WNotifyMore batch more)); try done.
    destruct more; [by eapply notify_one_other|by simplify_eq].
  - eapply inv_threads_worker; [exact Hinv|done..| |].
    + by destruct (is_finished (queue s)).
    + by destruct (is_finished (queue s)).
  - split; cbn; try done; [by rewrite Hshut, H|lia].
  - split; cbn; try done; [|by auto|lia]. intros Hs. specialize (H2 Hs). unfold is_finished in *.
    by apply andb_true_iff in H2 as [_ ?].
  - split; cbn; try done; [by auto|lia].
  - split; cbn; rewrite ?length_fmap; try done.
    + intros (i & w & Hi & Hw). apply H2. rewrite list_lookup_fmap in Hi.
      apply fmap_Some in Hi as (x & Hx & ->). exists i, x. by rewrite is_exit_wake in Hw.
    + intros _. right; right. apply Forall_fmap, Forall_true. intros w.
      by destruct w as [|[]|[]| | | | | | |].
    + intros i Hi. lia.
  - split; cbn; try done.
    + intros Hs. destruct (H3 Hs) as [?|[?|?]]; [congruence..|]. by auto.
    + intros j Hj. destruct (decide (j = i)) as [->|]; [done|]. apply H4. rewrite H. cbn. lia.
  - split; cbn; try done.
    + intros Hs. destruct (H3 Hs) as [?|[?|?]]; [congruence..|]. by auto.
    + intros j Hj. apply H4. rewrite H. cbn. lia.
  - eapply (inv_threads_worker cfg s _ i w (wake w)); try done.
    + by intros ->.
    + by destruct w as [|[]|[]| | | | | | |].
    + by destruct w as [|[]|[]| | | | | | |].
Qed.

Lemma some_worker_replicate f n w : f w = false → ¬ some_worker f (replicate n w).
Proof. intros Hf (i & x & [-> _]%lookup_replicate & Hx). congruence. Qed.

Lemma gather_replicate {A} (f : worker_pc → list A) n w : f w = [] → gather f (replicate n w) = [].
Proof. intros Hf. unfold gather. induction n as [|n IH]; cbn; [done|]. by rewrite Hf, IH. Qed.

(** ** All invariants together *)

Record inv (cfg : pool_config) (capacity : Z) (packets : list QueuedPacket) (s : pipeline)
    : Prop := {
  inv_is_flow : inv_flow cfg capacity packets s;
  inv_is_work : inv_work s;
  inv_is_attended : inv_attended s;
  inv_is_room : inv_room s;
  inv_is_threads : inv_threads cfg s
}.

Lemma inv_start cfg capacity packets :
  0 ≤ capacity → inv cfg capacity packets (pipeline_start cfg capacity packets).
Proof.
  intros Hc. split.
  - by apply inv_flow_start.
  - split; cbn; [by rewrite gather_replicate|by rewrite gather_replicate|by rewrite gather_replicate].
  - apply attended_nil.
  - done.
  - split; cbn; try done.
    + by rewrite length_replicate.
    + intros H. by apply some_worker_replicate in H.
    + intros i Hi. lia.
Qed.

Lemma inv_step cfg capacity packets k s s' :
  0 ≤ batch_size_ cfg → inv cfg capacity packets s → step cfg k s s' → inv cfg capacity packets s'.
Proof.
  intros Hb [H1 H2 H3 H4 H5] Hs. split.
  - by eapply inv_flow_step.
  - by eapply inv_work_step.
  - by eapply inv_attended_step.
  - by eapply inv_room_step.
  - by eapply inv_threads_step.
Qed.

Lemma reachable_inv cfg capacity packets s :
  0 ≤ batch_size_ cfg → 0 ≤ capacity → reachable cfg capacity packets s →
  inv cfg capacity packets s.
Proof.
  intros Hb Hc (w & p & Hr). eapply run_ind_inv; [|exact Hr|by apply inv_start].
  intros k s1 s2. by apply inv_step.
Qed.

(** ** The end *)

Lemma concat_keep bs : concat (concat (keep <$> bs)) = concat bs.
Proof.
  induction bs as [|b bs IH]; [done|]. cbn. rewrite concat_app, IH. f_equal.
  destruct b; cbn; [done|]. by rewrite app_nil_r.
Qed.

Lemma concat_permutation {A} (l k : list (list A)) : l ≡ₚ k → concat l ≡ₚ concat k.
Proof. induction 1; cbn; [done|by f_equiv|solve_Permutation|by etransitivity]. Qed.

Lemma gather_exited {A} (f : worker_pc → list A) ws :
  f WExit = [] → (∀ i, (i < length ws)%nat → exited i ws) → gather f ws = [].
Proof.
  intros Hf H. unfold gather. apply concat_nil_Forall. apply Forall_fmap, Forall_lookup.
  intros i w Hi. specialize (H i (lookup_lt_Some _ _ _ Hi)). unfold exited in H. by simplify_eq.
Qed.

Lemma length_keep bs : (length (concat (keep <$> bs)) ≤ length (concat bs))%nat.
Proof.
  induction bs as [|b bs IH]; [done|]. cbn. rewrite !length_app. destruct b; cbn; lia.
Qed.

(** The state [main] ends in. *)
Lemma final_state cfg capacity packets s :
  1 ≤ num_workers_ cfg → 0 ≤ batch_size_ cfg → 0 ≤ capacity → Zlength packets < 2 ^ 64 →
  reachable cfg capacity packets s → main s = MEnd →
  concat (analyzed s) ≡ₚ packets ∧ items_ (queue s) = [] ∧
  processed_ s = Zlength packets ∧ batches_ s = Zlength (analyzed s).
Proof.
  intros Hn Hb Hc Hlen Hr Hend.
  destruct (reachable_inv cfg capacity packets s Hb Hc Hr) as [Hflow [W1 W2 W3] _ _ [T1 T2 T3 T4]].
  rewrite Hend in T4. cbn in T4.
  rewrite (gather_exited _ _ eq_refl T4), app_nil_r in W1.
  rewrite (gather_exited _ _ eq_refl T4) in W2. rewrite (gather_exited _ _ eq_refl T4) in W3.
  assert (Hitems : items_ (queue s) = []).
  { assert (H0 : (0 < length (workers s))%nat) by lia. specialize (T4 0%nat H0).
    assert (Hf : is_finished (queue s) = true) by (apply T2; by exists 0%nat, WExit).
    apply andb_true_iff in Hf as [_ Hf]. by apply is_empty_spec. }
  assert (Htodo : todo s = []).
  { apply (fl_done _ _ _ _ Hflow), (fl_joined _ _ _ _ Hflow). by rewrite Hend. }
  assert (Htaken : packets = concat (taken s)).
  { rewrite (fl_input _ _ _ _ Hflow), (fl_fifo _ _ _ _ Hflow), Htodo, Hitems. by rewrite !app_nil_r. }
  assert (Hperm : concat (analyzed s) ≡ₚ packets).
  { rewrite Htaken, <- (concat_keep (taken s)). symmetry. by apply concat_permutation. }
  assert (Hcount : Zlength (analyzed s) ≤ Zlength packets).
  { unfold Zlength. rewrite <- (Permutation_length W1), Htaken. pose proof (length_keep (taken s)). lia. }
  assert (Htotal : packets_of (analyzed s) = Zlength packets)
    by (unfold packets_of, Zlength; by rewrite Hperm).
  pose proof (Zlength_nonneg (analyzed s)).
  split_and!; [done|done| |].
  - rewrite W2, Htotal. change (packets_of []) with 0. rewrite Z.sub_0_r.
    apply wrap_small. unfold is_uint, Zlength in *. lia.
  - rewrite W3. change (Zlength []) with 0. rewrite Z.sub_0_r.
    apply wrap_small. unfold is_uint, Zlength in *. lia.
Qed.

(** Every batch given to the callback has a packet, and at most [batch_size]. *)
Lemma analyzed_batches cfg capacity packets s :
  0 ≤ batch_size_ cfg → 0 ≤ capacity → reachable cfg capacity packets s →
  Forall (λ b, 1 ≤ Zlength b ≤ batch_size_ cfg) (analyzed s).
Proof.
  intros Hb Hc Hr. destruct (reachable_inv cfg capacity packets s Hb Hc Hr) as [Hflow [W _ _] _ _ _].
  pose proof (fl_batches _ _ _ _ Hflow) as Hsize.
  assert (Hkeep : Forall (λ b, 1 ≤ Zlength b ≤ batch_size_ cfg) (concat (keep <$> taken s))).
  { apply Forall_concat, Forall_fmap. eapply Forall_impl; [exact Hsize|]. intros b Hb1. cbn.
    destruct b as [|p b]; constructor; [|constructor]. revert Hb1. rewrite Zlength_cons.
    pose proof (Zlength_nonneg b). lia. }
  rewrite W in Hkeep. by apply Forall_app in Hkeep as [? _].
Qed.

(** The number of packets of batches of that size. *)
Lemma batches_bound {A} (n : Z) (bs : list (list A)) :
  Forall (λ b, 1 ≤ Zlength b ≤ n) bs → Zlength bs ≤ Zlength (concat bs) ≤ n * Zlength bs.
Proof.
  induction 1 as [|b bs Hb _ IH]; [unfold Zlength; cbn; lia|]. cbn [concat].
  rewrite Zlength_cons, Zlength_app. lia.
Qed.

(** ** Properties *)

(** C3. When [main] has joined the workers, no packet is lost and none is
    analysed twice: the batches given to the callback hold exactly the packets
    the capture thread delivered, the queue is empty, and the two counters are
    the number of packets and of batches. *)
Theorem pipeline_complete cfg capacity packets s :
  1 ≤ num_workers_ cfg → 0 ≤ batch_size_ cfg → 0 ≤ capacity → Zlength packets < 2 ^ 64 →
  reachable cfg capacity packets s → main s = MEnd →
  concat (analyzed s) ≡ₚ packets ∧ items_ (queue s) = [] ∧
  processed_ s = Zlength packets ∧ batches_ s = Zlength (analyzed s).
Proof. apply final_state. Qed.

(** C12. Backpressure without loss: in every reachable state the queue holds at
    most [capacity] packets, no batch is larger than [batch_size], the packets
    accepted so far and those still to come are the input in order ([push] never
    refuses one), and the batches taken so far followed by the queue are the
    accepted packets in order. *)
Theorem queue_fifo_bounded cfg capacity packets s :
  0 ≤ batch_size_ cfg → 0 ≤ capacity → reachable cfg capacity packets s →
  queue_size (queue s) ≤ capacity ∧
  Forall (λ b, Zlength b ≤ batch_size_ cfg) (taken s) ∧
  packets = pushed s ++ todo s ∧
  pushed s = concat (taken s) ++ items_ (queue s).
Proof.
  intros Hb Hc Hr. destruct (reachable_flow cfg capacity packets s Hb Hc Hr). by split_and!.
Qed.

(** C11. No wake-up is lost: a blocked [push] faces a full queue or a worker that
    is about to notify it; if packets are waiting and a worker sleeps in its
    first wait, another worker is on its way to the queue or a notification is
    pending; after [shutdown] has notified, nobody sleeps. *)
Theorem no_lost_wakeup cfg capacity packets s :
  0 ≤ batch_size_ cfg → 0 ≤ capacity → reachable cfg capacity packets s →
  (producer s = PWait →
   capacity ≤ queue_size (queue s) ∨ some_worker made_room (workers s)) ∧
  (items_ (queue s) ≠ [] →
   producer s = PNotify ∨ some_worker alert_worker (workers s) ∨
   Forall (λ w, dozing w = false) (workers s)) ∧
  (shutdown_ (queue s) = true →
   main s = MNotifyFull ∨ main s = MNotifyEmpty ∨ Forall (λ w, asleep w = false) (workers s)).
Proof.
  intros Hb Hc Hr. destruct (reachable_inv cfg capacity packets s Hb Hc Hr) as [Hflow _ Ha Hm Ht].
  rewrite <- (fl_capacity _ _ _ _ Hflow). split_and!; [exact Hm|exact Ha|by apply (th_sleep _ _ Ht)].
Qed.

(** *** Witnesses *)

(** Two workers, batches of at most two packets, five packets. *)
Definition small_pool : pool_config := WorkerPool_new 2 2 2000.

Definition small_trace : list QueuedPacket :=
  (λ i, mk_QueuedPacket ParsedPacket_default [Z.of_nat i]) <$> seq 0 5.

(** With room for two packets: both workers go to sleep, the queue fills up and
    the producer blocks. *)
Definition blocking_schedule : list action :=
  [AWorker 0 0; AWorker 1 0; ACapture 0; ACapture 0; ACapture 0; ACapture 1; ACapture 0].

(** The workers drain it, the producer goes on, the main thread shuts down. *)
Definition finishing_schedule : list action :=
  blocking_schedule ++
  [AWorker 0 0; AWorker 0 0; AWorker 0 0; AWorker 0 0; AWorker 0 0; AWorker 0 0;
   ACapture 0; ACapture 0; ACapture 0; AWorker 1 0; AWorker 1 0; AWorker 1 0; AWorker 1 0;
   AWorker 1 0; AWorker 1 0; ACapture 0; ACapture 0; ACapture 0; ACapture 0; AMain; AMain;
   AWorker 0 0; AWorker 0 0; AWorker 0 0; AWorker 0 0; AWorker 0 0; AWorker 0 0;
   AMain; AMain] ++
  concat (replicate 5 [AWorker 0 0; AWorker 1 0]) ++ [AMain; AMain; AMain].

Lemma pipeline_complete_witness :
  ∃ s, play small_pool finishing_schedule (pipeline_start small_pool 2 small_trace) = Some s ∧
    main s = MEnd ∧ processed_ s = 5 ∧ concat (analyzed s) ≡ₚ small_trace.
Proof.
  eexists. split; [vm_compute; reflexivity|]. split; [reflexivity|]. split; [reflexivity|].
  eapply (pipeline_complete small_pool 2 small_trace); [by_decide..| |reflexivity].
  apply (play_reachable small_pool 2 small_trace finishing_schedule). vm_compute. reflexivity.
Defined.

Lemma queue_fifo_bounded_witness :
  ∃ s, play small_pool blocking_schedule (pipeline_start small_pool 2 small_trace) = Some s ∧
    queue_size (queue s) = 2 ∧ queue_size (queue s) ≤ 2 ∧
    small_trace = pushed s ++ todo s.
Proof.
  eexists. split; [vm_compute; reflexivity|]. split; [reflexivity|].
  edestruct (queue_fifo_bounded small_pool 2 small_trace) as (A & _ & B & _);
    [by_decide..| |split; [exact A|exact B]].
  apply (play_reachable small_pool 2 small_trace blocking_schedule). vm_compute. reflexivity.
Defined.

Lemma no_lost_wakeup_witness :
  ∃ s, play small_pool blocking_schedule (pipeline_start small_pool 2 small_trace) = Some s ∧
    producer s = PWait ∧ (2 ≤ queue_size (queue s) ∨ some_worker made_room (workers s)).
Proof.
  eexists. split; [vm_compute; reflexivity|]. split; [reflexivity|].
  edestruct (no_lost_wakeup small_pool 2 small_trace) as (A & _ & _);
    [by_decide..| |apply A; reflexivity].
  apply (play_reachable small_pool 2 small_trace blocking_schedule). vm_compute. reflexivity.
Defined.
