(* ===== verification/PipelineBatch.v ===== *)
(** * Full batches are fetched

    Invariants of the pipeline about the second wait of [pop_batch], in which a
    worker lingers for a full batch: a queue that holds a full batch is never
    left to workers that sleep, whichever wait they are in, because [push]
    notifies when the queue reaches [wanted_].  [PipelineProgress] uses them to
    tell when the linger timeout is needed. *)
From S2P Require Import Prelude Packet PacketQueue Pipeline PipelineSpec.

(** In the second wait of [pop_batch]. *)
Definition lingering (w : worker_pc) : bool := match w with WLinger _ => true | _ => false end.

(** Awake on its way to the queue, or about to hand over to a sleeper. *)
Definition ready_worker (w : worker_pc) : bool := alert_worker w && negb (asleep w).

(** ** The critical sections *)

(** A worker lingers only for a batch that is not full, and only with [-L]. *)
Lemma pop_section_linger cfg ns w q r :
  pop_section cfg ns w q = Some r → r.2 = PopWaitLinger →
  queue_size r.1 < batch_size_ cfg ∧ (0 < linger_us cfg ∨ lingering w = true).
Proof.
  assert (HL : ∀ q', let r := pop_linger_or_take (batch_size_ cfg) (linger_us cfg) ns q' in
    r.2 = PopWaitLinger → queue_size r.1 < batch_size_ cfg ∧ 0 < linger_us cfg).
  { intros q'. destruct (pop_linger_or_take_cases (batch_size_ cfg) (linger_us cfg) ns q')
      as [(-> & _ & ? & _ & ?)|[-> _]]; [done|]. by rewrite pop_take_eq. }
  assert (HR : ∀ b, let r := pop_resume_linger b (batch_size_ cfg) ns q in
    r.2 = PopWaitLinger → queue_size r.1 < batch_size_ cfg).
  { intros b. unfold pop_resume_linger, batch_full. destruct (_ || b) eqn:E; [by rewrite pop_take_eq|].
    apply orb_false_iff in E as [[E%Z.leb_gt _]%orb_false_iff _]. done. }
  destruct w as [|[]|[]| | | | | | |]; cbn [pop_section]; intros [= <-] Hr; try (by split; [eapply HR|right]).
  all: unfold pop_enter, pop_resume in *; case_match; [|done]; destruct (HL _ Hr); auto.
Qed.

(** [wanted_] is set on entry and never changed otherwise. *)
Lemma pop_section_wanted cfg ns w q r :
  pop_section cfg ns w q = Some r →
  wanted_ r.1 = (match w with WTop => batch_size_ cfg | _ => wanted_ q end).
Proof.
  assert (HT : ∀ q', wanted_ (pop_take (batch_size_ cfg) ns q').1 = wanted_ q') by (intros; by rewrite pop_take_eq).
  assert (HL : ∀ q', wanted_ (pop_linger_or_take (batch_size_ cfg) (linger_us cfg) ns q').1 = wanted_ q')
    by (intros; unfold pop_linger_or_take; by case_match).
  destruct w as [|[]|[]| | | | | | |]; cbn [pop_section]; intros [= <-];
    unfold pop_enter, pop_resume, pop_resume_linger; case_match; rewrite ?HL, ?HT; done.
Qed.

(** ** The invariants *)

(** Whoever fetches a full batch. *)
Definition fetched (cfg : pool_config) (q : PacketQueue) (p : producer_pc) (ws : list worker_pc) : Prop :=
  batch_size_ cfg ≤ queue_size q →
  p = PNotify ∨ some_worker ready_worker ws ∨ Forall (λ w, asleep w = false) ws.

Record inv_batch (cfg : pool_config) (s : pipeline) : Prop := {
  ib_wanted : wanted_ (queue s) = batch_size_ cfg ∨ Forall (λ w, w = WTop) (workers s);
  ib_fetched : fetched cfg (queue s) (producer s) (workers s);
  ib_linger : 0 < linger_us cfg ∨ Forall (λ w, lingering w = false) (workers s)
}.

Lemma ready_wake w : ready_worker w = true → ready_worker (wake w) = true.
Proof. by destruct w as [|[]|[]| | | | | | |]. Qed.
Lemma woken_ready w : asleep w = true → ready_worker (wake w) = true.
Proof. by destruct w as [|[]|[]| | | | | | |]. Qed.

Lemma fetched_insert cfg q q' p p' ws i w w' :
  queue_size q' = queue_size q → (p = PNotify → p' = PNotify) →
  ws !! i = Some w → (ready_worker w = true → ready_worker w' = true) → asleep w' = false →
  fetched cfg q p ws → fetched cfg q' p' (<[i := w']> ws).
Proof.
  intros Hq Hp Hi Ha Hd H Hb. rewrite Hq in Hb. destruct (H Hb) as [?|[Hs|Hf]]; [left; auto|right; left|right; right].
  - by eapply some_worker_insert.
  - by apply Forall_insert.
Qed.

Lemma fetched_here cfg q p ws i w w' :
  ws !! i = Some w → ready_worker w' = true → fetched cfg q p (<[i := w']> ws).
Proof. intros Hi Ha _. right; left. by eapply some_worker_here. Qed.

Lemma fetched_producer cfg q q' p p' ws :
  queue_size q' = queue_size q → (p = PNotify → p' = PNotify) →
  fetched cfg q p ws → fetched cfg q' p' ws.
Proof. intros Hq Hp H Hb. rewrite Hq in Hb. destruct (H Hb) as [?|?]; [left; auto|by right]. Qed.

Lemma fetched_notify_one cfg q p j ws ws' : notify_one j ws = Some ws' → fetched cfg q p ws'.
Proof.
  intros [(w & Hj & Ha & ->)|[-> Hf]]%notify_one_cases; [|by right; right].
  eapply fetched_here; [done|]. by apply woken_ready.
Qed.

Lemma push_wanted p waited q : wanted_ (push p waited q).1 = wanted_ q.
Proof. unfold push. destruct (may_push q), waited; cbn; try case_match; done. Qed.

(** A [push] that does not notify has not completed a batch. *)
Lemma push_silent p waited q :
  (push p waited q).2 = PushQueued false →
  queue_size (push p waited q).1 = queue_size q + 1 ∧ queue_size q + 1 ≠ wanted_ q.
Proof.
  assert (E : Zlength (items_ q ++ [p]) = Zlength (items_ q) + 1).
  { unfold Zlength. rewrite length_app. cbn. lia. }
  unfold push, queue_size. destruct (may_push q); [|done].
  destruct waited; cbn; case_match; try done; cbn; rewrite E; intros [= [_ Hne]%orb_false_iff];
    (split; [done|by apply Z.eqb_neq]).
Qed.

Lemma fetched_push cfg s p rest waited :
  inv_batch cfg s → producer s ≠ PNotify →
  let s' := after_push p rest (push p waited (queue s)) s in
  fetched cfg (queue s') (producer s') (workers s').
Proof.
  intros [Hw Hf _] Hp. unfold after_push.
  destruct (push_cases p waited (queue s)) as [(E & _)|[(E & Hs)|(wk & E & _)]]; rewrite E; cbn.
  - by apply (fetched_producer cfg (queue s) _ (producer s)).
  - apply (fetched_producer cfg (queue s) _ (producer s)); [|done..].
    unfold push, may_push in *. destruct waited; cbn; destruct (_ || _); cbn; by rewrite ?Hs.
  - destruct wk; [by left|]. destruct (push_silent _ _ _ E) as [Hsize Hne]. intros Hb. rewrite Hsize in Hb.
    destruct Hw as [Hw|Hw]; [|right; right; eapply Forall_impl; [exact Hw|by intros ? ->]].
    rewrite Hw in Hne. destruct (Hf ltac:(lia)) as [?|?]; [done|by right].
Qed.

Lemma fetched_pop cfg s i w ns r :
  1 ≤ batch_size_ cfg → workers s !! i = Some w → pop_section cfg ns w (queue s) = Some r →
  let s' := after_pop i r s in fetched cfg (queue s') (producer s') (workers s').
Proof.
  intros Hb Hw Hr. unfold after_pop. pose proof (pop_section_linger _ _ _ _ _ Hr) as Hl.
  destruct (pop_section_cases _ _ _ _ _ Hr) as (_ & _ & [(E & Hi & Hnil & _)|[(E & Hi & _)|(E & Hi & _)]]);
    rewrite E in *; cbn.
  - intros H. unfold queue_size in H. rewrite Hi, Hnil in H. change (Zlength []) with 0 in H. lia.
  - intros H. destruct (Hl eq_refl). lia.
  - intros H. unfold queue_size in H. rewrite Hi in H. right; left. eapply some_worker_here; [done|].
    destruct (drop _ _); [change (Zlength []) with 0 in H; lia|done].
Qed.

Lemma fetched_step cfg k s s' :
  1 ≤ batch_size_ cfg → inv_batch cfg s → step cfg k s s' → fetched cfg (queue s') (producer s') (workers s').
Proof.
  intros Hb Hinv Hstep. pose proof (ib_fetched _ _ Hinv) as Hf. destruct Hstep; try done;
    try (by eapply fetched_insert; [done|done|done|done|done|exact Hf]);
    try (by eapply fetched_here; [done|]).
  - apply fetched_push; [done|]. by destruct H0 as [[-> _]|[-> _]].
  - by eapply fetched_notify_one.
  - eapply fetched_producer; [done| |exact Hf]. by rewrite H.
  - by eapply fetched_pop.
  - cbn. eapply fetched_insert; [done| |done|done|done|exact Hf]. destruct batch; [done|apply wake_producer_notify].
  - cbn. destruct more; [|simplify_eq; by eapply fetched_insert].
    apply notify_one_cases in H0 as [(x & Hj & Ha & ->)|[-> Hn]].
    + assert (Hij : i ≠ j) by (intros ->; by simplify_eq).
      rewrite list_insert_insert_ne by done. eapply fetched_here; [|by apply woken_ready].
      by rewrite list_lookup_insert_ne.
    + intros _. right; right. by apply Forall_insert.
  - cbn. destruct (is_finished (queue s)) eqn:E; [|by eapply fetched_here]. intros H'.
    apply andb_true_iff in E as [_ E]. rewrite is_empty_size in E. apply Z.eqb_eq in E. lia.
  - cbn. eapply fetched_producer; [done|apply wake_producer_notify|exact Hf].
  - intros _. right; right. cbn. apply Forall_fmap, Forall_true. intros w. by destruct w as [|[]|[]| | | | | | |].
  - cbn. eapply fetched_here; [done|]. by apply woken_ready.
  - cbn. eapply fetched_producer; [done| |exact Hf]. by rewrite H.
Qed.

(** All workers are still before their first [pop_batch], or [wanted_] is set. *)
Lemma wanted_step cfg k s s' : inv_batch cfg s → step cfg k s s' →
  wanted_ (queue s') = batch_size_ cfg ∨ Forall (λ w, w = WTop) (workers s').
Proof.
  intros [Hw _ _] Hstep.
  assert (Hset : ∀ i w, workers s !! i = Some w → w ≠ WTop → wanted_ (queue s) = batch_size_ cfg).
  { intros i w Hi Hne. destruct Hw as [?|Hw]; [done|]. by apply (Forall_lookup_1 _ _ _ _ Hw) in Hi. }
  assert (Hone : ∀ j ws, notify_one j (workers s) = Some ws →
    wanted_ (queue s) = batch_size_ cfg ∨ Forall (λ w, w = WTop) ws).
  { intros j ws [(w & Hj & Ha & ->)|[-> _]]%notify_one_cases; [|done]. left. eapply Hset; [done|]. by intros ->. }
  destruct Hstep; try done; try (left; cbn; by eapply Hset).
  - unfold after_push. destruct (push p waited (queue s)) as [q []] eqn:E; cbn;
      rewrite <- (push_wanted p waited (queue s)), E in Hw; done.
  - by eapply Hone.
  - pose proof (pop_section_wanted _ _ _ _ _ H0) as E. left.
    assert (wanted_ r.1 = batch_size_ cfg) by (rewrite E; destruct w; try done; by eapply Hset).
    unfold after_pop. by destruct (r.2).
  - destruct Hw as [?|Hw]; [by left|right]. cbn. apply Forall_fmap. eapply Forall_impl; [exact Hw|]. by intros ? ->.
  - left. cbn. eapply Hset; [done|]. by intros ->.
Qed.

Lemma linger_step cfg k s s' : inv_batch cfg s → step cfg k s s' →
  0 < linger_us cfg ∨ Forall (λ w, lingering w = false) (workers s').
Proof.
  intros [_ _ [Hl|Hl]] Hstep; [by left|].
  assert (Hwake : ∀ w, lingering (wake w) = lingering w) by (by intros [|[]|[]| | | | | | |]).
  assert (Hset : ∀ i w, lingering w = false → Forall (λ w, lingering w = false) (<[i := w]> (workers s)))
    by (intros; by apply Forall_insert).
  assert (Hone : ∀ j ws, notify_one j (workers s) = Some ws → Forall (λ w, lingering w = false) ws).
  { intros j ws [(w & Hj & Ha & ->)|[-> _]]%notify_one_cases; [|done]. apply Hset.
    rewrite Hwake. by apply (Forall_lookup_1 _ _ _ _ Hl) in Hj. }
  destruct Hstep; try (right; cbn; by apply Hset); try (by right).
  - right. unfold after_push. by destruct (push p waited (queue s)) as [q []].
  - right. by eapply Hone.
  - pose proof (Forall_lookup_1 _ _ _ _ Hl H) as Hw. pose proof (pop_section_linger _ _ _ _ _ H0) as Hp.
    unfold after_pop. destruct (r.2) eqn:E; [right; by apply Hset| |right; by apply Hset].
    destruct (Hp eq_refl) as [_ [?|?]]; [by left|congruence].
  - right. cbn. apply Forall_insert; [|done]. destruct more; [by eapply Hone|by simplify_eq].
  - right. cbn. apply Hset. by case_match.
  - by apply (Forall_lookup_1 _ _ _ _ Hl) in H.
  - right. cbn. apply Forall_fmap. eapply Forall_impl; [exact Hl|]. intros w. cbn. by rewrite Hwake.
  - right. cbn. apply Hset. rewrite Hwake. by apply (Forall_lookup_1 _ _ _ _ Hl) in H.
Qed.

Lemma inv_batch_step cfg k s s' :
  1 ≤ batch_size_ cfg → inv_batch cfg s → step cfg k s s' → inv_batch cfg s'.
Proof.
  intros Hb Hi Hs. split; [by eapply wanted_step|by eapply fetched_step|by eapply linger_step].
Qed.

Lemma inv_batch_start cfg capacity packets :
  1 ≤ batch_size_ cfg → inv_batch cfg (pipeline_start cfg capacity packets).
Proof.
  intros Hb. split; cbn; [right; by apply Forall_replicate|intros H; change (queue_size _) with 0 in H; lia|].
  right. by apply Forall_replicate.
Qed.

Lemma reachable_batch cfg capacity packets s :
  1 ≤ batch_size_ cfg → reachable cfg capacity packets s → inv_batch cfg s.
Proof.
  intros Hb (w & p & Hr). eapply run_ind_inv; [|exact Hr|by apply inv_batch_start].
  intros k s1 s2. by apply inv_batch_step.
Qed.
