(* ===== verification/PipelineProgress.v ===== *)
(** * Every execution of the pipeline ends

    A measure that every step decreases, except that a poll timeout or a spurious
    wake-up raises it by a constant, and progress: before the main thread has
    joined all workers some thread can take a step of its own, which is neither
    a timeout nor a spurious wake-up, or else a worker lingers for a batch larger
    than the queue while [push] waits for room.  There only its linger timeout
    helps, and it is enough; where a full batch fits in the queue, or workers do
    not linger, no timeout is ever needed. *)
From S2P Require Import Prelude Packet PacketQueue Pipeline PipelineSpec PipelineBatch.

(** ** The measure *)

Inductive mode : Type := Waiting | Filled | Closed.

Definition mode_of (q : PacketQueue) : mode :=
  if is_empty q then if shutdown_ q then Closed else Waiting else Filled.

(** Steps a worker can take before the queue changes. *)
Definition weight (m : mode) (w : worker_pc) : nat :=
  match w with
  | WExit => 0
  | WCheck => 4
  | WGot [] => 5
  | WNotifyMore [] _ => 9
  | WNotifyFull [] _ => 11
  | WCounted => 13
  | WAnalyzed _ => 14
  | WGot _ => 15
  | WNotifyMore _ _ => 19
  | WNotifyFull _ _ => 21
  | WTop => match m with Waiting => 2 | Filled => 3 | Closed => 12 end
  | WItems Asleep => match m with Closed => 11 | _ => 1 end
  | WItems Woken => match m with Waiting => 2 | Filled => 3 | Closed => 12 end
  | WItems TimedOut => match m with Filled => 3 | _ => 12 end
  | WLinger TimedOut => match m with Filled => 0 | _ => 12 end
  | WLinger Asleep => match m with Filled => 1 | _ => 13 end
  | WLinger Woken => match m with Filled => 2 | _ => 14 end
  end%nat.

Definition weights (m : mode) (ws : list worker_pc) : nat := sum_list (weight m <$> ws).

Definition producer_weight (p : producer_pc) : nat :=
  match p with PDone => 0 | PWait => 1 | PTop | PWoken => 2 | PNotify => 6 end.

Definition main_weight (n : nat) (m : main_pc) : nat :=
  match m with
  | MEnd => 0
  | MJoin i => n - i + 1
  | MNotifyEmpty => 3 * n + 2
  | MNotifyFull => 3 * n + 4
  | MShutdown => 24 * n + 5
  | MJoinCapture => 24 * n + 6
  end.

(** What a packet in the queue, or still to come, pays for. *)
Definition item_cost (n : nat) : nat := 21 * n + 1.
Definition todo_cost (n : nat) : nat := item_cost n + 21 * n + 5.

Definition measure (s : pipeline) : nat :=
  let n := length (workers s) in
  todo_cost n * length (todo s) + item_cost n * length (items_ (queue s)) +
  weights (mode_of (queue s)) (workers s) + producer_weight (producer s) +
  main_weight n (main s).

Lemma weight_le m w : (weight m w ≤ 21)%nat.
Proof. destruct m, w as [|[]|[]|[|? ?] ?|[|? ?] ?|[|? ?]| | | |]; cbn; lia. Qed.

Lemma weights_le m ws : (weights m ws ≤ 21 * length ws)%nat.
Proof.
  unfold weights. induction ws as [|w ws IH]; cbn [fmap list_fmap sum_list length]; [done|].
  cbn [sum_list_with]. pose proof (weight_le m w). cbn in *. lia.
Qed.

Lemma weights_insert m ws i w w' :
  ws !! i = Some w →
  (weights m (<[i := w']> ws) + weight m w = weights m ws + weight m w')%nat.
Proof.
  unfold weights. revert i. induction ws as [|x ws IH]; intros i H; [done|].
  destruct i as [|i]; cbn in H.
  - simplify_eq. cbn. lia.
  - specialize (IH i H). cbn. rewrite <- !Nat.add_assoc. f_equal. exact IH.
Qed.

Lemma weight_wake m w : (weight m (wake w) ≤ weight m w + 2)%nat.
Proof. destruct m, w as [|[]|[]|[|? ?] ?|[|? ?] ?|[|? ?]| | | |]; cbn; lia. Qed.

Lemma weights_wake m ws : (weights m (wake <$> ws) ≤ weights m ws + 2 * length ws)%nat.
Proof.
  unfold weights. induction ws as [|w ws IH]; [cbn; lia|].
  pose proof (weight_wake m w). cbn in *. lia.
Qed.

Lemma weights_notify_one m j ws ws' :
  notify_one j ws = Some ws' → (weights m ws' ≤ weights m ws + 2)%nat.
Proof.
  intros [(w & Hj & _ & ->)|[-> _]]%notify_one_cases; [|lia].
  pose proof (weights_insert m ws j w (wake w) Hj). pose proof (weight_wake m w). lia.
Qed.

Lemma producer_weight_wake p : (producer_weight (wake_producer p) ≤ producer_weight p + 1)%nat.
Proof. destruct p; cbn; lia. Qed.

(** The fields of an updated state. *)
Ltac fields := cbn [queue workers todo producer main set_queue set_producer set_todo set_workers
  set_worker set_main log_pushed log_taken log_analyzed add_processed add_batches fst snd].

(** A worker moves on; the queue, the producer and the main thread stay. *)
Lemma measure_worker s s' i w w' :
  workers s !! i = Some w → workers s' = <[i := w']> (workers s) →
  queue s' = queue s → todo s' = todo s → main s' = main s →
  (measure s' + weight (mode_of (queue s)) w + producer_weight (producer s) =
   measure s + weight (mode_of (queue s)) w' + producer_weight (producer s'))%nat.
Proof.
  intros Hi Hws Hq Ht Hm. unfold measure. rewrite Hws, Hq, Ht, Hm, length_insert.
  pose proof (weights_insert (mode_of (queue s)) (workers s) i w w' Hi). lia.
Qed.

(** ** The critical sections *)

Lemma mode_of_items q q' : items_ q' = items_ q → shutdown_ q' = shutdown_ q → mode_of q' = mode_of q.
Proof. unfold mode_of, is_empty. by intros -> ->. Qed.

(** A worker that blocks again, or comes back with nothing. *)
Lemma weight_blocked cfg ns w q r w' :
  1 ≤ batch_size_ cfg → pop_section cfg ns w q = Some r →
  (r.2 = PopWaitItems ∧ w' = WItems Asleep) ∨ (r.2 = PopWaitLinger ∧ w' = WLinger Asleep) ∨
  (items_ q = [] ∧ ∃ more, r.2 = PopTaken [] more ∧ w' = WNotifyFull [] more) →
  (weight (mode_of q) w' < weight (mode_of q) w)%nat.
Proof.
  intros Hb Hr Hw'. destruct (pop_section_cases _ _ _ _ _ Hr) as (_ & _ & Hcases).
  unfold mode_of. destruct (is_empty q) eqn:E.
  - apply is_empty_spec in E.
    destruct Hcases as [(E2 & _ & _ & Hs & Hw)|[(E2 & _ & Hs & Hw)|(E2 & _ & Hw)]];
      rewrite E2 in Hw'.
    + rewrite Hs. assert (w' = WItems Asleep) as -> by naive_solver.
      destruct Hw as [-> | ->]; cbn; lia.
    + rewrite Hs. assert (w' = WLinger Asleep) as -> by naive_solver.
      destruct Hw as [[? _]| ->]; [done|cbn; lia].
    + assert (∃ more, w' = WNotifyFull [] more) as [more ->] by naive_solver.
      destruct Hw as [?|[->|[->|[->|?]]]]; [done| |destruct (shutdown_ q); cbn; lia..|lia].
      destruct w as [|[]|[]| | | | | | |]; cbn; try done; lia.
  - apply is_empty_false in E.
    destruct Hcases as [(_ & _ & ? & _)|[(E2 & _ & Hs & Hw)|(E2 & _ & Hw)]]; [done| |].
    + rewrite E2 in Hw'. assert (w' = WLinger Asleep) as -> by naive_solver.
      destruct Hw as [[_ [->|[->| ->]]]| ->]; cbn; lia.
    + rewrite E2 in Hw'. naive_solver.
Qed.

Lemma mul_drop_le (k a n : nat) : (1 ≤ n → n ≤ a → k * (a - n) + k ≤ k * a)%nat.
Proof. nia. Qed.

Lemma measure_pop cfg s i w ns r :
  1 ≤ batch_size_ cfg → workers s !! i = Some w →
  pop_section cfg ns w (queue s) = Some r → (measure (after_pop i r s) < measure s)%nat.
Proof.
  intros Hb Hi Hr. destruct (pop_section_cases _ _ _ _ _ Hr) as (_ & Hs & Hcases).
  assert (Hblock : ∀ w' s', items_ r.1 = items_ (queue s) →
    (weight (mode_of (queue s)) w' < weight (mode_of (queue s)) w)%nat →
    queue s' = r.1 → workers s' = <[i := w']> (workers s) → todo s' = todo s →
    producer s' = producer s → main s' = main s → (measure s' < measure s)%nat).
  { intros w' s' Hit Hlt Eq Ew Et Ep Em. unfold measure. rewrite Eq, Ew, Et, Ep, Em, length_insert, Hit.
    rewrite (mode_of_items (queue s) r.1) by done.
    pose proof (weights_insert (mode_of (queue s)) (workers s) i w w' Hi). lia. }
  unfold after_pop. destruct Hcases as [(E & Hit & _)|[(E & Hit & _)|(E & Hit & _)]]; rewrite E.
  - eapply Hblock; try done. eapply weight_blocked; [done..|]. by left.
  - eapply Hblock; try done. eapply weight_blocked; [done..|]. by auto.
  - destruct (decide (items_ (queue s) = [])) as [Hnil|Hne].
    + rewrite Hnil, take_nil in E |- *. eapply Hblock; try done; [by rewrite Hit, Hnil, drop_nil|].
      eapply weight_blocked; [done..|]. right; right. split; [done|].
      eexists. split; [exact E|done].
    + unfold measure. fields.
      rewrite length_insert, Hit, length_drop.
      set (ws' := <[i := _]> (workers s)).
      pose proof (weights_le (mode_of r.1) ws') as Hle.
      assert (Hl : length ws' = length (workers s)) by apply length_insert. rewrite Hl in Hle.
      assert (Hpos : (1 ≤ length (items_ (queue s)))%nat) by (destruct (items_ (queue s)); [done|cbn; lia]).
      set (n := Z.to_nat (batch_size_ cfg)) in *.
      assert (Hn : (1 ≤ n)%nat) by (unfold n; lia).
      assert (Hk : (item_cost (length (workers s)) * (length (items_ (queue s)) - n) +
                    item_cost (length (workers s)) ≤
                    item_cost (length (workers s)) * length (items_ (queue s)))%nat) by nia.
      unfold item_cost in *. unfold item_cost. lia.
Qed.

Lemma measure_push s p rest waited :
  todo s = p :: rest → producer s = PTop ∨ producer s = PWoken →
  (measure (after_push p rest (push p waited (queue s)) s) < measure s)%nat.
Proof.
  intros Ht Hp. assert (Hpw : producer_weight (producer s) = 2%nat) by by destruct Hp as [-> | ->].
  set (n := length (workers s)).
  assert (Hcost : (todo_cost n * length (todo s) = todo_cost n * length rest + todo_cost n)%nat)
    by (rewrite Ht; cbn [length]; lia).
  unfold after_push.
  destruct (push_cases p waited (queue s)) as [(E & _)|[(E & Hs)|(wk & E & Hs & _ & Hi & _)]];
    rewrite E; unfold measure;
    fields;
    fold n; rewrite Hpw.
  - cbn. lia.
  - assert (Hq : items_ (push p waited (queue s)).1 = items_ (queue s)).
    { unfold push, may_push in *. destruct waited; cbn; destruct (_ || _); cbn; by rewrite ?Hs. }
    rewrite Hq. pose proof (weights_le (mode_of (push p waited (queue s)).1) (workers s)) as Hle.
    fold n in Hle. rewrite Hcost. unfold todo_cost, item_cost. cbn [producer_weight]. lia.
  - rewrite Hi, length_app. cbn [length].
    pose proof (weights_le (mode_of (push p waited (queue s)).1) (workers s)) as Hle.
    fold n in Hle. rewrite Hcost. destruct wk; cbn [producer_weight];
      unfold todo_cost, item_cost in *; nia.
Qed.

(** ** Steps *)

Lemma measure_step cfg s s' :
  1 ≤ batch_size_ cfg → step cfg true s s' → (measure s' < measure s)%nat.
Proof.
  intros Hb Hstep. inversion Hstep; subst.
  - apply measure_push; [done|]. naive_solver.
  - unfold measure. fields. rewrite H. cbn [producer_weight].
    rewrite (notify_one_length _ _ _ H0). pose proof (weights_notify_one (mode_of (queue s)) _ _ _ H0). lia.
  - unfold measure. fields. rewrite H. cbn [main_weight producer_weight]. lia.
  - by eapply measure_pop.
  - pose proof (measure_worker s (set_worker i (WNotifyMore batch more) (set_producer
      (match batch with [] => producer s | _ => wake_producer (producer s) end) s)) i _
      (WNotifyMore batch more) H eq_refl eq_refl eq_refl eq_refl) as M.
    pose proof (producer_weight_wake (producer s)). destruct batch; cbn in *; lia.
  - assert (L : ws !! i = Some (WNotifyMore batch more)) by
      (destruct more; [by eapply notify_one_other|by simplify_eq]).
    pose proof (measure_worker (set_workers ws s) (set_workers (<[i:=WGot batch]> ws) s) i _
      (WGot batch) L eq_refl eq_refl eq_refl eq_refl) as M.
    assert (Hn : (measure (set_workers ws s) ≤ measure s + 2)%nat).
    { unfold measure. fields. destruct more; [|simplify_eq; lia].
      rewrite (notify_one_length _ _ _ H0). pose proof (weights_notify_one (mode_of (queue s)) _ _ _ H0). lia. }
    destruct batch; cbn in *; lia.
  - pose proof (measure_worker s (log_analyzed batch (set_worker i (WAnalyzed batch) s)) i _
      (WAnalyzed batch) H eq_refl eq_refl eq_refl eq_refl) as M. destruct batch; [done|]. cbn in *. lia.
  - pose proof (measure_worker s (set_worker i WCheck s) i _ WCheck H eq_refl eq_refl eq_refl eq_refl).
    cbn in *. lia.
  - pose proof (measure_worker s (add_processed (Zlength batch) (set_worker i WCounted s)) i _ WCounted
      H eq_refl eq_refl eq_refl eq_refl). cbn in *. lia.
  - pose proof (measure_worker s (add_batches 1 (set_worker i WTop s)) i _ WTop
      H eq_refl eq_refl eq_refl eq_refl). cbn in *. destruct (mode_of _); lia.
  - pose proof (measure_worker s (set_worker i (if is_finished (queue s) then WExit else WTop) s) i _
      _ H eq_refl eq_refl eq_refl eq_refl) as M. cbn in *.
    unfold is_finished, mode_of in *. destruct (is_empty (queue s)), (shutdown_ (queue s)); cbn in *; lia.
  - pose proof (measure_worker s (set_worker i (WLinger TimedOut) s) i _ _ H eq_refl eq_refl eq_refl eq_refl).
    cbn in *. destruct (mode_of _); lia.
  - unfold measure. fields. rewrite H. cbn [main_weight producer_weight]. lia.
  - unfold measure. fields.
    rewrite H. cbn [main_weight shutdown items_].
    pose proof (weights_le (mode_of (shutdown (queue s))) (workers s)). lia.
  - unfold measure. fields. rewrite H. cbn [main_weight]. pose proof (producer_weight_wake (producer s)). lia.
  - unfold measure. fields. rewrite H, length_fmap. cbn [main_weight].
    pose proof (weights_wake (mode_of (queue s)) (workers s)). lia.
  - unfold measure. fields. rewrite H. apply lookup_lt_Some in H0. cbn [main_weight]. lia.
  - unfold measure. fields. rewrite H. cbn [main_weight]. lia.
Qed.

Lemma measure_poll cfg s s' : step cfg false s s' → (measure s' ≤ measure s + 11)%nat.
Proof.
  intros Hstep. inversion Hstep; subst.
  - pose proof (measure_worker s (set_worker i (WItems TimedOut) s) i _ _ H eq_refl eq_refl eq_refl eq_refl).
    cbn in *. destruct (mode_of _); lia.
  - pose proof (measure_worker s (set_worker i (wake w) s) i _ _ H eq_refl eq_refl eq_refl eq_refl).
    pose proof (weight_wake (mode_of (queue s)) w). cbn in *. lia.
  - unfold measure. fields. rewrite H. cbn [main_weight producer_weight]. lia.
Qed.

(** ** Progress *)

(** Actions of the threads themselves: no timeout and no spurious wake-up. *)
Definition own_action (a : action) : bool :=
  match a with ACapture _ | AWorker _ _ | AMain => true | _ => false end.

Definition own_step (cfg : pool_config) (s : pipeline) : Prop :=
  ∃ a s', own_action a = true ∧ act cfg a s = Some s'.

Lemma own_not_poll a : own_action a = true → is_poll a = false.
Proof. by destruct a. Qed.

(** The action [a] is enabled. *)
Ltac own a :=
  exists a; eexists; split; [done|]; unfold act; cbn [act_ns];
  repeat match goal with H : _ = _ |- _ => rewrite H end; done.

(** A worker that is awake and has not exited. *)
Lemma worker_own cfg s i w :
  workers s !! i = Some w → w ≠ WExit → asleep w = false → own_step cfg s.
Proof.
  intros Hi He Hd. destruct w as [|[]|[]|batch more|batch more|batch|batch| | |]; try done;
    try by own (AWorker i 0).
  - destruct more; [|by own (AWorker i 0)].
    destruct (notify_one_exists (workers s)) as (j & ws & Hn). own (AWorker i j).
  - destruct batch; own (AWorker i 0).
Qed.

(** Nobody is awake. *)
Lemma worker_own_or cfg s :
  own_step cfg s ∨ Forall (λ w, asleep w = true ∨ w = WExit) (workers s).
Proof.
  destruct (decide (Forall (λ w, asleep w = true ∨ is_exit w = true) (workers s))) as [Hf|Hf].
  - right. eapply Forall_impl; [exact Hf|]. intros w [?|?]; [by left|right]. by destruct w.
  - left. apply not_Forall_Exists, Exists_exists in Hf; [|apply _].
    destruct Hf as (w & [i Hi]%list_elem_of_lookup & Hw).
    apply (worker_own cfg s i w Hi); [intros ->; apply Hw; by right|].
    destruct (asleep w) eqn:Ea; [|done]. destruct Hw. left. exact Ea.
Qed.

(** The capture thread blocked on a full queue while every worker sleeps; one of
    them lingers. *)
Record stalled (capacity : Z) (s : pipeline) : Prop := {
  st_push : producer s = PWait;
  st_full : capacity ≤ queue_size (queue s);
  st_asleep : Forall (λ w, asleep w = true) (workers s);
  st_linger : ∃ i, workers s !! i = Some (WLinger Asleep)
}.

Lemma some_worker_asleep f ws :
  some_worker f ws → Forall (λ w, asleep w = true) ws → ∃ i w, ws !! i = Some w ∧ asleep w = true ∧ f w = true.
Proof. intros (i & w & Hi & Hf) Ha. exists i, w. split; [done|]. by split; [apply (Forall_lookup_1 _ _ _ _ Ha Hi)|]. Qed.

Lemma blocked_own cfg capacity packets s :
  1 ≤ num_workers_ cfg → 1 ≤ capacity → inv cfg capacity packets s → producer s = PWait →
  own_step cfg s ∨ stalled capacity s.
Proof.
  intros Hn Hc [Hflow _ Hatt Hroom Hth] Hp. destruct (worker_own_or cfg s) as [?|Hws]; [by left|right].
  assert (Hcap := fl_capacity _ _ _ _ Hflow).
  assert (Hfull : capacity ≤ queue_size (queue s)).
  { destruct (Hroom Hp) as [?|(i & w & Hi & Hw)]; [lia|].
    destruct (Forall_lookup_1 _ _ _ _ Hws Hi) as [?| ->]; [|done]. by destruct w as [|[]|[]| | | | | | |]. }
  assert (Hne : items_ (queue s) ≠ []).
  { intros E. unfold queue_size in Hfull. rewrite E in Hfull. change (Zlength []) with 0 in Hfull. lia. }
  assert (Hsleep : Forall (λ w, asleep w = true) (workers s)).
  { apply Forall_lookup. intros i w Hi. destruct (Forall_lookup_1 _ _ _ _ Hws Hi) as [?| ->]; [done|].
    assert (Hfin : is_finished (queue s) = true) by (apply (th_exit _ _ Hth); by exists i, WExit).
    apply andb_true_iff in Hfin as [_ Hfin]. by apply is_empty_spec in Hfin. }
  split; try done. destruct (Hatt Hne) as [?|[Hs|Hf]]; [congruence| |].
  - destruct (some_worker_asleep _ _ Hs Hsleep) as (i & w & Hi & Ha & Hw). exists i.
    by destruct w as [|[]|[]| | | | | | |].
  - destruct (workers s) as [|w ws] eqn:E.
    { pose proof (th_length _ _ Hth) as Hl. rewrite E in Hl. cbn in Hl. lia. }
    exists 0%nat. apply Forall_cons in Hf as [Hf _], Hsleep as [Ha _]. by destruct w as [|[]|[]| | | | | | |].
Qed.

Lemma capture_own cfg capacity packets s :
  1 ≤ num_workers_ cfg → 1 ≤ capacity → inv cfg capacity packets s → producer s ≠ PDone →
  own_step cfg s ∨ stalled capacity s.
Proof.
  intros Hn Hc Hinv Hp. pose proof (fl_pending _ _ _ _ (inv_is_flow _ _ _ _ Hinv)) as Hpend.
  destruct (producer s) eqn:E; [left|by eapply blocked_own|left..|done].
  - destruct (todo s) as [|p rest] eqn:Et; own (ACapture 0).
  - destruct (todo s) as [|p rest] eqn:Et; [by destruct Hpend; auto|]. own (ACapture 0).
  - destruct (notify_one_exists (workers s)) as (j & ws & Hw). own (ACapture j).
Qed.

Lemma own_or_stalled cfg capacity packets s :
  1 ≤ num_workers_ cfg → 1 ≤ capacity → inv cfg capacity packets s → main s ≠ MEnd →
  own_step cfg s ∨ stalled capacity s.
Proof.
  intros Hn Hc Hinv Hm. pose proof Hinv as [Hflow _ _ _ [Hlen Hexit Hsleep Hjoin]].
  destruct (main s) as [| | | |i|] eqn:E; [|left; by own AMain..| |done].
  - destruct (producer s) eqn:Ep; [by eapply capture_own; rewrite ?Ep..|]. left. own AMain.
  - left. destruct (workers s !! i) as [w|] eqn:Ei.
    + destruct (is_exit w) eqn:Ew; [destruct w; try done; own AMain|].
      eapply worker_own; [done|by intros ->|].
      assert (Hsd : shutdown_ (queue s) = true) by (rewrite (fl_shutdown _ _ _ _ Hflow); by rewrite E).
      destruct (Hsleep Hsd) as [?|[?|Hf]]; [done..|]. by apply (Forall_lookup_1 _ _ _ _ Hf) in Ei.
    + exists AMain. eexists. split; [done|]. unfold act. cbn [act_ns]. rewrite E, Ei.
      rewrite bool_decide_true; [done|]. apply lookup_ge_None in Ei.
      destruct (decide (length (workers s) = i)) as [|Hne]; [done|]. exfalso.
      assert (Hlt : (length (workers s) < i)%nat) by lia.
      specialize (Hjoin (length (workers s)) Hlt). unfold exited in Hjoin.
      by rewrite lookup_ge_None_2 in Hjoin.
Qed.

Lemma own_enabled cfg s : own_step cfg s → ∃ s', step cfg true s s'.
Proof. intros (a & s' & Ha & Hs). exists s'. apply act_step in Hs. by rewrite (own_not_poll a Ha) in Hs. Qed.

Lemma progress cfg capacity packets s :
  1 ≤ num_workers_ cfg → 1 ≤ capacity → inv cfg capacity packets s → main s ≠ MEnd →
  ∃ s', step cfg true s s'.
Proof.
  intros Hn Hc Hinv Hm. destruct (own_or_stalled cfg capacity packets s) as [Ho|[_ _ _ [i Hi]]]; try done.
  - by apply own_enabled.
  - eexists. by apply (step_linger_timeout cfg s i).
Qed.

(** A pipeline stalls only when a full batch does not fit in the queue. *)
Lemma stalled_small cfg capacity packets s :
  1 ≤ num_workers_ cfg → inv cfg capacity packets s → inv_batch cfg s → stalled capacity s →
  capacity < batch_size_ cfg ∧ 0 < linger_us cfg.
Proof.
  intros Hn Hinv [_ Hf Hl] [Hp Hfull Ha [i Hi]]. split.
  - destruct (Z.lt_ge_cases capacity (batch_size_ cfg)) as [?|Hge]; [done|].
    destruct (Hf ltac:(lia)) as [?|[Hs|Hn']]; [congruence| |].
    + destruct (some_worker_asleep _ _ Hs Ha) as (j & w & _ & Hw & Hr).
      unfold ready_worker in Hr. rewrite Hw, andb_false_r in Hr. done.
    + by apply (Forall_lookup_1 _ _ _ _ Hn') in Hi.
  - destruct Hl as [?|Hl]; [done|]. by apply (Forall_lookup_1 _ _ _ _ Hl) in Hi.
Qed.

Lemma run_measure cfg w p s s' :
  1 ≤ batch_size_ cfg → run cfg w p s s' → (measure s' + w ≤ measure s + 11 * p)%nat.
Proof.
  intros Hb Hr. induction Hr as [|w p s s1 s2 _ IH Hs|w p s s1 s2 _ IH Hs]; [lia| |].
  - apply measure_step in Hs; [lia|done].
  - apply measure_poll in Hs. lia.
Qed.

Lemma inv_run cfg capacity packets w p s s' :
  0 ≤ batch_size_ cfg → inv cfg capacity packets s → run cfg w p s s' → inv cfg capacity packets s'.
Proof.
  intros Hb Hi Hr. eapply run_ind_inv; [|exact Hr|done]. intros k s1 s2. by apply inv_step.
Qed.

Lemma can_finish cfg capacity packets s :
  1 ≤ num_workers_ cfg → 1 ≤ batch_size_ cfg → 1 ≤ capacity → inv cfg capacity packets s →
  ∃ w s', run cfg w 0 s s' ∧ main s' = MEnd.
Proof.
  intros Hn Hb Hc. remember (measure s) as k eqn:Hk. revert s Hk.
  induction (lt_wf k) as [k _ IH]. intros s -> Hinv.
  destruct (main s) eqn:E; try (by exists 0%nat, s; split; [constructor|]);
    (destruct (progress cfg capacity packets s Hn Hc Hinv) as [s1 Hs]; [by rewrite E|];
     destruct (IH (measure s1) (measure_step cfg s s1 Hb Hs) s1 eq_refl) as (w & s2 & Hr & He);
     [by eapply inv_step; [lia|..]|];
     exists (w + 1)%nat, s2; split; [|done];
     eapply (run_app cfg 1 0 w 0); [|exact Hr]; eapply run_work; [constructor|done]).
Qed.

(** Actions that are always enabled until the end, and none of which is a poll
    timeout or a spurious wake-up, lead there. *)
Lemma finish_by cfg (ok : action → bool) (P : pipeline → Prop) :
  1 ≤ batch_size_ cfg → (∀ a, ok a = true → is_poll a = false) →
  (∀ s, P s → main s ≠ MEnd → ∃ a s', ok a = true ∧ act cfg a s = Some s') →
  (∀ s s', P s → step cfg true s s' → P s') →
  ∀ s, P s → ∃ schedule s', forallb ok schedule = true ∧ play cfg schedule s = Some s' ∧ main s' = MEnd.
Proof.
  intros Hb Hok Henabled Hkeep s. remember (measure s) as k eqn:Hk. revert s Hk.
  induction (lt_wf k) as [k _ IH]. intros s -> HP.
  assert (He : main s = MEnd ∨ main s ≠ MEnd) by (destruct (main s); auto). destruct He as [He|He]; [by exists [], s|].
  destruct (Henabled s HP He) as (a & s1 & Ha & Hs).
  pose proof (act_step cfg a s s1 Hs) as Hstep. rewrite (Hok a Ha) in Hstep.
  destruct (IH (measure s1) (measure_step cfg s s1 Hb Hstep) s1 eq_refl (Hkeep _ _ HP Hstep))
    as (schedule & s2 & Hf & Hp & Hend).
  exists (a :: schedule), s2. cbn [forallb play]. by rewrite Ha, Hf, Hs.
Qed.

(** ** Properties *)

(** C2. The pipeline cannot deadlock and every execution ends.  From every
    reachable state: as long as the main thread has not returned, some thread can
    take a step of its own (no timeout, no spurious wake-up), or a full batch
    does not fit in the queue, [push] is blocked and a worker lingers, so that its
    linger timeout can run out.  The number of steps still to come is bounded by
    [measure], plus 11 for every poll timeout or spurious wake-up.  The end can be
    reached without poll timeouts and spurious wake-ups, and without any timeout
    at all when a full batch fits in the queue or workers do not linger. *)
Theorem pipeline_terminates cfg capacity packets s :
  1 ≤ num_workers_ cfg → 1 ≤ batch_size_ cfg → 1 ≤ capacity →
  reachable cfg capacity packets s →
  (main s ≠ MEnd →
     own_step cfg s ∨ (capacity < batch_size_ cfg ∧ 0 < linger_us cfg ∧ stalled capacity s)) ∧
  (∀ w p s', run cfg w p s s' → (w ≤ measure s + 11 * p)%nat) ∧
  (∃ schedule s', forallb (λ a, negb (is_poll a)) schedule = true ∧
     play cfg schedule s = Some s' ∧ main s' = MEnd) ∧
  (batch_size_ cfg ≤ capacity ∨ linger_us cfg ≤ 0 →
     ∃ schedule s', forallb own_action schedule = true ∧
       play cfg schedule s = Some s' ∧ main s' = MEnd).
Proof.
  intros Hn Hb Hc Hr.
  pose (P := λ s, inv cfg capacity packets s ∧ inv_batch cfg s).
  assert (HP : P s) by (split; [apply reachable_inv; [lia..|done]|by eapply reachable_batch]).
  assert (Hkeep : ∀ s s', P s → step cfg true s s' → P s')
    by (intros s1 s2 [H1 H2] Hs; split; [eapply inv_step; [lia|done..]|by eapply inv_batch_step]).
  assert (Hprog : ∀ s, P s → main s ≠ MEnd →
    own_step cfg s ∨ (capacity < batch_size_ cfg ∧ 0 < linger_us cfg ∧ stalled capacity s)).
  { intros s1 [H1 H2] Hm. destruct (own_or_stalled cfg capacity packets s1) as [?|Hst]; try done; [by left|right].
    by destruct (stalled_small cfg capacity packets s1 Hn H1 H2 Hst). }
  split_and!.
  - by apply Hprog.
  - intros w p s' Hrun. pose proof (run_measure cfg w p s s' Hb Hrun). lia.
  - apply (finish_by cfg _ P Hb); [by intros a ?%negb_true_iff| |done..]. intros s1 H1 Hm.
    destruct (Hprog s1 H1 Hm) as [(a & s2 & Ha & Hs)|(_ & _ & [_ _ _ [i Hi]])].
    + exists a, s2. by rewrite (own_not_poll a Ha).
    + exists (ALinger i). eexists. split; [done|]. unfold act. cbn [act_ns]. by rewrite Hi.
  - intros Hfit. apply (finish_by cfg _ P Hb own_not_poll); [|done..]. intros s1 H1 Hm.
    destruct (Hprog s1 H1 Hm) as [?|(? & ? & _)]; [done|lia].
Qed.

Lemma pipeline_terminates_witness :
  ∃ s, play small_pool blocking_schedule (pipeline_start small_pool 2 small_trace) = Some s ∧
    producer s = PWait ∧ ∃ schedule s', forallb own_action schedule = true ∧
      play small_pool schedule s = Some s' ∧ main s' = MEnd.
Proof.
  eexists. split; [vm_compute; reflexivity|]. split; [reflexivity|].
  eapply (pipeline_terminates small_pool 2 small_trace); [by_decide..| |by left; by_decide].
  eapply (play_reachable small_pool 2 small_trace blocking_schedule). vm_compute. reflexivity.
Defined.

(** The linger timeout can be what everybody waits for: with room for one packet
    and batches of two, the worker lingers for a second packet that the blocked
    capture thread cannot push. *)
Definition tight_pool : pool_config := WorkerPool_new 1 2 2000.

Definition stalling_schedule : list action :=
  [AWorker 0 0; ACapture 0; ACapture 0; AWorker 0 0; ACapture 0].

Lemma linger_timeout_needed :
  ∃ s, play tight_pool stalling_schedule (pipeline_start tight_pool 1 small_trace) = Some s ∧
    stalled 1 s ∧ main s ≠ MEnd ∧ ∀ a, own_action a = true → act tight_pool a s = None.
Proof.
  eexists. split; [vm_compute; reflexivity|]. split; [|split; [done|]].
  - split; [done|by_decide|by_decide|by exists 0%nat].
  - intros [j|i j|i| |i|i|]; try done. intros _. by destruct i as [|i].
Qed.
