(* ===== verification/Entropy.v ===== *)
(** * Shannon entropy of a payload ([src/analysis/entropy.cpp])

    The routine is written once over the [double] operations it uses
    ([DoubleOps]).  [binary64] is the machine instance, the IEEE arithmetic of
    [SpecFloat] with [std::log2] as an argument (the standard leaves its rounding
    to the library); the instance on the real numbers is in [EntropyReal]. *)
From Stdlib Require Import Floats.SpecFloat.
From S2P Require Import Prelude.

(** ** The operations *)

Class DoubleOps (F : Type) : Type := {
  d_of_uint : Z → F;        (* static_cast<double> of an unsigned integer *)
  d_sub : F → F → F;
  d_mul : F → F → F;
  d_div : F → F → F;
  d_log2 : F → F            (* std::log2 *)
}.

(** [++histogram[data[i]]] on the [std::array<uint32_t, 256>]. *)
Definition count_byte (histogram : list Z) (byte : Z) : list Z :=
  alter (λ c, wrap 32 (c + 1)) (Z.to_nat byte) histogram.

Definition byte_histogram (data : list Z) : list Z :=
  fold_left count_byte data (replicate 256 0).

Section Shannon.
Context {F : Type} `{DoubleOps F}.

(** The body of the second loop. *)
Definition entropy_step (total entropy : F) (count : Z) : F :=
  if count =? 0 then entropy
  else
    let p := d_div (d_of_uint count) total in
    d_sub entropy (d_mul p (d_log2 p)).

(** [None] is the null pointer. *)
Definition shannon_entropy (data : option (list Z)) : F :=
  match data with
  | None => d_of_uint 0
  | Some bytes =>
      if Zlength bytes =? 0 then d_of_uint 0
      else
        let histogram := byte_histogram bytes in
        let total := d_of_uint (Zlength bytes) in
        fold_left (entropy_step total) histogram (d_of_uint 0)
  end.

End Shannon.

(** ** IEEE binary64 *)

Definition b64_of_uint (z : Z) : spec_float := binary_normalize 53 1024 z 0 false.

Definition binary64 (log2 : spec_float → spec_float) : DoubleOps spec_float := {|
  d_of_uint := b64_of_uint;
  d_sub := SFsub 53 1024;
  d_mul := SFmul 53 1024;
  d_div := SFdiv 53 1024;
  d_log2 := log2
|}.

(** What every implementation of [log2] gives exactly: the powers of two. *)
Class Log2Exact (log2 : spec_float → spec_float) : Prop :=
  log2_exact k : 0 ≤ k ≤ 8 → log2 (SFdiv 53 1024 (b64_of_uint 1) (b64_of_uint (2 ^ k))) =
                             SFsub 53 1024 (b64_of_uint 0) (b64_of_uint k).

(** ** The histogram counts *)

Definition count_of (b : Z) (data : list Z) : Z := Zlength (filter (λ x, x = b) data).

Lemma count_byte_length h b : length (count_byte h b) = length h.
Proof. apply length_alter. Qed.

Lemma histogram_length data h : length (fold_left count_byte data h) = length h.
Proof.
  revert h. induction data as [|b data IH]; intros h; cbn; [done|].
  by rewrite IH, count_byte_length.
Qed.

Lemma wrap_add32 a b : wrap 32 (wrap 32 a + b) = wrap 32 (a + b).
Proof. unfold wrap. by rewrite Zplus_mod_idemp_l. Qed.

Lemma count_of_cons b x data : count_of b (x :: data) = (if decide (x = b) then 1 else 0) + count_of b data.
Proof.
  unfold count_of. rewrite filter_cons. case_decide; [|lia]. by rewrite Zlength_cons.
Qed.

Lemma histogram_fold data h (b : nat) c :
  bytes_ok data → h !! b = Some c →
  fold_left count_byte data h !! b = Some (if decide (count_of (Z.of_nat b) data = 0) then c
                                           else wrap 32 (c + count_of (Z.of_nat b) data)).
Proof.
  unfold bytes_ok. intros Hok. revert h c. induction Hok as [|x data Hx _ IH]; intros h c Hb; cbn.
  - done.
  - unfold is_uint in Hx. pose proof (Zlength_nonneg (filter (λ y, y = Z.of_nat b) data)) as Hn.
    fold (count_of (Z.of_nat b) data) in Hn. unfold count_byte at 2.
    rewrite count_of_cons. destruct (decide (x = Z.of_nat b)) as [->|Hne].
    + rewrite (IH _ (wrap 32 (c + 1))) by (rewrite Nat2Z.id, list_lookup_alter_eq, Hb; done).
      f_equal. rewrite (decide_False (P := 1 + _ = 0)) by lia.
      case_decide as E; [by rewrite E|]. rewrite wrap_add32. f_equal. lia.
    + rewrite (IH _ c); [done|]. rewrite list_lookup_alter_ne; [done|]. lia.
Qed.

Lemma histogram_lookup data (b : nat) :
  bytes_ok data → (b < 256)%nat →
  byte_histogram data !! b = Some (wrap 32 (count_of (Z.of_nat b) data)).
Proof.
  intros Hok Hb. unfold byte_histogram.
  rewrite (histogram_fold data _ b 0) by (done || by apply lookup_replicate_2).
  case_decide as E; [|done]. by rewrite E.
Qed.

(** The histogram depends on the bytes, not on their order. *)
Lemma histogram_permutation data data' : data ≡ₚ data' → byte_histogram data = byte_histogram data'.
Proof.
  unfold byte_histogram. generalize (replicate 256 0). intros h Hp. revert h.
  induction Hp as [|b data data' _ IH|b b' data|data data' data'' _ IH1 _ IH2]; intros h; cbn.
  - done.
  - apply IH.
  - f_equal. unfold count_byte. destruct (decide (Z.to_nat b = Z.to_nat b')) as [->|Hne]; [done|].
    by rewrite list_alter_alter_ne.
  - by rewrite IH1.
Qed.

(** The counts add up to the length. *)
Fixpoint Zsum (l : list Z) : Z := match l with [] => 0 | x :: l => x + Zsum l end.

Lemma Zsum_nonneg l : Forall (λ x, 0 ≤ x) l → 0 ≤ Zsum l.
Proof. induction 1; cbn; lia. Qed.

Lemma Zsum_lookup_le l i x : Forall (λ x, 0 ≤ x) l → l !! i = Some x → x ≤ Zsum l.
Proof.
  intros H. revert i. induction H as [|y l Hy Hl IH]; intros i Hi; [done|].
  pose proof (Zsum_nonneg l Hl). destruct i as [|i]; cbn in *; [simplify_eq; lia|].
  specialize (IH i Hi). lia.
Qed.

Lemma Zsum_alter f l i x : l !! i = Some x → Zsum (alter f i l) = Zsum l - x + f x.
Proof.
  revert i. induction l as [|y l IH]; intros i Hi; [done|].
  destruct i as [|i]; cbn in Hi; [simplify_eq; cbn; lia|]. specialize (IH i Hi).
  change (alter f (S i) (y :: l)) with (y :: alter f i l). cbn [Zsum]. lia.
Qed.

Lemma Zsum_insert {A} (f : A → Z) l i x y :
  l !! i = Some x → Zsum (f <$> <[i := y]> l) = Zsum (f <$> l) - f x + f y.
Proof.
  intros Hi. assert (Hf : (f <$> l) !! i = Some (f x)) by by rewrite list_lookup_fmap, Hi.
  rewrite list_fmap_insert, <- (Zsum_alter (λ _, f y) (f <$> l) i (f x) Hf).
  by rewrite (alter_insert (λ _, f y) _ _ _ Hf).
Qed.

Lemma Zsum_replicate n : Zsum (replicate n 0) = 0.
Proof. induction n; cbn; lia. Qed.

Lemma histogram_fold_sum data h :
  bytes_ok data → length h = 256%nat → Forall (λ x, 0 ≤ x) h → Zsum h + Zlength data < 2 ^ 32 →
  Zsum (fold_left count_byte data h) = Zsum h + Zlength data ∧
  Forall (λ x, 0 ≤ x) (fold_left count_byte data h).
Proof.
  intros Hok. unfold bytes_ok in Hok. revert h.
  induction Hok as [|b data Hb _ IH]; intros h Hl Hp Hs; cbn [fold_left].
  - rewrite Zlength_nil in *. split; [lia|done].
  - rewrite Zlength_cons in *. unfold is_uint in Hb. pose proof (Zlength_nonneg data).
    destruct (lookup_lt_is_Some_2 h (Z.to_nat b)) as [c Hc]; [lia|].
    pose proof (Zsum_lookup_le h _ _ Hp Hc) as Hle.
    assert (Hc0 : 0 ≤ c) by (rewrite Forall_lookup in Hp; by eapply Hp).
    assert (Hsum : Zsum (count_byte h b) = Zsum h + 1).
    { unfold count_byte. rewrite (Zsum_alter _ _ _ c Hc), wrap_small; [lia|]. unfold is_uint. lia. }
    destruct (IH (count_byte h b)) as [E F].
    + by rewrite count_byte_length.
    + unfold count_byte. apply Forall_alter; [done|]. intros x Hx Hx0.
      pose proof (wrap_range 32 (x + 1) ltac:(lia)) as [? _]. done.
    + rewrite Hsum. lia.
    + split; [rewrite E, Hsum; lia|done].
Qed.

Lemma histogram_sum data :
  bytes_ok data → Zlength data < 2 ^ 32 →
  Zsum (byte_histogram data) = Zlength data ∧ Forall (λ x, 0 ≤ x) (byte_histogram data).
Proof.
  intros Hok Hl. destruct (histogram_fold_sum data (replicate 256 0) Hok) as [E F].
  - by rewrite length_replicate.
  - by apply Forall_replicate.
  - rewrite Zsum_replicate. lia.
  - unfold byte_histogram. split; [rewrite E, Zsum_replicate; lia|done].
Qed.

(** ** Payloads of distinct bytes, and of one byte *)

Lemma histogram_distinct data :
  NoDup data → bytes_ok data → Forall (λ c, c = 0 ∨ c = 1) (byte_histogram data).
Proof.
  intros Hnd Hok. apply Forall_lookup. intros i c Hi.
  assert (Hlt : (i < 256)%nat).
  { apply lookup_lt_Some in Hi. unfold byte_histogram in Hi. by rewrite histogram_length in Hi. }
  rewrite histogram_lookup in Hi by done. injection Hi as <-.
  assert (Hle : count_of (Z.of_nat i) data ≤ 1).
  { unfold count_of. clear Hok. induction Hnd as [|x data Hx _ IH]; [done|].
    rewrite filter_cons. case_decide as E; [|done]. subst x.
    destruct (filter (λ y, y = Z.of_nat i) data) as [|y l] eqn:Ef; [done|].
    assert (Hy : y ∈ filter (λ y, y = Z.of_nat i) data) by (rewrite Ef; by left).
    apply list_elem_of_filter in Hy as [-> ?]. done. }
  pose proof (Zlength_nonneg (filter (λ x, x = Z.of_nat i) data)) as Hge.
  fold (count_of (Z.of_nat i) data) in Hge.
  rewrite wrap_small by (unfold is_uint; lia). lia.
Qed.

(** Zero counts are skipped, so only the number of ones matters. *)
Lemma fold_ones {F} `{DoubleOps F} total e l :
  Forall (λ c, c = 0 ∨ c = 1) l →
  fold_left (entropy_step total) l e =
  Nat.iter (Z.to_nat (Zsum l)) (λ e, entropy_step total e 1) e.
Proof.
  intros Hl. revert e. induction Hl as [|c l Hc Hl IH]; intros e; [done|].
  cbn [fold_left Zsum]. rewrite IH.
  assert (0 ≤ Zsum l) by (apply Zsum_nonneg; eapply Forall_impl; [exact Hl|]; cbn; lia).
  destruct Hc as [->| ->].
  - by rewrite Z.add_0_l.
  - rewrite Z2Nat.inj_add, Nat.add_comm, Nat.iter_add by lia. done.
Qed.

(** Only one count is not zero. *)
Lemma fold_zeros {F} `{DoubleOps F} total e l :
  Forall (λ c, c = 0) l → fold_left (entropy_step total) l e = e.
Proof. intros Hl. revert e. induction Hl as [|c l -> _ IH]; intros e; [done|]. apply IH. Qed.

Lemma fold_single {F} `{DoubleOps F} total e l i c :
  l !! i = Some c → (∀ j d, l !! j = Some d → j ≠ i → d = 0) →
  fold_left (entropy_step total) l e = entropy_step total e c.
Proof.
  intros Hi Hz. rewrite <- (take_drop_middle l i c Hi), fold_left_app.
  cbn [fold_left]. rewrite (fold_zeros _ _ (drop _ _)); [rewrite (fold_zeros _ _ (take _ _)); [done|]|].
  - apply Forall_lookup. intros j d Hj. apply lookup_take_Some in Hj as [Hj ?].
    eapply Hz; [exact Hj|lia].
  - apply Forall_lookup. intros j d Hj. rewrite lookup_drop in Hj. eapply Hz; [exact Hj|lia].
Qed.

Lemma count_of_replicate b c n :
  count_of b (replicate n c) = if decide (c = b) then Z.of_nat n else 0.
Proof.
  induction n as [|n IH]; [by case_decide|]. cbn [replicate]. rewrite count_of_cons, IH.
  case_decide; lia.
Qed.

Lemma histogram_replicate n b i :
  is_uint 8 b → Z.of_nat n < 2 ^ 32 → (i < 256)%nat →
  byte_histogram (replicate n b) !! i = Some (if decide (b = Z.of_nat i) then Z.of_nat n else 0).
Proof.
  intros Hb Hn Hi. rewrite histogram_lookup, count_of_replicate; [|by apply Forall_replicate|done].
  case_decide; [|done]. f_equal. apply wrap_small. unfold is_uint. lia.
Qed.

(** *** [x / x] is [1.0] *)

Definition one_b64 : spec_float := SFdiv 53 1024 (b64_of_uint 1) (b64_of_uint (2 ^ 0)).

Lemma digits2_pos_le p : (2 ^ (Z.pos (digits2_pos p) - 1) ≤ Z.pos p)%Z.
Proof.
  induction p as [p IH|p IH|]; cbn [digits2_pos]; [..|done];
    rewrite Pos2Z.inj_succ;
    (replace (Z.succ (Z.pos (digits2_pos p)) - 1) with (Z.succ (Z.pos (digits2_pos p) - 1)) by lia);
    rewrite Z.pow_succ_r; lia.
Qed.

Lemma digits2_pos_bound p k : 0 ≤ k → Z.pos p < 2 ^ k → Z.pos (digits2_pos p) ≤ k.
Proof.
  intros Hk Hp. pose proof (digits2_pos_le p) as Hd.
  apply Z.lt_pred_le. rewrite <- Z.sub_1_r. apply (Z.pow_lt_mono_r_iff 2); lia.
Qed.

Lemma digits2_shift p n : digits2_pos (Pos.iter xO p n) = (digits2_pos p + n)%positive.
Proof.
  induction n as [|n IH] using Pos.peano_ind; [cbn; lia|].
  rewrite Pos.iter_succ. cbn [digits2_pos]. rewrite IH. lia.
Qed.

(** A mantissa that needs no shift is kept. *)
Lemma round_aux_exact m e :
  fexp 53 1024 (Z.pos (digits2_pos m) + e) = e → e ≤ 971 →
  binary_round_aux 53 1024 false (Z.pos m) e loc_Exact = S754_finite false m e.
Proof.
  intros Hf He. unfold binary_round_aux, shr_fexp. cbn [Zdigits2 shr_record_of_loc].
  rewrite Hf, Z.sub_diag. cbn [shr shr_m loc_of_shr_record round_nearest_even Zdigits2 shr_record_of_loc].
  rewrite Hf, Z.sub_diag. cbn [shr shr_m]. by rewrite (proj2 (Z.leb_le _ _)) by lia.
Qed.

Lemma b64_of_uint_finite n :
  0 < n < 2 ^ 53 → ∃ m e, b64_of_uint n = S754_finite false m e.
Proof.
  intros Hn. destruct n as [|p|p]; try lia. unfold b64_of_uint, binary_normalize, binary_round.
  pose proof (digits2_pos_bound p 53 ltac:(lia) ltac:(lia)) as Hd. rewrite Z.add_0_r.
  assert (Hf : fexp 53 1024 (Z.pos (digits2_pos p)) = Z.pos (digits2_pos p) - 53)
    by (unfold fexp, emin; lia).
  rewrite Hf. unfold shl_align. rewrite Z.sub_0_r.
  destruct (Z.pos (digits2_pos p) - 53) as [|d|d] eqn:Ed; [|lia|].
  - rewrite round_aux_exact; [by eauto| |lia]. rewrite Z.add_0_r, Hf. lia.
  - rewrite round_aux_exact; [by eauto| |lia]. rewrite digits2_shift. unfold fexp, emin. lia.
Qed.

Lemma SFdiv_self m e :
  SFdiv 53 1024 (S754_finite false m e) (S754_finite false m e) = one_b64.
Proof.
  unfold SFdiv, SFdiv_core_binary. rewrite !Z.sub_diag.
  change (fexp 53 1024 0) with (-53). change (Z.min (-53) 0) with (-53).
  change (0 - -53) with 53. cbn [xorb]. rewrite Z.shiftl_mul_pow2, (Z.mul_comm (Z.pos m)) by done.
  pose proof (Z.div_eucl_eq (2 ^ 53 * Z.pos m) (Z.pos m) ltac:(lia)) as Heq.
  pose proof (Z.mod_pos_bound (2 ^ 53 * Z.pos m) (Z.pos m) ltac:(lia)) as Hr. unfold Z.modulo in Hr.
  destruct (Z.div_eucl (2 ^ 53 * Z.pos m) (Z.pos m)) as [q r].
  assert (Hq : q = 2 ^ 53) by nia. assert (Hr0 : r = 0) by nia. rewrite Hq, Hr0.
  unfold new_location, new_location_even, new_location_odd. destruct (Z.even (Z.pos m)); by vm_compute.
Qed.

Lemma self_ratio n :
  0 < n < 2 ^ 53 → SFdiv 53 1024 (b64_of_uint n) (b64_of_uint n) = one_b64.
Proof. intros Hn. destruct (b64_of_uint_finite n Hn) as (m & e & ->). apply SFdiv_self. Qed.

(** A [log2] for evaluation: the exact powers of two, and an arbitrary result on
    other values. *)
Definition log2_powers (x : spec_float) : spec_float :=
  match x with
  | S754_finite false m e =>
      if Pos.eqb m (Pos.shiftl 1 52)
      then SFsub 53 1024 (b64_of_uint 0) (b64_of_uint (- (e + 52)))
      else S754_nan
  | _ => S754_nan
  end.

#[export] Instance log2_powers_exact : Log2Exact log2_powers.
Proof.
  intros k Hk. assert (k = 0 ∨ k = 1 ∨ k = 2 ∨ k = 3 ∨ k = 4 ∨ k = 5 ∨ k = 6 ∨ k = 7 ∨ k = 8) as H
    by lia.
  destruct H as [->|[->|[->|[->|[->|[->|[->|[->| ->]]]]]]]]; by vm_compute.
Qed.

(** ** Properties *)

(** Entropy depends only on how often each byte value occurs: reordering the
    bytes of a payload gives the same value to the last bit, in any [double]
    arithmetic. *)
Theorem shannon_entropy_permutation {F} `{DoubleOps F} data data' :
  data ≡ₚ data' → shannon_entropy (F := F) (Some data) = shannon_entropy (Some data').
Proof.
  intros Hp. unfold shannon_entropy.
  rewrite (histogram_permutation data data' Hp). unfold Zlength.
  by rewrite (Permutation_length Hp).
Qed.

Lemma shannon_entropy_permutation_witness :
  shannon_entropy (F := spec_float) (H := binary64 log2_powers) (Some [1; 2; 1]) =
  shannon_entropy (F := spec_float) (H := binary64 log2_powers) (Some [2; 1; 1]).
Proof.
  apply (@shannon_entropy_permutation spec_float (binary64 log2_powers) [1; 2; 1] [2; 1; 1]).
  apply perm_swap.
Defined.

(** In [double] arithmetic, a payload of [2^k] distinct bytes has an entropy
    of exactly [k] bits, for [k] up to 8, with any [std::log2] that is exact on
    powers of two: 256 different bytes reach the maximum 8.0, and 128 reach the
    default alert threshold 7.0. *)
Theorem distinct_bytes_entropy log2 `{!Log2Exact log2} data k :
  NoDup data → bytes_ok data → Zlength data = 2 ^ k → 0 ≤ k ≤ 8 →
  shannon_entropy (H := binary64 log2) (Some data) = b64_of_uint k.
Proof.
  intros Hnd Hok Hlen Hk. pose proof (log2_exact k Hk) as Hlog.
  assert (Hlt : Zlength data < 2 ^ 32)
    by (rewrite Hlen; apply (Z.lt_le_trans _ (2 ^ 9)); [apply Z.pow_lt_mono_r|]; lia).
  destruct (histogram_sum data Hok Hlt) as [Hsum _].
  unfold shannon_entropy. rewrite Hlen.
  assert ((2 ^ k =? 0) = false) as -> by (apply Z.eqb_neq; pose proof (Z.pow_pos_nonneg 2 k); lia).
  rewrite fold_ones by by apply histogram_distinct. rewrite Hsum, Hlen.
  unfold entropy_step. cbn [Z.eqb d_div d_of_uint d_log2 d_mul d_sub binary64]. rewrite Hlog.
  clear -Hk.
  assert (k = 0 ∨ k = 1 ∨ k = 2 ∨ k = 3 ∨ k = 4 ∨ k = 5 ∨ k = 6 ∨ k = 7 ∨ k = 8) as H by lia.
  destruct H as [->|[->|[->|[->|[->|[->|[->|[->| ->]]]]]]]]; by vm_compute.
Qed.

Lemma distinct_bytes_entropy_witness :
  shannon_entropy (H := binary64 log2_powers) (Some (Z.of_nat <$> seq 0 256)) = b64_of_uint 8.
Proof. apply (distinct_bytes_entropy log2_powers (Z.of_nat <$> seq 0 256) 8); by_decide. Defined.

(** A payload that repeats one byte has an entropy of exactly zero (and so
    does an absent or empty one). *)
Theorem constant_payload_entropy log2 `{!Log2Exact log2} n b :
  is_uint 8 b → Z.of_nat n < 2 ^ 32 →
  shannon_entropy (H := binary64 log2) (Some (replicate n b)) = S754_zero false ∧
  shannon_entropy (H := binary64 log2) None = S754_zero false.
Proof.
  intros Hb Hn. split; [|done]. unfold shannon_entropy, Zlength. rewrite length_replicate.
  destruct (Z.eqb_spec (Z.of_nat n) 0) as [|Hn0]; [done|].
  unfold is_uint in Hb. rewrite (fold_single _ _ _ (Z.to_nat b) (Z.of_nat n)).
  - unfold entropy_step. rewrite (proj2 (Z.eqb_neq _ _) Hn0).
    cbn [d_div d_of_uint d_log2 d_mul d_sub binary64]. rewrite self_ratio by lia.
    unfold one_b64. rewrite (log2_exact (log2 := log2) 0) by lia. by vm_compute.
  - rewrite histogram_replicate by (unfold is_uint; lia). by rewrite decide_True by lia.
  - intros j d Hj Hne.
    assert (Hlt : (j < 256)%nat).
    { apply lookup_lt_Some in Hj. unfold byte_histogram in Hj. by rewrite histogram_length in Hj. }
    rewrite histogram_replicate in Hj by (unfold is_uint; lia).
    rewrite decide_False in Hj by lia. by simplify_eq.
Qed.

Lemma constant_payload_entropy_witness :
  shannon_entropy (H := binary64 log2_powers) (Some (replicate 1460 65)) = S754_zero false ∧
  shannon_entropy (H := binary64 log2_powers) None = S754_zero false.
Proof. apply (constant_payload_entropy log2_powers 1460 65); by_decide. Defined.
