(* ===== verification/PipelineTime.v ===== *)
(** * The pipeline and the clock ([src/queue/packet_queue.cpp], [src/main.cpp])

    [Pipeline] leaves the moments at which threads run, and the times they
    measure, open.  Here the steady clock is part of the state: it advances
    between actions, threads read it where the code does, a wait times out once
    its deadline has passed, and [elapsed_ns] is computed from the readings.
    [PipelineTimeSpec] has the invariants and the properties. *)
From S2P Require Import Prelude Packet PacketQueue Pipeline PipelineSpec.

(** ** The clock *)

(** [elapsed_ns]: nanoseconds from [start] to [now] as a [uint64_t]. *)
Definition elapsed_ns (start now : Z) : Z := wrap 64 (now - start).

(** The local variables of a worker in [pop_batch]: [start], and the deadline of
    the [wait_for] it is in. *)
Record pop_frame : Type := mk_pop_frame { start : Z; deadline : Z }.

(** The pipeline, the clock and the readings kept in local variables:
    [push_start] that of a blocked [push], [frames] those of the workers in
    [pop_batch], the last four those of [main] and of the capture thread. *)
Record timed : Type := mk_timed {
  base : pipeline;
  clock : Z;
  push_start : option Z;
  frames : list (option pop_frame);
  started : Z;
  capture_started : option Z;
  capture_ended : option Z;
  finished : option Z
}.

(** [main] has read [started], started the pool and created the capture thread. *)
Definition timed_start (cfg : pool_config) (capacity : Z) (packets : list QueuedPacket) (now : Z)
    : timed :=
  mk_timed (pipeline_start cfg capacity packets) now None
    (replicate (Z.to_nat (num_workers_ cfg)) None) now None None None.

Definition set_clock (t : Z) (s : timed) : timed :=
  mk_timed (base s) t (push_start s) (frames s) (started s) (capture_started s)
    (capture_ended s) (finished s).
Definition set_frames (l : list (option pop_frame)) (s : timed) : timed :=
  mk_timed (base s) (clock s) (push_start s) l (started s) (capture_started s)
    (capture_ended s) (finished s).
Definition set_capture_started (t : Z) (s : timed) : timed :=
  mk_timed (base s) (clock s) (push_start s) (frames s) (started s) (Some t)
    (capture_ended s) (finished s).
Definition set_capture_ended (t : Z) (s : timed) : timed :=
  mk_timed (base s) (clock s) (push_start s) (frames s) (started s) (capture_started s)
    (Some t) (finished s).
Definition set_finished (t : Z) (s : timed) : timed :=
  mk_timed (base s) (clock s) (push_start s) (frames s) (started s) (capture_started s)
    (capture_ended s) (Some t).

(** ** Actions *)

Inductive timed_action : Type :=
  | TTick (d : Z)          (* time passes *)
  | TCaptureStart          (* the capture thread reads [capture_started] *)
  | TCaptureEnd            (* and the clock again, after [capture.run] *)
  | TPopStart (i : nat)    (* worker [i] enters [pop_batch] and reads [start] *)
  | TFinish                (* [main] reads the clock after the joins *)
  | TAct (a : action).

Section Actions.
Context (cfg : pool_config) (poll_ms : Z).

(** The deadlines of the two waits, in nanoseconds from now. *)
Definition poll_ns : Z := poll_ms * 1000000.
Definition linger_ns : Z := linger_us cfg * 1000.

(** A worker goes from [w] to [w']: a wait it enters gets a deadline, a wait it
    stays in keeps its own, and the variables are gone when it has its batch. *)
Definition frame_after (now : Z) (w w' : worker_pc) (f : option pop_frame) : option pop_frame :=
  match w', f with
  | WItems _, Some f =>
      Some (match w with WItems _ => f | _ => mk_pop_frame (start f) (now + poll_ns) end)
  | WLinger _, Some f =>
      Some (match w with WLinger _ => f | _ => mk_pop_frame (start f) (now + linger_ns) end)
  | _, _ => None
  end.

(** Whether the thread is past the reading that comes before the action, and a
    timeout due. *)
Definition due (i : nat) (s : timed) : bool :=
  match frames s !! i with Some (Some f) => deadline f <=? clock s | _ => false end.

Definition ready (a : action) (s : timed) : bool :=
  match a with
  | ACapture _ => match capture_started s with Some _ => true | None => false end
  | AWorker i _ =>
      match workers (base s) !! i, frames s !! i with
      | Some WTop, Some None => false
      | _, _ => true
      end
  | ALinger i | APoll i => due i s
  | AMain =>
      match main (base s), capture_ended s with MJoinCapture, None => false | _, _ => true end
  | ASpurious _ | ASpuriousPush => true
  end.

(** What [elapsed_ns] returns to the thread. *)
Definition measured (a : action) (s : timed) : Z :=
  match a with
  | ACapture _ => match push_start s with Some t => elapsed_ns t (clock s) | None => 0 end
  | AWorker i _ =>
      match frames s !! i with Some (Some f) => elapsed_ns (start f) (clock s) | _ => 0 end
  | _ => 0
  end.

(** A [push] that blocks reads [start] just before it waits. *)
Definition push_start_after (b : pipeline) (s : timed) : option Z :=
  match producer b with
  | PWait | PWoken => Some (default (clock s) (push_start s))
  | _ => None
  end.

Definition frames_after (a : action) (b : pipeline) (s : timed) : list (option pop_frame) :=
  match a with
  | AWorker i _ =>
      match workers (base s) !! i, workers b !! i with
      | Some w, Some w' => alter (frame_after (clock s) w w') i (frames s)
      | _, _ => frames s
      end
  | _ => frames s
  end.

Definition timed_act (a : timed_action) (s : timed) : option timed :=
  match a with
  | TTick d => if 0 <=? d then Some (set_clock (clock s + d) s) else None
  | TCaptureStart =>
      match capture_started s with
      | None => Some (set_capture_started (clock s) s)
      | Some _ => None
      end
  | TCaptureEnd =>
      match producer (base s), capture_ended s with
      | PDone, None => Some (set_capture_ended (clock s) s)
      | _, _ => None
      end
  | TPopStart i =>
      match workers (base s) !! i, frames s !! i with
      | Some WTop, Some None =>
          Some (set_frames (<[i := Some (mk_pop_frame (clock s) (clock s))]> (frames s)) s)
      | _, _ => None
      end
  | TFinish =>
      match main (base s), finished s with
      | MEnd, None => Some (set_finished (clock s) s)
      | _, _ => None
      end
  | TAct a =>
      if ready a s then
        (λ b, mk_timed b (clock s) (push_start_after b s) (frames_after a b s) (started s)
           (capture_started s) (capture_ended s) (finished s)) <$>
        act_ns cfg (measured a s) a (base s)
      else None
  end.

Fixpoint timed_play (schedule : list timed_action) (s : timed) : option timed :=
  match schedule with
  | [] => Some s
  | a :: rest => timed_act a s ≫= timed_play rest
  end.

End Actions.

(** ** What an action does to the totals and to the other threads *)

(** Other threads may have been woken. *)
Definition woken (ws ws' : list worker_pc) : Prop := Forall2 (λ w w', w' = w ∨ w' = wake w) ws ws'.

Lemma woken_refl ws : woken ws ws.
Proof. unfold woken. induction ws; constructor; auto. Qed.

Lemma woken_notify_one j ws ws' : notify_one j ws = Some ws' → woken ws ws'.
Proof.
  intros [(w & Hj & _ & ->)|[-> _]]%notify_one_cases; [|apply woken_refl].
  rewrite <- (list_insert_id ws j w Hj) at 1. apply Forall2_insert; [apply woken_refl|by right].
Qed.

Lemma woken_wake ws : woken ws (wake <$> ws).
Proof. unfold woken. induction ws; constructor; auto. Qed.

Lemma push_totals p waited q :
  pop_wait_ns_ (push p waited q).1 = pop_wait_ns_ q ∧
  push_wait_ns_ (push p waited q).1 =
    if may_push q then match waited with Some ns => wrap 64 (push_wait_ns_ q + ns) | None => push_wait_ns_ q end
    else push_wait_ns_ q.
Proof. unfold push. destruct (may_push q), waited; cbn; try done; by destruct (shutdown_ q). Qed.

Lemma pop_section_totals cfg ns w q r :
  pop_section cfg ns w q = Some r →
  push_wait_ns_ r.1 = push_wait_ns_ q ∧
  pop_wait_ns_ r.1 =
    match r.2 with PopTaken _ _ => wrap 64 (pop_wait_ns_ q + ns) | _ => pop_wait_ns_ q end.
Proof.
  assert (HL : ∀ q, let r := pop_linger_or_take (batch_size_ cfg) (linger_us cfg) ns q in
    push_wait_ns_ r.1 = push_wait_ns_ q ∧ pop_wait_ns_ r.1 =
      match r.2 with PopTaken _ _ => wrap 64 (pop_wait_ns_ q + ns) | _ => pop_wait_ns_ q end).
  { intros q'. destruct (pop_linger_or_take_cases (batch_size_ cfg) (linger_us cfg) ns q')
      as [[-> _]|[-> _]]; [done|by rewrite pop_take_eq]. }
  destruct w as [|[]|[]| | | | | | |]; cbn [pop_section]; intros [= <-].
  - unfold pop_enter. destruct (may_pop _); [apply (HL (set_wanted _ q))|done].
  - unfold pop_resume. destruct (_ || _); [apply HL|done].
  - unfold pop_resume. destruct (_ || _); [apply HL|done].
  - unfold pop_resume_linger. destruct (_ || _); [by rewrite pop_take_eq|done].
  - unfold pop_resume_linger. destruct (_ || _); [by rewrite pop_take_eq|done].
Qed.

(** In [pop_batch]. *)
Definition popping (w : worker_pc) : bool :=
  match w with WTop | WItems _ | WLinger _ => true | _ => false end.

Lemma pop_section_popping cfg ns w q r : pop_section cfg ns w q = Some r → popping w = true.
Proof. by destruct w as [|[]|[]| | | | | | |]. Qed.

Lemma popping_wake w : popping (wake w) = popping w.
Proof. by destruct w as [|[]|[]| | | | | | |]. Qed.

Lemma act_worker cfg ns i j b b' :
  act_ns cfg ns (AWorker i j) b = Some b' →
  ∃ w w' ws, workers b !! i = Some w ∧ woken (workers b) ws ∧ ws !! i = Some w ∧
    workers b' = <[i := w']> ws ∧
    ((∃ r, pop_section cfg ns w (queue b) = Some r ∧ b' = after_pop i r b) ∨
     (popping w = false ∧ w ≠ WExit ∧ queue b' = queue b ∧ taken b' = taken b ∧
      (popping w' = false ∨ w' = WTop))).
Proof.
  cbn [act_ns]. destruct (workers b !! i) as [w|] eqn:Hi; [|done]. intros H. exists w.
  assert (Hself : woken (workers b) (workers b)) by apply woken_refl.
  destruct w as [| | |batch more|batch more|batch|batch| | |].
  1-3: apply fmap_Some in H as (r & Hr & ->).
  1-3: exists match r.2 with PopWaitItems => WItems Asleep | PopWaitLinger => WLinger Asleep
              | PopTaken batch more => WNotifyFull batch more end, (workers b).
  1-3: split_and!; [done..| |left; by eauto].
  1-3: unfold after_pop; by destruct r.2.
  - injection H as <-. eexists _, _. split_and!; [done..|right]. by split_and!; auto.
  - apply fmap_Some in H as (ws & Hn & ->). eexists _, ws. split_and!; [done| | |done|right; by split_and!; auto].
    + destruct more; [by eapply woken_notify_one|by injection Hn as <-].
    + destruct more; [by eapply notify_one_other|by injection Hn as <-].
  - destruct batch; injection H as <-; eexists _, _; (split_and!; [done..|right]); by split_and!; auto.
  - injection H as <-. eexists _, _. split_and!; [done..|right]. by split_and!; auto.
  - injection H as <-. eexists _, _. split_and!; [done..|right]. by split_and!; auto.
  - injection H as <-. eexists _, _. split_and!; [done..|right]. destruct (is_finished _); by split_and!; auto.
  - done.
Qed.

(** Only [push] and a [pop_batch] that returns touch the totals; other actions
    of the main thread and of the clock only wake. *)
Lemma act_producer cfg ns a b b' :
  act_ns cfg ns a b = Some b' → (∀ j, a ≠ ACapture j) →
  push_wait_ns_ (queue b') = push_wait_ns_ (queue b) ∧
  (producer b' = producer b ∨ (producer b = PWait ∧ producer b' = PWoken)).
Proof.
  intros H Ha. destruct a as [j|i j|i| |i|i|]; [by destruct (Ha j)|..].
  - revert H. cbn [act_ns]. destruct (workers b !! i) as [w|] eqn:Hi; [|done]. intros H.
    destruct w as [| | |batch more|batch more|batch|batch| | |].
    1-3: apply fmap_Some in H as (r & Hr & ->).
    1-3: apply pop_section_totals in Hr as [Hr _]; unfold after_pop; rewrite <- Hr; by destruct r.2; auto.
    + injection H as <-. cbn. split; [done|]. destruct batch, (producer b); by auto.
    + apply fmap_Some in H as (ws & Hn & ->). by auto.
    + destruct batch; injection H as <-; by auto.
    + injection H as <-; by auto.
    + injection H as <-; by auto.
    + injection H as <-; by auto.
    + done.
  - revert H. cbn [act_ns]. repeat case_match; intros [= <-]; by auto.
  - revert H. cbn [act_ns]. repeat case_match; intros [= <-]; cbn; try by auto.
    split; [done|]. destruct (producer b); by auto.
  - revert H. cbn [act_ns]. repeat case_match; intros [= <-]; by auto.
  - revert H. cbn [act_ns]. repeat case_match; intros [= <-]; by auto.
  - revert H. cbn [act_ns]. repeat case_match; intros [= <-]; cbn; by auto.
Qed.

Lemma act_capture cfg ns j b b' :
  act_ns cfg ns (ACapture j) b = Some b' →
  pop_wait_ns_ (queue b') = pop_wait_ns_ (queue b) ∧ woken (workers b) (workers b') ∧
  producer b ≠ PWait ∧ producer b ≠ PDone ∧ producer b' ≠ PWoken ∧
  push_wait_ns_ (queue b') =
    match producer b, producer b' with
    | PWoken, PWait => push_wait_ns_ (queue b)
    | PWoken, _ => wrap 64 (push_wait_ns_ (queue b) + ns)
    | _, _ => push_wait_ns_ (queue b)
    end.
Proof.
  cbn [act_ns]. destruct (producer b) eqn:Ep; [| | |intros (ws & Hn & ->)%fmap_Some|done].
  - destruct (todo b) as [|p rest]; intros [= <-]; [split_and!; by try apply woken_refl|].
    destruct (push_totals p None (queue b)) as [E1 E2].
    unfold after_push. destruct (may_push (queue b)); cbn in E2.
    all: destruct (push p None (queue b)) as [q [| |[]]]; cbn in *.
    all: split_and!; by try apply woken_refl.
  - destruct (todo b); done.
  - destruct (todo b) as [|p rest]; [done|]. intros [= <-].
    destruct (push_totals p (Some ns) (queue b)) as [E1 E2].
    assert (Hb : may_push (queue b) = false ↔ (push p (Some ns) (queue b)).2 = PushBlocked).
    { unfold push. destruct (may_push (queue b)); cbn; [|done]. by destruct (shutdown_ (queue b)). }
    unfold after_push. destruct (may_push (queue b)); cbn in E2.
    all: destruct (push p (Some ns) (queue b)) as [q [| |[]]]; cbn in *.
    all: split_and!; try apply woken_refl; try done; naive_solver.
  - cbn. split_and!; try done. by eapply woken_notify_one.
Qed.

(** Only the main thread moves itself. *)
Lemma act_main cfg ns a b b' : act_ns cfg ns a b = Some b' → a = AMain ∨ main b' = main b.
Proof.
  intros H. destruct a as [j|i j|i| |i|i|]; try by left.
  all: right; revert H; cbn [act_ns]; unfold after_push, after_pop; repeat case_match; try done; intros Hs;
    try (apply fmap_Some in Hs as (? & ? & ->)); simplify_eq; try done; by repeat case_match.
Qed.

(** A wait that times out. *)
Definition times_out (w w' : worker_pc) : Prop :=
  (w = WItems Asleep ∧ w' = WItems TimedOut) ∨ (w = WLinger Asleep ∧ w' = WLinger TimedOut).

Lemma act_other cfg ns a b b' :
  act_ns cfg ns a b = Some b' → (∀ i j, a ≠ AWorker i j) →
  pop_wait_ns_ (queue b') = pop_wait_ns_ (queue b) ∧
  (woken (workers b) (workers b') ∨
   ∃ i w w', (a = ALinger i ∨ a = APoll i) ∧ workers b !! i = Some w ∧ times_out w w' ∧
     workers b' = <[i := w']> (workers b)).
Proof.
  intros H Ha. destruct a as [j|i j|i| |i|i|]; [|by destruct (Ha i j)|..].
  - apply act_capture in H as (E & Hw & _). by auto.
  - revert H. cbn [act_ns]. destruct (workers b !! i) as [[| |[]| | | | | | |]|] eqn:Hi; intros [= <-].
    split; [done|right]. exists i, (WLinger Asleep), (WLinger TimedOut). unfold times_out. by auto 6.
  - revert H. cbn [act_ns]. repeat case_match; intros [= <-]; (split; [done|left]);
      try apply woken_refl. apply woken_wake.
  - revert H. cbn [act_ns]. destruct (workers b !! i) as [[|[]|[]| | | | | | |]|] eqn:Hi; intros [= <-].
    split; [done|right]. exists i, (WItems Asleep), (WItems TimedOut). unfold times_out. by auto 6.
  - revert H. cbn [act_ns]. destruct (workers b !! i) as [w|] eqn:Hi; [|done].
    destruct (asleep w); intros [= <-]. split; [done|left]. cbn.
    rewrite <- (list_insert_id (workers b) i w Hi) at 1.
    apply Forall2_insert; [apply woken_refl|by right].
  - revert H. cbn [act_ns]. repeat case_match; intros [= <-]. split; [done|left]. apply woken_refl.
Qed.
