(* ===== verification/PipelineTimeSpec.v ===== *)
(** * What the clock shows

    Invariants of the timed executions of [PipelineTime]: the readings of every
    thread fit its place, and what the threads add to the totals stays within
    the time that has passed.  The properties are about durations: how long
    [pop_batch] waits before it takes a batch, the totals from which [main]
    prints which side of the queue waited, and progress. *)
From S2P Require Import Prelude Packet PacketQueue Pipeline PipelineSpec PipelineProgress Entropy.
From S2P Require Import PipelineTime.

(** ** Invariants *)

Section Invariants.
Context (cfg : pool_config) (poll_ms : Z) (capacity : Z) (packets : list QueuedPacket) (t0 : Z).

(** The variables of a worker fit its place in [pop_batch]. *)
Definition frame_ok (now : Z) (w : worker_pc) (f : option pop_frame) : Prop :=
  match w, f with
  | WTop, None => True
  | WTop, Some f => start f ≤ now
  | WItems st, Some f =>
      start f ≤ now ∧ start f + poll_ns poll_ms ≤ deadline f ∧ (st = TimedOut → deadline f ≤ now)
  | WLinger st, Some f =>
      start f ≤ now ∧ start f + linger_ns cfg ≤ deadline f ∧ (st = TimedOut → deadline f ≤ now) ∧
      0 < linger_us cfg
  | WItems _, None | WLinger _, None | _, Some _ => False
  | _, None => True
  end.

(** [x] is what a worker has added to the total; with the wait it is in, it
    stays within the time since the start. *)
Definition share_ok (from now : Z) (x : Z) (f : option pop_frame) : Prop :=
  0 ≤ x ∧ from + x ≤ default now (start <$> f) ≤ now.

(** The same for the capture thread, from its own first reading to its last. *)
Definition push_ok (s : timed) : Prop :=
  let total := push_wait_ns_ (queue (base s)) in
  match capture_started s with
  | None => total = 0 ∧ producer (base s) = PTop ∧ capture_ended s = None
  | Some c =>
      started s ≤ c ∧ 0 ≤ total ∧
      match capture_ended s with
      | None => c + total ≤ default (clock s) (push_start s) ≤ clock s
      | Some e => producer (base s) = PDone ∧ c + total ≤ e ≤ clock s
      end
  end ∧
  match producer (base s) with
  | PWait | PWoken => is_Some (push_start s)
  | _ => push_start s = None
  end.

Definition pop_ok (from now : Z) (s : timed) : Prop :=
  ∃ shares, Forall2 (share_ok from now) shares (frames s) ∧
    pop_wait_ns_ (queue (base s)) = Zsum shares.

Definition end_ok (s : timed) : Prop :=
  (main (base s) ≠ MJoinCapture → is_Some (capture_ended s)) ∧
  (∀ f, finished s = Some f → main (base s) = MEnd ∧ pop_ok (started s) f s ∧ f ≤ clock s ∧
     ∀ e, capture_ended s = Some e → e ≤ f).

(** The places of the threads and their frames, which hold whatever the clock
    shows. *)
Definition inv_frames (s : timed) : Prop :=
  reachable cfg capacity packets (base s) ∧
  Forall2 (frame_ok (clock s)) (workers (base s)) (frames s).

(** The totals, as long as they do not wrap. *)
Record inv_time (s : timed) : Prop := {
  ti_started : started s ≤ clock s;
  ti_push : push_ok s;
  ti_pop : pop_ok (started s) (clock s) s;
  ti_end : end_ok s
}.

Lemma frame_ok_later now now' w f : now ≤ now' → frame_ok now w f → frame_ok now' w f.
Proof. intros H. destruct w, f; cbn; try done; intuition lia. Qed.

Lemma frame_ok_wake now w f : frame_ok now w f → frame_ok now (wake w) f.
Proof. destruct w as [|[]|[]| | | | | | |], f; cbn; try done; intuition (try done). Qed.

Lemma frames_woken now ws ws' fs :
  woken ws ws' → Forall2 (frame_ok now) ws fs → Forall2 (frame_ok now) ws' fs.
Proof.
  intros Hw Hf. revert ws' Hw. induction Hf as [|w f ws fs H _ IH]; intros ws' Hw;
    inversion Hw as [|? ? ? ? Hw1 Hw2]; simplify_eq; constructor; [|by apply IH].
  destruct Hw1 as [->| ->]; [done|by apply frame_ok_wake].
Qed.

Lemma share_ok_later from now now' x f : now ≤ now' → share_ok from now x f → share_ok from now' x f.
Proof. unfold share_ok. intros H. destruct f; cbn; lia. Qed.

(** The shares stay within [n] times the time since the start. *)
Lemma shares_bound from now shares fs :
  Forall2 (share_ok from now) shares fs → 0 ≤ Zsum shares ≤ Zlength fs * (now - from).
Proof.
  induction 1 as [|x f shares fs [H1 H2] _ IH]; [done|]. cbn [Zsum]. rewrite Zlength_cons. nia.
Qed.

(** *** A worker moves *)

Lemma popping_frame now w f : frame_ok now w f → popping w = false → f = None.
Proof. by destruct w, f. Qed.

(** The outcome of a critical section and the frame it leaves. *)
Lemma frame_ok_section now ns w f q r :
  pop_section cfg ns w q = Some r → frame_ok now w (Some f) →
  match r.2 with
  | PopWaitItems => frame_ok now (WItems Asleep) (frame_after cfg poll_ms now w (WItems Asleep) (Some f))
  | PopWaitLinger => frame_ok now (WLinger Asleep) (frame_after cfg poll_ms now w (WLinger Asleep) (Some f))
  | PopTaken _ _ => True
  end.
Proof.
  assert (HL : ∀ q, let r := pop_linger_or_take (batch_size_ cfg) (linger_us cfg) ns q in
    (r.2 = PopWaitLinger ∧ 0 < linger_us cfg) ∨ ∃ batch more, r.2 = PopTaken batch more).
  { intros q'. destruct (pop_linger_or_take_cases (batch_size_ cfg) (linger_us cfg) ns q')
      as [(-> & _ & _ & _ & ?)|[-> _]]; [by left|right]. rewrite pop_take_eq. cbn. by eauto. }
  destruct w as [|[]|[]| | | | | | |]; cbn [pop_section]; intros [= <-] Hf.
  - unfold pop_enter. destruct (may_pop _); [|cbn in *; by split_and!; try lia].
    destruct (HL (set_wanted (batch_size_ cfg) q)) as [[-> ?]|(? & ? & ->)]; [|done].
    cbn in *. by split_and!; try lia.
  - unfold pop_resume. destruct (_ || _); [|cbn in *; by destruct Hf as (? & ? & ?)].
    destruct (HL q) as [[-> ?]|(? & ? & ->)]; [|done]. cbn in *. by split_and!; try lia.
  - unfold pop_resume. rewrite orb_true_r.
    destruct (HL q) as [[-> ?]|(? & ? & ->)]; [|done]. cbn in *. by split_and!; try lia.
  - unfold pop_resume_linger. destruct (_ || _); [by rewrite pop_take_eq|].
    cbn in *. by destruct Hf as (? & ? & ? & ?).
  - unfold pop_resume_linger. rewrite orb_true_r. by rewrite pop_take_eq.
Qed.

(** The frame of a worker in [pop_batch], past its first reading. *)
Lemma ready_frame now i j w fo s :
  workers (base s) !! i = Some w → frames s !! i = Some fo → frame_ok now w fo →
  popping w = true → ready (AWorker i j) s = true → ∃ f, fo = Some f ∧ start f ≤ now.
Proof.
  unfold ready. intros -> -> Hf Hp Hr. destruct w, fo as [f|]; try done; exists f; (split; [done|]);
    cbn in Hf; intuition.
Qed.

Lemma worker_frames i j s b' :
  Forall2 (frame_ok (clock s)) (workers (base s)) (frames s) → ready (AWorker i j) s = true →
  act_ns cfg (measured (AWorker i j) s) (AWorker i j) (base s) = Some b' →
  Forall2 (frame_ok (clock s)) (workers b') (frames_after cfg poll_ms (AWorker i j) b' s).
Proof.
  intros Hfr Hready H. apply act_worker in H as (w & w' & ws & Hi & Hwoken & Hwi & Hws & Hcase).
  destruct (Forall2_lookup_l _ _ _ _ _ Hfr Hi) as (fo & Hfi & Hf).
  assert (Hi' : workers b' !! i = Some w')
    by (rewrite Hws; apply list_lookup_insert_eq; by eapply lookup_lt_Some).
  cbn [frames_after]. rewrite Hi, Hi', (alter_insert _ _ _ _ Hfi), Hws.
  apply Forall2_insert; [by eapply frames_woken|].
  destruct Hcase as [(r & Hr & ->)|(Hp & _ & _ & _ & Hw')].
  - destruct (ready_frame _ _ j _ _ _ Hi Hfi Hf (pop_section_popping _ _ _ _ _ Hr) Hready) as (f & -> & _).
    pose proof (frame_ok_section (clock s) _ w f _ _ Hr Hf) as Hok.
    assert (E : w' = match r.2 with PopWaitItems => WItems Asleep | PopWaitLinger => WLinger Asleep
              | PopTaken batch more => WNotifyFull batch more end).
    { pose proof (lookup_lt_Some _ _ _ Hi). revert Hi'. unfold after_pop.
      destruct r.2; cbn; rewrite list_lookup_insert_eq by done; by intros [= <-]. }
    rewrite E. by destruct r.2.
  - rewrite (popping_frame _ _ _ Hf Hp). destruct Hw' as [Hw'| ->]; [|done]. by destruct w'.
Qed.

(** A wait that goes on, and one that ends and is added to the total. *)
Lemma share_kept from now shares fs i f f' :
  Forall2 (share_ok from now) shares fs → fs !! i = Some (Some f) → start f' = start f →
  Forall2 (share_ok from now) shares (<[i := Some f']> fs).
Proof.
  intros Hsh Hfi E. destruct (Forall2_lookup_r _ _ _ _ _ Hsh Hfi) as (x & Hxi & Hx).
  rewrite <- (list_insert_id shares i x Hxi). apply Forall2_insert; [done|].
  unfold share_ok in *. cbn in *. by rewrite E.
Qed.

Lemma share_added from now shares fs i f :
  Forall2 (share_ok from now) shares fs → fs !! i = Some (Some f) → start f ≤ now →
  Zlength fs * (now - from) < 2 ^ 64 →
  ∃ shares', Forall2 (share_ok from now) shares' (<[i := None]> fs) ∧
    wrap 64 (Zsum shares + elapsed_ns (start f) now) = Zsum shares'.
Proof.
  intros Hsh Hfi Hle Hbound. destruct (Forall2_lookup_r _ _ _ _ _ Hsh Hfi) as (x & Hxi & Hx).
  unfold share_ok in Hx. cbn in Hx. exists (<[i := x + (now - start f)]> shares).
  assert (Hsh' : Forall2 (share_ok from now) (<[i := x + (now - start f)]> shares) (<[i := None]> fs)).
  { apply Forall2_insert; [done|]. unfold share_ok. cbn. lia. }
  split; [done|]. pose proof (shares_bound _ _ _ _ Hsh') as Hb.
  unfold Zlength in Hb, Hbound. rewrite length_insert in Hb.
  pose proof (Zsum_alter (λ _, x + (now - start f)) _ _ _ Hxi) as Ez.
  rewrite (alter_insert _ _ _ _ Hxi) in Ez. rewrite Ez in *.
  unfold elapsed_ns. rewrite wrap_add_r, wrap_small; [lia|]. unfold is_uint. lia.
Qed.

Lemma worker_pop i j s b' :
  Forall2 (frame_ok (clock s)) (workers (base s)) (frames s) → ready (AWorker i j) s = true →
  pop_ok (started s) (clock s) s → Zlength (frames s) * (clock s - started s) < 2 ^ 64 →
  act_ns cfg (measured (AWorker i j) s) (AWorker i j) (base s) = Some b' →
  ∃ shares, Forall2 (share_ok (started s) (clock s)) shares (frames_after cfg poll_ms (AWorker i j) b' s) ∧
    pop_wait_ns_ (queue b') = Zsum shares.
Proof.
  intros Hfr Hready (shares & Hsh & Hsum) Hbound H.
  assert (Hm : measured (AWorker i j) s =
    match frames s !! i with Some (Some f) => elapsed_ns (start f) (clock s) | _ => 0 end) by done.
  apply act_worker in H as (w & w' & ws & Hi & Hwoken & Hwi & Hws & Hcase).
  destruct (Forall2_lookup_l _ _ _ _ _ Hfr Hi) as (fo & Hfi & Hf).
  assert (Hi' : workers b' !! i = Some w')
    by (rewrite Hws; apply list_lookup_insert_eq; by eapply lookup_lt_Some).
  cbn [frames_after]. rewrite Hi, Hi', (alter_insert _ _ _ _ Hfi).
  destruct Hcase as [(r & Hr & ->)|(Hp & _ & Hq & _ & Hw')].
  - destruct (ready_frame _ _ j _ _ _ Hi Hfi Hf (pop_section_popping _ _ _ _ _ Hr) Hready) as (f & -> & Hle).
    rewrite Hfi in Hm. destruct (pop_section_totals _ _ _ _ _ Hr) as [_ Hpop].
    pose proof (lookup_lt_Some _ _ _ Hi) as Hlt.
    revert Hi'. unfold after_pop. destruct r.2 eqn:Er; cbn; rewrite list_lookup_insert_eq by done; intros [= <-];
      rewrite Hpop, Hsum.
    + exists shares. split; [|done]. cbn. eapply share_kept; [done|done|]. by destruct w.
    + exists shares. split; [|done]. cbn. eapply share_kept; [done|done|]. by destruct w.
    + rewrite Hm. by apply share_added.
  - rewrite Hq. exists shares. split; [|done]. rewrite (popping_frame _ _ _ Hf Hp) in Hfi |- *.
    replace (frame_after cfg poll_ms (clock s) w w' None) with (@None pop_frame) by by destruct w'.
    by rewrite list_insert_id.
Qed.

(** *** The other threads *)

Lemma other_frames a s b' ns :
  Forall2 (frame_ok (clock s)) (workers (base s)) (frames s) → ready a s = true →
  act_ns cfg ns a (base s) = Some b' → (∀ i j, a ≠ AWorker i j) →
  Forall2 (frame_ok (clock s)) (workers b') (frames s).
Proof.
  intros Hfr Hready H Ha. destruct (act_other _ _ _ _ _ H Ha) as [_ [Hw|(i & w & w' & Hd & Hi & Ho & ->)]].
  { by eapply frames_woken. }
  destruct (Forall2_lookup_l _ _ _ _ _ Hfr Hi) as (fo & Hfi & Hf).
  assert (Hdue : due i s = true) by by destruct Hd; simplify_eq.
  unfold due in Hdue. rewrite Hfi in Hdue.
  rewrite <- (list_insert_id (frames s) i fo Hfi). apply Forall2_insert; [done|].
  destruct Ho as [[-> ->]|[-> ->]]; destruct fo; try done; apply Z.leb_le in Hdue; cbn in *; intuition lia.
Qed.

Lemma push_ok_step a s b' :
  push_ok s → started s ≤ clock s → clock s - started s < 2 ^ 64 → ready a s = true →
  act_ns cfg (measured a s) a (base s) = Some b' →
  push_ok (mk_timed b' (clock s) (push_start_after b' s) (frames_after cfg poll_ms a b' s) (started s)
    (capture_started s) (capture_ended s) (finished s)).
Proof.
  intros Hpush Ht Hbound Hready H. unfold push_ok, push_start_after in *.
  cbn [base clock push_start started capture_started capture_ended].
  assert (Ha : (∃ j, a = ACapture j) ∨ ∀ j, a ≠ ACapture j) by (destruct a; naive_solver).
  destruct Ha as [[j ->]|Ha].
  - cbn [ready] in Hready. destruct (capture_started s) as [c|]; [|done].
    destruct (act_capture _ _ _ _ _ H) as (_ & _ & Hw & Hd & Hk & ->). clear H.
    destruct Hpush as [(Hc & Hn & Hb) Hs].
    destruct (capture_ended s) as [e|]; [by destruct Hb as [? _]; destruct Hd|].
    destruct (producer (base s)) eqn:Ep; try done; try rewrite Hs in *; cbn in *.
    + destruct (producer b'); cbn; split_and!; try done; lia.
    + destruct Hs as [t Hs]. rewrite Hs in *. cbn in *. unfold elapsed_ns.
      assert (Hsum : 0 ≤ push_wait_ns_ (queue (base s)) + (clock s - t) < 2 ^ 64) by lia.
      destruct (producer b'); cbn; rewrite ?wrap_add_r, ?wrap_small by done;
        split_and!; try done; lia.
    + destruct (producer b'); cbn; split_and!; try done; lia.
  - destruct (act_producer _ _ _ _ _ H) as [-> Hp]; [done|]. clear H Hready.
    destruct Hp as [->|[Ep ->]]; [|rewrite Ep in Hpush].
    + destruct (producer (base s)) eqn:Ep; try (destruct Hpush as [Hpush Hs]; by rewrite Hs in *).
      all: destruct Hpush as [Hpush [t Hs]]; rewrite Hs in *; by cbn.
    + destruct Hpush as [Hpush [t Hs]]. rewrite Hs in *. cbn.
      destruct (capture_started s); [|naive_solver]. destruct (capture_ended s); naive_solver.
Qed.

(** *** Every action *)

Lemma inv_frames_start : inv_frames (timed_start cfg capacity packets t0).
Proof.
  split; cbn -[replicate]; [exists 0%nat, 0%nat; constructor|].
  induction (Z.to_nat (num_workers_ cfg)); by constructor.
Qed.

Lemma inv_time_start : inv_time (timed_start cfg capacity packets t0).
Proof.
  set (n := Z.to_nat (num_workers_ cfg)). split; cbn -[replicate].
  - lia.
  - by split_and!.
  - exists (replicate n 0). split; [|symmetry; apply Zsum_replicate]. cbn -[replicate].
    fold n. induction n; constructor; [|done]. unfold share_ok. cbn. lia.
  - by split.
Qed.

Lemma act_reachable ns a s b' :
  reachable cfg capacity packets (base s) → act_ns cfg ns a (base s) = Some b' →
  reachable cfg capacity packets b'.
Proof.
  intros (w & p & Hr) H%act_ns_step.
  destruct (negb _); [exists (S w), p; by eapply run_work|exists w, (S p); by eapply run_poll].
Qed.

Lemma timed_act_mono a s s' : timed_act cfg poll_ms a s = Some s' → clock s ≤ clock s' ∧ started s' = started s.
Proof.
  destruct a; cbn [timed_act].
  - destruct (Z.leb_spec 0 d); intros [= <-]. cbn. lia.
  - destruct (capture_started s); intros [= <-]. by cbn.
  - destruct (producer (base s)), (capture_ended s); intros [= <-]; by cbn.
  - destruct (workers (base s) !! i) as [[]|], (frames s !! i) as [[]|]; intros [= <-]; by cbn.
  - destruct (main (base s)), (finished s); intros [= <-]; by cbn.
  - destruct (ready a s); [|done]. intros (b & _ & ->)%fmap_Some. by cbn.
Qed.

(** After the joins no worker moves. *)
Lemma joined_worker s i w :
  0 ≤ batch_size_ cfg → 0 ≤ capacity → inv_frames s → main (base s) = MEnd →
  workers (base s) !! i = Some w → w = WExit.
Proof.
  intros Hb Hc [Hr _] Hm Hi.
  destruct (reachable_inv cfg capacity packets _ Hb Hc Hr) as [_ _ _ _ [_ _ _ Hj]].
  rewrite Hm in Hj. specialize (Hj i (lookup_lt_Some _ _ _ Hi)). unfold exited in Hj. by simplify_eq.
Qed.

Lemma other_pop a s b' ns from now :
  pop_ok from now s → act_ns cfg ns a (base s) = Some b' → (∀ i j, a ≠ AWorker i j) →
  ∃ shares, Forall2 (share_ok from now) shares (frames s) ∧ pop_wait_ns_ (queue b') = Zsum shares.
Proof. intros (shares & Hf & E) H Ha. destruct (act_other _ _ _ _ _ H Ha) as [-> _]. by exists shares. Qed.

Lemma not_worker a : (∃ i j, a = AWorker i j) ∨ (∀ i j, a ≠ AWorker i j).
Proof. destruct a; naive_solver. Qed.

Lemma other_frames_after a b s : (∀ i j, a ≠ AWorker i j) → frames_after cfg poll_ms a b s = frames s.
Proof. destruct a as [|i j| | | | |]; try done. intros H. by destruct (H i j). Qed.

Lemma end_ok_step a s b' :
  0 ≤ batch_size_ cfg → 0 ≤ capacity → inv_frames s → inv_time s → ready a s = true →
  act_ns cfg (measured a s) a (base s) = Some b' →
  end_ok (mk_timed b' (clock s) (push_start_after b' s) (frames_after cfg poll_ms a b' s) (started s)
    (capture_started s) (capture_ended s) (finished s)).
Proof.
  intros Hb Hc Hplaces Hinv Hready H. destruct (ti_end s Hinv) as [He Hf]. split.
  - cbn [base capture_ended]. intros Hm. destruct (act_main _ _ _ _ _ H) as [->|E]; [|apply He; by rewrite <- E].
    cbn [ready] in Hready. destruct (capture_ended s); [done|]. apply He. by intros E; rewrite E in Hready.
  - cbn [finished started clock capture_ended]. intros f Hfin. destruct (Hf f Hfin) as (Hm & Hp & Hle & Hend).
    assert (Ha : ∀ i j, a ≠ AWorker i j).
    { intros i j ->. apply act_worker in H as (w & w' & ws & Hi & _ & _ & _ & Hcase).
      pose proof (joined_worker s i w Hb Hc Hplaces Hm Hi) as ->.
      destruct Hcase as [(r & Hr & _)|(_ & Hne & _)]; [done|by destruct Hne]. }
    split_and!; [|unfold pop_ok; cbn [frames base queue]|done|done].
    + cbn [base]. destruct (act_main _ _ _ _ _ H) as [->|E]; [|by rewrite E].
      cbn [act_ns] in H. by rewrite Hm in H.
    + rewrite other_frames_after by done. by eapply other_pop.
Qed.

Lemma inv_frames_step a s s' :
  inv_frames s → timed_act cfg poll_ms a s = Some s' → inv_frames s'.
Proof.
  intros [Hr Hf] H. destruct a as [d| | |i| |a]; cbn [timed_act] in H.
  - destruct (Z.leb_spec 0 d); [|done]. injection H as <-. split; [done|].
    eapply Forall2_impl; [exact Hf|]. intros w f. apply frame_ok_later. cbn. lia.
  - destruct (capture_started s); [done|]. by injection H as <-.
  - destruct (producer (base s)), (capture_ended s); try done. by injection H as <-.
  - destruct (workers (base s) !! i) as [[]|] eqn:Hi; try done.
    destruct (frames s !! i) as [[]|] eqn:Hfi; try done. injection H as <-. split; [done|]. cbn.
    rewrite <- (list_insert_id _ _ _ Hi). apply Forall2_insert; [done|]. cbn. lia.
  - destruct (main (base s)), (finished s); try done. by injection H as <-.
  - destruct (ready a s) eqn:Hready; [|done]. apply fmap_Some in H as (b & H & ->).
    split; [by eapply act_reachable|]. cbn [base frames clock].
    destruct (not_worker a) as [(i & j & ->)|Ha]; [by apply worker_frames|].
    rewrite other_frames_after by done. by eapply other_frames.
Qed.

Lemma inv_frames_play schedule s s' :
  inv_frames s → timed_play cfg poll_ms schedule s = Some s' → inv_frames s'.
Proof.
  revert s. induction schedule as [|a rest IH]; intros s Hinv; cbn [timed_play]; [by intros [= <-]|].
  intros (s1 & Ha & Hp)%bind_Some. eapply IH; [|done]. by eapply inv_frames_step.
Qed.

Lemma frames_length s : 0 ≤ batch_size_ cfg → 0 ≤ capacity → inv_frames s →
  length (frames s) = Z.to_nat (num_workers_ cfg).
Proof.
  intros Hb Hc [Hr Hf]. rewrite <- (Forall2_length _ _ _ Hf).
  apply (th_length cfg). by eapply inv_is_threads, reachable_inv.
Qed.

Lemma pop_ok_clock from now s k : pop_ok from now s → now ≤ k → pop_ok from k s.
Proof.
  intros (shares & Hf & E) Hk. exists shares. split; [|done].
  eapply Forall2_impl; [exact Hf|]. intros. by eapply share_ok_later.
Qed.

Lemma pop_start_step i s s' :
  0 ≤ batch_size_ cfg → 0 ≤ capacity → inv_frames s → inv_time s →
  timed_act cfg poll_ms (TPopStart i) s = Some s' → inv_time s'.
Proof.
  intros Hb Hc Hplaces [Hst Hpush Hpop Hend] H. cbn [timed_act] in H.
  destruct (workers (base s) !! i) as [[]|] eqn:Hi; try done.
  destruct (frames s !! i) as [[]|] eqn:Hfi; try done. injection H as <-.
  split; try done; [|split; [apply Hend|]].
  - destruct Hpop as (shares & Hsh & E). exists shares. split; [|done]. cbn.
    destruct (Forall2_lookup_r _ _ _ _ _ Hsh Hfi) as (x & Hx & [? ?]).
    rewrite <- (list_insert_id _ _ _ Hx). apply Forall2_insert; [done|]. split; cbn in *; lia.
  - intros f Hf. destruct Hend as [_ Hend2]. destruct (Hend2 f Hf) as (Hm & _).
    by pose proof (joined_worker s i WTop Hb Hc Hplaces Hm Hi).
Qed.

Lemma base_step a s s' :
  1 ≤ num_workers_ cfg → 0 ≤ batch_size_ cfg → 0 ≤ capacity → inv_frames s → inv_time s →
  timed_act cfg poll_ms (TAct a) s = Some s' →
  num_workers_ cfg * (clock s' - started s') < 2 ^ 64 → inv_time s'.
Proof.
  intros Hn Hb Hc Hplaces Hinv H Hbound. pose proof Hinv as [Hst Hpush Hpop Hend]. cbn [timed_act] in H.
  destruct (ready a s) eqn:Hr; [|done]. apply fmap_Some in H as (b & H & ->).
  cbn [clock started] in Hbound.
  assert (Hf : Zlength (frames s) = num_workers_ cfg)
    by (unfold Zlength; rewrite (frames_length s Hb Hc Hplaces); lia).
  assert (clock s - started s < 2 ^ 64) by nia.
  split; [done|by apply push_ok_step| |by apply end_ok_step].
  cbn [started clock]. unfold pop_ok. cbn [frames base queue].
  destruct (not_worker a) as [(i & j & ->)|Ha].
  - apply worker_pop; try done; [by destruct Hplaces|by rewrite Hf].
  - rewrite other_frames_after by done. by eapply other_pop.
Qed.

Lemma inv_time_step a s s' :
  1 ≤ num_workers_ cfg → 0 ≤ batch_size_ cfg → 0 ≤ capacity → inv_frames s → inv_time s →
  timed_act cfg poll_ms a s = Some s' → num_workers_ cfg * (clock s' - started s') < 2 ^ 64 →
  inv_time s'.
Proof.
  intros Hn Hb Hc Hplaces [Hst Hpush Hpop Hend] H Hbound.
  destruct a as [d| | |i| |a]; cbn [timed_act] in H.
  - destruct (Z.leb_spec 0 d); [|done]. injection H as <-. split; cbn; [lia|..].
    + destruct Hpush as [Hp Hs]. split; [|done]. unfold set_clock. cbn.
      destruct (capture_started s) as [c|]; [|done]. destruct Hp as (? & ? & Hp). split_and!; [done..|].
      destruct (capture_ended s); [intuition lia|]. destruct (push_start s); cbn in *; lia.
    + apply (pop_ok_clock _ (clock s)); [done|lia].
    + destruct Hend as [Hend1 Hend]. split; [done|]. cbn. intros f Hf.
      destruct (Hend f Hf) as (? & ? & ? & ?). split_and!; try done. lia.
  - destruct (capture_started s) eqn:Ec; [done|]. injection H as <-. split; try done.
    unfold push_ok in *. cbn. rewrite Ec in Hpush. destruct Hpush as ((E & Ep & Ee) & Hs).
    rewrite Ep, Ee in *. rewrite Hs, E. cbn. split_and!; try done; lia.
  - destruct (producer (base s)) eqn:Ep, (capture_ended s) eqn:Ee; try done. injection H as <-.
    unfold push_ok in Hpush. rewrite Ep, Ee in Hpush. destruct Hpush as [Hp Hs]. split; try done.
    + unfold push_ok, set_capture_ended. cbn. rewrite Ep. split; [|done].
      destruct (capture_started s); [|by destruct Hp as (_ & ? & _)].
      rewrite Hs in Hp. cbn in Hp. split_and!; try done; lia.
    + destruct Hend as [Hend1 Hend2]. split; [by cbn|]. cbn. intros f Hf.
      destruct (Hend2 f Hf) as (Hm & _). destruct Hend1 as [e He]; [by rewrite Hm|]. congruence.
  - by eapply pop_start_step.
  - destruct (main (base s)) eqn:Em, (finished s) eqn:Ef; try done. injection H as <-.
    split; try done. split; [apply Hend|]. cbn. intros f [= <-]. split_and!; try done.
    intros e He. destruct Hpush as [Hp _]. rewrite He in Hp.
    destruct (capture_started s); [|by destruct Hp as (_ & _ & ?)]. lia.
  - by eapply base_step.
Qed.

Lemma timed_play_mono schedule s s' :
  timed_play cfg poll_ms schedule s = Some s' → clock s ≤ clock s' ∧ started s' = started s.
Proof.
  revert s. induction schedule as [|a rest IH]; intros s; cbn [timed_play]; [intros [= <-]; lia|].
  intros (s1 & Ha%timed_act_mono & Hp%IH)%bind_Some. lia.
Qed.

Lemma inv_time_play schedule s s' :
  1 ≤ num_workers_ cfg → 0 ≤ batch_size_ cfg → 0 ≤ capacity → inv_frames s → inv_time s →
  timed_play cfg poll_ms schedule s = Some s' → num_workers_ cfg * (clock s' - started s') < 2 ^ 64 →
  inv_time s'.
Proof.
  intros Hn Hb Hc. revert s. induction schedule as [|a rest IH]; intros s Hplaces Hinv; cbn [timed_play].
  { by intros [= <-] _. }
  intros (s1 & Ha & Hp)%bind_Some Hbound. pose proof (timed_play_mono _ _ _ Hp).
  eapply IH; [by eapply inv_frames_step| |done|done]. eapply inv_time_step; try done. nia.
Qed.

End Invariants.

(** ** Progress *)

(** Whether an action is possible does not depend on the time it measures. *)
Lemma act_ns_enabled cfg ns ns' a b b1 :
  act_ns cfg ns a b = Some b1 → is_Some (act_ns cfg ns' a b).
Proof.
  assert (Hp : ∀ w q r, pop_section cfg ns w q = Some r → is_Some (pop_section cfg ns' w q))
    by (intros w q r; destruct w as [|[]|[]| | | | | | |]; cbn; by eauto).
  intros H. destruct a as [j|i j| | | | |]; try by eexists.
  - cbn [act_ns] in *. destruct (producer b), (todo b); try by eexists.
  - cbn [act_ns] in *. destruct (workers b !! i) as [w|]; [|done].
    destruct w; try by eexists; exact H.
    all: apply fmap_Some in H as (r & [r' Hr']%Hp & _); rewrite Hr'; by eexists.
Qed.

(** No timeout of the poll and no spurious wake-up. *)
Definition unaided (a : timed_action) : bool :=
  match a with TAct a => negb (is_poll a) | _ => true end.

Section Progress.
Context (cfg : pool_config) (poll_ms : Z) (capacity : Z) (packets : list QueuedPacket).
Hypothesis (Hworkers : 1 ≤ num_workers_ cfg) (Hbatch : 1 ≤ batch_size_ cfg) (Hcapacity : 1 ≤ capacity).

Lemma timed_play_one a s s' :
  timed_act cfg poll_ms a s = Some s' → timed_play cfg poll_ms [a] s = Some s'.
Proof. cbn [timed_play]. by intros ->. Qed.

Lemma timed_play_app l k s s1 s' :
  timed_play cfg poll_ms l s = Some s1 → timed_play cfg poll_ms k s1 = Some s' →
  timed_play cfg poll_ms (l ++ k) s = Some s'.
Proof.
  revert s. induction l as [|a l IH]; intros s; cbn [timed_play app]; [by intros [= ->]|].
  intros (s2 & -> & H)%bind_Some H'. by apply IH.
Qed.

(** The readings before an action can be taken, and a deadline waited for. *)
Lemma make_ready s a ns b :
  inv_frames cfg poll_ms capacity packets s → act_ns cfg ns a (base s) = Some b → is_poll a = false →
  ∃ schedule s1, timed_play cfg poll_ms schedule s = Some s1 ∧ base s1 = base s ∧
    ready a s1 = true ∧ forallb unaided schedule = true.
Proof.
  intros [_ Hf] H Hp. destruct (ready a s) eqn:Hr; [by exists [], s|].
  destruct a as [j|i j|i| |i|i|]; try done; cbn [ready] in Hr.
  - destruct (capture_started s) eqn:E; [done|]. exists [TCaptureStart]. eexists.
    split; [apply timed_play_one; cbn; by rewrite E|done].
  - destruct (workers (base s) !! i) as [[]|] eqn:Ei; try done.
    destruct (frames s !! i) as [[]|] eqn:Ef; try done. exists [TPopStart i]. eexists.
    split; [apply timed_play_one; cbn; by rewrite Ei, Ef|]. cbn.
    by rewrite Ei, list_lookup_insert_eq by (by eapply lookup_lt_Some).
  - cbn [act_ns] in H. destruct (workers (base s) !! i) as [[| |[]| | | | | | |]|] eqn:Ei; try done.
    destruct (Forall2_lookup_l _ _ _ _ _ Hf Ei) as ([f|] & Hfi & Hok); [|done].
    unfold due in Hr. rewrite Hfi in Hr. apply Z.leb_gt in Hr.
    exists [TTick (deadline f - clock s)]. eexists.
    split; [apply timed_play_one; cbn; by rewrite (proj2 (Z.leb_le _ _)) by lia|].
    cbn. unfold due. cbn. rewrite Hfi. split_and!; try done. apply Z.leb_le. lia.
  - cbn [act_ns] in H. destruct (main (base s)) eqn:Em; try done.
    destruct (capture_ended s) eqn:Ee; [done|]. destruct (producer (base s)) eqn:Ep; try done.
    exists [TCaptureEnd]. eexists. split; [apply timed_play_one; cbn; by rewrite Ep, Ee|].
    cbn. by rewrite Em.
Qed.

Lemma timed_progress s :
  inv_frames cfg poll_ms capacity packets s → main (base s) ≠ MEnd →
  ∃ schedule s1, timed_play cfg poll_ms schedule s = Some s1 ∧ (measure (base s1) < measure (base s))%nat ∧
    forallb unaided schedule = true.
Proof.
  intros Hinv Hm. assert (Hi : inv cfg capacity packets (base s))
    by (apply reachable_inv; [lia..|apply Hinv]).
  destruct (progress cfg capacity packets (base s) Hworkers Hcapacity Hi Hm) as [b Hs].
  destruct (step_act _ _ _ _ Hs) as (ns & a & H & Hpoll).
  destruct (make_ready s a ns b Hinv H Hpoll) as (l & s1 & Hl & Hb & Hr & Hun).
  destruct (act_ns_enabled cfg ns (measured a s1) a (base s) b H) as [b1 H1].
  eexists (l ++ [TAct a]), _. split_and!.
  - eapply timed_play_app; [done|]. apply timed_play_one. cbn [timed_act].
    rewrite Hr, Hb, H1. reflexivity.
  - cbn [base]. rewrite <- (Hb). apply (measure_step cfg); [done|]. rewrite Hb.
    apply act_ns_step in H1. by rewrite Hpoll in H1.
  - rewrite forallb_app, Hun. cbn. by rewrite Hpoll.
Qed.

Lemma timed_finish s :
  inv_frames cfg poll_ms capacity packets s →
  ∃ schedule s1 f, timed_play cfg poll_ms schedule s = Some s1 ∧ finished s1 = Some f ∧
    forallb unaided schedule = true.
Proof.
  remember (measure (base s)) as k eqn:Hk. revert s Hk.
  induction (lt_wf k) as [k _ IH]. intros s -> Hinv.
  assert (Hm : main (base s) = MEnd ∨ main (base s) ≠ MEnd)
    by (destruct (main (base s)); by (left; done) || by right).
  destruct Hm as [Hm|Hm].
  - destruct (finished s) as [f|] eqn:Ef; [by exists [], s, f|].
    exists [TFinish]. eexists _, _. split_and!; [apply timed_play_one; cbn; by rewrite Hm, Ef|done|done].
  - destruct (timed_progress s Hinv Hm) as (l & s1 & Hl & Hlt & Hu).
    destruct (IH _ Hlt s1 eq_refl (inv_frames_play _ _ _ _ _ _ _ Hinv Hl)) as (k' & s2 & f & Hk' & Hf & Hu').
    exists (l ++ k'), s2, f. split_and!; [by eapply timed_play_app|done|].
    by rewrite forallb_app, Hu, Hu'.
Qed.

End Progress.

(** ** Properties *)

(** A batch that could have been larger, taken before the shutdown, was waited
    for. *)
Lemma short_batch_section cfg ns w q r batch more :
  pop_section cfg ns w q = Some r → r.2 = PopTaken batch more → shutdown_ q = false →
  Zlength batch < batch_size_ cfg →
  (batch ≠ [] → linger_us cfg ≤ 0 ∨ w = WLinger TimedOut) ∧
  (batch = [] → w = WItems TimedOut ∨ w = WLinger TimedOut).
Proof.
  intros H Hr Hs Hlen.
  assert (HB : batch = items_ q ∧ queue_size q < batch_size_ cfg).
  { pose proof (pop_section_cases cfg ns w q r H) as (_ & _ & [(E & _)|[(E & _)|(E & _)]]);
      rewrite E in Hr; try done. injection Hr as <- _.
    unfold queue_size, Zlength in *. rewrite length_take in Hlen. rewrite take_ge by lia. split; [done|lia]. }
  destruct HB as [-> Hq].
  assert (HL : ∀ q', items_ q' = items_ q → shutdown_ q' = false → items_ q ≠ [] →
    (pop_linger_or_take (batch_size_ cfg) (linger_us cfg) ns q').2 = PopTaken (items_ q) more →
    linger_us cfg ≤ 0).
  { intros q' Ei Es Hne Hp.
    destruct (pop_linger_or_take_cases (batch_size_ cfg) (linger_us cfg) ns q') as [[E _]|[_ [?|[E|[?|?]]]]];
      [by rewrite E in Hp|congruence| |congruence|done].
    unfold queue_size in *. rewrite Ei in E. lia. }
  assert (HM : may_pop q = negb (is_empty q)) by (unfold may_pop; by rewrite Hs, orb_false_r).
  destruct w as [|[]|[]| | | | | | |]; revert H; cbn [pop_section]; intros [= <-];
    try (split; by auto).
  - unfold pop_enter in Hr. change (may_pop (set_wanted _ q)) with (may_pop q) in Hr. rewrite HM in Hr.
    destruct (is_empty q) eqn:E; [done|]. apply is_empty_false in E. split; [|done].
    intros _. left. by apply (HL (set_wanted (batch_size_ cfg) q)).
  - unfold pop_resume in Hr. rewrite HM, orb_false_r in Hr.
    destruct (is_empty q) eqn:E; [done|]. apply is_empty_false in E. split; [|done].
    intros _. left. by apply (HL q).
  - unfold pop_resume in Hr. rewrite orb_true_r in Hr. split; [|by auto]. intros E. left. by apply (HL q).
  - unfold pop_resume_linger, batch_full in Hr. rewrite Hs, !orb_false_r in Hr.
    by rewrite (proj2 (Z.leb_gt _ _)) in Hr by lia.
Qed.

(** An action of a worker that takes a batch is a critical section that does. *)
Lemma worker_takes cfg ns i j b b' batch :
  act_ns cfg ns (AWorker i j) b = Some b' → taken b' = taken b ++ [batch] →
  ∃ w r more, workers b !! i = Some w ∧ pop_section cfg ns w (queue b) = Some r ∧
    r.2 = PopTaken batch more ∧ queue b' = r.1.
Proof.
  intros (w & w' & ws & Hi & _ & _ & _ & Hcase)%act_worker Ht.
  assert (Hno : taken b' ≠ taken b).
  { rewrite Ht. intros E%(f_equal length). rewrite length_app in E. cbn in E. lia. }
  destruct Hcase as [(r & Hsec & ->)|(_ & _ & _ & E & _)]; [|done].
  exists w, r. revert Ht Hno. unfold after_pop. destruct r.2 as [| |b2 more]; cbn; [done..|].
  intros E%app_inv_head _. injection E as ->. by exists more.
Qed.

(** C13. A worker takes what there is only after the wait the code promises: in
    every timed execution, a batch shorter than the batch size that is taken
    before the shutdown is either not empty, and [pop_batch] was entered at least
    the linger time ago, or it is empty, and then the poll timeout or the linger
    time has passed; the time since the entry is what is added to the total. *)
Theorem short_batch_waited cfg poll_ms capacity packets t0 schedule s i j s' batch :
  timed_play cfg poll_ms schedule (timed_start cfg capacity packets t0) = Some s →
  timed_act cfg poll_ms (TAct (AWorker i j)) s = Some s' →
  taken (base s') = taken (base s) ++ [batch] →
  shutdown_ (queue (base s)) = false → Zlength batch < batch_size_ cfg →
  ∃ f, frames s !! i = Some (Some f) ∧ start f ≤ clock s ∧
    pop_wait_ns_ (queue (base s')) =
      wrap 64 (pop_wait_ns_ (queue (base s)) + elapsed_ns (start f) (clock s)) ∧
    (batch ≠ [] → linger_ns cfg ≤ clock s - start f) ∧
    (batch = [] → poll_ns poll_ms ≤ clock s - start f ∨
       0 < linger_us cfg ∧ linger_ns cfg ≤ clock s - start f).
Proof.
  intros Hplay H Htaken Hs Hlen.
  assert (Hinv : inv_frames cfg poll_ms capacity packets s)
    by (eapply inv_frames_play; [apply inv_frames_start|done]).
  cbn [timed_act] in H. destruct (ready _ s) eqn:Hr; [|done].
  apply fmap_Some in H as (b & H & ->). cbn [base] in *.
  destruct (worker_takes _ _ _ _ _ _ _ H Htaken) as (w & r & more & Hi & Hsec & Hout & ->).
  destruct Hinv as [_ Hf]. destruct (Forall2_lookup_l _ _ _ _ _ Hf Hi) as (fo & Hfi & Hok).
  destruct (ready_frame cfg poll_ms _ _ j _ _ _ Hi Hfi Hok (pop_section_popping _ _ _ _ _ Hsec) Hr) as (f & -> & Hle).
  destruct (short_batch_section _ _ _ _ _ _ _ Hsec Hout Hs Hlen) as [A B].
  exists f. split_and!; [done|done|..].
  - destruct (pop_section_totals _ _ _ _ _ Hsec) as [_ ->]. rewrite Hout. cbn [measured]. by rewrite Hfi.
  - intros Hb. destruct (A Hb) as [?| ->]; [unfold linger_ns; lia|]. cbn in Hok. intuition lia.
  - intros Hb. destruct (B Hb) as [->| ->]; cbn in Hok; [left|right]; intuition lia.
Qed.

(** The totals behind the line on waiting of the summary: in every timed
    execution that ends before the workers' time exceeds 2^64 nanoseconds, the
    time pushes were blocked is at most the time of the capture thread, which
    lies within the time of the run, and the time the workers waited in
    [pop_batch] is at most the run time of that many workers. *)
Lemma waiting_totals cfg poll_ms capacity packets t0 schedule s f :
  1 ≤ num_workers_ cfg → 0 ≤ batch_size_ cfg → 0 ≤ capacity →
  timed_play cfg poll_ms schedule (timed_start cfg capacity packets t0) = Some s →
  finished s = Some f → num_workers_ cfg * (clock s - t0) < 2 ^ 64 →
  ∃ c e, capture_started s = Some c ∧ capture_ended s = Some e ∧ t0 ≤ c ≤ e ∧ e ≤ f ≤ clock s ∧
    0 ≤ push_wait_ns_ (queue (base s)) ≤ e - c ∧
    0 ≤ pop_wait_ns_ (queue (base s)) ≤ num_workers_ cfg * (f - t0).
Proof.
  intros Hn Hb Hc Hplay Hf Hbound.
  destruct (timed_play_mono _ _ _ _ _ Hplay) as [_ Hst]. cbn in Hst.
  assert (Hplaces : inv_frames cfg poll_ms capacity packets s)
    by (eapply inv_frames_play; [apply inv_frames_start|done]).
  assert (Hinv : inv_time s).
  { apply (inv_time_play cfg poll_ms capacity packets schedule (timed_start cfg capacity packets t0) s Hn Hb Hc);
      [apply inv_frames_start|apply inv_time_start|done|by rewrite Hst]. }
  destruct Hinv as [_ [Hp _] _ [He Hend]]. destruct (Hend f Hf) as (Hm & (shares & Hsh & ->) & Hnow & Hlast).
  destruct He as [e He]; [by rewrite Hm|]. rewrite He in Hp.
  destruct (capture_started s) as [c|]; [|by destruct Hp as (_ & _ & ?)]. exists c, e.
  specialize (Hlast e He). pose proof (shares_bound _ _ _ _ Hsh) as Hsum.
  unfold Zlength in Hsum. rewrite (frames_length cfg poll_ms capacity packets s Hb Hc Hplaces) in Hsum.
  rewrite Z2Nat.id, Hst in * by lia. split_and!; try done; lia.
Qed.

(** C24. Time cannot block the program: from every state of a timed execution the
    threads can go on, by their own steps, notifications and linger timeouts
    only, until [main] reads the clock for the last time; and forgetting the
    clock gives a reachable state of the pipeline, so its theorems hold. *)
Theorem timed_session_ends cfg poll_ms capacity packets t0 schedule s :
  1 ≤ num_workers_ cfg → 1 ≤ batch_size_ cfg → 1 ≤ capacity →
  timed_play cfg poll_ms schedule (timed_start cfg capacity packets t0) = Some s →
  reachable cfg capacity packets (base s) ∧
  ∃ rest s' f, timed_play cfg poll_ms rest s = Some s' ∧ finished s' = Some f ∧
    forallb unaided rest = true ∧ reachable cfg capacity packets (base s').
Proof.
  intros Hn Hb Hc Hplay.
  assert (Hinv : inv_frames cfg poll_ms capacity packets s)
    by (eapply inv_frames_play; [apply inv_frames_start|done]).
  split; [apply Hinv|].
  destruct (timed_finish cfg poll_ms capacity packets Hn Hb Hc s Hinv) as (rest & s' & f & Hr & Hf & Hu).
  exists rest, s', f. split_and!; try done. by eapply inv_frames_play.
Qed.

(** *** Witnesses *)

(** A schedule of the pipeline with the readings it needs and a microsecond
    before each action. *)
Fixpoint with_readings (cfg : pool_config) (schedule : list action) (s : timed) : list timed_action :=
  match schedule with
  | [] => []
  | a :: rest =>
      let reading :=
        if ready a s then []
        else match a with
             | ACapture _ => [TCaptureStart] | AWorker i _ => [TPopStart i]
             | AMain => [TCaptureEnd] | _ => []
             end in
      let now := TTick 1000 :: reading ++ [TAct a] in
      now ++ match timed_play cfg 100 now s with
             | Some s' => with_readings cfg rest s'
             | None => []
             end
  end.

Definition small_timed : timed := timed_start small_pool 2 small_trace 7.
Definition timed_schedule : list timed_action :=
  with_readings small_pool finishing_schedule small_timed ++ [TFinish].

(** A packet arrives, a worker lingers for a second one and takes the first. *)
Definition linger_schedule : list timed_action :=
  [TCaptureStart; TAct (ACapture 0); TPopStart 0; TAct (AWorker 0 0); TTick 2000000; TAct (ALinger 0)].

Definition lingered : timed := default small_timed (timed_play small_pool 100 linger_schedule small_timed).
Definition one_taken : timed :=
  default lingered (timed_act small_pool 100 (TAct (AWorker 0 0)) lingered).

Lemma short_batch_waited_witness :
  taken (base one_taken) = [take 1 small_trace] ∧
  ∃ f, frames lingered !! 0%nat = Some (Some f) ∧ 2000000 ≤ clock lingered - start f.
Proof.
  split; [vm_compute; reflexivity|].
  destruct (short_batch_waited small_pool 100 2 small_trace 7 linger_schedule lingered 0 0 one_taken
    (take 1 small_trace)) as (f & Hf & _ & _ & A & _);
    [vm_compute; reflexivity..|by_decide|].
  exists f. split; [exact Hf|]. by apply A.
Defined.

Lemma timed_session_ends_witness :
  ∃ s, timed_play small_pool 100 linger_schedule small_timed = Some s ∧
    ∃ rest s' f, timed_play small_pool 100 rest s = Some s' ∧ finished s' = Some f ∧
      forallb unaided rest = true.
Proof.
  eexists. split; [vm_compute; reflexivity|].
  edestruct (timed_session_ends small_pool 100 2 small_trace 7 linger_schedule)
    as (_ & rest & s' & f & A & B & C & _);
    [by_decide..| |exists rest, s', f; split; [exact A|split; [exact B|exact C]]].
  vm_compute. reflexivity.
Defined.
