(* ===== verification/EntropyReal.v ===== *)
(** * Entropy in exact arithmetic

    The instance of [shannon_entropy] on the real numbers, with [log2] the binary
    logarithm: what the [double] computation approximates, and the bounds the
    header promises for it. *)
From Stdlib Require Import Reals Lra.
From S2P Require Import Prelude Entropy.

Local Open Scope R_scope.

Definition Rlog2 (x : R) : R := ln x / ln 2.

#[export] Instance real_ops : DoubleOps R := {|
  d_of_uint := IZR;
  d_sub := Rminus;
  d_mul := Rmult;
  d_div := Rdiv;
  d_log2 := Rlog2
|}.

(** ** Lemmas *)

Definition plogp (total : R) (c : Z) : R :=
  if (c =? 0)%Z then 0 else (IZR c / total) * Rlog2 (IZR c / total).

Fixpoint Rsum (l : list R) : R := match l with [] => 0 | x :: l => x + Rsum l end.

Lemma entropy_fold total e h :
  fold_left (entropy_step total) h e = e - Rsum (plogp total <$> h).
Proof.
  revert e. induction h as [|c h IH]; intros e; [cbn; lra|].
  rewrite fmap_cons. cbn [fold_left Rsum]. rewrite IH.
  unfold entropy_step, plogp at 2. cbn. destruct (c =? 0)%Z; lra.
Qed.

(** How many counts are not zero. *)
Fixpoint nonzero (h : list Z) : Z :=
  match h with [] => 0 | c :: h => (if (c =? 0)%Z then 0 else 1) + nonzero h end%Z.

Lemma nonzero_le_length h : (nonzero h <= Zlength h)%Z.
Proof.
  induction h as [|c h IH]; [done|]. cbn [nonzero]. rewrite Zlength_cons.
  destruct (c =? 0)%Z; lia.
Qed.

Lemma nonzero_le_sum h : Forall (λ c, 0 <= c)%Z h → (nonzero h <= Zsum h)%Z.
Proof.
  induction 1 as [|c h Hc _ IH]; [done|]. cbn [nonzero Zsum].
  destruct (Z.eqb_spec c 0); lia.
Qed.

Lemma ln2_pos : 0 < ln 2.
Proof. rewrite <- ln_1. apply ln_increasing; lra. Qed.

Lemma ln_le_pred x : 0 < x → ln x <= x - 1.
Proof.
  intros Hx. destruct (Req_dec (ln x) 0) as [E|Hne].
  - rewrite E. assert (x = 1) as ->; [|lra]. rewrite <- (exp_ln x) by done. by rewrite E, exp_0.
  - pose proof (exp_ineq1 (ln x) Hne) as H. rewrite exp_ln in H by done. lra.
Qed.

(** One term, against the weight [q]. *)
Lemma gibbs_term p q : 0 < p → 0 < q → - (p * ln p) <= - (p * ln q) + q - p.
Proof.
  intros Hp Hq. pose proof (ln_le_pred (q / p) (Rdiv_lt_0_compat _ _ Hq Hp)) as H.
  unfold Rdiv in H. rewrite ln_mult, ln_Rinv in H by (done || by apply Rinv_0_lt_compat).
  apply (Rmult_le_compat_l p) in H; [|lra].
  replace (p * (q * / p - 1)) with (q - p) in H by (field; lra). lra.
Qed.

Lemma Rsum_upper total q h :
  0 < total → 0 < q → Forall (λ c, 0 <= c)%Z h →
  - Rsum (plogp total <$> h) * ln 2 <=
  - ln q * (IZR (Zsum h) / total) + q * IZR (nonzero h) - IZR (Zsum h) / total.
Proof.
  intros Ht Hq. pose proof ln2_pos as H2.
  induction 1 as [|c h Hc _ IH]; [cbn; lra|].
  rewrite fmap_cons. cbn [Rsum Zsum nonzero]. unfold plogp at 1.
  destruct (Z.eqb_spec c 0) as [->|Hne]; rewrite !plus_IZR; unfold Rdiv in *; [lra|].
  assert (Hp : 0 < IZR c * / total).
  { apply Rmult_lt_0_compat; [apply IZR_lt; lia|by apply Rinv_0_lt_compat]. }
  pose proof (gibbs_term _ q Hp Hq) as G. unfold Rlog2, Rdiv.
  replace (- (IZR c * / total * (ln (IZR c * / total) * / ln 2) + Rsum (plogp total <$> h)) * ln 2)
    with (- (IZR c * / total * ln (IZR c * / total)) + - Rsum (plogp total <$> h) * ln 2)
    by (field; lra).
  lra.
Qed.

Lemma Rsum_upper_0 total h :
  0 < total → Forall (λ c, (0 <= c)%Z ∧ IZR c <= total) h → Rsum (plogp total <$> h) <= 0.
Proof.
  intros Ht. pose proof ln2_pos as H2. induction 1 as [|c h [Hc Hle] _ IH]; [cbn; lra|].
  rewrite fmap_cons. cbn [Rsum]. unfold plogp at 1. destruct (Z.eqb_spec c 0) as [->|Hne]; [lra|].
  assert (Hc0 : 0 < IZR c) by (apply IZR_lt; lia).
  assert (Hp : 0 < IZR c / total) by by apply Rdiv_lt_0_compat.
  assert (Hp1 : IZR c / total <= 1) by (apply (Rmult_le_reg_r total); [done|]; field_simplify; lra).
  assert (Hln : ln (IZR c / total) <= 0).
  { rewrite <- ln_1. destruct Hp1 as [Hlt| ->]; [left; by apply ln_increasing|lra]. }
  assert (H : IZR c / total * Rlog2 (IZR c / total) <= 0); [|lra].
  unfold Rlog2, Rdiv at 2. rewrite <- Rmult_assoc.
  assert (0 < / ln 2) by by apply Rinv_0_lt_compat.
  assert (IZR c / total * ln (IZR c / total) <= 0) by nra. nra.
Qed.

(** The entropy is at most the logarithm of any bound on the distinct bytes. *)
Lemma entropy_upper data m :
  bytes_ok data → (0 < Zlength data < 2 ^ 32)%Z → (0 < m)%Z →
  (nonzero (byte_histogram data) <= m)%Z →
  shannon_entropy (F := R) (Some data) <= Rlog2 (IZR m).
Proof.
  intros Hok Hlen Hm Hle. destruct (histogram_sum data Hok) as [Hsum Hpos]; [lia|].
  unfold shannon_entropy. rewrite (proj2 (Z.eqb_neq _ _)) by lia.
  rewrite entropy_fold. cbn [d_of_uint real_ops].
  assert (Ht : 0 < IZR (Zlength data)) by (apply IZR_lt; lia).
  assert (Hm' : 0 < IZR m) by by apply IZR_lt.
  pose proof (Rsum_upper (IZR (Zlength data)) (/ IZR m) _ Ht (Rinv_0_lt_compat _ Hm') Hpos) as H.
  rewrite Hsum, ln_Rinv in H by done. unfold Rdiv in H. rewrite Rinv_r in H by lra.
  assert (Hk : / IZR m * IZR (nonzero (byte_histogram data)) <= 1).
  { apply IZR_le in Hle. apply (Rmult_le_reg_l (IZR m)); [done|].
    rewrite <- Rmult_assoc, Rinv_r by lra. lra. }
  pose proof ln2_pos as H2. unfold Rlog2. apply (Rmult_le_reg_r (ln 2)); [done|].
  unfold Rdiv. rewrite Rmult_assoc, Rinv_l by lra. lra.
Qed.

Lemma Rlog2_pow k : Rlog2 (IZR (2 ^ Z.of_nat k)) = INR k.
Proof.
  unfold Rlog2. rewrite <- pow_IZR, ln_pow by lra. field. pose proof ln2_pos. lra.
Qed.

Lemma Rlog2_increasing x y : 0 < x → x < y → Rlog2 x < Rlog2 y.
Proof.
  intros Hx Hxy. unfold Rlog2, Rdiv. apply Rmult_lt_compat_r.
  - apply Rinv_0_lt_compat, ln2_pos.
  - by apply ln_increasing.
Qed.

(** ** Properties *)

(** The documented range: the entropy of a payload is between 0 and 8 bits
    per byte, and no more than the logarithm of its length; so a payload of
    fewer than 128 bytes stays below the default threshold of 7.0, although
    payloads from 32 bytes on are examined. *)
Theorem entropy_range data :
  bytes_ok data → (0 < Zlength data < 2 ^ 32)%Z →
  0 <= shannon_entropy (F := R) (Some data) <= 8 ∧
  shannon_entropy (F := R) (Some data) <= Rlog2 (IZR (Zlength data)) ∧
  ((Zlength data < 128)%Z → shannon_entropy (F := R) (Some data) < 7).
Proof.
  intros Hok Hlen. destruct (histogram_sum data Hok) as [Hsum Hpos]; [lia|].
  assert (Hup : shannon_entropy (F := R) (Some data) <= Rlog2 (IZR (Zlength data))).
  { apply entropy_upper; [done|lia|lia|]. rewrite <- Hsum. by apply nonzero_le_sum. }
  split_and!; [|  |done|].
  - unfold shannon_entropy. rewrite (proj2 (Z.eqb_neq _ _)) by lia. rewrite entropy_fold.
    cbn [d_of_uint real_ops].
    enough (Rsum (plogp (IZR (Zlength data)) <$> byte_histogram data) <= 0) by lra.
    apply Rsum_upper_0; [apply IZR_lt; lia|]. apply Forall_lookup. intros i c Hi. split.
    + rewrite Forall_lookup in Hpos. by eapply Hpos.
    + apply IZR_le. rewrite <- Hsum. by eapply Zsum_lookup_le.
  - assert (E : 8 = Rlog2 (IZR 256)).
    { change 256%Z with (2 ^ Z.of_nat 8)%Z. rewrite Rlog2_pow. cbn. lra. }
    rewrite E. apply entropy_upper; [done|lia|lia|].
    pose proof (nonzero_le_length (byte_histogram data)) as Hn. unfold Zlength at 1 in Hn.
    unfold byte_histogram in *. rewrite histogram_length, length_replicate in Hn. lia.
  - intros Hshort. eapply Rle_lt_trans; [exact Hup|].
    assert (E : 7 = Rlog2 (IZR 128)).
    { change 128%Z with (2 ^ Z.of_nat 7)%Z. rewrite Rlog2_pow. cbn. lra. }
    rewrite E. apply Rlog2_increasing; apply IZR_lt; lia.
Qed.

Lemma entropy_range_witness :
  0 <= shannon_entropy (F := R) (Some (Z.of_nat <$> seq 0 127)) <= 8 ∧
  shannon_entropy (F := R) (Some (Z.of_nat <$> seq 0 127)) < 7.
Proof.
  destruct (entropy_range (Z.of_nat <$> seq 0 127)) as (A & _ & B); [by_decide|by_decide|].
  split; [exact A|]. apply B. by_decide.
Defined.
