(* ===== verification/FloatError.v ===== *)
(** * Rounding errors of binary64

    The operations of [SpecFloat] on positive numbers, with the standard model of
    rounding: in the normal range a result is finite and differs from the exact
    value by at most 2^-53 of it.  A number in the middle of an operation is a
    mantissa with a round bit and a sticky bit, which locate the exact value. *)
From Stdlib Require Import Reals Lra Floats.SpecFloat.
From S2P Require Import Prelude Entropy.

Local Open Scope R_scope.

(** ** Powers of two *)

Definition bpow (e : Z) : R := powerRZ 2 e.

Lemma bpow_pos e : 0 < bpow e.
Proof. apply powerRZ_lt. lra. Qed.

Lemma bpow_add a b : bpow (a + b) = bpow a * bpow b.
Proof. apply powerRZ_add. lra. Qed.

Lemma bpow_0 : bpow 0 = 1.
Proof. done. Qed.

Lemma bpow_opp_mul e : bpow (- e) * bpow e = 1.
Proof. by rewrite <- bpow_add, Z.add_opp_diag_l. Qed.

Lemma bpow_IZR e : (0 <= e)%Z → IZR (2 ^ e) = bpow e.
Proof. intros He. unfold bpow. rewrite <- (Z2Nat.id e) by done. by rewrite <- pow_IZR, <- pow_powerRZ. Qed.

Lemma bpow_nonneg_le_1 e : (0 <= e)%Z → 1 <= bpow e.
Proof.
  intros He. rewrite <- bpow_IZR by done. apply (IZR_le 1). apply (Z.pow_le_mono_r 2 0); lia.
Qed.

Lemma bpow_le a b : (a <= b)%Z → bpow a <= bpow b.
Proof.
  intros H. replace b with (a + (b - a))%Z by lia. rewrite bpow_add.
  pose proof (bpow_pos a). pose proof (bpow_nonneg_le_1 (b - a) ltac:(lia)). nra.
Qed.

Lemma bpow_lt_inv a b : bpow a < bpow b → (a < b)%Z.
Proof. intros H. destruct (Z.lt_ge_cases a b) as [?|Hge]; [done|]. apply bpow_le in Hge. lra. Qed.

Lemma bpow_lt a b : (a < b)%Z → bpow a < bpow b.
Proof.
  intros H. pose proof (bpow_le (a + 1) b ltac:(lia)) as Hl. rewrite bpow_add in Hl.
  change (bpow 1) with (2 * 1) in Hl. pose proof (bpow_pos a). lra.
Qed.

(** ** Locations *)

(** [y] is the mantissa plus the part the two bits stand for. *)
Definition located (mrs : shr_record) (y : R) : Prop :=
  let f := y - IZR (shr_m mrs) in
  match shr_r mrs, shr_s mrs with
  | false, false => f = 0
  | false, true => 0 < f < / 2
  | true, false => f = / 2
  | true, true => / 2 < f < 1
  end.

Lemma located_range mrs y : located mrs y → IZR (shr_m mrs) <= y < IZR (shr_m mrs) + 1.
Proof. unfold located. destruct (shr_r mrs), (shr_s mrs); lra. Qed.

Lemma shr_1_located mrs y :
  (0 <= shr_m mrs)%Z → located mrs y →
  located (shr_1 mrs) (y * bpow (- 1)) ∧ shr_m (shr_1 mrs) = (shr_m mrs / 2 ^ 1)%Z.
Proof.
  destruct mrs as [m r s]. unfold located. cbn [shr_m shr_r shr_s]. change (bpow (- 1)) with (/ (2 * 1)).
  intros Hm Hl. change (2 ^ 1)%Z with 2%Z.
  destruct m as [|[p|p|]|p]; [| | | |lia]; cbn [shr_1 shr_m shr_r shr_s].
  - destruct r, s; cbn [orb]; (split; [lra|done]).
  - rewrite (Pos2Z.inj_xI p) in *. rewrite plus_IZR, mult_IZR in Hl.
    split; [destruct r, s; cbn [orb]; lra|]. apply (Z.div_unique _ 2 _ 1); lia.
  - rewrite (Pos2Z.inj_xO p) in *. rewrite mult_IZR in Hl.
    split; [destruct r, s; cbn [orb]; lra|]. apply (Z.div_unique _ 2 _ 0); lia.
  - destruct r, s; cbn [orb]; (split; [lra|done]).
Qed.

Lemma iter_located n mrs y :
  (0 <= shr_m mrs)%Z → located mrs y →
  located (SpecFloat.iter_pos shr_1 n mrs) (y * bpow (- Z.pos n)) ∧
  shr_m (SpecFloat.iter_pos shr_1 n mrs) = (shr_m mrs / 2 ^ Z.pos n)%Z.
Proof.
  assert (Htwo : ∀ a b mrs y, (0 <= shr_m mrs)%Z →
    (∀ mrs y, (0 <= shr_m mrs)%Z → located mrs y → located (SpecFloat.iter_pos shr_1 a mrs) (y * bpow (- Z.pos a)) ∧
       shr_m (SpecFloat.iter_pos shr_1 a mrs) = (shr_m mrs / 2 ^ Z.pos a)%Z) →
    located (SpecFloat.iter_pos shr_1 b mrs) (y * bpow (- Z.pos b)) →
    shr_m (SpecFloat.iter_pos shr_1 b mrs) = (shr_m mrs / 2 ^ Z.pos b)%Z →
    located (SpecFloat.iter_pos shr_1 a (SpecFloat.iter_pos shr_1 b mrs)) (y * bpow (- Z.pos (a + b))) ∧
    shr_m (SpecFloat.iter_pos shr_1 a (SpecFloat.iter_pos shr_1 b mrs)) = (shr_m mrs / 2 ^ Z.pos (a + b))%Z).
  { intros a b mrs' y' Hm Ha Hb Em. destruct (Ha (SpecFloat.iter_pos shr_1 b mrs') (y' * bpow (- Z.pos b))) as [H1 H2].
    - rewrite Em. apply Z.div_pos; lia.
    - done.
    - replace (- Z.pos (a + b))%Z with (- Z.pos b + - Z.pos a)%Z by lia.
      rewrite bpow_add, <- Rmult_assoc. split; [done|].
      rewrite H2, Em, Z.div_div by lia. rewrite <- Z.pow_add_r by lia. f_equal. f_equal. lia. }
  revert mrs y. induction n as [n IH|n IH|]; intros mrs y Hm Hl; cbn [SpecFloat.iter_pos].
  - destruct (shr_1_located mrs y Hm Hl) as [H1 E1].
    assert (Hm1 : (0 <= shr_m (shr_1 mrs))%Z) by (rewrite E1; apply Z.div_pos; lia).
    destruct (IH (shr_1 mrs) _ Hm1 H1) as [H2 E2].
    destruct (Htwo n n (shr_1 mrs) _ Hm1 IH H2 E2) as [H3 E3].
    replace (Z.pos n~1) with (1 + Z.pos (n + n))%Z by lia.
    rewrite Z.opp_add_distr, bpow_add, <- Rmult_assoc. split; [done|].
    rewrite E3, E1, Z.div_div by lia. by rewrite <- Z.pow_add_r by lia.
  - destruct (IH mrs y Hm Hl) as [H1 E1]. replace (Z.pos n~0) with (Z.pos (n + n)) by lia.
    by apply Htwo.
  - by apply shr_1_located.
Qed.

(** ** Rounding *)

Abbreviation ulp := (bpow (-53)).

Lemma digits_range m : (0 < m)%Z → (2 ^ (Zdigits2 m - 1) <= m < 2 ^ Zdigits2 m)%Z ∧ (1 <= Zdigits2 m)%Z.
Proof.
  destruct m as [|p|p]; try lia. intros _. cbn [Zdigits2].
  split; [split; [apply digits2_pos_le|]|lia].
  induction p as [p IH|p IH|]; cbn [digits2_pos]; [..|done]; rewrite Pos2Z.inj_succ, Z.pow_succ_r by lia; lia.
Qed.

Lemma Zdigits2_exponent m e a : (0 < m)%Z → bpow a <= IZR m * bpow e → (a < Zdigits2 m + e)%Z.
Proof.
  intros Hm Ha. destruct (digits_range m Hm) as [[_ D] ?]. apply bpow_lt_inv. rewrite bpow_add.
  eapply Rle_lt_trans; [exact Ha|]. apply Rmult_lt_compat_r; [apply bpow_pos|].
  rewrite <- bpow_IZR by lia. by apply IZR_lt.
Qed.

(** The exponents of a located number in a range. *)
Lemma located_exponent m l e x a b :
  (0 < m)%Z → located (shr_record_of_loc m l) (x * bpow (- e)) → bpow a <= x < bpow b →
  (a < Zdigits2 m + e ∧ Zdigits2 m + e <= b)%Z.
Proof.
  intros Hm Hl Hx. destruct (digits_range m Hm) as [[D1 D2] D3]. apply located_range in Hl.
  assert (Em : shr_m (shr_record_of_loc m l) = m) by (by destruct l as [|[]]).
  rewrite Em in Hl. pose proof (bpow_pos e) as He.
  assert (Hy : x = x * bpow (- e) * bpow e) by (rewrite Rmult_assoc, bpow_opp_mul; lra).
  assert (H1 : IZR m * bpow e <= x) by (rewrite Hy; apply Rmult_le_compat_r; lra).
  assert (H2 : x < (IZR m + 1) * bpow e) by (rewrite Hy; apply Rmult_lt_compat_r; lra).
  apply IZR_le in D1. assert (D2' : IZR m + 1 <= IZR (2 ^ Zdigits2 m)) by (rewrite <- plus_IZR; apply IZR_le; lia).
  rewrite bpow_IZR in D1, D2' by lia.
  split; apply Z.lt_succ_r || apply bpow_lt_inv.
  - apply (Rle_lt_trans _ x); [lra|]. eapply Rlt_le_trans; [exact H2|].
    rewrite bpow_add. apply Rmult_le_compat_r; lra.
  - apply bpow_lt_inv. replace (Zdigits2 m + e)%Z with (Zdigits2 m - 1 + e + 1)%Z by lia.
    unfold Z.succ. rewrite !(bpow_add _ 1). apply Rmult_lt_compat_r; [apply bpow_pos|].
    eapply Rle_lt_trans; [|apply Hx]. rewrite bpow_add. eapply Rle_trans; [|exact H1].
    apply Rmult_le_compat_r; lra.
Qed.

(** [shr_fexp] in the normal range. *)
Lemma shr_fexp_located m l e x :
  (0 < m)%Z → located (shr_record_of_loc m l) (x * bpow (- e)) → (-1000 < Zdigits2 m + e)%Z →
  let '(mrs, e') := shr_fexp 53 1024 m e l in
  located mrs (x * bpow (- e')) ∧ e' = Z.max e (Zdigits2 m + e - 53) ∧
  shr_m mrs = (m / 2 ^ (e' - e))%Z.
Proof.
  intros Hm Hl Hr. unfold shr_fexp. assert (Hf : fexp 53 1024 (Zdigits2 m + e) = (Zdigits2 m + e - 53)%Z)
    by (unfold fexp, emin; lia).
  assert (Em : shr_m (shr_record_of_loc m l) = m) by (by destruct l as [|[]]).
  rewrite Hf. destruct (Zdigits2 m + e - 53 - e)%Z as [|n|n] eqn:En; cbn [shr].
  - split_and!; [done|lia|]. by rewrite Z.sub_diag, Z.div_1_r.
  - destruct (iter_located n (shr_record_of_loc m l) _ ltac:(lia) Hl) as [H1 H2].
    split_and!; [|lia|].
    + rewrite Z.opp_add_distr, bpow_add, <- Rmult_assoc. done.
    + rewrite H2, Em. f_equal. f_equal. lia.
  - split_and!; [done|lia|]. by rewrite Z.sub_diag, Z.div_1_r.
Qed.

Lemma rne_near mrs y :
  located mrs y →
  let k := round_nearest_even (shr_m mrs) (loc_of_shr_record mrs) in
  Rabs (IZR k - y) <= / 2 ∧ (k = shr_m mrs ∨ k = shr_m mrs + 1)%Z.
Proof.
  destruct mrs as [m r s]. unfold located. cbn [shr_m shr_r shr_s].
  destruct r, s; cbn [loc_of_shr_record round_nearest_even]; intros Hl.
  - rewrite plus_IZR. split; [apply Rabs_le; lra|by right].
  - destruct (Z.even m); rewrite ?plus_IZR; (split; [apply Rabs_le; lra|auto]).
  - split; [apply Rabs_le; lra|by left].
  - split; [apply Rabs_le; lra|by left].
Qed.

(** A mantissa of 53 digits. *)
Definition full (m : Z) : Prop := (2 ^ 52 <= m < 2 ^ 53)%Z.

Lemma full_digits p : full (Z.pos p) → Z.pos (digits2_pos p) = 53%Z.
Proof.
  unfold full. intros Hp. destruct (digits_range (Z.pos p) ltac:(lia)) as [[D1 D2] ?]. cbn [Zdigits2] in *.
  assert (53 - 1 < Z.pos (digits2_pos p))%Z by (apply (Z.pow_lt_mono_r_iff 2); lia).
  assert (Z.pos (digits2_pos p) - 1 < 53)%Z by (apply (Z.pow_lt_mono_r_iff 2); lia). lia.
Qed.

(** The second shift, after the rounding. *)
Lemma second_shift k e :
  (2 ^ 52 <= k <= 2 ^ 53)%Z → (-1000 < e)%Z → (e <= 970)%Z →
  ∃ m' e', (let '(mrs, e'') := shr_fexp 53 1024 k e loc_Exact in
     match shr_m mrs with
     | Z0 => S754_zero false
     | Z.pos m => if (e'' <=? 1024 - 53)%Z then S754_finite false m e'' else S754_infinity false
     | Z.neg _ => S754_nan
     end) = S754_finite false m' e' ∧ full (Z.pos m') ∧ IZR (Z.pos m') * bpow e' = IZR k * bpow e.
Proof.
  intros Hk He1 He2. assert (Hc : k = (2 ^ 53)%Z ∨ (2 ^ 52 <= k < 2 ^ 53)%Z) by lia.
  destruct Hc as [->|Hlt].
  - unfold shr_fexp. change (Zdigits2 (2 ^ 53)) with 54%Z.
    replace (fexp 53 1024 (54 + e) - e)%Z with 1%Z by (unfold fexp, emin; lia).
    change (shr (shr_record_of_loc (2 ^ 53) loc_Exact) e 1) with
      ({| shr_m := 2 ^ 52; shr_r := false; shr_s := false |}, (e + 1)%Z).
    cbn [shr_m]. change (2 ^ 52)%Z with (Z.pos 4503599627370496). cbn iota.
    rewrite (proj2 (Z.leb_le _ _)) by lia. eexists _, _. split; [done|]. split; [by split|].
    rewrite bpow_add. change (2 ^ 53)%Z with (2 * Z.pos 4503599627370496)%Z. rewrite mult_IZR.
    change (bpow 1) with (2 * 1). lra.
  - destruct k as [|p|p]; [lia| |lia]. pose proof (full_digits p Hlt) as Hd.
    unfold shr_fexp. cbn [Zdigits2]. rewrite Hd.
    replace (fexp 53 1024 (53 + e) - e)%Z with 0%Z by (unfold fexp, emin; lia).
    exists p, e. cbn [shr shr_record_of_loc shr_m]. by rewrite (proj2 (Z.leb_le _ _)) by lia.
Qed.

(** The mantissa the rounding starts from. *)
Lemma first_shift m e l x :
  (2 ^ 52 <= m)%Z → located (shr_record_of_loc m l) (x * bpow (- e)) → bpow (-500) <= x < bpow 500 →
  let '(mrs, e') := shr_fexp 53 1024 m e l in
  located mrs (x * bpow (- e')) ∧ full (shr_m mrs) ∧ (-600 < e' <= 500)%Z.
Proof.
  intros Hm Hl Hx. destruct (digits_range m ltac:(lia)) as [[D1 D2] D3].
  destruct (located_exponent m l e x _ _ ltac:(lia) Hl Hx) as [E1 E2].
  pose proof (shr_fexp_located m l e x ltac:(lia) Hl ltac:(lia)) as H.
  destruct (shr_fexp 53 1024 m e l) as [mrs e']. destruct H as (H1 & H2 & H3).
  assert (52 < Zdigits2 m)%Z by (apply (Z.pow_lt_mono_r_iff 2); lia).
  assert (He : (e' - e = Zdigits2 m - 53)%Z) by lia.
  split; [done|]. split; [|lia]. rewrite H3, He. split.
  - apply Z.div_le_lower_bound; [apply Z.pow_pos_nonneg; lia|].
    rewrite <- Z.pow_add_r by lia. by replace (Zdigits2 m - 53 + 52)%Z with (Zdigits2 m - 1)%Z by lia.
  - apply Z.div_lt_upper_bound; [apply Z.pow_pos_nonneg; lia|].
    rewrite <- Z.pow_add_r by lia. by replace (Zdigits2 m - 53 + 53)%Z with (Zdigits2 m) by lia.
Qed.

(** Rounding in the normal range. *)
Lemma round_aux_error m e l x :
  (2 ^ 52 <= m)%Z → located (shr_record_of_loc m l) (x * bpow (- e)) → bpow (-500) <= x < bpow 500 →
  ∃ m' e', binary_round_aux 53 1024 false m e l = S754_finite false m' e' ∧ full (Z.pos m') ∧
    Rabs (IZR (Z.pos m') * bpow e' - x) <= ulp * x.
Proof.
  intros Hm Hl Hx. pose proof (first_shift m e l x Hm Hl Hx) as H.
  unfold binary_round_aux. destruct (shr_fexp 53 1024 m e l) as [mrs e1].
  destruct H as (H1 & H2 & H3). destruct (rne_near mrs _ H1) as [Hk Hk'].
  set (k := round_nearest_even (shr_m mrs) (loc_of_shr_record mrs)) in *. unfold full in H2.
  destruct (second_shift k e1) as (m' & e' & -> & Hfull & Ev); [lia..|].
  exists m', e'. split; [done|]. split; [done|]. rewrite Ev.
  pose proof (bpow_pos e1) as He. pose proof (located_range mrs _ H1) as Hr.
  assert (Hy : x = x * bpow (- e1) * bpow e1) by (rewrite Rmult_assoc, bpow_opp_mul; lra).
  set (y := x * bpow (- e1)) in *. clearbody y. subst x.
  replace (IZR k * bpow e1 - y * bpow e1) with ((IZR k - y) * bpow e1) by ring.
  rewrite Rabs_mult, (Rabs_pos_eq (bpow e1)), <- Rmult_assoc by lra.
  apply Rmult_le_compat_r; [lra|]. apply (Rle_trans _ (/ 2)); [done|].
  destruct H2 as [H2 _]. apply IZR_le in H2. rewrite bpow_IZR in H2 by lia.
  replace (/ 2) with (ulp * bpow 52); [|rewrite <- bpow_add; change (bpow (-53 + 52)) with (/ (2 * 1)); lra].
  apply Rmult_le_compat_l; [left; apply bpow_pos|lra].
Qed.

(** ** Operations *)

(** A positive number with 53 digits and its value. *)
Definition has_value (x : spec_float) (v : R) : Prop :=
  ∃ m e, x = S754_finite false m e ∧ full (Z.pos m) ∧ v = IZR (Z.pos m) * bpow e.

Lemma has_value_pos x v : has_value x v → 0 < v.
Proof. intros (m & e & _ & _ & ->). apply Rmult_lt_0_compat; [by apply IZR_lt|apply bpow_pos]. Qed.

Lemma exact_located m y : y = IZR m → located (shr_record_of_loc m loc_Exact) y.
Proof. intros ->. unfold located. cbn. lra. Qed.

(** The result of a rounding. *)
Lemma round_aux_value m e l x :
  (2 ^ 52 <= m)%Z → located (shr_record_of_loc m l) (x * bpow (- e)) → bpow (-500) <= x < bpow 500 →
  ∃ r, has_value (binary_round_aux 53 1024 false m e l) r ∧ Rabs (r - x) <= ulp * x.
Proof.
  intros Hm Hl Hx. destruct (round_aux_error m e l x Hm Hl Hx) as (m' & e' & -> & Hf & He).
  eexists. split; [by exists m', e'|done].
Qed.

Lemma mul_error x y v w :
  has_value x v → has_value y w → bpow (-500) <= v * w < bpow 500 →
  ∃ r, has_value (SFmul 53 1024 x y) r ∧ Rabs (r - v * w) <= ulp * (v * w).
Proof.
  intros (m1 & e1 & -> & [F1 _] & ->) (m2 & e2 & -> & [F2 _] & ->) Hr. unfold SFmul. cbn [xorb].
  apply round_aux_value; [nia| |done].
  apply exact_located. rewrite Pos2Z.inj_mul, mult_IZR.
  transitivity (IZR (Z.pos m1) * IZR (Z.pos m2) * (bpow (- (e1 + e2)) * bpow (e1 + e2)));
    [rewrite (bpow_add e1 e2); ring|rewrite bpow_opp_mul; ring].
Qed.

Lemma iter_xO p d : Z.pos (Pos.iter xO p d) = (Z.pos p * 2 ^ Z.pos d)%Z.
Proof.
  induction d as [|d IH] using Pos.peano_ind; [cbn; lia|].
  rewrite Pos.iter_succ, Pos2Z.inj_xO, IH, Pos2Z.inj_succ, Z.pow_succ_r by lia. lia.
Qed.

(** An integer times a power of two. *)
Lemma normalize_error p e x :
  x = IZR (Z.pos p) * bpow e → bpow (-500) <= x < bpow 500 →
  ∃ r, has_value (binary_normalize 53 1024 (Z.pos p) e false) r ∧ Rabs (r - x) <= ulp * x.
Proof.
  intros Hx Hr. unfold binary_normalize, binary_round.
  pose proof (Zdigits2_exponent (Z.pos p) e (-500) ltac:(lia) ltac:(lra)) as Hd. cbn [Zdigits2] in Hd.
  destruct (digits_range (Z.pos p) ltac:(lia)) as [[D1 _] D3]. cbn [Zdigits2] in *.
  replace (fexp 53 1024 (Z.pos (digits2_pos p) + e)) with (Z.pos (digits2_pos p) + e - 53)%Z
    by (unfold fexp, emin; lia).
  unfold shl_align. destruct (Z.pos (digits2_pos p) + e - 53 - e)%Z as [|d|d] eqn:Ed.
  1-2: apply round_aux_value; [|apply exact_located; rewrite Hx, Rmult_assoc, (Rmult_comm (bpow e)), bpow_opp_mul; ring|done].
  1-2: eapply Z.le_trans; [|exact D1]; apply Z.pow_le_mono_r; lia.
  assert (Hd' : Z.pos d = (53 - Z.pos (digits2_pos p))%Z) by lia.
  apply round_aux_value; [| |done].
  - rewrite iter_xO, Hd'. apply (Z.le_trans _ (2 ^ (Z.pos (digits2_pos p) - 1) * 2 ^ (53 - Z.pos (digits2_pos p)))).
    + rewrite <- Z.pow_add_r by lia. apply Z.pow_le_mono_r; lia.
    + apply Z.mul_le_mono_nonneg_r; [apply Z.pow_nonneg; lia|done].
  - apply exact_located. rewrite iter_xO, mult_IZR, bpow_IZR, Hx, Rmult_assoc, <- bpow_add by lia.
    f_equal. f_equal. lia.
Qed.

(** An integer below 2^64. *)
Lemma of_uint_error z :
  (0 < z < 2 ^ 64)%Z → ∃ r, has_value (b64_of_uint z) r ∧ Rabs (r - IZR z) <= ulp * IZR z.
Proof.
  intros Hz. destruct z as [|p|p]; [lia| |lia]. apply normalize_error; [rewrite bpow_0; ring|]. split.
  - apply (Rle_trans _ 1); [apply (bpow_le (-500) 0); lia|]. apply (IZR_le 1). lia.
  - apply (Rlt_le_trans _ (bpow 64)); [rewrite <- bpow_IZR by lia; apply IZR_lt; lia|apply bpow_le; lia].
Qed.

Lemma new_location_located q m k :
  (0 < m)%Z → (0 <= k < m)%Z → located (shr_record_of_loc q (new_location m k)) (IZR q + IZR k / IZR m).
Proof.
  intros Hm Hk. assert (Hm' := Hm). apply IZR_lt in Hm'.
  assert (Hc : ∀ f c, f = IZR k / IZR m → c * IZR m = IZR k → f = c)
    by (intros f c -> <-; field; lra).
  assert (Hlt : ∀ c, IZR k < c * IZR m → IZR k / IZR m < c).
  { intros c H. apply (Rmult_lt_reg_r (IZR m)); [done|]. by replace (IZR k / IZR m * IZR m) with (IZR k) by (field; lra). }
  assert (Hgt : ∀ c, c * IZR m < IZR k → c < IZR k / IZR m).
  { intros c H. apply (Rmult_lt_reg_r (IZR m)); [done|]. by replace (IZR k / IZR m * IZR m) with (IZR k) by (field; lra). }
  assert (Hinner : (0 < k)%Z → ∀ o, (2 * k ?= m)%Z = o →
    located (shr_record_of_loc q (loc_Inexact o)) (IZR q + IZR k / IZR m)).
  { intros Hk0 o Ho. unfold located. assert (H0 : 0 < IZR k) by (apply IZR_lt; lia).
    assert (H1 : IZR k < IZR m) by (apply IZR_lt; lia).
    destruct o; cbn [shr_record_of_loc shr_m shr_r shr_s].
    - apply Z.compare_eq in Ho. apply (Hc _ (/ 2)); [lra|]. rewrite <- Ho, mult_IZR. lra.
    - apply (proj1 (Z.compare_lt_iff _ _)), IZR_lt in Ho. rewrite mult_IZR in Ho.
      specialize (Hlt (/ 2) ltac:(lra)). specialize (Hgt 0 ltac:(lra)). lra.
    - apply (proj1 (Z.compare_gt_iff _ _)), IZR_lt in Ho. rewrite mult_IZR in Ho.
      specialize (Hlt 1 ltac:(lra)). specialize (Hgt (/ 2) ltac:(lra)). lra. }
  unfold new_location, new_location_even, new_location_odd.
  destruct (Z.eq_dec k 0%Z) as [->|Hk0].
  - destruct (Z.even m); apply exact_located; unfold Rdiv; lra.
  - destruct (Z.even m) eqn:Ev; rewrite (proj2 (Z.eqb_neq k 0%Z) Hk0); apply Hinner; [lia|done|lia|].
    assert (m ≠ 2 * k)%Z by (intros ->; rewrite Z.even_mul in Ev; done).
    destruct (Z.compare_spec (2 * k + 1) m); destruct (Z.compare_spec (2 * k) m); lia || done.
Qed.

(** The exponent of a quotient. *)
Lemma quotient_exponent m1 e1 m2 e2 a :
  (0 < m1)%Z → (0 < m2)%Z → bpow a <= IZR m1 * bpow e1 / (IZR m2 * bpow e2) →
  (a < Zdigits2 m1 + e1 - (Zdigits2 m2 + e2) + 1)%Z.
Proof.
  intros H1 H2 Ha. destruct (digits_range m1 H1) as [[_ A] ?], (digits_range m2 H2) as [[B _] ?].
  apply IZR_lt in A. apply IZR_le in B. rewrite bpow_IZR in A, B by lia.
  assert (Hm2 : 0 < IZR m2) by (by apply IZR_lt).
  pose proof (bpow_pos e1). pose proof (bpow_pos e2) as He2. apply bpow_lt_inv. eapply Rle_lt_trans; [exact Ha|].
  assert (Hw : 0 < IZR m2 * bpow e2) by (by apply Rmult_lt_0_compat).
  apply (Rmult_lt_reg_r (IZR m2 * bpow e2)); [done|].
  replace (IZR m1 * bpow e1 / (IZR m2 * bpow e2) * (IZR m2 * bpow e2)) with (IZR m1 * bpow e1)
    by (field; split; lra).
  apply (Rlt_le_trans _ (bpow (Zdigits2 m1 + e1))); [rewrite bpow_add; apply Rmult_lt_compat_r; lra|].
  apply (Rle_trans _ (bpow (Zdigits2 m1 + e1 - (Zdigits2 m2 + e2) + 1) * (bpow (Zdigits2 m2 - 1) * bpow e2))).
  - rewrite <- !bpow_add. apply bpow_le. lia.
  - apply Rmult_le_compat_l; [left; apply bpow_pos|]. apply Rmult_le_compat_r; lra.
Qed.

(** The integer quotient has at least 53 digits. *)
Lemma quotient_digits m1 m2 s :
  (0 < m1)%Z → (0 < m2)%Z → (0 <= s)%Z → (Zdigits2 m2 - Zdigits2 m1 + 53 <= s)%Z → (2 ^ 52 <= m1 * 2 ^ s / m2)%Z.
Proof.
  intros H1 H2 Hs Hd. destruct (digits_range m1 H1) as [[A _] ?], (digits_range m2 H2) as [[_ B] ?].
  apply Z.div_le_lower_bound; [done|]. apply (Z.le_trans _ (2 ^ Zdigits2 m2 * 2 ^ 52)); [nia|].
  apply (Z.le_trans _ (2 ^ (Zdigits2 m1 - 1) * 2 ^ s)).
  - rewrite <- !Z.pow_add_r by lia. apply Z.pow_le_mono_r; lia.
  - apply Z.mul_le_mono_nonneg_r; [by apply Z.pow_nonneg|done].
Qed.

Lemma div_error x y v w :
  has_value x v → has_value y w → bpow (-500) <= v / w < bpow 500 →
  ∃ r, has_value (SFdiv 53 1024 x y) r ∧ Rabs (r - v / w) <= ulp * (v / w).
Proof.
  intros (m1 & e1 & -> & _ & ->) (m2 & e2 & -> & _ & ->) Hr. unfold SFdiv, SFdiv_core_binary.
  pose proof (quotient_exponent (Z.pos m1) e1 (Z.pos m2) e2 _ ltac:(lia) ltac:(lia) (proj1 Hr)) as Hd.
  set (D := (Zdigits2 (Z.pos m1) + e1 - (Zdigits2 (Z.pos m2) + e2))%Z) in *.
  set (e' := Z.min (fexp 53 1024 D) (e1 - e2)).
  assert (He' : (e' <= e1 - e2)%Z ∧ (e' <= D - 53)%Z) by (unfold e', fexp, emin; lia).
  set (s := (e1 - e2 - e')%Z).
  assert (Hs : match s with Z.pos _ => Z.shiftl (Z.pos m1) s | Z0 => Z.pos m1 | Z.neg _ => 0%Z end =
               (Z.pos m1 * 2 ^ s)%Z).
  { rewrite <- Z.shiftl_mul_pow2 by lia. by destruct s eqn:E; [|done|lia]. }
  rewrite Hs. pose proof (Z.div_mod (Z.pos m1 * 2 ^ s) (Z.pos m2) ltac:(lia)) as Hq.
  pose proof (Z.mod_pos_bound (Z.pos m1 * 2 ^ s) (Z.pos m2) ltac:(lia)) as Hk.
  pose proof (quotient_digits (Z.pos m1) (Z.pos m2) s ltac:(lia) ltac:(lia) ltac:(lia) ltac:(lia)) as H52.
  unfold Z.div in Hq, H52. unfold Z.modulo in Hq, Hk.
  destruct (Z.div_eucl (Z.pos m1 * 2 ^ s) (Z.pos m2)) as [q k]. cbn [xorb].
  apply round_aux_value; [done| |done].
  assert (Hm2 : 0 < IZR (Z.pos m2)) by (apply IZR_lt; lia). pose proof (bpow_pos e2).
  replace (IZR (Z.pos m1) * bpow e1 / (IZR (Z.pos m2) * bpow e2) * bpow (- e')) with (IZR q + IZR k / IZR (Z.pos m2));
    [apply new_location_located; lia|].
  apply (f_equal IZR) in Hq. rewrite plus_IZR, !mult_IZR, (bpow_IZR s) in Hq by lia.
  apply (Rmult_eq_reg_r (IZR (Z.pos m2) * bpow e2)); [|apply Rgt_not_eq, Rmult_lt_0_compat; lra].
  transitivity (IZR (Z.pos m1) * bpow s * bpow e2); [rewrite Hq; field; lra|]. rewrite Rmult_assoc.
  replace (bpow s * bpow e2) with (bpow e1 * bpow (- e')); [field; split; lra|].
  rewrite <- !bpow_add. f_equal. lia.
Qed.

(** *** Signs *)

Lemma round_aux_opp m e l :
  binary_round_aux 53 1024 true m e l = SFopp (binary_round_aux 53 1024 false m e l).
Proof.
  unfold binary_round_aux. destruct (shr_fexp 53 1024 m e l) as [mrs e1].
  destruct (shr_fexp 53 1024 _ e1 loc_Exact) as [mrs' e2].
  destruct (shr_m mrs'); [done| |done]. by destruct (e2 <=? 1024 - 53)%Z.
Qed.

Lemma mul_opp x y v w :
  has_value x v → has_value y w → SFmul 53 1024 x (SFopp y) = SFopp (SFmul 53 1024 x y).
Proof. intros (m1 & e1 & -> & _) (m2 & e2 & -> & _). apply round_aux_opp. Qed.

(** Zero or a positive number. *)
Definition denotes (x : spec_float) (v : R) : Prop :=
  ((∃ s, x = S754_zero s) ∧ v = 0) ∨ has_value x v.

Lemma denotes_nonneg x v : denotes x v → 0 <= v.
Proof. intros [[_ ->]|H]; [lra|]. apply has_value_pos in H. lra. Qed.

Lemma shl_align_value m e e' :
  (e' <= e)%Z → IZR (Z.pos (fst (shl_align m e e'))) * bpow e' = IZR (Z.pos m) * bpow e.
Proof.
  intros He. unfold shl_align. destruct (e' - e)%Z as [|d|d] eqn:Ed; cbn [fst].
  - by replace e' with e by lia.
  - lia.
  - rewrite iter_xO, mult_IZR, bpow_IZR, Rmult_assoc, <- bpow_add by lia. f_equal. f_equal. lia.
Qed.

(** Subtracting a negative number from a number that is not. *)
Lemma sub_error x y v w :
  denotes x v → has_value y w → bpow (-500) <= v + w < bpow 500 →
  ∃ r, has_value (SFsub 53 1024 x (SFopp y)) r ∧ Rabs (r - (v + w)) <= ulp * (v + w).
Proof.
  intros [[[s ->] ->]|Hx] Hy Hr.
  - exists w. replace (w - (0 + w)) with 0 by ring. rewrite Rabs_R0. pose proof (bpow_pos (-53)).
    pose proof (has_value_pos _ _ Hy). split; [|nra]. destruct Hy as (m & e & -> & Hm). by exists m, e.
  - destruct Hx as (m1 & e1 & -> & _ & ->), Hy as (m2 & e2 & -> & _ & ->).
    unfold SFsub, SFopp. cbn [negb cond_Zopp]. set (ez := Z.min e1 e2).
    set (k1 := fst (shl_align m1 e1 ez)). set (k2 := fst (shl_align m2 e2 ez)).
    change (Z.pos k1 - - Z.pos k2)%Z with (Z.pos (k1 + k2)). apply normalize_error; [|done].
    rewrite Pos2Z.inj_add, plus_IZR, Rmult_plus_distr_r. unfold k1, k2.
    by rewrite !shl_align_value by lia.
Qed.

(** The order of two numbers. *)
Lemma compare_value x y v w :
  has_value x v → has_value y w →
  ∃ c, SFcompare x y = Some c ∧ (c = Lt → v < w) ∧ (c = Gt → w < v) ∧ (c = Eq → v = w).
Proof.
  assert (Hexp : ∀ m1 e1 m2 e2, full (Z.pos m1) → full (Z.pos m2) → (e1 < e2)%Z →
    IZR (Z.pos m1) * bpow e1 < IZR (Z.pos m2) * bpow e2).
  { intros m1 e1 m2 e2 [_ F1] [F2 _] He. apply IZR_lt in F1. apply IZR_le in F2.
    rewrite bpow_IZR in F1, F2 by lia. pose proof (bpow_pos e1). pose proof (bpow_pos e2).
    apply (Rlt_le_trans _ (bpow 53 * bpow e1)); [by apply Rmult_lt_compat_r|].
    apply (Rle_trans _ (bpow 52 * bpow e2)); [rewrite <- !bpow_add; apply bpow_le; lia|].
    apply Rmult_le_compat_r; lra. }
  intros (m1 & e1 & -> & F1 & ->) (m2 & e2 & -> & F2 & ->). cbn [SFcompare]. eexists. split; [done|].
  destruct (Z.compare_spec e1 e2) as [->|He|He].
  - change (Pos.compare_cont Eq m1 m2) with (m1 ?= m2)%positive. pose proof (bpow_pos e2).
    destruct (Pos.compare_spec m1 m2) as [->|Hm|Hm]; split_and!; try done; intros _;
      apply Rmult_lt_compat_r; try done; by apply IZR_lt.
  - split_and!; try done. intros _. by apply Hexp.
  - split_and!; try done. intros _. by apply Hexp.
Qed.

Lemma SFleb_value x y v w : denotes x v → denotes y w → (SFleb x y = true ↔ v <= w).
Proof.
  intros [[[s ->] ->]|Hx] [[[s' ->] ->]|Hy].
  - split; [lra|done].
  - pose proof (has_value_pos _ _ Hy). destruct Hy as (m & e & -> & _). split; [lra|done].
  - pose proof (has_value_pos _ _ Hx). destruct Hx as (m & e & -> & _). split; [done|lra].
  - destruct (compare_value x y v w Hx Hy) as (c & Hc & Hlt & Hgt & Heq). unfold SFleb. rewrite Hc.
    destruct c; split; try done; intros H.
    + rewrite Heq by done. lra.
    + specialize (Hlt eq_refl). lra.
    + specialize (Hgt eq_refl). lra.
Qed.

(** ** Relative errors *)

(** The factor one rounding can introduce, in either direction. *)
Definition rounding : R := 1 + 2 * ulp.

(** [x] is [v] up to [k] roundings, and [v] is between 2^-a and 2^b. *)
Definition near (k : nat) (a b : Z) (x : spec_float) (v : R) : Prop :=
  bpow (- a) <= v <= bpow b ∧ ∃ w, has_value x w ∧ v <= w * rounding ^ k ∧ w <= v * rounding ^ k.

Lemma rounding_gt_1 : 1 <= rounding.
Proof. unfold rounding. pose proof (bpow_pos (-53)). lra. Qed.

Lemma rounding_pos k : 1 <= rounding ^ k.
Proof. apply pow_R1_Rle, rounding_gt_1. Qed.

Lemma ulp_small : ulp <= / 1000000.
Proof.
  apply (Rle_trans _ (bpow (-20))); [apply bpow_le; lia|].
  assert (H : bpow (-20) * bpow 20 = 1) by exact (bpow_opp_mul 20).
  assert (E : bpow 20 = 1048576) by (rewrite <- bpow_IZR by lia; f_equal). rewrite E in H. lra.
Qed.

(** Many roundings. *)
Lemma rounding_pow k : 4 * INR k * ulp <= 1 → rounding ^ k <= 1 + 4 * INR k * ulp.
Proof.
  induction k as [|k IH]; intros Hk; [cbn; lra|]. rewrite S_INR in *. pose proof (bpow_pos (-53)) as Hu.
  pose proof (pos_INR k). assert (Hk' : 4 * INR k * ulp <= 1) by nra. specialize (IH Hk'). cbn [pow].
  apply (Rle_trans _ (rounding * (1 + 4 * INR k * ulp))); [apply Rmult_le_compat_l; [pose proof rounding_gt_1; lra|done]|].
  unfold rounding. nra.
Qed.

Lemma ulp_bound : 4 * 1000 * ulp <= bpow (-40).
Proof.
  replace (-53)%Z with (-13 + -40)%Z by lia. rewrite bpow_add.
  assert (H : bpow (-13) * bpow 13 = 1) by exact (bpow_opp_mul 13).
  assert (E : bpow 13 = 8192) by (rewrite <- bpow_IZR by lia; f_equal). rewrite E in H.
  pose proof (bpow_pos (-40)). nra.
Qed.

Lemma rounding_small k : (k <= 1000)%nat → rounding ^ k <= 1 + bpow (-40).
Proof.
  intros Hk. apply (Rle_trans _ (rounding ^ 1000)); [apply Rle_pow; [apply rounding_gt_1|done]|].
  pose proof ulp_bound. assert (E : INR 1000 = 1000) by (rewrite INR_IZR_INZ; f_equal; lia).
  pose proof (bpow_le (-40) 0 ltac:(lia)) as H0. change (bpow 0) with 1 in H0.
  eapply Rle_trans; [apply rounding_pow; rewrite E; lra|]. rewrite E. lra.
Qed.

Lemma bpow_40_small : bpow (-40) <= / 1000.
Proof.
  assert (H : bpow (-40) * bpow 40 = 1) by exact (bpow_opp_mul 40).
  pose proof (bpow_le 10 40 ltac:(lia)). pose proof (bpow_pos (-40)).
  assert (E : bpow 10 = 1024) by (rewrite <- bpow_IZR by lia; f_equal). nra.
Qed.

(** One rounding of a number that is already [k] roundings away. *)
Lemma round_near k a b x v q w :
  bpow (- a) <= v <= bpow b → v <= q * rounding ^ k → q <= v * rounding ^ k →
  has_value x w → Rabs (w - q) <= ulp * q → near (S k) a b x v.
Proof.
  intros Hv Hq1 Hq2 Hw He. split; [done|]. exists w. split; [done|].
  pose proof (rounding_pos k) as Hk. pose proof ulp_small. pose proof (bpow_pos (-53)).
  pose proof (bpow_pos (- a)). assert (Hq : 0 < q) by nra. pose proof (Rle_abs (w - q)). pose proof (Rle_abs (- (w - q))). rewrite Rabs_Ropp in *.
  assert (Hlow : q <= w * rounding) by (unfold rounding; nra).
  assert (Hhigh : w <= q * rounding) by (unfold rounding; nra). cbn [pow]. split.
  - apply (Rle_trans _ (q * rounding ^ k)); [done|]. rewrite <- Rmult_assoc. apply Rmult_le_compat_r; lra.
  - apply (Rle_trans _ (q * rounding)); [done|].
    replace (v * (rounding * rounding ^ k)) with (v * rounding ^ k * rounding) by ring.
    apply Rmult_le_compat_r; [pose proof rounding_gt_1; lra|done].
Qed.

(** The operands' roundings add up. *)
Lemma near_product (v w v' w' r s : R) :
  0 <= v → 0 <= v' → 0 <= w → 0 <= w' → 0 <= r → 0 <= s →
  v <= v' * r → w <= w' * s → v * w <= v' * w' * (r * s).
Proof.
  intros. replace (v' * w' * (r * s)) with (v' * r * (w' * s)) by ring. by apply Rmult_le_compat.
Qed.

Lemma of_uint_near z b : (0 < z < 2 ^ b)%Z → (b <= 64)%Z → near 1 0 b (b64_of_uint z) (IZR z).
Proof.
  intros Hz Hb. assert (0 <= b)%Z by (destruct (Z.lt_ge_cases b 0); [rewrite Z.pow_neg_r in Hz; lia|done]).
  destruct (of_uint_error z) as (w & Hw & He); [split; [lia|]|].
  { eapply Z.lt_le_trans; [apply Hz|]. apply Z.pow_le_mono_r; lia. }
  apply (round_near 0 _ _ _ _ (IZR z) w); cbn [pow]; try done; try lra.
  split; [apply (IZR_le 1); lia|]. rewrite <- bpow_IZR by done. apply IZR_le. lia.
Qed.

(** An exact result of approximations is in the normal range. *)
Lemma near_range k a b v q :
  bpow (- a) <= v <= bpow b → v <= q * rounding ^ k → q <= v * rounding ^ k →
  (k <= 1000)%nat → (a <= 400)%Z → (b <= 400)%Z → bpow (-500) <= q < bpow 500.
Proof.
  intros Hv H1 H2 Hk Ha Hb. pose proof (rounding_small k Hk). pose proof bpow_40_small. pose proof (rounding_pos k).
  pose proof (bpow_pos (- a)). assert (0 < q) by nra.
  assert (Hq1 : v <= q * 2) by nra. assert (Hq2 : q <= v * 2) by nra.
  assert (E : ∀ e, bpow (e + 1) = bpow e * 2) by (intros e; rewrite bpow_add; change (bpow 1) with (2 * 1); lra).
  pose proof (bpow_le (-401) (- a) ltac:(lia)). pose proof (bpow_le b 400 ltac:(lia)).
  pose proof (E (-500)%Z). pose proof (E 400%Z). pose proof (bpow_le (-500 + 1) (-401) ltac:(lia)).
  pose proof (bpow_le (400 + 2) 500 ltac:(lia)). pose proof (E 401%Z). pose proof (bpow_pos 400).
  change (400 + 2)%Z with (401 + 1)%Z in *. change (400 + 1)%Z with 401%Z in *. lra.
Qed.

Lemma near_pos k a b x v : near k a b x v → 0 < v.
Proof. intros [Hv _]. pose proof (bpow_pos (- a)). lra. Qed.

Lemma near_finite k a b x v : near k a b x v → ∃ m e, x = S754_finite false m e.
Proof. intros [_ (w & (m & e & -> & _) & _)]. eauto. Qed.

Lemma mul_near j k a b c d x y v w :
  near j a b x v → near k c d y w → (j + k <= 1000)%nat → (a + c <= 400)%Z → (b + d <= 400)%Z →
  near (S (j + k)) (a + c) (b + d) (SFmul 53 1024 x y) (v * w).
Proof.
  intros Hv Hw Hjk Ha Hb. pose proof (near_pos _ _ _ _ _ Hv). pose proof (near_pos _ _ _ _ _ Hw).
  destruct Hv as [Hv (v' & Hx & V1 & V2)], Hw as [Hw (w' & Hy & W1 & W2)].
  pose proof (has_value_pos _ _ Hx). pose proof (has_value_pos _ _ Hy).
  pose proof (rounding_pos j). pose proof (rounding_pos k).
  assert (Hr : bpow (- (a + c)) <= v * w <= bpow (b + d)).
  { rewrite Z.opp_add_distr, !bpow_add. pose proof (bpow_pos (- a)). pose proof (bpow_pos (- c)).
    split; apply Rmult_le_compat; lra. }
  assert (Q1 : v * w <= v' * w' * rounding ^ (j + k)) by (rewrite pow_add; apply near_product; lra).
  assert (Q2 : v' * w' <= v * w * rounding ^ (j + k)) by (rewrite pow_add; apply near_product; lra).
  destruct (mul_error x y v' w' Hx Hy (near_range _ _ _ _ _ Hr Q1 Q2 Hjk Ha Hb)) as (r & Hr' & He).
  by apply (round_near _ _ _ _ _ (v' * w') r).
Qed.

Lemma near_inverse w w' r : 0 < w → 0 < w' → w' <= w * r → / w <= / w' * r.
Proof.
  intros Hw Hw' H. apply (Rmult_le_reg_r (w * w')); [by apply Rmult_lt_0_compat|].
  replace (/ w * (w * w')) with w' by (field; lra). replace (/ w' * r * (w * w')) with (w * r) by (field; lra). done.
Qed.

Lemma bpow_inverse a : / bpow a = bpow (- a).
Proof. symmetry. apply Rmult_eq_reg_r with (bpow a); [rewrite bpow_opp_mul, Rinv_l; [done|]|]; pose proof (bpow_pos a); lra. Qed.

Lemma div_near j k a b c d x y v w :
  near j a b x v → near k c d y w → (j + k <= 1000)%nat → (a + d <= 400)%Z → (b + c <= 400)%Z →
  near (S (j + k)) (a + d) (b + c) (SFdiv 53 1024 x y) (v / w).
Proof.
  intros Hv Hw Hjk Ha Hb. pose proof (near_pos _ _ _ _ _ Hv) as Pv. pose proof (near_pos _ _ _ _ _ Hw) as Pw.
  destruct Hv as [Hv (v' & Hx & V1 & V2)], Hw as [Hw (w' & Hy & W1 & W2)].
  pose proof (has_value_pos _ _ Hx) as Px. pose proof (has_value_pos _ _ Hy) as Py.
  pose proof (rounding_pos j). pose proof (rounding_pos k).
  pose proof (Rinv_0_lt_compat _ Pw). pose proof (Rinv_0_lt_compat _ Py).
  assert (Hr : bpow (- (a + d)) <= v / w <= bpow (b + c)).
  { rewrite Z.opp_add_distr, !bpow_add. pose proof (bpow_pos (- a)). pose proof (bpow_pos (- d)).
    assert (bpow (- d) <= / w) by (rewrite <- bpow_inverse; apply Rinv_le_contravar; lra).
    assert (/ w <= bpow c) by (rewrite <- (Z.opp_involutive c), <- bpow_inverse; apply Rinv_le_contravar; [apply bpow_pos|lra]).
    split; apply Rmult_le_compat; lra. }
  pose proof (near_inverse _ _ _ Pw Py W2). pose proof (near_inverse _ _ _ Py Pw W1).
  assert (Q1 : v / w <= v' / w' * rounding ^ (j + k)) by (rewrite pow_add; apply near_product; lra).
  assert (Q2 : v' / w' <= v / w * rounding ^ (j + k)) by (rewrite pow_add; apply near_product; lra).
  destruct (div_error x y v' w' Hx Hy (near_range _ _ _ _ _ Hr Q1 Q2 Hjk Ha Hb)) as (r & Hr' & He).
  by apply (round_near _ _ _ _ _ (v' / w') r).
Qed.

(** A number that is at most an integer up to the roundings. *)
Lemma near_at_most k a b x v n :
  near k a b x v → (k <= 1000)%nat → v <= IZR n → (0 <= n <= 400)%Z →
  ∃ m e, x = S754_finite false m e ∧ IZR (Z.pos m) * bpow e < IZR n + / 2.
Proof.
  intros [Hv (w & (m & e & -> & _ & Hw) & W1 & W2)] Hk Hn Hb. exists m, e. split; [done|]. rewrite <- Hw.
  pose proof (rounding_small k Hk). pose proof bpow_40_small. pose proof (rounding_pos k). pose proof (bpow_pos (- a)).
  assert (IZR n <= 400) by (apply IZR_le; lia). nra.
Qed.
