(* ===== verification/FmtFloat.v ===== *)
(** * Floating-point numbers as text

    The conversions of [printf] for [double] ([%.nf], [%+.nf], [%.ng]) and the
    exact decimal arithmetic they need.  A finite binary64 number is a fraction of
    integers; printing rounds it once, to nearest with ties to even, as the C
    libraries the program is built with do. *)
From Stdlib Require Import Floats.SpecFloat.
From S2P Require Import Prelude Fmt Entropy.

Local Open Scope string_scope.
Local Open Scope Z_scope.

(** ** Definitions *)

(** [n / d] to the nearest integer, ties to even. *)
Definition round_half_even (n d : Z) : Z :=
  let q := n / d in
  let r := n mod d in
  if d <? 2 * r then q + 1
  else if 2 * r =? d then (if Z.even q then q else q + 1)
  else q.

(** The value of [m * 2^e] in units of [1 / p]. *)
Definition scaled (p m e : Z) : Z :=
  if 0 <=? e then p * m * 2 ^ e else round_half_even (p * m) (2 ^ (- e)).

Definition digit_of (v : Z) : Ascii.ascii := pretty_N_char (Z.to_N (v mod 10)).

(** The last [n] decimal digits of [v] in front of [s]. *)
Fixpoint pad_digits (n : nat) (v : Z) (s : string) : string :=
  match n with O => s | S n => pad_digits n (v / 10) (String (digit_of v) s) end.

(** [v / 10^n] with [n] digits after the point. *)
Definition fixed_digits (n : nat) (v : Z) : string :=
  fmt_u (v / 10 ^ Z.of_nat n) +:+
  match n with O => "" | _ => String "."%char (pad_digits n v "") end.

Definition minus (negative : bool) : string := if negative then "-" else "".

(** [%.nf]. *)
Definition fmt_fixed (n : nat) (x : spec_float) : string :=
  match x with
  | S754_zero s => minus s +:+ fixed_digits n 0
  | S754_infinity s => minus s +:+ "inf"
  | S754_nan => "nan"
  | S754_finite s m e => minus s +:+ fixed_digits n (scaled (10 ^ Z.of_nat n) (Z.pos m) e)
  end.

(** [%+.nf]. *)
Definition fmt_plus_fixed (n : nat) (x : spec_float) : string :=
  match x with
  | S754_zero true | S754_infinity true | S754_finite true _ _ => fmt_fixed n x
  | _ => "+" +:+ fmt_fixed n x
  end.

(** [%ws]: pad on the left up to width [w]. *)
Definition fmt_right (w : nat) (s : string) : string := spaces (w - String.length s) +:+ s.

(** *** [%.pg] *)

(** The decimal exponent of [num / den]: the [x] with [10^x <= num / den < 10^(x+1)]. *)
Definition decimal_exponent (num den : Z) : Z :=
  if den <=? num then Z.of_nat (String.length (fmt_u (num / den))) - 1
  else - Z.of_nat (String.length (fmt_u ((den - 1) / num))).

(** [num / den] rounded to [p] significant digits, as digits and exponent. *)
Definition significant (p : Z) (num den : Z) : Z * Z :=
  let x := decimal_exponent num den in
  let k := p - 1 - x in
  let n := if 0 <=? k then round_half_even (num * 10 ^ k) den
           else round_half_even num (den * 10 ^ (- k)) in
  if n =? 10 ^ p then (10 ^ (p - 1), x + 1) else (n, x).

(** Trailing zeros of the digits after the point. *)
Fixpoint strip_zeros (fuel : nat) (n v : Z) : Z * Z :=
  match fuel with
  | O => (n, v)
  | S fuel => if (0 <? n) && (v mod 10 =? 0) then strip_zeros fuel (n - 1) (v / 10) else (n, v)
  end.

(** The digits [v] with [n] of them after the point, without trailing zeros. *)
Definition short_digits (n v : Z) : string :=
  let '(n, v) := strip_zeros (Z.to_nat n) n v in fixed_digits (Z.to_nat n) v.

Definition fmt_exponent (x : Z) : string :=
  "e" +:+ (if x <? 0 then "-" else "+") +:+
  (if Z.abs x <? 10 then "0" else "") +:+ fmt_u (Z.abs x).

Definition general_digits (p num den : Z) : string :=
  let '(v, x) := significant p num den in
  if (-4 <=? x) && (x <? p) then short_digits (p - 1 - x) v
  else short_digits (p - 1) v +:+ fmt_exponent x.

Definition fmt_general (p : Z) (x : spec_float) : string :=
  match x with
  | S754_zero s => minus s +:+ "0"
  | S754_infinity s => minus s +:+ "inf"
  | S754_nan => "nan"
  | S754_finite s m e =>
      minus s +:+ if 0 <=? e then general_digits p (Z.pos m * 2 ^ e) 1
                  else general_digits p (Z.pos m) (2 ^ (- e))
  end.

(** ** Lemmas *)

Lemma round_half_even_nearest n d : 0 < d → 2 * Z.abs (d * round_half_even n d - n) ≤ d.
Proof.
  intros Hd. pose proof (Z.div_mod n d ltac:(lia)). pose proof (Z.mod_pos_bound n d Hd).
  unfold round_half_even. destruct (Z.ltb_spec d (2 * (n mod d))); [lia|].
  destruct (Z.eqb_spec (2 * (n mod d)) d); [destruct (Z.even _)|]; lia.
Qed.

Lemma round_half_even_exact q d : 0 < d → round_half_even (q * d) d = q.
Proof.
  intros Hd. unfold round_half_even. rewrite Z.div_mul, Z_mod_mult by lia.
  rewrite (proj2 (Z.ltb_ge _ _)) by lia. by rewrite (proj2 (Z.eqb_neq _ _)) by lia.
Qed.

Lemma round_half_even_range n d b : 0 < d → 0 ≤ n ≤ b * d → 0 ≤ round_half_even n d ≤ b.
Proof. intros Hd Hn. pose proof (round_half_even_nearest n d Hd). nia. Qed.

(** The printed integer is within half a unit of the value [m * 2^e]. *)
Lemma scaled_nearest p m e :
  e ≤ 0 → 2 * Z.abs (2 ^ (- e) * scaled p m e - p * m) ≤ 2 ^ (- e).
Proof.
  intros He. assert (0 < 2 ^ (- e)) by (apply Z.pow_pos_nonneg; lia). unfold scaled.
  destruct (Z.leb_spec 0 e); [|by apply round_half_even_nearest].
  assert (e = 0) as -> by lia. change (2 ^ (- 0)) with 1. change (2 ^ 0) with 1. lia.
Qed.

Lemma scaled_exact p m e v : e ≤ 0 → v * 2 ^ (- e) = p * m → scaled p m e = v.
Proof.
  intros He Hv. assert (0 < 2 ^ (- e)) by (apply Z.pow_pos_nonneg; lia).
  unfold scaled. rewrite <- Hv. destruct (Z.leb_spec 0 e); [|by apply round_half_even_exact].
  assert (e = 0) as -> by lia. change (2 ^ (- 0)) with 1. change (2 ^ 0) with 1. lia.
Qed.

Lemma scaled_range p m e b :
  e ≤ 0 → 0 ≤ p → 0 ≤ m → p * m ≤ b * 2 ^ (- e) → 0 ≤ scaled p m e ≤ b.
Proof.
  intros He Hp Hm Hb. assert (0 < 2 ^ (- e)) by (apply Z.pow_pos_nonneg; lia). unfold scaled.
  destruct (Z.leb_spec 0 e); [|apply round_half_even_range; nia].
  assert (e = 0) as -> by lia. change (2 ^ (- 0)) with 1 in Hb. change (2 ^ 0) with 1. nia.
Qed.

Lemma pad_digits_length n v s : String.length (pad_digits n v s) = (n + String.length s)%nat.
Proof. revert v s. induction n as [|n IH]; intros v s; cbn [pad_digits]; [done|]. rewrite IH. cbn. lia. Qed.

(** [k] digits before the point at most. *)
Lemma fixed_digits_length n (k : nat) v :
  (0 < k)%nat → v < 10 ^ (Z.of_nat n + Z.of_nat k) →
  (String.length (fixed_digits n v) ≤ k + 1 + n)%nat.
Proof.
  intros Hk Hv. unfold fixed_digits. rewrite str_length_app.
  assert (String.length (fmt_u (v / 10 ^ Z.of_nat n)) ≤ k)%nat.
  { apply fmt_u_length; [done|]. apply Z.div_lt_upper_bound; [by apply Z.pow_pos_nonneg; lia|].
    by rewrite <- Z.pow_add_r by lia. }
  destruct n; cbn [String.length]; [lia|]. rewrite pad_digits_length. cbn. lia.
Qed.

(** *** Exact operations of binary64 *)

(** What the bounded finite numbers satisfy: the mantissa has the digits its
    exponent says. *)
Definition canonical (m : positive) (e : Z) : Prop :=
  fexp 53 1024 (Z.pos (digits2_pos m) + e) = e ∧ e ≤ 971.

Lemma bounded_canonical m e : bounded 53 1024 m e = true ↔ canonical m e.
Proof.
  unfold bounded, canonical_mantissa, canonical.
  rewrite andb_true_iff, Z.eqb_eq, Z.leb_le. lia.
Qed.

Lemma digits2_pos_lt p : Z.pos p < 2 ^ Z.pos (digits2_pos p).
Proof.
  induction p as [p IH|p IH|]; cbn [digits2_pos]; [..|done];
    rewrite Pos2Z.inj_succ, Z.pow_succ_r by lia; lia.
Qed.

Lemma digits2_unique p k : 0 ≤ k → 2 ^ (k - 1) ≤ Z.pos p < 2 ^ k → Z.pos (digits2_pos p) = k.
Proof.
  intros Hk [Hlo Hhi]. apply Z.le_antisymm; [by apply digits2_pos_bound|].
  pose proof (digits2_pos_lt p). enough (k - 1 < Z.pos (digits2_pos p)) by lia.
  apply (Z.pow_lt_mono_r_iff 2); lia.
Qed.

Lemma digits2_mul_pow p q k :
  0 ≤ k → Z.pos q = Z.pos p * 2 ^ k → Z.pos (digits2_pos q) = Z.pos (digits2_pos p) + k.
Proof.
  intros Hk Hq. apply digits2_unique; [lia|]. rewrite Hq.
  pose proof (digits2_pos_le p) as H1. pose proof (digits2_pos_lt p) as H2.
  replace (Z.pos (digits2_pos p) + k - 1) with (Z.pos (digits2_pos p) - 1 + k) by lia.
  rewrite !Z.pow_add_r by lia. assert (0 < 2 ^ k) by (apply Z.pow_pos_nonneg; lia). nia.
Qed.

Lemma digits2_mul_le p q : Z.pos (digits2_pos (p * q)) ≤ Z.pos (digits2_pos p) + Z.pos (digits2_pos q).
Proof.
  apply digits2_pos_bound; [lia|]. rewrite Z.pow_add_r, Pos2Z.inj_mul by lia.
  pose proof (digits2_pos_lt p). pose proof (digits2_pos_lt q). nia.
Qed.

Lemma fexp_mono x y : x ≤ y → fexp 53 1024 x ≤ fexp 53 1024 y.
Proof. unfold fexp. lia. Qed.

Lemma pow_double k : 0 ≤ k → 2 ^ (2 * k) = 2 ^ k * 2 ^ k.
Proof. intros Hk. rewrite <- Z.pow_add_r by done. f_equal. lia. Qed.

(** Shifting out zero bits loses nothing. *)
Lemma shr_zero_bits p z :
  0 < z → SpecFloat.iter_pos shr_1 p (Build_shr_record (z * 2 ^ Z.pos p) false false) =
          Build_shr_record z false false.
Proof.
  assert (Hone : ∀ z, 0 < z → shr_1 (Build_shr_record (2 * z) false false) = Build_shr_record z false false).
  { intros [|q|q] Hq; done || lia. }
  revert z. induction p as [p IH|p IH|]; intros z Hz; cbn [SpecFloat.iter_pos].
  - assert (0 < 2 ^ Z.pos p) by by apply Z.pow_pos_nonneg.
    replace (z * 2 ^ Z.pos p~1) with (2 * (z * 2 ^ Z.pos p * 2 ^ Z.pos p)).
    + rewrite Hone by nia. rewrite IH by nia. by apply IH.
    + rewrite Pos2Z.inj_xI, Z.add_1_r, Z.pow_succ_r by lia.
      rewrite pow_double by lia. ring.
  - assert (0 < 2 ^ Z.pos p) by by apply Z.pow_pos_nonneg.
    replace (z * 2 ^ Z.pos p~0) with (z * 2 ^ Z.pos p * 2 ^ Z.pos p).
    + rewrite IH by nia. by apply IH.
    + rewrite (Pos2Z.inj_xO p), pow_double by lia. ring.
  - change (2 ^ 1) with 2. rewrite Z.mul_comm. by apply Hone.
Qed.

Lemma shr_fexp_canonical m e k q :
  canonical m e → 0 ≤ k → Z.pos q = Z.pos m * 2 ^ k →
  shr_fexp 53 1024 (Z.pos q) (e - k) loc_Exact = (Build_shr_record (Z.pos m) false false, e).
Proof.
  intros [Hf He] Hk Hq. unfold shr_fexp. cbn [Zdigits2 shr_record_of_loc].
  rewrite (digits2_mul_pow m q k Hk Hq).
  replace (Z.pos (digits2_pos m) + k + (e - k)) with (Z.pos (digits2_pos m) + e) by lia.
  rewrite Hf. replace (e - (e - k)) with k by lia.
  destruct k as [|k|k]; [|..|lia]; cbn [shr].
  - rewrite Z.mul_1_r in Hq. rewrite Hq. f_equal. lia.
  - rewrite Hq, shr_zero_bits by lia. f_equal. lia.
Qed.

(** Rounding keeps a canonical number in any wider representation. *)
Lemma round_canonical s m e k q :
  canonical m e → 0 ≤ k → Z.pos q = Z.pos m * 2 ^ k →
  binary_round_aux 53 1024 s (Z.pos q) (e - k) loc_Exact = S754_finite s m e.
Proof.
  intros Hc Hk Hq. unfold binary_round_aux. rewrite (shr_fexp_canonical m e k q Hc Hk Hq).
  cbn [shr_m loc_of_shr_record round_nearest_even].
  pose proof (shr_fexp_canonical m e 0 m Hc ltac:(lia) ltac:(lia)) as E. rewrite Z.sub_0_r in E.
  rewrite E. cbn [shr_m]. destruct Hc as [_ He]. by rewrite (proj2 (Z.leb_le _ _)) by lia.
Qed.

(** A quotient of integers that a [double] equals is that [double]. *)
Lemma SFdiv_exact s d k m e :
  canonical m e → e ≤ 0 → Z.pos d * 2 ^ (- e) = Z.pos m * Z.pos k →
  SFdiv 53 1024 (S754_finite s d 0) (S754_finite false k 0) = S754_finite s m e.
Proof.
  intros Hc He Hd. unfold SFdiv, SFdiv_core_binary. cbn [Zdigits2]. rewrite !Z.add_0_r, xorb_false_r.
  set (e' := Z.min _ _).
  assert (He' : e' ≤ e).
  { destruct Hc as [Hf _]. rewrite <- Hf. transitivity (fexp 53 1024 (Z.pos (digits2_pos d) - Z.pos (digits2_pos k)));
      [unfold e'; lia|]. apply fexp_mono.
    rewrite <- Pos2Z.inj_mul in Hd.
    pose proof (digits2_mul_pow d (m * k) (- e) ltac:(lia) (eq_sym Hd)). pose proof (digits2_mul_le m k). lia. }
  rewrite Z.sub_diag, Z.sub_0_l.
  replace (match - e' with 0 => Z.pos d | Z.pos _ => Z.shiftl (Z.pos d) (- e') | Z.neg _ => 0 end)
    with (Z.pos m * 2 ^ (e - e') * Z.pos k).
  2: { transitivity (Z.pos d * 2 ^ (- e')).
       - replace (- e') with (- e + (e - e')) by lia. rewrite Z.pow_add_r by lia.
         rewrite Z.mul_assoc, Hd. ring.
       - destruct (- e') as [|p|p] eqn:E; [lia| |lia]. by rewrite Z.shiftl_mul_pow2. }
  pose proof (Z.div_eucl_eq (Z.pos m * 2 ^ (e - e') * Z.pos k) (Z.pos k) ltac:(lia)) as Heq.
  pose proof (Z.mod_pos_bound (Z.pos m * 2 ^ (e - e') * Z.pos k) (Z.pos k) ltac:(lia)) as Hr.
  unfold Z.modulo in Hr. destruct (Z.div_eucl _ _) as [q r].
  assert (0 < 2 ^ (e - e')) by (apply Z.pow_pos_nonneg; lia).
  assert (q = Z.pos m * 2 ^ (e - e')) as Hq by nia. assert (r = 0) as -> by nia.
  destruct q as [|q|q]; [nia| |nia].
  replace (new_location (Z.pos k) 0) with loc_Exact
    by (unfold new_location, new_location_even, new_location_odd; by destruct (Z.even _)).
  replace e' with (e - (e - e')) by lia. by apply round_canonical; [..|lia|].
Qed.

(** A [double] in [0, 8], the range of an entropy. *)
Definition in_bits_range (x : spec_float) : Prop :=
  valid_binary 53 1024 x = true ∧ SFleb (b64_of_uint 0) x = true ∧ SFleb x (b64_of_uint 8) = true.

#[export] Instance in_bits_range_dec x : Decision (in_bits_range x).
Proof. unfold in_bits_range. apply _. Defined.

Lemma in_bits_range_cases x :
  in_bits_range x →
  (∃ s, x = S754_zero s) ∨
  (∃ m e, x = S754_finite false m e ∧ canonical m e ∧ -1074 ≤ e < 0 ∧ Z.pos m ≤ 8 * 2 ^ (- e)).
Proof.
  intros (Hv & Hlo & Hhi). destruct x as [s|[]| |[] m e]; try done; [by left; exists s|]. right.
  exists m, e. split; [done|]. apply bounded_canonical in Hv. split; [done|]. destruct Hv as [Hf _].
  unfold fexp, emin in Hf. pose proof (digits2_pos_lt m) as Hm.
  assert (Z.pos m < 2 ^ 53) by (eapply Z.lt_le_trans; [exact Hm|apply Z.pow_le_mono_r; lia]).
  change (b64_of_uint 8) with (S754_finite false 4503599627370496 (-49)) in Hhi.
  unfold SFleb, SFcompare in Hhi. destruct (Z.compare_spec e (-49)) as [->|He|He]; [| |done].
  - assert (m ≤ 4503599627370496)%positive as H8
      by (unfold Pos.le, Pos.compare; intros E; by rewrite E in Hhi).
    split; [done|]. replace (8 * 2 ^ (- -49)) with 4503599627370496 by done. exact H8.
  - split; [lia|]. transitivity (8 * 2 ^ 50); [lia|]. apply Z.mul_le_mono_nonneg_l; [lia|].
    apply Z.pow_le_mono_r; lia.
Qed.

(** An order between positive numbers excludes the opposite strict one. *)
Lemma SFleb_not_SFltb m1 e1 m2 e2 :
  SFleb (S754_finite false m1 e1) (S754_finite false m2 e2) = true →
  SFltb (S754_finite false m2 e2) (S754_finite false m1 e1) = false.
Proof.
  unfold SFleb, SFltb, SFcompare. rewrite (Z.compare_antisym e1 e2).
  destruct (e1 ?= e2); cbn [CompOpp]; try done.
  change (Pos.compare_cont Eq m1 m2) with (Pos.compare m1 m2).
  change (Pos.compare_cont Eq m2 m1) with (Pos.compare m2 m1).
  rewrite (Pos.compare_antisym m1 m2). by destruct (Pos.compare m1 m2).
Qed.

Lemma in_bits_range_ltb x :
  in_bits_range x → SFltb x (b64_of_uint 0) = false ∧ SFltb (b64_of_uint 8) x = false.
Proof.
  intros Hr. pose proof Hr as (_ & _ & Hhi).
  destruct (in_bits_range_cases x Hr) as [[[] ->]|(m & e & -> & _)]; [done..|].
  split; [done|]. change (b64_of_uint 8) with (S754_finite false 4503599627370496 (-49)) in *.
  by apply SFleb_not_SFltb.
Qed.
