(* ===== verification/Scan.v ===== *)
(** * Numbers read from text

    [strtoll] and [strtol] for base 10 and [strtod], as the C standard describes
    them in the "C" locale: leading white space, a sign, the longest prefix that is
    a number, and the text that is left.  A value that no [double] equals is
    rounded once, to nearest. *)
From Stdlib Require Import Floats.SpecFloat.
From S2P Require Import Prelude Fmt Entropy FmtFloat.

(** ** [strtoll(text, &end, 10)] *)

Definition is_space (c : Ascii.ascii) : bool :=
  let n := Ascii.nat_of_ascii c in (n =? 32)%nat || ((9 <=? n)%nat && (n <=? 13)%nat).

Definition digit_value (c : Ascii.ascii) : option Z :=
  let n := Z.of_nat (Ascii.nat_of_ascii c) in
  if (48 <=? n) && (n <=? 57) then Some (n - 48) else None.

Fixpoint skip_spaces (s : string) : string :=
  match s with
  | String c s' => if is_space c then skip_spaces s' else s
  | EmptyString => s
  end.

(** The value of the longest run of digits, and what follows it. *)
Fixpoint read_digits (acc : Z) (s : string) : Z * string :=
  match s with
  | String c s' =>
      match digit_value c with
      | Some d => read_digits (acc * 10 + d) s'
      | None => (acc, s)
      end
  | EmptyString => (acc, s)
  end.

Definition read_sign (s : string) : bool * string :=
  match s with
  | String "-" s' => (true, s')
  | String "+" s' => (false, s')
  | _ => (false, s)
  end.

Definition LLONG_MAX : Z := 2 ^ 63 - 1.
Definition LLONG_MIN : Z := - 2 ^ 63.

(** The value, the text at [end] ([None] when [end == text]), and [ERANGE]. *)
Definition strtoll (text : string) : Z * option string * bool :=
  let s := skip_spaces text in
  let '(negative, s) := read_sign s in
  match s with
  | String c _ =>
      match digit_value c with
      | Some _ =>
          let '(n, rest) := read_digits 0 s in
          let v := if negative then - n else n in
          if v <? LLONG_MIN then (LLONG_MIN, Some rest, true)
          else if LLONG_MAX <? v then (LLONG_MAX, Some rest, true)
          else (v, Some rest, false)
      | None => (0, None, false)
      end
  | EmptyString => (0, None, false)
  end.

(** ** [strtod(text, &end)] *)

Definition starts_with (digit : Ascii.ascii → option Z) (s : string) : bool :=
  match s with String c _ => bool_decide (is_Some (digit c)) | EmptyString => false end.

Definition hex_value (c : Ascii.ascii) : option Z :=
  let n := Z.of_nat (Ascii.nat_of_ascii c) in
  if (48 <=? n) && (n <=? 57) then Some (n - 48)
  else if (97 <=? n) && (n <=? 102) then Some (n - 87)
  else if (65 <=? n) && (n <=? 70) then Some (n - 55)
  else None.

Fixpoint read_hex (acc : Z) (s : string) : Z * string :=
  match s with
  | String c s' =>
      match hex_value c with
      | Some d => read_hex (acc * 16 + d) s'
      | None => (acc, s)
      end
  | EmptyString => (acc, s)
  end.

(** The digits before and after the point: the number they form, how many are
    after the point, and what follows; nothing when there is no digit. *)
Definition read_mantissa (digit : Ascii.ascii → option Z) (read : Z → string → Z * string) (s : string)
    : option (Z * Z * string) :=
  let '(n, rest) := read 0 s in
  match rest with
  | String "." fraction =>
      if starts_with digit s || starts_with digit fraction then
        let '(v, rest) := read n fraction in
        Some (v, Z.of_nat (String.length fraction - String.length rest), rest)
      else None
  | _ => if starts_with digit s then Some (n, 0, rest) else None
  end.

(** An exponent after [mark] (given in lower case), 0 when there is none. *)
Definition lower (c : Ascii.ascii) : Ascii.ascii :=
  let n := Ascii.nat_of_ascii c in
  if ((65 <=? n)%nat && (n <=? 90)%nat) then Ascii.ascii_of_nat (n + 32) else c.

Definition read_exponent (mark : Ascii.ascii) (s : string) : Z * string :=
  match s with
  | String c s' =>
      let '(negative, t) := read_sign s' in
      if Ascii.eqb (lower c) mark && starts_with digit_value t then
        let '(n, rest) := read_digits 0 t in (if negative then - n else n, rest)
      else (0, s)
  | EmptyString => (0, s)
  end.

(** [d * 10^x], rounded to nearest. *)
Definition decimal_value (d x : Z) : spec_float :=
  match d with
  | Z.pos m =>
      if 0 <=? x then binary_normalize 53 1024 (d * 10 ^ x) 0 false
      else SFdiv 53 1024 (S754_finite false m 0) (S754_finite false (Z.to_pos (10 ^ (- x))) 0)
  | _ => S754_zero false
  end.

(** What is left after a word (given in lower case), in any case of letters. *)
Fixpoint strip_word (word s : string) : option string :=
  match word, s with
  | EmptyString, _ => Some s
  | String w word, String c s => if Ascii.eqb (lower c) w then strip_word word s else None
  | String _ _, EmptyString => None
  end.

Definition is_word_char (c : Ascii.ascii) : bool :=
  let n := Ascii.nat_of_ascii (lower c) in
  ((48 <=? n)%nat && (n <=? 57)%nat) || ((97 <=? n)%nat && (n <=? 122)%nat) || (n =? 95)%nat.

(** [nan(...)]: what follows the closing parenthesis, if there is one. *)
Fixpoint close_parenthesis (s : string) : option string :=
  match s with
  | String ")" s' => Some s'
  | String c s' => if is_word_char c then close_parenthesis s' else None
  | EmptyString => None
  end.

Definition nan_rest (s : string) : string :=
  match s with
  | String "(" s' => default s (close_parenthesis s')
  | _ => s
  end.

Definition read_decimal (s : string) : option (spec_float * string) :=
  match read_mantissa digit_value read_digits s with
  | Some (d, digits, rest) =>
      let '(x, rest) := read_exponent "e" rest in Some (decimal_value d (x - digits), rest)
  | None => None
  end.

(** A number after its sign. *)
Definition read_number (s : string) : option (spec_float * string) :=
  match strip_word "infinity" s, strip_word "inf" s, strip_word "nan" s, strip_word "0x" s with
  | Some rest, _, _, _ => Some (S754_infinity false, rest)
  | _, Some rest, _, _ => Some (S754_infinity false, rest)
  | _, _, Some rest, _ => Some (S754_nan, nan_rest rest)
  | _, _, _, Some hex =>
      match read_mantissa hex_value read_hex hex with
      | Some (d, digits, rest) =>
          let '(x, rest) := read_exponent "p" rest in
          Some (binary_normalize 53 1024 d (x - 4 * digits) false, rest)
      | None => read_decimal s
      end
  | _, _, _, _ => read_decimal s
  end.

(** The value, and the text at [end]. *)
Definition strtod (text : string) : spec_float * string :=
  let '(negative, s) := read_sign (skip_spaces text) in
  match read_number s with
  | Some (v, rest) => (if negative then SFopp v else v, rest)
  | None => (S754_zero false, text)
  end.

(** ** Lemmas *)

Lemma read_digits_char acc n s :
  (n < 10)%N → read_digits acc (String (pretty_N_char n) s) = read_digits (acc * 10 + Z.of_N n) s.
Proof.
  intros Hn. cbn [read_digits]. enough (digit_value (pretty_N_char n) = Some (Z.of_N n)) as -> by done.
  assert (n = 0 ∨ n = 1 ∨ n = 2 ∨ n = 3 ∨ n = 4 ∨ n = 5 ∨ n = 6 ∨ n = 7 ∨ n = 8 ∨ n = 9)%N as H by lia.
  by destruct H as [->|[->|[->|[->|[->|[->|[->|[->|[->| ->]]]]]]]]].
Qed.

Lemma read_digits_go x s : read_digits 0 (pretty_N_go x s) = read_digits (Z.of_N x) s.
Proof.
  revert s. induction (N.lt_wf_0 x) as [x _ IH]; intros s.
  destruct (decide (0 < x)%N) as [Hx|Hx].
  - rewrite pretty_N_go_step by done. rewrite IH by (apply N.div_lt; lia).
    rewrite read_digits_char by (apply N.mod_lt; lia). f_equal.
    rewrite N2Z.inj_div, N2Z.inj_mod. change (Z.of_N 10) with 10. pose proof (Z.div_mod (Z.of_N x) 10 ltac:(lia)). lia.
  - assert (x = 0%N) as -> by lia. by rewrite pretty_N_go_0.
Qed.

(** The first character of a printed positive number is a digit other than 0. *)
Lemma pretty_go_head x s :
  (0 < x)%N → ∃ n s', (0 < n < 10)%N ∧ pretty_N_go x s = String (pretty_N_char n) s'.
Proof.
  revert s. induction (N.lt_wf_0 x) as [x _ IH]; intros s Hx.
  rewrite pretty_N_go_step by done. destruct (decide (0 < x / 10)%N) as [Hd|Hd].
  - apply IH; [apply N.div_lt; lia|done].
  - assert ((x / 10)%N = 0%N) as E by by apply N.le_0_r, N.nlt_ge. rewrite E, pretty_N_go_0.
    eexists _, _. split; [|done]. pose proof (N.div_mod x 10 ltac:(lia)).
    pose proof (N.mod_lt x 10 ltac:(lia)). lia.
Qed.

Lemma digit_char n :
  (n < 10)%N → is_space (pretty_N_char n) = false ∧ pretty_N_char n ≠ "-"%char ∧
               pretty_N_char n ≠ "+"%char ∧ is_Some (digit_value (pretty_N_char n)).
Proof.
  intros Hn.
  assert (n = 0 ∨ n = 1 ∨ n = 2 ∨ n = 3 ∨ n = 4 ∨ n = 5 ∨ n = 6 ∨ n = 7 ∨ n = 8 ∨ n = 9)%N as H by lia.
  by destruct H as [->|[->|[->|[->|[->|[->|[->|[->|[->| ->]]]]]]]]];
    (split_and!; [done..|by eexists]).
Qed.

Lemma read_sign_digit n s :
  (n < 10)%N → read_sign (String (pretty_N_char n) s) = (false, String (pretty_N_char n) s).
Proof.
  intros Hn. destruct (digit_char n Hn) as (_ & H2 & H3 & _). unfold read_sign.
  clear Hn. destruct (pretty_N_char n) as [[] [] [] [] [] [] [] []]; done.
Qed.

Lemma strtoll_pretty z : 0 ≤ z ≤ LLONG_MAX → strtoll (fmt_u z) = (z, Some "", false).
Proof.
  intros Hz. unfold fmt_u.
  assert (Hcases : ∃ n s', (n < 10)%N ∧ pretty (Z.to_N z) = String (pretty_N_char n) s' ∧
                           read_digits 0 (pretty (Z.to_N z)) = (z, "")).
  { unfold pretty, pretty_N. case_decide as E.
    - exists 0%N, "". split_and!; [done|done|]. assert (z = 0) as -> by lia. done.
    - destruct (pretty_go_head (Z.to_N z) "") as (n & s' & Hn & Hs); [lia|].
      exists n, s'. split_and!; [lia|done|]. rewrite read_digits_go. cbn. f_equal. lia. }
  destruct Hcases as (n & s' & Hn & Hs & Hr). rewrite Hs in *.
  destruct (digit_char n Hn) as (H1 & H2 & H3 & [d H4]).
  unfold strtoll. cbn [skip_spaces]. rewrite H1.
  rewrite (read_sign_digit n s' Hn), H4, Hr. unfold LLONG_MAX, LLONG_MIN in *.
  rewrite (proj2 (Z.ltb_ge _ _)) by lia. by rewrite (proj2 (Z.ltb_ge _ _)) by lia.
Qed.

(** *** Reading what [printf] prints *)

Lemma pretty_go_app x s t : pretty_N_go x s +:+ t = pretty_N_go x (s +:+ t).
Proof.
  revert s. induction (N.lt_wf_0 x) as [x _ IH]; intros s.
  destruct (decide (0 < x)%N) as [Hx|Hx].
  - rewrite !(pretty_N_go_step x) by done. by rewrite IH by (apply N.div_lt; lia).
  - assert (x = 0%N) as -> by lia. by rewrite !pretty_N_go_0.
Qed.

(** A printed number in front of a text: its first character, and what
    [read_digits] makes of it. *)
Lemma fmt_u_head v s :
  0 ≤ v → ∃ n s', (n < 10)%N ∧ fmt_u v +:+ s = String (pretty_N_char n) s' ∧ (n = 0%N → s' = s).
Proof.
  intros Hv. unfold fmt_u, pretty, pretty_N. case_decide as E; [by exists 0%N, s|].
  rewrite pretty_go_app. destruct (pretty_go_head (Z.to_N v) ("" +:+ s)) as (n & s' & Hn & ->); [lia|].
  exists n, s'. split_and!; [lia|done|lia].
Qed.

Lemma read_digits_fmt_u v s : 0 ≤ v → read_digits 0 (fmt_u v +:+ s) = read_digits v s.
Proof.
  intros Hv. unfold fmt_u, pretty, pretty_N. case_decide as E.
  - assert (v = 0) as -> by lia. done.
  - rewrite pretty_go_app, read_digits_go. by rewrite Z2N.id.
Qed.

Lemma read_pad_digits n v acc s :
  read_digits acc (pad_digits n v s) = read_digits (acc * 10 ^ Z.of_nat n + v mod 10 ^ Z.of_nat n) s.
Proof.
  revert v s. induction n as [|n IH]; intros v s; cbn [pad_digits].
  - f_equal. change (10 ^ Z.of_nat 0) with 1. rewrite Z.mod_1_r. lia.
  - pose proof (Z.mod_pos_bound v 10 ltac:(lia)).
    rewrite IH. unfold digit_of. rewrite read_digits_char by lia. f_equal.
    rewrite Nat2Z.inj_succ, Z.pow_succ_r, Z2N.id by lia.
    rewrite (Z.rem_mul_r v 10) by (lia || apply Z.pow_pos_nonneg; lia). ring.
Qed.

Lemma starts_with_digit n s : (n < 10)%N → starts_with digit_value (String (pretty_N_char n) s) = true.
Proof.
  intros Hn. unfold starts_with. apply bool_decide_eq_true_2. by destruct (digit_char n Hn) as (_ & _ & _ & H).
Qed.

Lemma read_mantissa_fixed n v :
  0 ≤ v → read_mantissa digit_value read_digits (fixed_digits n v) = Some (v, Z.of_nat n, "").
Proof.
  intros Hv. unfold read_mantissa, fixed_digits.
  assert (Hp : 0 < 10 ^ Z.of_nat n) by by apply Z.pow_pos_nonneg; lia.
  assert (Hq : 0 ≤ v / 10 ^ Z.of_nat n) by by apply Z.div_pos.
  rewrite read_digits_fmt_u by done.
  destruct (fmt_u_head (v / 10 ^ Z.of_nat n) (match n with O => "" | _ => String "." (pad_digits n v "") end))
    as (k & t & Hk & -> & _); [done|].
  rewrite starts_with_digit by done. destruct n as [|n]; cbn [read_digits].
  - do 3 f_equal. change (10 ^ Z.of_nat 0) with 1. by rewrite Z.div_1_r.
  - change (digit_value ".") with (@None Z). cbn iota. cbn [orb].
    rewrite read_pad_digits. cbn [read_digits String.length]. rewrite pad_digits_length. cbn [String.length].
    do 3 f_equal; [|lia].
    rewrite (Z.mul_comm (v / _)). symmetry. apply Z.div_mod. lia.
Qed.

(** [read_number] on such a text is [read_decimal]: no other form begins with a
    digit, except [0x]. *)
Lemma strip_word_digit w word n s :
  (n < 10)%N → Ascii.eqb (pretty_N_char n) w = false →
  strip_word (String w word) (String (pretty_N_char n) s) = None.
Proof.
  intros Hn Hw. cbn [strip_word]. replace (lower (pretty_N_char n)) with (pretty_N_char n); [by rewrite Hw|].
  assert (n = 0 ∨ n = 1 ∨ n = 2 ∨ n = 3 ∨ n = 4 ∨ n = 5 ∨ n = 6 ∨ n = 7 ∨ n = 8 ∨ n = 9)%N as H by lia.
  by destruct H as [->|[->|[->|[->|[->|[->|[->|[->|[->| ->]]]]]]]]].
Qed.

Lemma digit_not c n :
  has_char c "0123456789" = false → (n < 10)%N → Ascii.eqb (pretty_N_char n) c = false.
Proof. intros Hc Hn. rewrite Ascii.eqb_sym. by apply pretty_N_char_no. Qed.

Lemma read_number_digit n s :
  (n < 10)%N → (n = 0%N → strip_word "x" s = None) →
  read_number (String (pretty_N_char n) s) = read_decimal (String (pretty_N_char n) s).
Proof.
  intros Hn Hx. unfold read_number. rewrite !strip_word_digit by (done || by apply digit_not).
  destruct (decide (n = 0)%N) as [->|Hne].
  - change (strip_word "0x" (String (pretty_N_char 0) s)) with (strip_word "x" s). by rewrite Hx.
  - rewrite strip_word_digit; [done..|]. clear Hx.
    assert (n = 1 ∨ n = 2 ∨ n = 3 ∨ n = 4 ∨ n = 5 ∨ n = 6 ∨ n = 7 ∨ n = 8 ∨ n = 9)%N as H by lia.
    by destruct H as [->|[->|[->|[->|[->|[->|[->|[->| ->]]]]]]]].
Qed.

(** The sign a text starts with. *)
Definition signed (negative : bool) (v : spec_float) : spec_float := if negative then SFopp v else v.

Lemma strtod_fixed_digits negative n v :
  0 ≤ v → strtod (minus negative +:+ fixed_digits n v) = (signed negative (decimal_value v (- Z.of_nat n)), "").
Proof.
  intros Hv. assert (Hq : 0 ≤ v / 10 ^ Z.of_nat n) by (apply Z.div_pos; [done|by apply Z.pow_pos_nonneg; lia]).
  destruct (fmt_u_head (v / 10 ^ Z.of_nat n) (match n with O => "" | _ => String "." (pad_digits n v "") end))
    as (k & t & Hk & E & Hz); [done|].
  assert (Hnum : read_number (fixed_digits n v) = Some (decimal_value v (- Z.of_nat n), "")).
  { pose proof (read_mantissa_fixed n v Hv) as Hm. unfold fixed_digits in *. rewrite E in *.
    rewrite read_number_digit by (done || (intros ->; rewrite Hz by done; by destruct n)).
    unfold read_decimal. rewrite Hm. done. }
  assert (Hsign : read_sign (skip_spaces (minus negative +:+ fixed_digits n v)) = (negative, fixed_digits n v)).
  { destruct negative; [done|]. unfold fixed_digits. cbn [minus String.append]. rewrite E.
    destruct (digit_char k Hk) as (Hs & _). cbn [skip_spaces]. rewrite Hs. by apply read_sign_digit. }
  unfold strtod. by rewrite Hsign, Hnum.
Qed.

(** Doubles that [n] digits after the point can write exactly. *)
Definition has_digits (n : nat) (x : spec_float) : Prop :=
  match x with
  | S754_zero _ => True
  | S754_finite _ m e => e ≤ 0 ∧ (2 ^ (- e) | 10 ^ Z.of_nat n * Z.pos m)
  | _ => False
  end.

(** Printing and reading back. *)
Lemma strtod_fmt_fixed n x :
  (0 < n)%nat → valid_binary 53 1024 x = true → has_digits n x → strtod (fmt_fixed n x) = (x, "").
Proof.
  intros Hn Hx Hd. destruct x as [s|s| |s m e]; try done; cbn [fmt_fixed].
  - rewrite strtod_fixed_digits by lia. by destruct s.
  - destruct Hd as (He & v & Hv). apply bounded_canonical in Hx.
    assert (0 < 2 ^ (- e)) by (apply Z.pow_pos_nonneg; lia).
    assert (Hp : 0 < 10 ^ Z.of_nat n) by by apply Z.pow_pos_nonneg; lia.
    rewrite (scaled_exact _ _ _ v) by done. rewrite strtod_fixed_digits by nia.
    destruct v as [|v|v]; [nia| |nia]. cbn [decimal_value].
    rewrite (proj2 (Z.leb_gt _ _)), Z.opp_involutive by lia.
    rewrite (SFdiv_exact false v (Z.to_pos (10 ^ Z.of_nat n)) m e) by (done || rewrite ?Z2Pos.id; lia).
    by destruct s.
Qed.

(** With enough digits every double below 2^53 can be written. *)
Lemma has_digits_enough n s m e : e ≤ 0 → - e ≤ Z.of_nat n → has_digits n (S754_finite s m e).
Proof.
  intros He Hn. split; [done|]. exists (5 ^ (- e) * 10 ^ (Z.of_nat n + e) * Z.pos m).
  replace (Z.of_nat n) with (- e + (Z.of_nat n + e)) at 1 by lia.
  rewrite Z.pow_add_r by lia. change 10 with (5 * 2) at 1. rewrite Z.pow_mul_l by lia. ring.
Qed.

Lemma in_bits_range_digits n x : in_bits_range x → 1074 ≤ Z.of_nat n → has_digits n x.
Proof.
  intros Hr Hn. destruct (in_bits_range_cases x Hr) as [[s ->]|(m & e & -> & _ & He & _)]; [done|].
  apply has_digits_enough; lia.
Qed.

Lemma fmt_fixed_not_empty n x : fmt_fixed n x ≠ "".
Proof.
  assert (H : ∀ s v, minus s +:+ fixed_digits n v ≠ "").
  { intros [] v; [done|]. unfold fixed_digits. destruct (decide (0 ≤ v / 10 ^ Z.of_nat n)) as [Hv|Hv].
    - by destruct (fmt_u_head _ (match n with O => "" | _ => String "." (pad_digits n v "") end) Hv)
        as (k & t & _ & -> & _).
    - unfold fmt_u. destruct (v / 10 ^ Z.of_nat n); done || lia. }
  destruct x as [s|[]| |s m e]; cbn [fmt_fixed]; done.
Qed.
