(* ===== verification/GpuKernel.v ===== *)
(** * The entropy kernel ([shaders/payload_entropy.metal])

    One threadgroup computes the entropy of one payload.  A thread is the list of
    its accesses to threadgroup memory between two barriers; the group executes
    any interleaving of them, and a barrier lets no thread go on before all have
    arrived.  The only local variable that lives across accesses is the running
    sum.  Threadgroup memory starts with arbitrary contents.  Arithmetic is that of
    [FloatOps], the [float] operations of the kernel. *)
From Stdlib Require Import Floats.SpecFloat.
From S2P Require Import Prelude Entropy.

(** ** The machine *)

Class FloatOps (F : Type) : Type := {
  #[global] float_double :: DoubleOps F;
  f_add : F → F → F
}.

(** What a thread does in one access. *)
Inductive instr : Type :=
  | IZero (bin : Z)                (* atomic_store(&histogram[bin], 0) *)
  | ICount (i : Z)                 (* atomic_fetch_add(&histogram[data[i]], 1) *)
  | ISum (bin : Z)                 (* sum -= p * log2(p) for histogram[bin] *)
  | IClear                         (* sum = 0 *)
  | ILoad (i : Z)                  (* sum = partial[i] *)
  | IAdd (i : Z)                   (* sum += partial[i] *)
  | IStore (i : Z)                 (* partial[i] = sum *)
  | IResult.                       (* entropies[payload] = partial[0] *)

#[export] Instance instr_eq_dec : EqDecision instr.
Proof. solve_decision. Defined.

Record group (F : Type) : Type := mk_group {
  sums : list F;                   (* per thread *)
  histogram : list Z;
  partial : list F;
  entropy_out : option F           (* entropies[payload], once written *)
}.
Arguments mk_group {F} sums histogram partial entropy_out.
Arguments sums {F} g.
Arguments histogram {F} g.
Arguments partial {F} g.
Arguments entropy_out {F} g.

(** [for (uint i = start; i < n; i += threads)]. *)
Fixpoint strided (fuel : nat) (i n threads : Z) : list Z :=
  match fuel with
  | O => []
  | S fuel => if i <? n then i :: strided fuel (wrap 32 (i + threads)) n threads else []
  end.

Section Kernel.
Context {F : Type} `{FloatOps F}.
Context (data : list Z) (offset len threads : Z).

Definition set_sum (tid : nat) (x : F) (g : group F) : group F :=
  mk_group (<[tid := x]> (sums g)) (histogram g) (partial g) (entropy_out g).

(** One access of thread [tid]; [None] is an access outside an array. *)
Definition exec (tid : nat) (a : instr) (g : group F) : option (group F) :=
  match a with
  | IZero bin =>
      if bin <? Zlength (histogram g)
      then Some (mk_group (sums g) (<[Z.to_nat bin := 0]> (histogram g)) (partial g) (entropy_out g))
      else None
  | ICount i =>
      byte ← data !! Z.to_nat (wrap 32 (offset + i));
      if byte <? Zlength (histogram g)
      then Some (mk_group (sums g) (count_byte (histogram g) byte) (partial g) (entropy_out g))
      else None
  | ISum bin =>
      count ← histogram g !! Z.to_nat bin;
      sum ← sums g !! tid;
      Some (set_sum tid (entropy_step (d_of_uint len) sum count) g)
  | IClear => Some (set_sum tid (d_of_uint 0) g)
  | ILoad i => x ← partial g !! Z.to_nat i; Some (set_sum tid x g)
  | IAdd i =>
      x ← partial g !! Z.to_nat i;
      sum ← sums g !! tid;
      Some (set_sum tid (f_add sum x) g)
  | IStore i =>
      sum ← sums g !! tid;
      if i <? Zlength (partial g)
      then Some (mk_group (sums g) (histogram g) (<[Z.to_nat i := sum]> (partial g)) (entropy_out g))
      else None
  | IResult =>
      x ← partial g !! 0%nat;
      Some (mk_group (sums g) (histogram g) (partial g) (Some x))
  end.

(** A thread's code in each phase; [tid] is its position in the group. *)
Definition zero_phase (tid : Z) : list instr := IZero <$> strided 256 tid 256 threads.

Definition count_phase (tid : Z) : list instr :=
  ICount <$> strided (Z.to_nat len) tid len threads.

Definition sum_phase (tid : Z) : list instr :=
  IClear :: (if 0 <? len then ISum <$> strided 256 tid 256 threads else []) ++ [IStore tid].

Definition reduce_phase (stride tid : Z) : list instr :=
  if tid <? stride then [ILoad tid; IAdd (tid + stride); IStore tid] else [].

Definition result_phase (tid : Z) : list instr := if tid =? 0 then [IResult] else [].

(** [for (uint stride = threads / 2; stride > 0; stride /= 2)]. *)
Fixpoint strides (fuel : nat) (stride : Z) : list Z :=
  match fuel with
  | O => []
  | S fuel => if 0 <? stride then stride :: strides fuel (stride / 2) else []
  end.

(** The phases between the barriers, each the code of every thread. *)
Definition phases : list (Z → list instr) :=
  [zero_phase; count_phase; sum_phase] ++ (reduce_phase <$> strides 32 (threads / 2)) ++
  [result_phase].

Definition thread_codes (phase : Z → list instr) : list (list instr) :=
  (λ tid, phase (Z.of_nat tid)) <$> seq 0 (Z.to_nat threads).

(** [trace] interleaves the codes: projected on a thread it is that thread's
    code. *)
Definition interleaving (codes : list (list instr)) (trace : list (nat * instr)) : Prop :=
  Forall (λ e, (e.1 < length codes)%nat) trace ∧
  ∀ tid code, codes !! tid = Some code → (filter (λ e, e.1 = tid) trace).*2 = code.

Fixpoint exec_trace (trace : list (nat * instr)) (g : group F) : option (group F) :=
  match trace with
  | [] => Some g
  | (tid, a) :: trace => g ← exec tid a g; exec_trace trace g
  end.

(** The group runs phase after phase, one interleaving each. *)
Fixpoint exec_phases (traces : list (list (nat * instr))) (g : group F) : option (group F) :=
  match traces with
  | [] => Some g
  | trace :: traces => g ← exec_trace trace g; exec_phases traces g
  end.

Definition kernel_schedule (traces : list (list (nat * instr))) : Prop :=
  Forall2 (λ phase trace, interleaving (thread_codes phase) trace) phases traces.

(** ** Reference: what the group computes, without threads *)

Definition thread_sum (hist : list Z) (tid : Z) : F :=
  fold_left (λ sum bin, entropy_step (d_of_uint len) sum (default 0 (hist !! Z.to_nat bin)))
    (if 0 <? len then strided 256 tid 256 threads else []) (d_of_uint 0).

Definition halve (p : Z → F) (stride : Z) : Z → F :=
  λ tid, if tid <? stride then f_add (p tid) (p (tid + stride)) else p tid.

Definition slice : list Z := take (Z.to_nat len) (drop (Z.to_nat offset) data).

Definition group_entropy : F :=
  fold_left halve (strides 32 (threads / 2)) (thread_sum (byte_histogram slice)) 0.

(** The sizes of the arrays. *)
Definition shape (g : group F) : Prop :=
  length (sums g) = Z.to_nat threads ∧ length (histogram g) = 256%nat ∧
  length (partial g) = 256%nat.

End Kernel.
Arguments exec {F _} data offset len tid a g.
Arguments exec_trace {F _} data offset len trace g.
Arguments exec_phases {F _} data offset len traces g.
Arguments group_entropy {F _} data offset len threads.
Arguments thread_sum {F _} len threads hist tid.
Arguments shape {F} threads g.

(** ** The loops *)

Lemma strided_elem fuel i n threads x :
  0 ≤ i → 1 ≤ threads → n + threads ≤ 2 ^ 32 → n - i ≤ Z.of_nat fuel →
  x ∈ strided fuel i n threads ↔ x < n ∧ ∃ j, 0 ≤ j ∧ x = i + threads * j.
Proof.
  intros Hi Ht Hn. revert i Hi. induction fuel as [|fuel IH]; intros i Hi Hf; cbn.
  - rewrite elem_of_nil. split; [done|]. intros (? & j & ? & ->). nia.
  - destruct (Z.ltb_spec i n).
    + rewrite elem_of_cons, wrap_small by (unfold is_uint; lia). rewrite IH by lia. split.
      * intros [->|(? & j & ? & ->)].
        -- split; [done|]. exists 0. lia.
        -- split; [done|]. exists (j + 1). lia.
      * intros (? & j & ? & ->). destruct (decide (j = 0)) as [->|]; [left; lia|].
        right. split; [done|]. exists (j - 1). lia.
    + rewrite elem_of_nil. split; [done|]. intros (? & j & ? & ->). nia.
Qed.

Lemma strided_nodup fuel i n threads :
  0 ≤ i → 1 ≤ threads → n + threads ≤ 2 ^ 32 → n - i ≤ Z.of_nat fuel →
  NoDup (strided fuel i n threads).
Proof.
  intros Hi Ht Hn. revert i Hi. induction fuel as [|fuel IH]; intros i Hi Hf; cbn; [constructor|].
  destruct (Z.ltb_spec i n); [|constructor].
  rewrite wrap_small by (unfold is_uint; lia). constructor; [|apply IH; lia].
  rewrite strided_elem by lia. intros (? & j & ? & ?). nia.
Qed.

#[global] Arguments strided : simpl never.

(** The threads' loops share out the indices below [n]. *)
Lemma strided_partition fuel n threads :
  1 ≤ threads → 0 ≤ n → n + threads ≤ 2 ^ 32 → n ≤ Z.of_nat fuel →
  (seq 0 (Z.to_nat threads) ≫= λ tid, strided fuel (Z.of_nat tid) n threads) ≡ₚ seqZ 0 n.
Proof.
  intros Ht Hn Hw Hf. apply NoDup_Permutation.
  - apply NoDup_bind.
    + intros t1 t2 y Ht1 Ht2. rewrite elem_of_seq in Ht1, Ht2. rewrite !strided_elem by lia.
      intros (_ & j1 & ? & ->) (_ & j2 & ? & ?). assert (j1 = j2) by nia. lia.
    + intros t Hi. rewrite elem_of_seq in Hi. apply strided_nodup; lia.
    + apply NoDup_seq.
  - apply NoDup_seqZ.
  - intros x. rewrite list_elem_of_bind, elem_of_seqZ. split.
    + intros (t & Hx & Hi). rewrite elem_of_seq in Hi. rewrite strided_elem in Hx by lia.
      destruct Hx as (? & j & ? & ->). nia.
    + intros [? ?]. exists (Z.to_nat (x mod threads)).
      pose proof (Z.mod_pos_bound x threads). pose proof (Z_div_mod_eq_full x threads).
      rewrite strided_elem, elem_of_seq by lia. split; [|lia]. split; [lia|].
      exists (x / threads). split; [apply Z.div_pos; lia|lia].
Qed.

(** ** Interleavings of independent accesses *)

Definition sequential (codes : list (list instr)) : list (nat * instr) :=
  concat (imap (λ tid code, pair tid <$> code) codes).

(** What two threads may do in the same phase without a race. *)
Definition reads (a : instr) : list nat :=
  match a with ILoad i | IAdd i => [Z.to_nat i] | IResult => [0%nat] | _ => [] end.
Definition writes (a : instr) : list nat :=
  match a with IStore i => [Z.to_nat i] | _ => [] end.

Inductive histogram_use : Type := UNone | UZero | UCount | URead.

Definition uses (a : instr) : histogram_use :=
  match a with IZero _ => UZero | ICount _ => UCount | ISum _ => URead | _ => UNone end.

Definition independent (a b : instr) : Prop :=
  (uses a = uses b ∨ uses a = UNone ∨ uses b = UNone) ∧
  Forall (λ x, x ∉ reads b ++ writes b) (writes a) ∧ Forall (λ x, x ∉ reads a) (writes b).

Lemma count_byte_commute h b b' : count_byte (count_byte h b) b' = count_byte (count_byte h b') b.
Proof.
  unfold count_byte. destruct (decide (Z.to_nat b = Z.to_nat b')) as [->|Hne]; [done|].
  by rewrite list_alter_alter_ne.
Qed.

Lemma zero_commute (h : list Z) i j : <[i := 0]> (<[j := 0]> h) = <[j := 0]> (<[i := 0]> h).
Proof. destruct (decide (i = j)) as [->|]; [done|]. by rewrite list_insert_insert_ne. Qed.

(** Evaluates accesses on both sides, case by case. *)
Ltac run_accesses :=
  repeat first
    [ progress (unfold set_sum; cbn [mbind option_bind exec sums histogram partial entropy_out])
    | match goal with E : ?l !! ?i = _ |- context [?l !! ?i] => rewrite E
                 | E : ?b = true |- context [if ?b then _ else _] => rewrite E
                 | E : ?b = false |- context [if ?b then _ else _] => rewrite E end
    | rewrite list_lookup_insert_ne by congruence
    | rewrite count_byte_length || rewrite length_insert
    | progress unfold Zlength
    | match goal with
      | |- context [?l !! ?i ≫= _] => let E := fresh in destruct (l !! i) eqn:E
      | |- context [if ?b then _ else _] => let E := fresh in destruct b eqn:E
      end ];
  try (exfalso; congruence).

Section Interleave.
Context {F : Type} `{FloatOps F}.
Context (data : list Z) (offset len : Z).

Lemma exec_commute (t1 t2 : nat) a b (g : group F) :
  t1 ≠ t2 → independent a b →
  (exec data offset len t1 a g ≫= exec data offset len t2 b) =
  (exec data offset len t2 b g ≫= exec data offset len t1 a).
Proof.
  intros Ht (Hu & Hw & Hr). destruct g as [su hi pa out].
  destruct a, b; cbn in Hu; try (exfalso; naive_solver); cbn in Hw, Hr;
    repeat match goal with Hf : Forall _ [_] |- _ => apply Forall_cons_1 in Hf as [Hf _] end;
    cbn beta in *;
    repeat match goal with Hf : _ ∉ _ :: _ |- _ => apply not_elem_of_cons in Hf as [? ?] end;
    clear Hu.
  all: run_accesses; try done; f_equal; f_equal;
    by first [apply count_byte_commute|apply zero_commute|apply list_insert_insert_ne; congruence].
Qed.

Lemma exec_trace_app l k (g : group F) :
  exec_trace data offset len (l ++ k) g =
  exec_trace data offset len l g ≫= exec_trace data offset len k.
Proof.
  revert g. induction l as [|[t a] l IH]; intros g; cbn; [done|].
  destruct (exec data offset len t a g); cbn; [apply IH|done].
Qed.

Lemma exec_trace_front pre t a post (g : group F) :
  Forall (λ e, e.1 ≠ t ∧ independent e.2 a) pre →
  exec_trace data offset len (pre ++ (t, a) :: post) g =
  exec_trace data offset len ((t, a) :: pre ++ post) g.
Proof.
  intros Hpre. revert g. induction Hpre as [|[t' b] pre [Ht Hi] _ IH]; intros g; [done|].
  cbn -[exec_trace] in *. cbn [exec_trace].
  transitivity ((exec data offset len t' b g ≫= exec data offset len t a) ≫=
                exec_trace data offset len (pre ++ post)).
  - destruct (exec data offset len t' b g); cbn [mbind option_bind]; [|done].
    rewrite IH. done.
  - rewrite exec_commute by done.
    by destruct (exec data offset len t a g).
Qed.

(** No two threads race in a phase. *)
Definition race_free (codes : list (list instr)) : Prop :=
  ∀ i j ci cj a b, i ≠ j → codes !! i = Some ci → codes !! j = Some cj → a ∈ ci → b ∈ cj →
  independent a b.

Lemma sequential_elem codes e : e ∈ sequential codes ↔ ∃ code, codes !! e.1 = Some code ∧ e.2 ∈ code.
Proof.
  unfold sequential. rewrite list_elem_of_In, in_concat. setoid_rewrite <- list_elem_of_In. split.
  - intros (l & Hl & He). apply list_elem_of_lookup in Hl as [i Hi].
    rewrite list_lookup_imap in Hi. destruct (codes !! i) as [code|] eqn:E; [|done].
    injection Hi as <-. apply list_elem_of_fmap in He as (a & -> & Ha). by exists code.
  - intros (code & Hc & Ha). exists (pair e.1 <$> code). split.
    + apply list_elem_of_lookup. exists e.1. by rewrite list_lookup_imap, Hc.
    + apply list_elem_of_fmap. exists e.2. by destruct e.
Qed.

Lemma sequential_split codes t code :
  codes !! t = Some code → ∃ post, ∀ code',
    sequential (<[t := code']> codes) =
    sequential (take t codes) ++ (pair t <$> code') ++ post.
Proof.
  intros Hc. pose proof (lookup_lt_Some _ _ _ Hc) as Hlt.
  exists (concat (imap (λ n c, pair (S (t + n)) <$> c) (drop (S t) codes))). intros code'.
  rewrite insert_take_drop by done. unfold sequential. rewrite imap_app, concat_app. f_equal.
  cbn. rewrite length_take_le by lia. rewrite Nat.add_0_r. f_equal.
  f_equal. apply imap_ext. intros i x _. cbn. by rewrite Nat.add_succ_r.
Qed.

Lemma interleaving_sequential codes trace (g : group F) :
  interleaving codes trace → race_free codes →
  exec_trace data offset len trace g = exec_trace data offset len (sequential codes) g.
Proof.
  revert codes g. induction trace as [|[t a] trace IH]; intros codes g [Hlt Hp] Hr.
  - assert (sequential codes = []) as ->; [|done].
    destruct (sequential codes) as [|e l] eqn:E; [done|exfalso].
    assert (e ∈ sequential codes) as He by (rewrite E; left).
    apply sequential_elem in He as (code & Hc & Ha). rewrite <- (Hp _ _ Hc) in Ha. by apply elem_of_nil in Ha.
  - apply Forall_cons_1 in Hlt as [Ht Hlt]. cbn in Ht. apply lookup_lt_is_Some in Ht as [code Hc].
    pose proof (Hp _ _ Hc) as E. rewrite filter_cons_True in E by done. cbn in E.
    set (rest := (filter (λ e : nat * instr, e.1 = t) trace).*2) in *.
    assert (Hi : interleaving (<[t := rest]> codes) trace).
    { split; [by rewrite length_insert|]. intros i ci Hci.
      apply list_lookup_insert_Some in Hci as [(<- & <- & _)|[Hne Hci]]; [done|].
      rewrite <- (Hp _ _ Hci). by rewrite filter_cons_False. }
    assert (Hrf : race_free (<[t := rest]> codes)).
    { assert (Hsub : ∀ i ci x, <[t := rest]> codes !! i = Some ci → x ∈ ci →
                ∃ ci', codes !! i = Some ci' ∧ x ∈ ci').
      { intros i ci x Hci Hx. apply list_lookup_insert_Some in Hci as [(<- & <- & _)|[Hne Hci]].
        - exists code. split; [done|]. rewrite <- E. by right.
        - by exists ci. }
      intros i j ci cj x y Hne Hci Hcj Hx Hy.
      destruct (Hsub _ _ _ Hci Hx) as (? & ? & ?), (Hsub _ _ _ Hcj Hy) as (? & ? & ?).
      by eapply (Hr i j). }
    destruct (sequential_split codes t code Hc) as [post Hs].
    rewrite <- (list_insert_id codes t code) by done. rewrite Hs, <- E. cbn [fmap list_fmap app].
    rewrite exec_trace_front.
    + cbn [exec_trace]. destruct (exec data offset len t a g) as [g'|]; cbn; [|done].
      by rewrite (IH _ g' Hi Hrf), Hs.
    + apply Forall_forall. intros [i b] He. apply sequential_elem in He as (ci & Hci & Hb).
      cbn in *. apply lookup_take_Some in Hci as [Hci Hi']. split; [lia|].
      eapply (Hr i t ci code); [lia|done|done|done|]. rewrite <- E. left.
Qed.

End Interleave.

(** ** The phases *)

Section Phases.
Context {F : Type} `{FloatOps F}.
Context (data : list Z) (offset len threads : Z).
Hypothesis threads_ok : 1 ≤ threads ≤ 256.
Hypothesis data_ok : bytes_ok data.
Hypothesis slice_ok : 0 ≤ offset ∧ 0 ≤ len ∧ offset + len ≤ Zlength data.
Hypothesis no_wrap : offset + len ≤ 2 ^ 32 ∧ len + threads ≤ 2 ^ 32.

#[local] Abbreviation run := (exec_trace data offset len).
#[local] Abbreviation T := (Z.to_nat threads).

Lemma thread_codes_lookup phase i ci :
  thread_codes threads phase !! i = Some ci ↔ (i < T)%nat ∧ ci = phase (Z.of_nat i).
Proof.
  unfold thread_codes. rewrite list_lookup_fmap. split.
  - destruct (seq 0 T !! i) as [x|] eqn:E; [|done]. apply lookup_seq in E as [-> Hi].
    by intros [= <-].
  - intros [Hi ->]. by rewrite lookup_seq_lt.
Qed.

(** Thread after thread, with what the first [k] have done. *)
Lemma threads_ind (P : nat → group F → Prop) phase g :
  P 0%nat g →
  (∀ k g, (k < T)%nat → P k g →
     ∃ g', run (pair k <$> phase (Z.of_nat k)) g = Some g' ∧ P (S k) g') →
  ∃ g', run (sequential (thread_codes threads phase)) g = Some g' ∧ P T g'.
Proof.
  intros H0 HS. unfold thread_codes.
  enough (∀ n, (n ≤ T)%nat →
    ∃ g', run (sequential ((λ tid, phase (Z.of_nat tid)) <$> seq 0 n)) g = Some g' ∧ P n g') as Hn.
  { by apply Hn. }
  induction n as [|n IH]; intros Hn; [by exists g|].
  destruct IH as (g1 & E1 & P1); [lia|]. destruct (HS n g1) as (g2 & E2 & P2); [lia|done|].
  exists g2. split; [|done]. rewrite seq_S, fmap_app. unfold sequential in *.
  rewrite imap_app, concat_app, exec_trace_app, E1. cbn.
  by rewrite length_fmap, length_seq, Nat.add_0_r, app_nil_r.
Qed.

(** A phase, whatever the interleaving. *)
Lemma phase_run (P : nat → group F → Prop) phase trace g :
  interleaving (thread_codes threads phase) trace → race_free (thread_codes threads phase) →
  P 0%nat g →
  (∀ k g, (k < T)%nat → P k g →
     ∃ g', run (pair k <$> phase (Z.of_nat k)) g = Some g' ∧ P (S k) g') →
  ∃ g', run trace g = Some g' ∧ P T g'.
Proof.
  intros Hi Hr H0 HS. rewrite (interleaving_sequential _ _ _ _ trace) by done.
  by apply threads_ind.
Qed.

Ltac independent_tac :=
  split; [by auto|split]; repeat constructor; cbn; rewrite ?not_elem_of_cons; split_and?;
  try apply not_elem_of_nil; lia.

Ltac race_free_by t :=
  intros i j ci cj a b Hne Hi Hj Ha Hb; apply thread_codes_lookup in Hi as [Hi ->], Hj as [Hj ->];
  t.

Lemma zero_race_free : race_free (thread_codes threads (zero_phase threads)).
Proof.
  race_free_by ltac:(apply list_elem_of_fmap in Ha as (x & -> & _), Hb as (y & -> & _)).
  independent_tac.
Qed.

Lemma count_race_free : race_free (thread_codes threads (count_phase len threads)).
Proof.
  race_free_by ltac:(apply list_elem_of_fmap in Ha as (x & -> & _), Hb as (y & -> & _)).
  independent_tac.
Qed.

Lemma sum_phase_elem tid a :
  a ∈ sum_phase len threads tid → a = IClear ∨ (∃ bin, a = ISum bin) ∨ a = IStore tid.
Proof.
  unfold sum_phase. rewrite elem_of_cons, elem_of_app, list_elem_of_singleton.
  intros [->|[Hs| ->]]; [by left| |by right; right]. right. left.
  destruct (0 <? len); [|by apply elem_of_nil in Hs].
  apply list_elem_of_fmap in Hs as (bin & -> & _). by exists bin.
Qed.

Lemma sum_race_free : race_free (thread_codes threads (sum_phase len threads)).
Proof.
  race_free_by ltac:(apply sum_phase_elem in Ha as [->|[[x ->]| ->]], Hb as [->|[[y ->]| ->]]);
    independent_tac.
Qed.

Lemma reduce_race_free stride :
  0 ≤ stride → race_free (thread_codes threads (reduce_phase stride)).
Proof.
  intros Hs. race_free_by ltac:(unfold reduce_phase in Ha, Hb).
  destruct (Z.ltb_spec (Z.of_nat i) stride); [|by apply elem_of_nil in Ha].
  destruct (Z.ltb_spec (Z.of_nat j) stride); [|by apply elem_of_nil in Hb].
  rewrite !elem_of_cons in Ha, Hb.
  destruct Ha as [->|[->|[->|Ha]]]; [..|by apply elem_of_nil in Ha];
  (destruct Hb as [->|[->|[->|Hb]]]; [..|by apply elem_of_nil in Hb]);
    independent_tac.
Qed.

Lemma result_race_free : race_free (thread_codes threads result_phase).
Proof.
  race_free_by ltac:(unfold result_phase in Ha, Hb).
  destruct (Z.eqb_spec (Z.of_nat i) 0); [|by apply elem_of_nil in Ha].
  destruct (Z.eqb_spec (Z.of_nat j) 0); [lia|by apply elem_of_nil in Hb].
Qed.

(** Phase 1: the histogram is cleared. *)
Definition zero_bins (h : list Z) (bins : list Z) : list Z :=
  fold_left (λ h b, <[Z.to_nat b := 0]> h) bins h.

Lemma zero_bins_length bins h : length (zero_bins h bins) = length h.
Proof.
  unfold zero_bins. revert h. induction bins as [|b bins IH]; intros h; cbn; [done|].
  by rewrite IH, length_insert.
Qed.

Lemma zero_bins_lookup bins h (i : nat) :
  (i < length h)%nat → Z.of_nat i ∈ bins ∨ h !! i = Some 0 → zero_bins h bins !! i = Some 0.
Proof.
  unfold zero_bins. revert h. induction bins as [|b bins IH]; intros h Hi Hb; cbn.
  - destruct Hb as [Hb|]; [by apply elem_of_nil in Hb|done].
  - apply IH; [by rewrite length_insert|].
    destruct (decide (Z.to_nat b = i)) as [<-|Hne].
    + right. by apply list_lookup_insert_eq.
    + rewrite list_lookup_insert_ne by done. rewrite elem_of_cons in Hb.
      destruct Hb as [[Hb|Hb]|Hb]; [lia|by left|by right].
Qed.

Lemma run_zero tid bins g :
  Forall (λ b, b < Zlength (histogram g)) bins →
  run (pair tid <$> (IZero <$> bins)) g =
  Some (mk_group (sums g) (zero_bins (histogram g) bins) (partial g) (entropy_out g)).
Proof.
  revert g. induction bins as [|b bins IH]; intros [su hi pa out] Hb; [done|].
  apply Forall_cons_1 in Hb as [Hb Hbs]. cbn in *. rewrite (proj2 (Z.ltb_lt _ _)) by done.
  cbn [mbind option_bind]. rewrite IH; [done|]. cbn. unfold Zlength in *. by rewrite length_insert.
Qed.

Lemma bins_elem tid b :
  0 ≤ tid → b ∈ strided 256 tid 256 threads → tid ≤ b < 256.
Proof. intros Ht. rewrite strided_elem by lia. intros (? & j & ? & ->). nia. Qed.

Lemma zero_phase_ok trace g :
  shape threads g → interleaving (thread_codes threads (zero_phase threads)) trace →
  ∃ g', run trace g = Some g' ∧ shape threads g' ∧ histogram g' = replicate 256 0.
Proof.
  intros Hg Hi.
  destruct (phase_run (λ k g', shape threads g' ∧
      ∀ b : nat, (b < 256)%nat →
        Z.of_nat b ∈ (seq 0 k ≫= λ t, strided 256 (Z.of_nat t) 256 threads) →
        histogram g' !! b = Some 0) _ trace g Hi) as (g' & E & Hs & Hz).
  - apply zero_race_free.
  - split; [done|]. intros b _ Hb. by apply elem_of_nil in Hb.
  - intros k g1 Hk [(L1 & L2 & L3) Hz]. unfold zero_phase. rewrite run_zero.
    + eexists. split; [done|]. split; [unfold shape; cbn; by rewrite zero_bins_length|].
      intros b Hb Hin. cbn. apply zero_bins_lookup; [lia|].
      rewrite seq_S, bind_app, elem_of_app in Hin. cbn in Hin. rewrite app_nil_r in Hin.
      destruct Hin; [right; by apply Hz|by left].
    + apply Forall_forall. intros b Hb. apply bins_elem in Hb; [|lia]. unfold Zlength. lia.
  - exists g'. split; [done|]. split; [done|]. apply list_eq. intros i.
    destruct (decide (i < 256)%nat) as [Hi'|Hi'].
    + rewrite lookup_replicate_2 by done. apply Hz; [done|].
      rewrite strided_partition by lia. apply elem_of_seqZ. lia.
    + destruct Hs as (_ & L & _). rewrite !lookup_ge_None_2; rewrite ?length_replicate; lia || done.
Qed.

(** Phase 2: the bytes are counted. *)
Definition byte_at (i : Z) : Z := default 0 (data !! Z.to_nat (offset + i)).

Lemma byte_at_slice : byte_at <$> seqZ 0 len = slice data offset len.
Proof.
  unfold slice, byte_at, Zlength in *. apply list_eq. intros i.
  rewrite list_lookup_fmap.
  destruct (decide (i < Z.to_nat len)%nat) as [Hi|Hi].
  - rewrite lookup_take_lt, lookup_drop by done. rewrite lookup_seqZ_lt by lia. cbn.
    replace (Z.to_nat (offset + (0 + Z.of_nat i))) with (Z.to_nat offset + i)%nat by lia.
    destruct (lookup_lt_is_Some_2 data (Z.to_nat offset + i)) as [b ->]; [lia|done].
  - rewrite lookup_take_ge by lia. by rewrite lookup_seqZ_ge by lia.
Qed.

Lemma run_count tid l g :
  length (histogram g) = 256%nat → Forall (λ i, 0 ≤ i < len) l →
  run (pair tid <$> (ICount <$> l)) g =
  Some (mk_group (sums g) (fold_left count_byte (byte_at <$> l) (histogram g)) (partial g)
          (entropy_out g)).
Proof.
  revert g. induction l as [|i l IH]; intros [su hi pa out] Hh Hl; [done|].
  apply Forall_cons_1 in Hl as [Hi Hl]. cbn in *. unfold Zlength in *.
  rewrite wrap_small by (unfold is_uint; lia).
  destruct (lookup_lt_is_Some_2 data (Z.to_nat (offset + i))) as [b Hb]; [lia|].
  unfold byte_at at 2. rewrite Hb. cbn.
  assert (0 ≤ b < 256) as Hb'.
  { unfold bytes_ok in data_ok. rewrite Forall_lookup in data_ok. apply (data_ok _ _ Hb). }
  rewrite (proj2 (Z.ltb_lt _ _)) by lia. cbn. apply IH; [|done]. cbn. by rewrite count_byte_length.
Qed.

Lemma count_phase_ok trace g :
  shape threads g → histogram g = replicate 256 0 →
  interleaving (thread_codes threads (count_phase len threads)) trace →
  ∃ g', run trace g = Some g' ∧ shape threads g' ∧
        histogram g' = byte_histogram (slice data offset len).
Proof.
  intros Hg Hh Hi. set (indices k := seq 0 k ≫= λ t, strided (Z.to_nat len) (Z.of_nat t) len threads).
  destruct (phase_run (λ k g', shape threads g' ∧
      histogram g' = fold_left count_byte (byte_at <$> indices k) (replicate 256 0))
      _ trace g Hi) as (g' & E & Hs & Hc).
  - apply count_race_free.
  - done.
  - intros k g1 Hk [(L1 & L2 & L3) Hc]. unfold count_phase. rewrite run_count; [|done|].
    + eexists. split; [done|]. split; [unfold shape; cbn; by rewrite histogram_length|].
      cbn [histogram]. unfold indices. rewrite seq_S, bind_app, fmap_app, fold_left_app.
      fold (indices k). rewrite <- Hc. cbn. by rewrite app_nil_r.
    + apply Forall_forall. intros i Hin. rewrite strided_elem in Hin by lia.
      destruct Hin as (? & j & ? & ->). nia.
  - exists g'. split; [done|]. split; [done|]. rewrite Hc, <- byte_at_slice.
    apply histogram_permutation. f_equiv. apply strided_partition; lia.
Qed.

(** Phase 3: each thread sums its bins. *)
Definition partial_is (g : group F) (p : Z → F) : Prop :=
  ∀ t : nat, (t < T)%nat → partial g !! t = Some (p (Z.of_nat t)).

Lemma run_sum tid bins sum g :
  sums g !! tid = Some sum → Forall (λ b, 0 ≤ b < Zlength (histogram g)) bins →
  run (pair tid <$> (ISum <$> bins)) g =
  Some (set_sum tid (fold_left (λ sum bin,
          entropy_step (d_of_uint len) sum (default 0 (histogram g !! Z.to_nat bin))) bins sum) g).
Proof.
  revert sum g. induction bins as [|b bins IH]; intros sum [su hi pa out] Hs Hb.
  - cbn in *. unfold set_sum. cbn. by rewrite list_insert_id.
  - apply Forall_cons_1 in Hb as [Hb Hbs]. cbn in *. unfold Zlength in *.
    destruct (lookup_lt_is_Some_2 hi (Z.to_nat b)) as [c Hc]; [lia|]. rewrite Hc, Hs. cbn.
    rewrite (IH (entropy_step (d_of_uint len) sum c)); [|cbn|done].
    + unfold set_sum. cbn. by rewrite list_insert_insert_eq.
    + rewrite list_lookup_insert_eq; [done|]. by eapply lookup_lt_Some.
Qed.

Lemma run_sum_phase (k : nat) g :
  (k < T)%nat → shape threads g →
  ∃ g', run (pair k <$> sum_phase len threads (Z.of_nat k)) g = Some g' ∧ shape threads g' ∧
    histogram g' = histogram g ∧
    partial g' = <[k := thread_sum len threads (histogram g) (Z.of_nat k)]> (partial g).
Proof.
  intros Hk (L1 & L2 & L3). unfold sum_phase. rewrite fmap_cons, fmap_app. cbn [exec_trace exec].
  cbn [mbind option_bind]. rewrite exec_trace_app.
  set (g0 := set_sum k (d_of_uint 0) g).
  assert (E : run (pair k <$> (if 0 <? len then ISum <$> strided 256 (Z.of_nat k) 256 threads else [])) g0 =
              Some (set_sum k (thread_sum len threads (histogram g) (Z.of_nat k)) g)).
  { assert (E0 : sums g0 !! k = Some (d_of_uint 0)).
    { apply list_lookup_insert_eq. lia. }
    unfold thread_sum. destruct (0 <? len).
    - rewrite (run_sum _ _ (d_of_uint 0)); [|done|].
      + unfold g0, set_sum. cbn. by rewrite list_insert_insert_eq.
      + apply Forall_forall. intros b Hb. apply bins_elem in Hb; [|lia]. cbn. unfold Zlength. lia.
    - done. }
  rewrite E. cbn. rewrite list_lookup_insert_eq by lia. unfold Zlength.
  cbn. rewrite (proj2 (Z.ltb_lt _ _)) by lia. cbn. eexists. split; [done|].
  rewrite Nat2Z.id. split; [|done]. unfold shape. cbn. by rewrite !length_insert.
Qed.

Lemma sum_phase_ok trace g :
  shape threads g → interleaving (thread_codes threads (sum_phase len threads)) trace →
  ∃ g', run trace g = Some g' ∧ shape threads g' ∧
        partial_is g' (thread_sum len threads (histogram g)).
Proof.
  intros Hg Hi. destruct (phase_run (λ k g', shape threads g' ∧ histogram g' = histogram g ∧
      ∀ t : nat, (t < k)%nat →
        partial g' !! t = Some (thread_sum len threads (histogram g) (Z.of_nat t)))
      _ trace g Hi) as (g' & E & Hs & _ & Hp).
  - apply sum_race_free.
  - split_and!; [done|done|lia].
  - intros k g1 Hk (Hs & Hh & Hp). destruct (run_sum_phase k g1 Hk Hs) as (g2 & E & Hs' & Hh' & Hp').
    exists g2. split; [done|]. split; [done|]. split; [congruence|]. intros t Ht.
    rewrite Hp'. destruct (decide (t = k)) as [->|Hne].
    + rewrite list_lookup_insert_eq, Hh; [done|]. destruct Hs as (_ & _ & ->). lia.
    + rewrite list_lookup_insert_ne by done. apply Hp. lia.
  - exists g'. done.
Qed.

(** Phase 4: one halving of the reduction. *)
Lemma run_reduce_phase stride (k : nat) g x y :
  (k < T)%nat → shape threads g → 0 ≤ stride → Z.of_nat k < stride →
  partial g !! k = Some x → partial g !! Z.to_nat (Z.of_nat k + stride) = Some y →
  ∃ g', run (pair k <$> reduce_phase stride (Z.of_nat k)) g = Some g' ∧ shape threads g' ∧
    partial g' = <[k := f_add x y]> (partial g).
Proof.
  intros Hk (L1 & L2 & L3) Hs Hlt Hx Hy. unfold reduce_phase.
  rewrite (proj2 (Z.ltb_lt _ _)) by done. cbn. rewrite Nat2Z.id, Hx. cbn. rewrite Hy. cbn.
  rewrite list_lookup_insert_eq by lia. cbn. rewrite list_lookup_insert_eq by (rewrite length_insert; lia).
  cbn. unfold Zlength. rewrite (proj2 (Z.ltb_lt _ _)) by lia. cbn. eexists. split; [done|].
  split; [|done]. unfold shape. cbn. by rewrite !length_insert.
Qed.

Lemma reduce_phase_ok stride trace g p :
  0 ≤ stride → 2 * stride ≤ threads → shape threads g → partial_is g p →
  interleaving (thread_codes threads (reduce_phase stride)) trace →
  ∃ g', run trace g = Some g' ∧ shape threads g' ∧ partial_is g' (halve p stride).
Proof.
  intros H0 H2 Hg Hp Hi. destruct (phase_run (λ k g', shape threads g' ∧
      ∀ t : nat, (t < T)%nat → partial g' !! t =
        Some (if decide (t < k)%nat then halve p stride (Z.of_nat t) else p (Z.of_nat t)))
      _ trace g Hi) as (g' & E & Hs & Hp').
  - by apply reduce_race_free.
  - split; [done|]. intros t Ht. by apply Hp.
  - intros k g1 Hk (Hs & Hp'). destruct (decide (Z.of_nat k < stride)) as [Hlt|Hge].
    + destruct (run_reduce_phase stride k g1 (p (Z.of_nat k)) (p (Z.of_nat k + stride)))
        as (g2 & E & Hs' & E'); [done|done|done|done| | |].
      * rewrite Hp' by done. by rewrite decide_False by lia.
      * rewrite Hp' by lia. rewrite decide_False by lia. by rewrite Z2Nat.id by lia.
      * exists g2. split; [done|]. split; [done|]. intros t Ht. rewrite E'.
        destruct (decide (t = k)) as [->|Hne].
        -- rewrite list_lookup_insert_eq by (destruct Hs as (_ & _ & ->); lia).
           rewrite decide_True by lia. unfold halve. by rewrite (proj2 (Z.ltb_lt _ _)).
        -- rewrite list_lookup_insert_ne, Hp' by done. f_equal.
           destruct (decide (t < k)%nat), (decide (t < S k)%nat); done || lia.
    + exists g1. unfold reduce_phase. rewrite (proj2 (Z.ltb_ge _ _)) by lia. split; [done|].
      split; [done|]. intros t Ht. rewrite Hp' by done. f_equal.
      destruct (decide (t < k)%nat), (decide (t < S k)%nat); try done; [lia|].
      unfold halve. by rewrite (proj2 (Z.ltb_ge _ _)) by lia.
  - exists g'. split; [done|]. split; [done|]. intros t Ht. rewrite Hp' by done.
    by rewrite decide_True.
Qed.

Lemma reduce_phases_ok fuel stride traces g p :
  0 ≤ stride → 2 * stride ≤ threads → shape threads g → partial_is g p →
  Forall2 (λ phase trace, interleaving (thread_codes threads phase) trace)
    (reduce_phase <$> strides fuel stride) traces →
  ∃ g', exec_phases data offset len traces g = Some g' ∧ shape threads g' ∧
    partial_is g' (fold_left halve (strides fuel stride) p).
Proof.
  revert stride traces g p. induction fuel as [|fuel IH]; intros stride traces g p H0 H2 Hg Hp Ht.
  - inversion Ht. subst. by exists g.
  - cbn in Ht |- *. destruct (Z.ltb_spec 0 stride).
    + apply Forall2_cons_inv_l in Ht as (trace & traces' & Hi & Ht & ->).
      destruct (reduce_phase_ok stride trace g p) as (g1 & E1 & Hs1 & Hp1); try done.
      pose proof (Z.div_mod stride 2). pose proof (Z.mod_pos_bound stride 2).
      destruct (IH (stride / 2) traces' g1 (halve p stride)) as (g2 & E2 & ?); try done; [lia|lia|].
      exists g2. cbn. by rewrite E1.
    + inversion Ht. subst. by exists g.
Qed.

(** The last phase. *)
Lemma result_phase_ok trace g p :
  shape threads g → partial_is g p → interleaving (thread_codes threads result_phase) trace →
  ∃ g', run trace g = Some g' ∧ entropy_out g' = Some (p 0).
Proof.
  intros Hg Hp Hi.
  destruct (phase_run (λ k g', partial g' = partial g ∧ ((0 < k)%nat → entropy_out g' = Some (p 0)))
      _ trace g Hi) as (g' & E & _ & Ho).
  - apply result_race_free.
  - split; [done|lia].
  - intros k g1 Hk (Hs & Ho). unfold result_phase. destruct (Z.eqb_spec (Z.of_nat k) 0).
    + cbn. rewrite Hs, (Hp 0%nat) by lia. cbn. by eexists.
    + exists g1. split; [done|]. split; [done|]. intros _. apply Ho. lia.
  - exists g'. split; [done|]. apply Ho. lia.
Qed.

(** The whole kernel: every schedule gives the reference value. *)
Lemma kernel_run traces g :
  shape threads g → kernel_schedule len threads traces →
  ∃ g', exec_phases data offset len traces g = Some g' ∧
        entropy_out g' = Some (group_entropy data offset len threads).
Proof.
  intros Hg Ht. unfold kernel_schedule, phases in Ht. cbn [app] in Ht.
  apply Forall2_cons_inv_l in Ht as (t1 & ? & H1 & Ht & ->).
  apply Forall2_cons_inv_l in Ht as (t2 & ? & H2 & Ht & ->).
  apply Forall2_cons_inv_l in Ht as (t3 & ? & H3 & Ht & ->).
  apply Forall2_app_inv_l in Ht as (ts & ? & H4 & Ht & ->).
  apply Forall2_cons_inv_l in Ht as (t5 & ? & H5 & Ht & ->). inversion Ht. subst.
  destruct (zero_phase_ok t1 g) as (g1 & E1 & S1 & Z1); [done..|].
  destruct (count_phase_ok t2 g1) as (g2 & E2 & S2 & Z2); [done..|].
  destruct (sum_phase_ok t3 g2) as (g3 & E3 & S3 & P3); [done..|]. rewrite Z2 in P3.
  pose proof (Z.div_mod threads 2). pose proof (Z.mod_pos_bound threads 2).
  destruct (reduce_phases_ok 32 (threads / 2) ts g3
    (thread_sum len threads (byte_histogram (slice data offset len))))
    as (g4 & E4 & S4 & P4); [lia|lia|done..|].
  destruct (result_phase_ok t5 g4 _ S4 P4 H5) as (g5 & E5 & O5).
  exists g5. split; [|done]. cbn [exec_phases]. rewrite E1. cbn [mbind option_bind].
  rewrite E2. cbn [mbind option_bind]. rewrite E3. cbn [mbind option_bind].
  assert (Happ : ∀ l k (x : group F), exec_phases data offset len (l ++ k) x =
    exec_phases data offset len l x ≫= exec_phases data offset len k).
  { induction l as [|y l IH]; intros k x; cbn; [done|].
    destruct (run y x); cbn; [apply IH|done]. }
  rewrite Happ, E4. cbn. by rewrite E5.
Qed.

End Phases.

(** ** Checking a schedule *)

Definition interleaving_test (codes : list (list instr)) (trace : list (nat * instr)) : Prop :=
  Forall (λ e, (e.1 < length codes)%nat) trace ∧
  Forall (λ tid, (filter (λ e, e.1 = tid) trace).*2 = default [] (codes !! tid))
    (seq 0 (length codes)).

#[export] Instance interleaving_test_dec codes trace : Decision (interleaving_test codes trace).
Proof. unfold interleaving_test. apply _. Defined.

Lemma interleaving_alt codes trace : interleaving codes trace ↔ interleaving_test codes trace.
Proof.
  unfold interleaving, interleaving_test. split; intros [Hlt Hp]; (split; [done|]).
  - apply Forall_forall. intros tid Ht. apply elem_of_seq in Ht.
    destruct (lookup_lt_is_Some_2 codes tid) as [c Hc]; [lia|]. rewrite Hc. by apply Hp.
  - intros tid code Hc. rewrite Forall_forall in Hp. specialize (Hp tid).
    rewrite Hc in Hp. apply Hp, elem_of_seq. apply lookup_lt_Some in Hc. lia.
Qed.

#[export] Instance interleaving_dec codes trace : Decision (interleaving codes trace).
Proof.
  destruct (decide (interleaving_test codes trace)) as [Ht|Ht]; [left|right];
    by rewrite interleaving_alt.
Defined.

#[export] Instance kernel_schedule_dec len threads traces : Decision (kernel_schedule len threads traces).
Proof. unfold kernel_schedule. apply _. Defined.

(** A schedule that lets every thread take one access in turn. *)
Definition round_robin (codes : list (list instr)) : list (nat * instr) :=
  seq 0 (max_list (length <$> codes)) ≫= λ k,
    omap (λ e, pair e.1 <$> e.2) (imap (λ tid code, (tid, code !! k)) codes).

Definition round_robin_schedule (len threads : Z) : list (list (nat * instr)) :=
  (λ phase, round_robin (thread_codes threads phase)) <$> phases len threads.

(** One device: IEEE binary32 with an exact [log2] on powers of two. *)
Definition log2_powers32 (x : spec_float) : spec_float :=
  match x with
  | S754_finite false m e =>
      binary_normalize 24 128 (Z.log2 (Zpos m) + e) 0 false
  | _ => S754_nan
  end.

#[export] Instance binary32 : FloatOps spec_float := {|
  float_double := {|
    d_of_uint z := binary_normalize 24 128 z 0 false;
    d_sub := SFsub 24 128;
    d_mul := SFmul 24 128;
    d_div := SFdiv 24 128;
    d_log2 := log2_powers32
  |};
  f_add := SFadd 24 128
|}.

Definition dirty_group (threads : Z) : group spec_float :=
  mk_group (replicate (Z.to_nat threads) S754_nan) (replicate 256 77) (replicate 256 S754_nan) None.

(** ** Properties *)

(** C9. The kernel has no race and stays in its arrays: whatever the threadgroup
    memory holds at the start, for any group of at most 256 threads and any
    interleaving of the threads between two barriers, the group finishes and
    writes the same value, the one the reference computes without threads. *)
Theorem kernel_schedule_independent {F} `{FloatOps F} data offset len threads traces (g : group F) :
  1 ≤ threads ≤ 256 → bytes_ok data →
  0 ≤ offset ∧ 0 ≤ len ∧ offset + len ≤ Zlength data →
  offset + len ≤ 2 ^ 32 ∧ len + threads ≤ 2 ^ 32 →
  shape threads g → kernel_schedule len threads traces →
  ∃ g', exec_phases data offset len traces g = Some g' ∧
        entropy_out g' = Some (group_entropy data offset len threads).
Proof. intros. by apply kernel_run. Qed.

(** ** Witnesses *)

Lemma kernel_schedule_independent_witness :
  kernel_schedule 4 8 (round_robin_schedule 4 8) ∧
  ∃ g', exec_phases [9; 3; 1; 4; 5; 9] 1 4 (round_robin_schedule 4 8) (dirty_group 8) = Some g' ∧
        entropy_out g' = Some (d_of_uint 2).
Proof.
  assert (Hs : kernel_schedule 4 8 (round_robin_schedule 4 8)) by by_decide.
  split; [exact Hs|].
  destruct (kernel_schedule_independent [9; 3; 1; 4; 5; 9] 1 4 8 (round_robin_schedule 4 8)
    (dirty_group 8)) as (g' & E & O);
    [lia|by_decide|by_decide|by_decide|by split_and!|exact Hs|].
  exists g'. split; [exact E|]. rewrite O. vm_compute. reflexivity.
Defined.

(** The host contract of the kernel matters: with three threads the reduction
    drops the bins of the third. *)
Lemma three_threads_lose_bins :
  group_entropy (F := spec_float) [3; 1; 4; 5] 0 4 4 = d_of_uint 2 ∧
  group_entropy (F := spec_float) [3; 1; 4; 5] 0 4 3 ≠ d_of_uint 2.
Proof. split; [vm_compute; reflexivity|]. vm_compute. discriminate. Qed.
