(* ===== verification/Metal.v ===== *)
(** * Host side of the GPU ([src/gpu/metal_context.cpp],
      [include/netsentinel/gpu/metal_context.hpp])

    The buffer pool and the asynchronous dispatches of [MetalContext], called by
    several worker threads at once.  Metal itself is outside the repository: a
    buffer is a cell of a heap, [device->newBuffer] answers with new contents or
    null, and a committed command runs the kernel of [GpuKernel] at any later
    moment, reading and writing the buffers as they are then. *)
From Stdlib Require Import Floats.SpecFloat.
From S2P Require Import Prelude Fmt Entropy GpuKernel.

(** ** Data *)

(** What a buffer holds, as the code casts it. *)
Inductive contents (F : Type) : Type :=
  | CBytes (l : list Z)        (* uint8_t *)
  | CWords (l : list Z)        (* uint32_t *)
  | CFloats (l : list F).      (* float *)
Arguments CBytes {F} l.
Arguments CWords {F} l.
Arguments CFloats {F} l.

Inductive cell_type : Type := TBytes | TWords | TFloats.

Definition fits {F} (ty : cell_type) (bytes : Z) (c : contents F) : Prop :=
  match ty, c with
  | TBytes, CBytes l => Zlength l = bytes ∧ bytes_ok l
  | TWords, CWords l => Zlength l = bytes / 4
  | TFloats, CFloats l => Zlength l = bytes / 4
  | _, _ => False
  end.

(** A pooled buffer ([None] is null) and its capacity. *)
Record gpu_buffer : Type := mk_gpu_buffer { handle : option nat; capacity : Z }.

Record EntropyBufferSet : Type := mk_EntropyBufferSet {
  b_data : gpu_buffer; b_offsets : gpu_buffer; b_lengths : gpu_buffer; b_results : gpu_buffer
}.

Definition null_buffer : gpu_buffer := mk_gpu_buffer None 0.
Definition EntropyBufferSet_new : EntropyBufferSet :=
  mk_EntropyBufferSet null_buffer null_buffer null_buffer null_buffer.

(** The device's memory, by address. *)
Abbreviation heap F := (gmap nat (contents F)).

Section Metal.
Context {F : Type} `{FloatOps F}.

(** What [device->newBuffer(bytes)] answers. *)
Definition device : Type := cell_type → Z → option (contents F).

Definition device_ok (dev : device) : Prop :=
  ∀ ty bytes c, dev ty bytes = Some c → fits ty bytes c.

(** ** ensure_capacity *)

(** The heap with the next unused address. *)
Definition memory : Type := heap F * nat.

Definition new_buffer (dev : device) (ty : cell_type) (bytes : Z) (m : memory)
    : option nat * memory :=
  match dev ty bytes with
  | Some c => (Some m.2, (<[m.2 := c]> m.1, S m.2))
  | None => (None, m)
  end.

Definition grown_capacity (capacity needed : Z) : Z :=
  Z.max needed (Z.max (wrap 64 (capacity * 2)) 4096).

Definition ensure_capacity (dev : device) (ty : cell_type) (needed : Z) (b : gpu_buffer)
    (m : memory) : bool * gpu_buffer * memory :=
  if bool_decide (is_Some (handle b)) && (needed <=? capacity b) then (true, b, m)
  else
    let grown := grown_capacity (capacity b) needed in
    let '(h, m) := new_buffer dev ty grown m in
    (bool_decide (is_Some h), mk_gpu_buffer h (match h with Some _ => grown | None => 0 end), m).

(** The four calls of [submit_payload_entropy], the first failure skips the
    rest. *)
Definition ensure_buffers (dev : device) (total_bytes count : Z) (b : EntropyBufferSet)
    (m : memory) : bool * EntropyBufferSet * memory :=
  let '(ok, d, m) := ensure_capacity dev TBytes total_bytes (b_data b) m in
  let b := mk_EntropyBufferSet d (b_offsets b) (b_lengths b) (b_results b) in
  if negb ok then (false, b, m) else
  let '(ok, o, m) := ensure_capacity dev TWords (count * 4) (b_offsets b) m in
  let b := mk_EntropyBufferSet d o (b_lengths b) (b_results b) in
  if negb ok then (false, b, m) else
  let '(ok, l, m) := ensure_capacity dev TWords (count * 4) (b_lengths b) m in
  let b := mk_EntropyBufferSet d o l (b_results b) in
  if negb ok then (false, b, m) else
  let '(ok, r, m) := ensure_capacity dev TFloats (count * 4) (b_results b) m in
  (ok, mk_EntropyBufferSet d o l r, m).

(** ** Filling the buffers *)

(** [memcpy(data + offset, payload, size)]; [None] is a write past the buffer. *)
Definition copy_bytes (data : list Z) (offset : Z) (payload : list Z) : option (list Z) :=
  if offset + Zlength payload <=? Zlength data
  then Some (take (Z.to_nat offset) data ++ payload ++
             drop (Z.to_nat (offset + Zlength payload)) data)
  else None.

Definition store_word (l : list Z) (i : nat) (v : Z) : option (list Z) :=
  if (Z.of_nat i <? Zlength l) then Some (<[i := v]> l) else None.

(** The loop over the payloads, from index [i] on. *)
Fixpoint fill (payloads : list (list Z)) (i : nat) (offset : Z) (data offsets lengths : list Z)
    : option (list Z * list Z * list Z) :=
  match payloads with
  | [] => Some (data, offsets, lengths)
  | p :: payloads =>
      offsets ← store_word offsets i (wrap 32 offset);
      lengths ← store_word lengths i (wrap 32 (Zlength p));
      data ← (if 0 <? Zlength p then copy_bytes data offset p else Some data);
      fill payloads (S i) (wrap 64 (offset + Zlength p)) data offsets lengths
  end.

(** [while (threads > maxTotalThreadsPerThreadgroup) threads /= 2]. *)
Fixpoint halve_until (fuel : nat) (threads max_threads : Z) : Z :=
  match fuel with
  | O => threads
  | S fuel => if max_threads <? threads then halve_until fuel (threads / 2) max_threads else threads
  end.

Definition group_size (max_threads : Z) : Z := halve_until 9 256 max_threads.

Definition total_size (payloads : list (list Z)) : Z := wrap 64 (Zsum (Zlength <$> payloads)).

(** ** The kernel on the device *)

(** One threadgroup, in some schedule, from some state of its memory. *)
Definition kernel_result (data : list Z) (threads offset len : Z) (v : F) : Prop :=
  ∃ traces g g', shape threads g ∧ kernel_schedule len threads traces ∧
    exec_phases data offset len traces g = Some g' ∧ entropy_out g' = Some v.

(** ** The context and the calls in progress *)

Inductive command : Type :=
  | Running                      (* committed, not finished *)
  | Completed
  | Failed.

(** Where a call of [submit_payload_entropy] and its [PendingGpuEntropy] stand. *)
Inductive job_phase : Type :=
  | JTaken (b : EntropyBufferSet)                          (* has its buffers *)
  | JReady (b : EntropyBufferSet)                          (* large enough *)
  | JFilled (b : EntropyBufferSet)                         (* payloads copied *)
  | JPending (b : EntropyBufferSet) (cmd : option command) (waited : bool)
  | JNull                                                  (* returned null *)
  | JDestroyed.

(** [wait] has not been called, or returned false, or these values. *)
Inductive wait_answer : Type := NotWaited | WaitFailed | WaitValues (entropies : list F).

Record job : Type := mk_job {
  j_payloads : list (list Z); j_phase : job_phase; j_answer : wait_answer
}.

Record metal : Type := mk_metal {
  mem : memory;
  pipelines : gmap string Z;                 (* maxTotalThreadsPerThreadgroup *)
  free_buffers : list EntropyBufferSet;
  last_error : string;
  jobs : list job                            (* in the order of the calls *)
}.

Definition set_mem (m : memory) (s : metal) : metal :=
  mk_metal m (pipelines s) (free_buffers s) (last_error s) (jobs s).
Definition set_error (e : string) (s : metal) : metal :=
  mk_metal (mem s) (pipelines s) (free_buffers s) e (jobs s).
Definition set_free (l : list EntropyBufferSet) (s : metal) : metal :=
  mk_metal (mem s) (pipelines s) l (last_error s) (jobs s).
Definition add_job (j : job) (s : metal) : metal :=
  mk_metal (mem s) (pipelines s) (free_buffers s) (last_error s) (jobs s ++ [j]).
Definition set_job (i : nat) (ph : job_phase) (s : metal) : metal :=
  mk_metal (mem s) (pipelines s) (free_buffers s) (last_error s)
    (alter (λ j, mk_job (j_payloads j) ph (j_answer j)) i (jobs s)).
Definition answer_job (i : nat) (a : wait_answer) (s : metal) : metal :=
  mk_metal (mem s) (pipelines s) (free_buffers s) (last_error s)
    (alter (λ j, mk_job (j_payloads j) (j_phase j) a) i (jobs s)).

(** [take_buffers], [return_buffers]. *)
Definition take_buffers (s : metal) : EntropyBufferSet * metal :=
  match last (free_buffers s) with
  | Some b => (b, set_free (removelast (free_buffers s)) s)
  | None => (EntropyBufferSet_new, s)
  end.

Definition return_buffers (b : EntropyBufferSet) (s : metal) : metal :=
  set_free (free_buffers s ++ [b]) s.

(** A null result: the message, and the buffers back to the pool. *)
Definition give_up_job (i : nat) (message : string) (b : EntropyBufferSet) (s : metal) : metal :=
  set_job i JNull (return_buffers b (set_error message s)).

Definition kernel_name : string := "payload_entropy".
Definition no_kernel_message : string :=
  "kernel '" +:+ kernel_name +:+ "' not loaded — call load_kernel() first".

(** The buffers behind the handles, cast to their types. *)
Definition bytes_of (h : heap F) (b : gpu_buffer) : option (list Z) :=
  id ← handle b; match h !! id with Some (CBytes l) => Some l | _ => None end.
Definition words_of (h : heap F) (b : gpu_buffer) : option (list Z) :=
  id ← handle b; match h !! id with Some (CWords l) => Some l | _ => None end.
Definition floats_of (h : heap F) (b : gpu_buffer) : option (list F) :=
  id ← handle b; match h !! id with Some (CFloats l) => Some l | _ => None end.

Definition store (b : gpu_buffer) (c : contents F) (h : heap F) : heap F :=
  match handle b with Some id => <[id := c]> h | None => h end.

(** The host's writes before the commit. *)
Definition fill_buffers (payloads : list (list Z)) (b : EntropyBufferSet) (h : heap F)
    : option (heap F) :=
  data ← bytes_of h (b_data b);
  offsets ← words_of h (b_offsets b);
  lengths ← words_of h (b_lengths b);
  r ← fill payloads 0 0 data offsets lengths;
  Some (store (b_lengths b) (CWords r.2)
          (store (b_offsets b) (CWords r.1.2) (store (b_data b) (CBytes r.1.1) h))).

(** The dispatch of [count] threadgroups: the value of each lands in [results]. *)
Definition dispatch (threads : Z) (count : nat) (data offsets lengths : list Z)
    (results results' : list F) : Prop :=
  ∃ values, length values = count ∧ (count ≤ length results)%nat ∧
    results' = values ++ drop count results ∧
    ∀ i v, values !! i = Some v → ∃ offset len,
      offsets !! i = Some offset ∧ lengths !! i = Some len ∧
      kernel_result data threads offset len v.

(** ** Steps *)

Inductive metal_step : metal → metal → Prop :=
  (* submit_payload_entropy *)
  | ms_no_pipeline s payloads :
      pipelines s !! kernel_name = None →
      metal_step s (add_job (mk_job payloads JNull NotWaited) (set_error no_kernel_message s))
  | ms_take s payloads b s' :
      is_Some (pipelines s !! kernel_name) → take_buffers s = (b, s') →
      Zsum (Zlength <$> payloads) < 2 ^ 64 → Forall bytes_ok payloads →
      metal_step s (add_job (mk_job payloads (JTaken b) NotWaited) s')
  | ms_empty s i b a :
      jobs s !! i = Some (mk_job [] (JTaken b) a) →
      metal_step s (set_job i (JPending b None false) s)
  | ms_ensure s i payloads b a dev b' m' :
      jobs s !! i = Some (mk_job payloads (JTaken b) a) → payloads ≠ [] → device_ok dev →
      ensure_buffers dev (total_size payloads) (Zlength payloads) b (mem s) = (true, b', m') →
      metal_step s (set_job i (JReady b') (set_mem m' s))
  | ms_ensure_failed s i payloads b a dev b' m' :
      jobs s !! i = Some (mk_job payloads (JTaken b) a) → payloads ≠ [] → device_ok dev →
      ensure_buffers dev (total_size payloads) (Zlength payloads) b (mem s) = (false, b', m') →
      metal_step s (give_up_job i "failed to allocate GPU buffers" b' (set_mem m' s))
  | ms_fill s i payloads b a h' :
      jobs s !! i = Some (mk_job payloads (JReady b) a) →
      fill_buffers payloads b (mem s).1 = Some h' →
      metal_step s (set_job i (JFilled b) (set_mem (h', (mem s).2) s))
  | ms_no_command s i payloads b a :
      jobs s !! i = Some (mk_job payloads (JFilled b) a) →
      metal_step s (give_up_job i "queue->commandBuffer() returned null" b s)
  | ms_commit s i payloads b a :
      jobs s !! i = Some (mk_job payloads (JFilled b) a) →
      metal_step s (set_job i (JPending b (Some Running) false) s)
  (* the device *)
  | ms_gpu s i payloads b w a data offsets lengths results results' max_threads :
      jobs s !! i = Some (mk_job payloads (JPending b (Some Running) w) a) →
      pipelines s !! kernel_name = Some max_threads →
      bytes_of (mem s).1 (b_data b) = Some data →
      words_of (mem s).1 (b_offsets b) = Some offsets →
      words_of (mem s).1 (b_lengths b) = Some lengths →
      floats_of (mem s).1 (b_results b) = Some results →
      dispatch (group_size max_threads) (length payloads) data offsets lengths results results' →
      metal_step s (set_job i (JPending b (Some Completed) w)
        (set_mem (store (b_results b) (CFloats results') (mem s).1, (mem s).2) s))
  | ms_gpu_failed s i payloads b w a results results' :
      jobs s !! i = Some (mk_job payloads (JPending b (Some Running) w) a) →
      floats_of (mem s).1 (b_results b) = Some results → length results' = length results →
      metal_step s (set_job i (JPending b (Some Failed) w)
        (set_mem (store (b_results b) (CFloats results') (mem s).1, (mem s).2) s))
  (* PendingGpuEntropy::wait *)
  | ms_wait_none s i payloads b :
      jobs s !! i = Some (mk_job payloads (JPending b None false) NotWaited) →
      metal_step s (answer_job i (WaitValues []) (set_job i (JPending b None true) s))
  | ms_wait s i payloads b results :
      jobs s !! i = Some (mk_job payloads (JPending b (Some Completed) false) NotWaited) →
      floats_of (mem s).1 (b_results b) = Some results →
      metal_step s (answer_job i (WaitValues (take (length payloads) results))
                      (set_job i (JPending b (Some Completed) true) s))
  | ms_wait_failed s i payloads b e :
      jobs s !! i = Some (mk_job payloads (JPending b (Some Failed) false) NotWaited) →
      metal_step s (answer_job i WaitFailed (set_job i (JPending b (Some Failed) true)
                      (set_error ("GPU command buffer did not complete: " +:+ e) s)))
  (* PendingGpuEntropy::~PendingGpuEntropy, once the command has finished *)
  | ms_destroy s i payloads b cmd w a :
      jobs s !! i = Some (mk_job payloads (JPending b cmd w) a) → cmd ≠ Some Running →
      metal_step s (set_job i JDestroyed (return_buffers b s)).

Definition metal_start (kernels : gmap string Z) : metal :=
  mk_metal (∅, 0%nat) kernels [] "" [].

Inductive metal_reachable (kernels : gmap string Z) : metal → Prop :=
  | mr_start : metal_reachable kernels (metal_start kernels)
  | mr_step s s' : metal_reachable kernels s → metal_step s s' → metal_reachable kernels s'.

End Metal.
Arguments device F : clear implicits.
Arguments memory F : clear implicits.

(** ** Executable histories *)

Section Play.
Context {F : Type} `{FloatOps F}.
Implicit Types (s : metal (F := F)).

Inductive metal_action : Type :=
  | ASubmit (payloads : list (list Z))   (* up to [take_buffers] *)
  | AEnsure (i : nat) | AFill (i : nat) | ACommit (i : nat)
  | AGpu (i : nat) | AWait (i : nat) | ADestroy (i : nat).

(** A device that never runs out of memory. *)
Definition zero_device : device F := λ ty bytes,
  if bytes <? 0 then None else
  match ty with
  | TBytes => Some (CBytes (replicate (Z.to_nat bytes) 0))
  | TWords => Some (CWords (replicate (Z.to_nat (bytes / 4)) 0))
  | TFloats => Some (CFloats (replicate (Z.to_nat (bytes / 4)) (d_of_uint 0)))
  end.

(** One threadgroup, when its bytes are in the buffer. *)
Definition run_kernel (data : list Z) (threads offset len : Z) : option F :=
  if decide (1 ≤ threads ≤ 256 ∧ bytes_ok data ∧ (0 ≤ offset ∧ 0 ≤ len ∧ offset + len ≤ Zlength data) ∧
             (offset + len ≤ 2 ^ 32 ∧ len + threads ≤ 2 ^ 32))
  then Some (group_entropy data offset len threads) else None.

Definition gpu_values (threads : Z) (count : nat) (data offsets lengths : list Z) : option (list F) :=
  mapM (λ e, run_kernel data threads e.1 e.2) (take count (zip offsets lengths)).

Definition metal_act (a : metal_action) s : option metal :=
  match a with
  | ASubmit payloads =>
      if decide (is_Some (pipelines s !! kernel_name) ∧ Zsum (Zlength <$> payloads) < 2 ^ 64 ∧
                 Forall bytes_ok payloads)
      then let '(b, s) := take_buffers s in Some (add_job (mk_job payloads (JTaken b) NotWaited) s)
      else None
  | AEnsure i =>
      match jobs s !! i with
      | Some (mk_job (p :: l) (JTaken b) _) =>
          match ensure_buffers zero_device (total_size (p :: l)) (Zlength (p :: l)) b (mem s) with
          | (true, b, m) => Some (set_job i (JReady b) (set_mem m s))
          | _ => None
          end
      | _ => None
      end
  | AFill i =>
      match jobs s !! i with
      | Some (mk_job payloads (JReady b) _) =>
          h ← fill_buffers payloads b (mem s).1; Some (set_job i (JFilled b) (set_mem (h, (mem s).2) s))
      | _ => None
      end
  | ACommit i =>
      match jobs s !! i with
      | Some (mk_job payloads (JFilled b) _) => Some (set_job i (JPending b (Some Running) false) s)
      | _ => None
      end
  | AGpu i =>
      match jobs s !! i, pipelines s !! kernel_name with
      | Some (mk_job payloads (JPending b (Some Running) w) _), Some max_threads =>
          data ← bytes_of (mem s).1 (b_data b);
          offsets ← words_of (mem s).1 (b_offsets b);
          lengths ← words_of (mem s).1 (b_lengths b);
          results ← floats_of (mem s).1 (b_results b);
          values ← gpu_values (group_size max_threads) (length payloads) data offsets lengths;
          if decide (length values = length payloads ∧ (length payloads ≤ length results)%nat)
          then Some (set_job i (JPending b (Some Completed) w)
                 (set_mem (store (b_results b) (CFloats (values ++ drop (length payloads) results))
                             (mem s).1, (mem s).2) s))
          else None
      | _, _ => None
      end
  | AWait i =>
      match jobs s !! i with
      | Some (mk_job payloads (JPending b (Some Completed) false) NotWaited) =>
          results ← floats_of (mem s).1 (b_results b);
          Some (answer_job i (WaitValues (take (length payloads) results))
                  (set_job i (JPending b (Some Completed) true) s))
      | _ => None
      end
  | ADestroy i =>
      match jobs s !! i with
      | Some (mk_job payloads (JPending b cmd w) _) =>
          match cmd with
          | Some Running => None
          | _ => Some (set_job i JDestroyed (return_buffers b s))
          end
      | _ => None
      end
  end.

Fixpoint metal_play (actions : list metal_action) s : option metal :=
  match actions with
  | [] => Some s
  | a :: actions => s ← metal_act a s; metal_play actions s
  end.

End Play.
