(* ===== verification/MetalSpec.v ===== *)
(** * What the GPU dispatches guarantee

    The invariant of every history of [Metal]: all buffers are distinct and have
    the size and type the code relies on, the payloads of a committed call lie
    where the kernel looks for them, and a finished call holds the kernel's values
    for its own payloads.  From it: isolation of concurrent dispatches, progress of
    every call, and the growth of a pooled buffer. *)
From Stdlib Require Import Floats.SpecFloat.
From S2P Require Import Prelude Fmt Entropy GpuKernel Metal.

(** ** Filling *)

Lemma copy_bytes_spec data offset p :
  0 ≤ offset → offset + Zlength p ≤ Zlength data → bytes_ok data → bytes_ok p →
  ∃ data', copy_bytes data offset p = Some data' ∧ Zlength data' = Zlength data ∧ bytes_ok data' ∧
    take (Z.to_nat offset) data' = take (Z.to_nat offset) data ∧
    take (Z.to_nat (Zlength p)) (drop (Z.to_nat offset) data') = p.
Proof.
  intros Ho Hl Hd Hp. unfold copy_bytes. rewrite (proj2 (Z.leb_le _ _)) by done.
  eexists. split; [done|]. unfold Zlength, bytes_ok in *.
  assert (E : length (take (Z.to_nat offset) data) = Z.to_nat offset) by (rewrite length_take; lia).
  split_and!.
  - rewrite !length_app, length_drop, E. lia.
  - apply Forall_app. split; [by apply Forall_take|]. apply Forall_app. split; [done|by apply Forall_drop].
  - rewrite take_app_le by lia. by rewrite take_take, Nat.min_id.
  - rewrite drop_app_length' by lia. by rewrite take_app_length' by lia.
Qed.

Lemma store_word_spec l i v :
  (i < length l)%nat → store_word l i v = Some (<[i := v]> l).
Proof. intros Hi. unfold store_word, Zlength. by rewrite (proj2 (Z.ltb_lt _ _)) by lia. Qed.

Definition starts (payloads : list (list Z)) (i : nat) : Z := Zsum (Zlength <$> take i payloads).

(** Where payload [k] lies after the loop, when the loop starts at index [i]. *)
Definition placed_at (payloads : list (list Z)) (i : nat) (offset : Z)
    (data offsets lengths : list Z) : Prop :=
  ∀ k p, payloads !! k = Some p →
    offsets !! (i + k)%nat = Some (wrap 32 (offset + starts payloads k)) ∧
    lengths !! (i + k)%nat = Some (wrap 32 (Zlength p)) ∧
    offset + starts payloads k + Zlength p ≤ Zlength data ∧
    take (Z.to_nat (Zlength p)) (drop (Z.to_nat (offset + starts payloads k)) data) = p.

Lemma take_drop_prefix {A} (l k : list A) (n m o : nat) :
  take n l = take n k → (m + o ≤ n)%nat → take o (drop m l) = take o (drop m k).
Proof.
  intros E Hn. rewrite !take_drop_commute. f_equal.
  apply (f_equal (take (m + o))) in E. by rewrite !take_take, !Nat.min_l in E by lia.
Qed.

Lemma Zsum_lengths_nonneg (l : list (list Z)) : 0 ≤ Zsum (Zlength <$> l).
Proof. apply Zsum_nonneg, Forall_fmap, Forall_forall. intros x _. apply Zlength_nonneg. Qed.

Lemma fill_spec payloads i offset data offsets lengths :
  0 ≤ offset → offset + Zsum (Zlength <$> payloads) ≤ Zlength data →
  offset + Zsum (Zlength <$> payloads) < 2 ^ 64 →
  (i + length payloads ≤ length offsets)%nat → (i + length payloads ≤ length lengths)%nat →
  bytes_ok data → Forall bytes_ok payloads →
  ∃ data' offsets' lengths',
    fill payloads i offset data offsets lengths = Some (data', offsets', lengths') ∧
    Zlength data' = Zlength data ∧ length offsets' = length offsets ∧
    length lengths' = length lengths ∧ bytes_ok data' ∧
    take (Z.to_nat offset) data' = take (Z.to_nat offset) data ∧
    (∀ k, (k < i)%nat → offsets' !! k = offsets !! k ∧ lengths' !! k = lengths !! k) ∧
    placed_at payloads i offset data' offsets' lengths'.
Proof.
  revert i offset data offsets lengths. induction payloads as [|p payloads IH];
    intros i offset data offsets lengths Ho Hd Hw Hio Hil Hok Hp; cbn [fill].
  { exists data, offsets, lengths. split_and!; try done. }
  apply Forall_cons_1 in Hp as [Hp Hps]. cbn [fmap list_fmap Zsum length] in *.
  pose proof (Zlength_nonneg p). pose proof (Zsum_lengths_nonneg payloads).
  rewrite !store_word_spec by lia. cbn [mbind option_bind].
  destruct (copy_bytes_spec data offset p) as (data1 & E1 & L1 & Ok1 & Pre1 & At1); [done|lia|done|done|].
  assert (E2 : (if 0 <? Zlength p then copy_bytes data offset p else Some data) = Some data1 ∨
               (if 0 <? Zlength p then copy_bytes data offset p else Some data) = Some data ∧ p = []).
  { destruct (Z.ltb_spec 0 (Zlength p)); [by left|right]. split; [done|].
    destruct p; [done|]. unfold Zlength in *. cbn in *. lia. }
  assert (∃ data2, (if 0 <? Zlength p then copy_bytes data offset p else Some data) = Some data2 ∧
      Zlength data2 = Zlength data ∧ bytes_ok data2 ∧
      take (Z.to_nat offset) data2 = take (Z.to_nat offset) data ∧
      take (Z.to_nat (Zlength p)) (drop (Z.to_nat offset) data2) = p) as (data2 & -> & L2 & Ok2 & Pre2 & At2).
  { destruct E2 as [E2|[E2 ->]]; [by exists data1|by exists data]. }
  cbn [mbind option_bind]. rewrite wrap_small by (unfold is_uint; lia).
  destruct (IH (S i) (offset + Zlength p) data2 (<[i:=wrap 32 offset]> offsets)
    (<[i:=wrap 32 (Zlength p)]> lengths))
    as (d & o & l & E & Ld & Lo & Ll & Okd & Pre & Old & At); rewrite ?length_insert in *;
    [lia..|done|done|].
  exists d, o, l. split_and!; [done|lia|done|done|done| | |].
  - rewrite <- Pre2. apply (f_equal (take (Z.to_nat offset))) in Pre.
    rewrite !take_take, !Nat.min_l in Pre by lia. done.
  - intros k Hk. destruct (Old k) as [-> ->]; [lia|].
    by rewrite !list_lookup_insert_ne by lia.
  - intros [|k] q Hq; cbn in Hq.
    + injection Hq as <-. unfold starts. cbn [take fmap list_fmap Zsum].
      rewrite !Nat.add_0_r, Z.add_0_r. destruct (Old i) as [-> ->]; [lia|].
      rewrite !list_lookup_insert_eq by lia. split_and!; [done|done|lia|].
      rewrite <- At2 at 2. apply (take_drop_prefix _ _ (Z.to_nat (offset + Zlength p))); [done|lia].
    + destruct (At k q Hq) as (A1 & A2 & A3 & A4). unfold starts in *. cbn [take fmap list_fmap Zsum].
      rewrite !Nat.add_succ_r. rewrite Z.add_assoc. done.
Qed.

(** ** The group size *)

Lemma group_size_spec max_threads :
  1 ≤ max_threads → ∃ k, (k ≤ 8)%nat ∧ group_size max_threads = 2 ^ Z.of_nat k ∧
                         group_size max_threads ≤ max_threads.
Proof.
  intros Hm. unfold group_size.
  enough (∀ k, (k ≤ 8)%nat → ∃ k', (k' ≤ k)%nat ∧
    halve_until (S k) (2 ^ Z.of_nat k) max_threads = 2 ^ Z.of_nat k' ∧
    halve_until (S k) (2 ^ Z.of_nat k) max_threads ≤ max_threads) as Hk.
  { destruct (Hk 8%nat) as (k' & ? & ?); [lia|]. by exists k'. }
  induction k as [|k IH]; intros Hk.
  - exists 0%nat. change (2 ^ Z.of_nat 0) with 1. cbn [halve_until].
    destruct (Z.ltb_spec max_threads 1); [lia|]. split_and!; lia.
  - destruct IH as (k' & Hk' & E & Hle); [lia|]. cbn [halve_until].
    destruct (Z.ltb_spec max_threads (2 ^ Z.of_nat (S k))).
    + replace (2 ^ Z.of_nat (S k) / 2) with (2 ^ Z.of_nat k); [by exists k'; auto with lia|].
      rewrite Nat2Z.inj_succ, Z.pow_succ_r, Z.mul_comm, Z.div_mul; lia.
    + exists (S k). split_and!; [lia|done|done].
Qed.

(** ** Buffers *)

Definition own (b : gpu_buffer) : list nat := option_list (handle b).

Definition handles (b : EntropyBufferSet) : list nat :=
  own (b_data b) ++ own (b_offsets b) ++ own (b_lengths b) ++ own (b_results b).

Section Buffers.
Context {F : Type}.
Implicit Types (h : heap F) (m : memory F).

Definition buffer_ok h (ty : cell_type) (b : gpu_buffer) : Prop :=
  ∀ id, handle b = Some id → ∃ c, h !! id = Some c ∧ fits ty (capacity b) c.

Definition set_ok h (b : EntropyBufferSet) : Prop :=
  buffer_ok h TBytes (b_data b) ∧ buffer_ok h TWords (b_offsets b) ∧
  buffer_ok h TWords (b_lengths b) ∧ buffer_ok h TFloats (b_results b).

(** Two heaps that agree on some buffers. *)
Definition agree (ids : list nat) h h' : Prop := ∀ id, id ∈ ids → h' !! id = h !! id.

Lemma agree_subset ids ids' h h' : ids' ⊆ ids → agree ids h h' → agree ids' h h'.
Proof. intros Hs Ha id Hid. apply Ha. set_solver. Qed.

Lemma agree_trans ids h1 h2 h3 : agree ids h1 h2 → agree ids h2 h3 → agree ids h1 h3.
Proof. intros H1 H2 id Hid. by rewrite H2, H1. Qed.

Lemma buffer_ok_agree h h' ty b : agree (own b) h h' → buffer_ok h ty b → buffer_ok h' ty b.
Proof.
  intros Ha Hb id Hid. destruct (Hb id Hid) as (c & Hc & Hf). exists c. split; [|done].
  rewrite Ha; [done|]. unfold own. rewrite Hid. by apply list_elem_of_singleton.
Qed.

(** The buffers of the context: all different, all allocated. *)
Definition separate m (ids : list nat) : Prop := NoDup ids ∧ Forall (λ id, (id < m.2)%nat) ids.

Lemma separate_permutation m ids ids' : ids ≡ₚ ids' → separate m ids → separate m ids'.
Proof. intros Hp [H1 H2]. split; by rewrite <- Hp. Qed.

Lemma ensure_capacity_ok (dev : device F) ty needed b m ok b' m' X :
  device_ok dev → ensure_capacity dev ty needed b m = (ok, b', m') →
  separate m (own b ++ X) → buffer_ok m.1 ty b →
  separate m' (own b' ++ X) ∧ buffer_ok m'.1 ty b' ∧ agree X m.1 m'.1 ∧
  (ok = true → is_Some (handle b') ∧ needed ≤ capacity b').
Proof.
  intros Hdev E [Hn Hl] Hb. unfold ensure_capacity in E.
  destruct (bool_decide (is_Some (handle b)) && (needed <=? capacity b)) eqn:Et.
  - injection E as <- <- <-. apply andb_true_iff in Et as [E1 E2].
    apply bool_decide_eq_true in E1. apply Z.leb_le in E2. done.
  - unfold new_buffer in E. apply NoDup_app in Hn as (_ & Hd & Hn). apply Forall_app in Hl as [_ Hl].
    destruct (dev ty (grown_capacity (capacity b) needed)) as [c|] eqn:Ec; injection E as <- <- <-.
    + split_and!.
      * split; cbn.
        -- apply NoDup_cons. split; [|done]. intros Hx. rewrite Forall_forall in Hl.
           specialize (Hl _ Hx). cbn in Hl. lia.
        -- constructor; [lia|]. eapply Forall_impl; [exact Hl|]. cbn. lia.
      * intros id [= <-]. exists c. cbn [fst snd].
        split; [apply (lookup_insert_eq m.1)|].
        by apply (Hdev _ _ _ Ec).
      * intros id Hid. cbn [fst snd].
        rewrite (lookup_insert_ne m.1); [done|]. intros <-.
        rewrite Forall_forall in Hl. specialize (Hl _ Hid). cbn in Hl. lia.
      * intros _. split; [by eexists|]. unfold grown_capacity. cbn. lia.
    + split_and!; [by split|by intros id [=]|by intros id|done].
Qed.

Lemma set_ok_agree h h' b : agree (handles b) h h' → set_ok h b → set_ok h' b.
Proof.
  intros Ha (H1 & H2 & H3 & H4). unfold handles in Ha.
  split_and!; (eapply buffer_ok_agree; [|done]); eapply agree_subset, Ha; set_solver.
Qed.

Definition large_enough (total count : Z) (b : EntropyBufferSet) : Prop :=
  (is_Some (handle (b_data b)) ∧ total ≤ capacity (b_data b)) ∧
  (is_Some (handle (b_offsets b)) ∧ count * 4 ≤ capacity (b_offsets b)) ∧
  (is_Some (handle (b_lengths b)) ∧ count * 4 ≤ capacity (b_lengths b)) ∧
  (is_Some (handle (b_results b)) ∧ count * 4 ≤ capacity (b_results b)).

(** Buffers with their types, next to other addresses [R] of the context. *)
Definition typed (b : EntropyBufferSet) : list (cell_type * gpu_buffer) :=
  [(TBytes, b_data b); (TWords, b_offsets b); (TWords, b_lengths b); (TFloats, b_results b)].

Definition well_kept m (Y : list (cell_type * gpu_buffer)) (R : list nat) : Prop :=
  separate m ((Y ≫= λ e, own e.2) ++ R) ∧ Forall (λ e, buffer_ok m.1 e.1 e.2) Y.

Lemma well_kept_permutation m Y Y' R : Y ≡ₚ Y' → well_kept m Y R → well_kept m Y' R.
Proof.
  intros Hp [H1 H2]. split; [|by rewrite <- Hp].
  eapply separate_permutation, H1. by rewrite Hp.
Qed.

Lemma well_kept_set m b R : well_kept m (typed b) R ↔ separate m (handles b ++ R) ∧ set_ok m.1 b.
Proof.
  unfold well_kept, typed, handles, set_ok. cbn. rewrite !Forall_cons, app_nil_r.
  rewrite Forall_nil. tauto.
Qed.

(** One of the four calls, [Y] being the other buffers of the set. *)
Lemma ensure_one (dev : device F) ty needed b m ok b' m' Y R :
  device_ok dev → ensure_capacity dev ty needed b m = (ok, b', m') → well_kept m ((ty, b) :: Y) R →
  well_kept m' ((ty, b') :: Y) R ∧ agree R m.1 m'.1 ∧
  (ok = true → is_Some (handle b') ∧ needed ≤ capacity b').
Proof.
  intros Hdev E [Hs Hb]. apply Forall_cons_1 in Hb as [Hb HY]. cbn in *. rewrite <- app_assoc in Hs.
  eapply ensure_capacity_ok in E as (S1 & B1 & A1 & G1); [|done..].
  split_and!; [|eapply agree_subset, A1; set_solver|done]. split; [cbn; by rewrite <- app_assoc|].
  constructor; [done|]. rewrite Forall_forall in HY |- *. intros e He.
  eapply buffer_ok_agree, HY, He. eapply agree_subset, A1.
  intros id Hid. apply elem_of_app. left. apply list_elem_of_bind. eauto.
Qed.

Lemma ensure_buffers_ok (dev : device F) total count b m ok b' m' R :
  device_ok dev → ensure_buffers dev total count b m = (ok, b', m') → well_kept m (typed b) R →
  well_kept m' (typed b') R ∧ agree R m.1 m'.1 ∧ (ok = true → large_enough total count b').
Proof.
  intros Hdev E Hw. destruct b as [d o l r]. unfold ensure_buffers in E.
  unfold typed in Hw. cbn [b_data b_offsets b_lengths b_results] in *.
  destruct (ensure_capacity dev TBytes total d m) as [[ok1 d'] m1] eqn:E1.
  eapply ensure_one in E1 as (W1 & A1 & G1); [|done|exact Hw].
  destruct ok1; cbn [negb] in E; [|injection E as <- <- <-; by split_and!].
  eapply (well_kept_permutation _ _ [(TWords, o); (TBytes, d'); (TWords, l); (TFloats, r)]) in W1;
    [|solve_Permutation].
  destruct (ensure_capacity dev TWords (count * 4) o m1) as [[ok2 o'] m2] eqn:E2.
  eapply ensure_one in E2 as (W2 & A2 & G2); [|done|exact W1].
  destruct ok2; cbn [negb] in E.
  2: { injection E as <- <- <-. split_and!; [|by eapply agree_trans|done].
       eapply well_kept_permutation, W2. solve_Permutation. }
  eapply (well_kept_permutation _ _ [(TWords, l); (TBytes, d'); (TWords, o'); (TFloats, r)]) in W2;
    [|solve_Permutation].
  destruct (ensure_capacity dev TWords (count * 4) l m2) as [[ok3 l'] m3] eqn:E3.
  eapply ensure_one in E3 as (W3 & A3 & G3); [|done|exact W2].
  destruct ok3; cbn [negb] in E.
  2: { injection E as <- <- <-. split_and!; [|by do 2 (eapply agree_trans; [done|])|done].
       eapply well_kept_permutation, W3. solve_Permutation. }
  eapply (well_kept_permutation _ _ [(TFloats, r); (TBytes, d'); (TWords, o'); (TWords, l')]) in W3;
    [|solve_Permutation].
  destruct (ensure_capacity dev TFloats (count * 4) r m3) as [[ok4 r'] m4] eqn:E4.
  eapply ensure_one in E4 as (W4 & A4 & G4); [|done|exact W3].
  injection E as <- <- <-. split_and!.
  - eapply well_kept_permutation, W4. solve_Permutation.
  - by do 3 (eapply agree_trans; [done|]).
  - intros ->. split_and!; cbn; naive_solver.
Qed.

(** Reading a buffer through its handle. *)
Lemma bytes_of_ok h b : buffer_ok h TBytes b → is_Some (handle b) →
  ∃ id l, handle b = Some id ∧ h !! id = Some (CBytes l) ∧ bytes_of h b = Some l ∧
          Zlength l = capacity b ∧ bytes_ok l.
Proof.
  intros Hb [id Hid]. destruct (Hb id Hid) as ([l|l|l] & Hc & Hf); try done.
  destruct Hf. exists id, l. unfold bytes_of. rewrite Hid. cbn. by rewrite Hc.
Qed.

Lemma words_of_ok h b : buffer_ok h TWords b → is_Some (handle b) →
  ∃ id l, handle b = Some id ∧ h !! id = Some (CWords l) ∧ words_of h b = Some l ∧
          Zlength l = capacity b / 4.
Proof.
  intros Hb [id Hid]. destruct (Hb id Hid) as ([l|l|l] & Hc & Hf); try done.
  exists id, l. unfold words_of. rewrite Hid. cbn. by rewrite Hc.
Qed.

Lemma floats_of_ok h b : buffer_ok h TFloats b → is_Some (handle b) →
  ∃ id l, handle b = Some id ∧ h !! id = Some (CFloats l) ∧ floats_of h b = Some l ∧
          Zlength l = capacity b / 4.
Proof.
  intros Hb [id Hid]. destruct (Hb id Hid) as ([l|l|l] & Hc & Hf); try done.
  exists id, l. unfold floats_of. rewrite Hid. cbn. by rewrite Hc.
Qed.

(** Writing a buffer with contents of the same type and size. *)
Lemma store_ok h n ty b c Y R :
  well_kept (h, n) ((ty, b) :: Y) R → fits ty (capacity b) c →
  well_kept (store b c h, n) ((ty, b) :: Y) R ∧
  agree ((Y ≫= λ e, own e.2) ++ R) h (store b c h).
Proof.
  intros [[Hn Hl] Hb] Hf. apply Forall_cons_1 in Hb as [Hb HY]. cbn in *.
  rewrite <- app_assoc in Hn. apply NoDup_app in Hn as (Hn1 & Hd & Hn2).
  assert (Ha : agree ((Y ≫= λ e, own e.2) ++ R) h (store b c h)).
  { intros id Hid. unfold store. destruct (handle b) as [id'|] eqn:E; [|done].
    rewrite lookup_insert_ne; [done|]. intros ->. apply (Hd id); [|done].
    unfold own. rewrite E. by apply list_elem_of_singleton. }
  split; [|done]. split; [split; cbn; [|done]|].
  - rewrite <- app_assoc. by apply NoDup_app.
  - constructor.
    + intros id Hid. exists c. cbn. unfold store. cbn in Hid. rewrite Hid. by rewrite lookup_insert_eq.
    + rewrite Forall_forall in HY |- *. intros e He. eapply buffer_ok_agree, HY, He.
      eapply agree_subset, Ha. intros id Hid. apply elem_of_app. left. apply list_elem_of_bind. eauto.
Qed.

(** The state of a set between the copy and the end of the command. *)
Definition filled h (payloads : list (list Z)) (b : EntropyBufferSet) : Prop :=
  ∃ data offsets lengths results,
    bytes_of h (b_data b) = Some data ∧ words_of h (b_offsets b) = Some offsets ∧
    words_of h (b_lengths b) = Some lengths ∧ floats_of h (b_results b) = Some results ∧
    bytes_ok data ∧ (length payloads ≤ length results)%nat ∧
    placed_at payloads 0 0 data offsets lengths.

Lemma of_agree h h' b : agree (own b) h h' →
  bytes_of h' b = bytes_of h b ∧ words_of h' b = words_of h b ∧ floats_of h' b = floats_of h b.
Proof.
  intros Ha. unfold bytes_of, words_of, floats_of, agree, own in *.
  destruct (handle b) as [id|]; [|done]. cbn. rewrite Ha; [done|]. by apply list_elem_of_singleton.
Qed.

Lemma own_subset b ids : handles b ⊆ ids →
  own (b_data b) ⊆ ids ∧ own (b_offsets b) ⊆ ids ∧ own (b_lengths b) ⊆ ids ∧ own (b_results b) ⊆ ids.
Proof. unfold handles. intros Hs. split_and!; set_solver. Qed.

Lemma filled_agree h h' payloads b : agree (handles b) h h' → filled h payloads b → filled h' payloads b.
Proof.
  intros Ha (d & o & l & r & H1 & H2 & H3 & H4 & Hr). exists d, o, l, r.
  destruct (own_subset b (handles b)) as (S1 & S2 & S3 & S4); [done|].
  destruct (of_agree h h' (b_data b)) as (-> & _ & _); [by eapply agree_subset|].
  destruct (of_agree h h' (b_offsets b)) as (_ & -> & _); [by eapply agree_subset|].
  destruct (of_agree h h' (b_lengths b)) as (_ & -> & _); [by eapply agree_subset|].
  destruct (of_agree h h' (b_results b)) as (_ & _ & ->); [by eapply agree_subset|]. done.
Qed.

Lemma store_read ty b c h : is_Some (handle b) → fits ty (capacity b) c →
  match c with
  | CBytes l => bytes_of (store b c h) b = Some l
  | CWords l => words_of (store b c h) b = Some l
  | CFloats l => floats_of (store b c h) b = Some l
  end.
Proof.
  intros [id Hid] Hf. unfold bytes_of, words_of, floats_of, store. rewrite Hid. cbn.
  destruct c; by rewrite lookup_insert_eq.
Qed.

Lemma fill_buffers_ok h n payloads b R :
  well_kept (h, n) (typed b) R → large_enough (total_size payloads) (Zlength payloads) b →
  Zsum (Zlength <$> payloads) < 2 ^ 64 → Forall bytes_ok payloads →
  ∃ h', fill_buffers payloads b h = Some h' ∧ well_kept (h', n) (typed b) R ∧ agree R h h' ∧
        filled h' payloads b.
Proof.
  intros Hw ((Hd & Gd) & (Ho & Go) & (Hl & Gl) & (Hr & Gr)) Htot Hok.
  pose proof (Zsum_lengths_nonneg payloads) as Hpos.
  unfold total_size in Gd. rewrite wrap_small in Gd by (unfold is_uint; lia).
  destruct b as [d o l r]. unfold typed in *. cbn [b_data b_offsets b_lengths b_results] in *.
  pose proof Hw as [_ Hb]. rewrite !Forall_cons in Hb. destruct Hb as (B1 & B2 & B3 & B4 & _).
  destruct (bytes_of_ok h d B1 Hd) as (id1 & dl & _ & _ & E1 & L1 & Ok1).
  destruct (words_of_ok h o B2 Ho) as (id2 & ol & _ & _ & E2 & L2).
  destruct (words_of_ok h l B3 Hl) as (id3 & ll & _ & _ & E3 & L3).
  destruct (floats_of_ok h r B4 Hr) as (id4 & rl & _ & _ & E4 & L4). cbn [fst] in *.
  assert (Z.of_nat (length payloads) ≤ capacity o / 4) by (apply Z.div_le_lower_bound; unfold Zlength in *; lia).
  assert (Z.of_nat (length payloads) ≤ capacity l / 4) by (apply Z.div_le_lower_bound; unfold Zlength in *; lia).
  assert (Z.of_nat (length payloads) ≤ capacity r / 4) by (apply Z.div_le_lower_bound; unfold Zlength in *; lia).
  destruct (fill_spec payloads 0 0 dl ol ll) as (d' & o' & l' & E & Ld & Lo & Ll & Okd & _ & _ & Hp);
    [lia|lia|lia|unfold Zlength in *; lia|unfold Zlength in *; lia|done|done|].
  unfold fill_buffers. cbn [b_data b_offsets b_lengths].
  rewrite E1, E2, E3. cbn [mbind option_bind]. rewrite E. cbn [mbind option_bind fst snd].
  set (h1 := store d (CBytes d') h). set (h2 := store o (CWords o') h1).
  set (h3 := store l (CWords l') h2).
  assert (F1 : fits TBytes (capacity d) (CBytes (F := F) d')) by (split; [lia|done]).
  assert (F2 : fits TWords (capacity o) (CWords (F := F) o')) by (unfold fits, Zlength in *; lia).
  assert (F3 : fits TWords (capacity l) (CWords (F := F) l')) by (unfold fits, Zlength in *; lia).
  destruct (store_ok h n TBytes d _ _ R Hw F1) as (W1 & A1).
  eapply (well_kept_permutation _ _ [(TWords, o); (TBytes, d); (TWords, l); (TFloats, r)]) in W1;
    [|solve_Permutation].
  destruct (store_ok h1 n TWords o _ _ R W1 F2) as (W2 & A2).
  eapply (well_kept_permutation _ _ [(TWords, l); (TBytes, d); (TWords, o); (TFloats, r)]) in W2;
    [|solve_Permutation].
  destruct (store_ok h2 n TWords l _ _ R W2 F3) as (W3 & A3).
  fold h1 in A1. fold h2 in A2, W2. fold h3 in A3, W3. cbn in A1, A2, A3. exists h3. split_and!.
  - done.
  - eapply well_kept_permutation, W3. solve_Permutation.
  - do 2 (eapply agree_trans; [by eapply agree_subset; [|done]; set_solver|]).
    eapply agree_subset, A3. set_solver.
  - exists d', o', l', rl. cbn [b_data b_offsets b_lengths b_results].
    pose proof (store_read TBytes d _ h Hd F1) as R1. pose proof (store_read TWords o _ h1 Ho F2) as R2.
    pose proof (store_read TWords l _ h2 Hl F3) as R3. cbn in R1, R2, R3.
    destruct (of_agree h1 h2 d) as (D2 & _ & _); [eapply agree_subset, A2; set_solver|].
    destruct (of_agree h2 h3 d) as (D3 & _ & _); [eapply agree_subset, A3; set_solver|].
    destruct (of_agree h2 h3 o) as (_ & O3 & _); [eapply agree_subset, A3; set_solver|].
    destruct (of_agree h h1 r) as (_ & _ & Q1); [eapply agree_subset, A1; set_solver|].
    destruct (of_agree h1 h2 r) as (_ & _ & Q2); [eapply agree_subset, A2; set_solver|].
    destruct (of_agree h2 h3 r) as (_ & _ & Q3); [eapply agree_subset, A3; set_solver|].
    split_and!; [by rewrite D3, D2|by rewrite O3|done|by rewrite Q3, Q2, Q1|done| |done].
    unfold Zlength in *. lia.
Qed.

End Buffers.

(** ** The invariant *)

Section Invariant.
Context {F : Type} `{FloatOps F} (kernels : gmap string Z).
Implicit Types (h : heap F) (s : metal (F := F)) (j : job (F := F)).

(** The buffers a call holds. *)
Definition held j : list EntropyBufferSet :=
  match j_phase j with
  | JTaken b | JReady b | JFilled b | JPending b _ _ => [b]
  | JNull | JDestroyed => []
  end.

Definition sets s : list EntropyBufferSet := free_buffers s ++ (jobs s ≫= held).

(** The payloads fit the 32-bit offsets of the kernel. *)
Definition addressable (payloads : list (list Z)) : Prop :=
  Zsum (Zlength <$> payloads) ≤ 2 ^ 32 ∧ Forall (λ p, Zlength p + 256 ≤ 2 ^ 32) payloads.

Definition expected (max_threads : Z) (payloads : list (list Z)) : list F :=
  (λ p, group_entropy p 0 (Zlength p) (group_size max_threads)) <$> payloads.

Definition right_values (payloads : list (list Z)) (values : list F) : Prop :=
  ∀ max_threads, kernels !! kernel_name = Some max_threads → 1 ≤ max_threads →
    addressable payloads → values = expected max_threads payloads.

Definition phase_ok h (payloads : list (list Z)) (ph : job_phase) : Prop :=
  match ph with
  | JReady b => large_enough (total_size payloads) (Zlength payloads) b
  | JFilled b | JPending b (Some Running) _ => filled h payloads b
  | JPending b (Some Completed) _ => ∃ results,
      floats_of h (b_results b) = Some results ∧ right_values payloads (take (length payloads) results)
  | JPending b None _ => payloads = []
  | JPending _ (Some Failed) _ | JTaken _ | JNull | JDestroyed => True
  end.

Record job_ok h j : Prop := {
  job_in_memory : j_phase j = JNull ∧ j_answer j = NotWaited ∨
    Zsum (Zlength <$> j_payloads j) < 2 ^ 64 ∧ Forall bytes_ok (j_payloads j);
  job_phase_ok : phase_ok h (j_payloads j) (j_phase j);
  job_answer_ok : ∀ values, j_answer j = WaitValues values → right_values (j_payloads j) values
}.

Record metal_inv s : Prop := {
  inv_kernels : pipelines s = kernels;
  inv_separate : separate (mem s) (sets s ≫= handles);
  inv_sets : Forall (set_ok (mem s).1) (sets s);
  inv_jobs : Forall (job_ok (mem s).1) (jobs s)
}.

Lemma job_ok_agree h h' j : agree (held j ≫= handles) h h' → job_ok h j → job_ok h' j.
Proof.
  intros Ha [H1 H2 H3]. split; [done| |done]. unfold held in Ha.
  destruct (j_phase j) as [b|b|b|b [[]|] w| |]; try done; cbn in Ha, H2 |- *; rewrite app_nil_r in Ha.
  - by eapply filled_agree.
  - by eapply filled_agree.
  - destruct H2 as (r & E & Hv). exists r. split; [|done].
    destruct (of_agree h h' (b_results b)) as (_ & _ & ->); [|done].
    eapply agree_subset, Ha. by apply own_subset.
Qed.

(** The sets other than the one call [i] holds. *)
Definition others s (i : nat) : list EntropyBufferSet :=
  free_buffers s ++ (take i (jobs s) ≫= held) ++ (drop (S i) (jobs s) ≫= held).

Lemma jobs_split s i j : jobs s !! i = Some j → ∀ j',
  (<[i := j']> (jobs s) ≫= held) = (take i (jobs s) ≫= held) ++ held j' ++ (drop (S i) (jobs s) ≫= held).
Proof.
  intros Hi j'. apply lookup_lt_Some in Hi. rewrite insert_take_drop by done.
  by rewrite bind_app, bind_cons.
Qed.

Lemma sets_job s i j : jobs s !! i = Some j → sets s ≡ₚ held j ++ others s i.
Proof.
  intros Hi. unfold sets, others. rewrite <- (list_insert_id (jobs s) i j) at 1 by done.
  rewrite (jobs_split s i j Hi). solve_Permutation.
Qed.

Lemma inv_well_kept s i j b :
  metal_inv s → jobs s !! i = Some j → held j = [b] →
  well_kept (mem s) (typed b) (others s i ≫= handles).
Proof.
  intros [_ Hs Hb _] Hi Hh. pose proof (sets_job s i j Hi) as Hp. rewrite Hh in Hp.
  apply well_kept_set. split.
  - eapply separate_permutation, Hs. by rewrite Hp.
  - rewrite Hp in Hb. by apply Forall_cons_1 in Hb as [Hb _].
Qed.

(** A call changes its own set: what it holds or gives back afterwards is [b']. *)
Lemma inv_update s i j b b' m' j' freed e :
  metal_inv s → jobs s !! i = Some j → held j = [b] → held j' ++ freed = [b'] →
  well_kept m' (typed b') (others s i ≫= handles) → agree (others s i ≫= handles) (mem s).1 m'.1 →
  job_ok m'.1 j' →
  metal_inv (mk_metal m' (pipelines s) (free_buffers s ++ freed) e (<[i := j']> (jobs s))).
Proof.
  intros Hinv Hi Hh Hn Hw Ha Hj. pose proof Hinv as [Hk Hs Hb Hjs].
  pose proof (sets_job s i j Hi) as Hp. rewrite Hh in Hp.
  assert (Hp' : sets (mk_metal m' (pipelines s) (free_buffers s ++ freed) e (<[i := j']> (jobs s)))
                ≡ₚ b' :: others s i).
  { unfold sets, others. cbn. rewrite (jobs_split s i j Hi). change (b' :: ?l) with ([b'] ++ l).
    rewrite <- Hn. solve_Permutation. }
  apply well_kept_set in Hw as [Hw1 Hw2]. split; cbn.
  - done.
  - eapply separate_permutation, Hw1. by rewrite Hp'.
  - rewrite Hp'. constructor; [done|]. rewrite Hp in Hb. apply Forall_cons_1 in Hb as [_ Hb].
    rewrite Forall_forall in Hb |- *. intros x Hx. eapply set_ok_agree, Hb, Hx.
    eapply agree_subset, Ha. intros id Hid. apply list_elem_of_bind. eauto.
  - apply Forall_lookup. intros k jk Hk'.
    apply list_lookup_insert_Some in Hk' as [(_ & <- & _)|[Hne Hk']]; [done|].
    rewrite Forall_forall in Hjs. eapply job_ok_agree; [|by eapply Hjs, list_elem_of_lookup_2].
    eapply agree_subset, Ha. intros id Hid. apply list_elem_of_bind in Hid as (x & Hid & Hx).
    apply list_elem_of_bind. exists x. split; [done|]. unfold others. rewrite !elem_of_app.
    right. rewrite !list_elem_of_bind. destruct (decide (k < i)%nat).
    + left. exists jk. split; [done|]. apply list_elem_of_lookup. exists k. by rewrite lookup_take_lt.
    + right. exists jk. split; [done|]. apply list_elem_of_lookup. exists (k - S i)%nat.
      rewrite lookup_drop. replace (S i + (k - S i))%nat with k by lia. done.
Qed.

Lemma alter_over_insert {A} (f : A → A) (l : list A) i x y :
  l !! i = Some y → alter f i (<[i := x]> l) = <[i := f x]> l.
Proof.
  intros E. rewrite (alter_insert f _ i x); [by rewrite list_insert_insert_eq|].
  apply list_lookup_insert_eq. by eapply lookup_lt_Some.
Qed.

(** A new call: it takes a set from the pool, or a new one. *)
Lemma inv_add_null s payloads e :
  metal_inv s →
  metal_inv (add_job (mk_job payloads JNull NotWaited) (set_error e s)).
Proof.
  intros [Hk Hs Hb Hj].
  assert (E : sets (add_job (mk_job payloads JNull NotWaited) (set_error e s)) = sets s).
  { unfold sets. cbn. by rewrite bind_app, app_nil_r. }
  split; rewrite ?E; try done. cbn. apply Forall_app. split; [done|]. constructor; [|done].
  split; [by left|done|done].
Qed.

Lemma inv_take s payloads b s' :
  metal_inv s → take_buffers s = (b, s') →
  Zsum (Zlength <$> payloads) < 2 ^ 64 → Forall bytes_ok payloads →
  metal_inv (add_job (mk_job payloads (JTaken b) NotWaited) s').
Proof.
  intros [Hk Hs Hb Hj] E Htot Hok.
  assert (Hm : pipelines s' = pipelines s ∧ mem s' = mem s ∧ jobs s' = jobs s ∧
    (sets (add_job (mk_job payloads (JTaken b) NotWaited) s') ≡ₚ sets s ∨
     b = EntropyBufferSet_new ∧
     sets (add_job (mk_job payloads (JTaken b) NotWaited) s') ≡ₚ b :: sets s)).
  { unfold take_buffers in E. destruct (last (free_buffers s)) as [b0|] eqn:El; injection E as <- <-.
    - split_and!; [done..|]. left. unfold sets. cbn. rewrite bind_app. cbn.
      apply last_Some in El as [l El]. rewrite El, removelast_last. solve_Permutation.
    - split_and!; [done..|]. right. split; [done|]. unfold sets. cbn. rewrite bind_app. cbn.
      solve_Permutation. }
  destruct Hm as (E1 & E2 & E3 & Hp). split; cbn [pipelines mem jobs add_job].
  - by rewrite E1.
  - rewrite E2. eapply separate_permutation, Hs. destruct Hp as [Hp|[-> Hp]]; by rewrite Hp.
  - rewrite E2. destruct Hp as [Hp|[-> Hp]]; rewrite Hp; [done|]. constructor; [|done].
    split_and!; by intros ? [=].
  - rewrite E2, E3. apply Forall_app. split; [done|]. constructor; [|done].
    split; [by right|done|done].
Qed.

Lemma Zsum_app l k : Zsum (l ++ k) = Zsum l + Zsum k.
Proof. induction l as [|x l IH]; cbn; lia. Qed.

Lemma starts_bound payloads i p :
  payloads !! i = Some p →
  0 ≤ starts payloads i ∧ starts payloads i + Zlength p ≤ Zsum (Zlength <$> payloads).
Proof.
  intros Ep. unfold starts. split; [apply Zsum_lengths_nonneg|].
  rewrite <- (take_drop_middle payloads i p Ep) at 2. rewrite fmap_app, Zsum_app. cbn.
  pose proof (Zsum_lengths_nonneg (drop (S i) payloads)). lia.
Qed.

Lemma group_power_range k : (k ≤ 8)%nat → 1 ≤ 2 ^ Z.of_nat k ≤ 256.
Proof.
  intros Hk. change 256 with (2 ^ 8). split; [|apply Z.pow_le_mono_r; lia].
  pose proof (Z.pow_pos_nonneg 2 (Z.of_nat k)). lia.
Qed.

Lemma group_size_range max_threads : 1 ≤ max_threads → 1 ≤ group_size max_threads ≤ 256.
Proof. intros Hm. destruct (group_size_spec max_threads Hm) as (k & Hk & -> & _). by apply group_power_range. Qed.

(** What the device leaves in the results, when the payloads are addressable. *)
Lemma dispatch_values max_threads payloads data offsets lengths results results' :
  1 ≤ max_threads → addressable payloads → bytes_ok data →
  placed_at payloads 0 0 data offsets lengths →
  dispatch (group_size max_threads) (length payloads) data offsets lengths results results' →
  take (length payloads) results' = expected max_threads payloads.
Proof.
  intros Hm [Htot Hlen] Hok Hp (values & Hn & _ & -> & Hv).
  rewrite take_app_le, take_ge by lia. unfold expected. apply list_eq. intros i.
  rewrite list_lookup_fmap. destruct (payloads !! i) as [p|] eqn:Ep.
  - destruct (lookup_lt_is_Some_2 values i) as [v Ev].
    { rewrite Hn. by eapply lookup_lt_Some. }
    rewrite Ev. cbn. f_equal. destruct (Hv i v Ev) as (off & len & Eo & El & Hk).
    destruct (Hp i p Ep) as (Po & Pl & Pb & Ps). cbn [Nat.add] in *. rewrite Z.add_0_l in *.
    rewrite Forall_lookup in Hlen. specialize (Hlen _ _ Ep). cbn in Hlen.
    pose proof (Zlength_nonneg p).
    pose proof (starts_bound payloads i p Ep) as [Hst0 Hst].
    destruct (group_size_range max_threads Hm) as [Hg1 Hg2].
    assert (Hs : 0 ≤ off ∧ off + len ≤ 2 ^ 32 ∧ off + len ≤ Zlength data ∧ len = Zlength p ∧
                 slice data off len = p).
    { rewrite Eo in Po. injection Po as ->. rewrite El in Pl. injection Pl as ->.
      rewrite (wrap_small 32 (Zlength p)) by (unfold is_uint; lia).
      destruct (decide (starts payloads i < 2 ^ 32)).
      - rewrite wrap_small by (unfold is_uint; lia). split_and!; [lia|lia|lia|done|done].
      - assert (starts payloads i = 2 ^ 32) as E by lia. rewrite E in *.
        change (wrap 32 (2 ^ 32)) with 0. assert (Zlength p = 0) as E0 by lia.
        rewrite E0. unfold slice. cbn. split_and!; [lia|lia|lia|done|].
        destruct p; [done|]. unfold Zlength in E0. cbn in E0. lia. }
    destruct Hs as (S1 & S2 & S3 & -> & Hsl). destruct Hk as (traces & g & g' & Hsh & Hsc & Hx & Ho).
    destruct (kernel_run data off (Zlength p) (group_size max_threads)) with (traces := traces) (g := g)
      as (g2 & E2 & O2); [lia|done|lia|lia|done|done|].
    rewrite Hx in E2. injection E2 as <-. rewrite Ho in O2. injection O2 as ->.
    unfold group_entropy. rewrite Hsl. unfold slice. rewrite drop_0, take_ge; [done|].
    unfold Zlength. lia.
  - apply lookup_ge_None in Ep. apply lookup_ge_None. lia.
Qed.

(** The call keeps a set. *)
Lemma inv_keep s i payloads ph0 a0 b b' m' ph a e :
  metal_inv s → jobs s !! i = Some (mk_job payloads ph0 a0) →
  held (mk_job payloads ph0 a0) = [b] → held (mk_job payloads ph a) = [b'] →
  well_kept m' (typed b') (others s i ≫= handles) → agree (others s i ≫= handles) (mem s).1 m'.1 →
  phase_ok m'.1 payloads ph → (∀ values, a = WaitValues values → right_values payloads values) →
  metal_inv (mk_metal m' (pipelines s) (free_buffers s) e (<[i := mk_job payloads ph a]> (jobs s))).
Proof.
  intros Hinv Hi Hh Hn Hw Ha Hp Hv. rewrite <- (app_nil_r (free_buffers s)).
  eapply inv_update; [done|done|exact Hh|by rewrite Hn|done|done|].
  split; [|done|done]. right. pose proof (inv_jobs s Hinv) as Hj. rewrite Forall_lookup in Hj.
  destruct (job_in_memory _ _ (Hj _ _ Hi)) as [[E _]|]; [|done]. cbn in E. by subst ph0.
Qed.

(** The call gives its set back. *)
Lemma inv_release s i payloads ph0 a0 b b' m' ph e :
  metal_inv s → jobs s !! i = Some (mk_job payloads ph0 a0) →
  held (mk_job payloads ph0 a0) = [b] → ph = JNull ∨ ph = JDestroyed →
  well_kept m' (typed b') (others s i ≫= handles) → agree (others s i ≫= handles) (mem s).1 m'.1 →
  metal_inv (mk_metal m' (pipelines s) (free_buffers s ++ [b']) e
               (<[i := mk_job payloads ph a0]> (jobs s))).
Proof.
  intros Hinv Hi Hh Hph Hw Ha. pose proof (inv_jobs s Hinv) as Hj. rewrite Forall_lookup in Hj.
  destruct (Hj _ _ Hi) as [J1 J2 J3]. eapply inv_update; [done|done|exact Hh| |done|done|].
  - by destruct Hph as [->| ->].
  - split; [|by destruct Hph as [->| ->]|done]. destruct J1 as [[E _]|]; [|by right].
    cbn in E. by subst ph0.
Qed.

Lemma filled_results h payloads b :
  filled h payloads b → ∃ results, floats_of h (b_results b) = Some results ∧
                                   (length payloads ≤ length results)%nat.
Proof. intros (d & o & l & r & _ & _ & _ & E & _ & Hl & _). by exists r. Qed.

(** Writing the results buffer of a set. *)
Lemma store_results h n b R results results' :
  well_kept (h, n) (typed b) R → floats_of h (b_results b) = Some results →
  length results' = length results →
  well_kept (store (b_results b) (CFloats results') h, n) (typed b) R ∧
  agree R h (store (b_results b) (CFloats results') h) ∧
  floats_of (store (b_results b) (CFloats results') h) (b_results b) = Some results'.
Proof.
  intros Hw Hf Hl.
  eapply (well_kept_permutation _ _ [(TFloats, b_results b); (TBytes, b_data b);
    (TWords, b_offsets b); (TWords, b_lengths b)]) in Hw; [|unfold typed; solve_Permutation].
  assert (Hh : is_Some (handle (b_results b))).
  { unfold floats_of in Hf. destruct (handle (b_results b)); [by eexists|done]. }
  assert (Hfit : fits TFloats (capacity (b_results b)) (CFloats results')).
  { destruct Hw as [_ Hb]. apply Forall_cons_1 in Hb as [Hb _].
    destruct (floats_of_ok h (b_results b) Hb Hh) as (id & l & _ & _ & E & L).
    rewrite Hf in E. injection E as <-. cbn. unfold Zlength in *. by rewrite Hl. }
  destruct (store_ok h n TFloats _ _ _ R Hw Hfit) as [W A]. split_and!.
  - eapply well_kept_permutation, W. unfold typed. solve_Permutation.
  - eapply agree_subset, A. set_solver.
  - apply (store_read TFloats _ _ h Hh Hfit).
Qed.

Lemma dispatch_length threads count data offsets lengths (results results' : list F) :
  dispatch threads count data offsets lengths results results' → length results' = length results.
Proof. intros (v & Hn & Hl & -> & _). rewrite length_app, length_drop. lia. Qed.

Lemma metal_inv_step s s' : metal_inv s → metal_step s s' → metal_inv s'.
Proof.
  intros Hinv Hstep. destruct Hstep as
    [s payloads Hk|s payloads b s' Hk Ht Htot Hok|s i b a Hi|s i payloads b a dev b' m' Hi Hne Hdev E
    |s i payloads b a dev b' m' Hi Hne Hdev E|s i payloads b a h' Hi E|s i payloads b a Hi
    |s i payloads b a Hi|s i payloads b w a data offsets lengths results results' mt Hi Hk E1 E2 E3 E4 Hd
    |s i payloads b w a results results' Hi E Hl|s i payloads b Hi|s i payloads b results Hi E
    |s i payloads b e Hi|s i payloads b cmd w a Hi Hc].
  1: by apply inv_add_null.
  1: by eapply inv_take.
  all: pose proof (inv_jobs s Hinv) as Hj; rewrite Forall_lookup in Hj;
    pose proof (Hj _ _ Hi) as [J1 J2 J3]; cbn in J1, J2, J3;
    pose proof (inv_well_kept s i _ b Hinv Hi eq_refl) as Hw;
    unfold give_up_job, answer_job, set_job, return_buffers, set_mem, set_free, set_error;
    cbn [jobs mem pipelines free_buffers last_error];
    rewrite (alter_insert _ _ _ _ Hi); cbn [j_payloads j_phase j_answer].
  all: try rewrite (alter_over_insert _ _ _ _ _ Hi); cbn [j_payloads j_phase j_answer].
  - eapply (inv_keep s i _ _ _ b b (mem s)); done.
  - destruct (ensure_buffers_ok _ _ _ _ _ _ _ _ _ Hdev E Hw) as (W & A & G).
    eapply (inv_keep s i _ _ _ b b' m'); try done. by apply G.
  - destruct (ensure_buffers_ok _ _ _ _ _ _ _ _ _ Hdev E Hw) as (W & A & _).
    eapply (inv_release s i _ _ _ b b' m'); try done. by left.
  - destruct J1 as [[? _]|[Htot Hok]]; [done|]. rewrite (surjective_pairing (mem s)) in Hw.
    destruct (fill_buffers_ok _ _ payloads b _ Hw J2 Htot Hok) as (h2 & E2 & W & A & Hf).
    rewrite E in E2. injection E2 as <-. eapply (inv_keep s i _ _ _ b b (h', _)); done.
  - eapply (inv_release s i _ _ _ b b (mem s)); try done. by left.
  - eapply (inv_keep s i _ _ _ b b (mem s)); done.
  - destruct J2 as (d & o & l & r & F1 & F2 & F3 & F4 & Okd & Hlen & Hp).
    rewrite E1 in F1. injection F1 as <-. rewrite E2 in F2. injection F2 as <-.
    rewrite E3 in F3. injection F3 as <-. rewrite (surjective_pairing (mem s)) in Hw.
    destruct (store_results _ _ b _ results results' Hw E4) as (W & A & Er); [by eapply dispatch_length|].
    eapply (inv_keep s i _ _ _ b b (_, _)); try done. exists results'. split; [done|].
    intros mt' Hk' Hm Ha. rewrite (inv_kernels s Hinv) in Hk. rewrite Hk in Hk'. injection Hk' as <-.
    by eapply dispatch_values.
  - rewrite (surjective_pairing (mem s)) in Hw.
    destruct (store_results _ _ b _ results results' Hw E) as (W & A & Er); [done|].
    eapply (inv_keep s i _ _ _ b b (_, _)); done.
  - eapply (inv_keep s i _ _ _ b b (mem s)); try done. intros values [= <-] mt _ _ _. by rewrite J2.
  - eapply (inv_keep s i _ _ _ b b (mem s)); try done. destruct J2 as (r & Er & Hv).
    rewrite E in Er. injection Er as <-. by intros values [= <-].
  - eapply (inv_keep s i _ _ _ b b (mem s)); done.
  - eapply (inv_release s i _ _ _ b b (mem s)); try done. by right.
Qed.

Lemma metal_inv_start : metal_inv (metal_start kernels).
Proof. split; cbn; [done|by split; constructor|constructor|constructor]. Qed.

Lemma metal_reachable_inv s : metal_reachable kernels s → metal_inv s.
Proof. induction 1; [apply metal_inv_start|by eapply metal_inv_step]. Qed.

End Invariant.

(** ** Progress *)

Lemma project_sequential codes (n tid : nat) :
  (n ≤ tid)%nat →
  (filter (λ e : nat * instr, e.1 = tid)
     (concat (imap (λ i code, pair (n + i)%nat <$> code) codes))).*2 = default [] (codes !! (tid - n)%nat).
Proof.
  revert n. induction codes as [|c codes IH]; intros n Hn; [done|].
  cbn [imap concat]. rewrite filter_app, fmap_app, Nat.add_0_r.
  assert (E : imap ((λ i code, pair (n + i)%nat <$> code) ∘ S) codes =
              imap (λ i code, pair (S n + i)%nat <$> code) codes).
  { apply imap_ext. intros i x _. cbn. by rewrite Nat.add_succ_r. }
  rewrite E. destruct (decide (n = tid)) as [->|Hne].
  - rewrite Nat.sub_diag. change (default [] ((c :: codes) !! 0%nat)) with c.
    assert (E2 : ∀ m codes', (tid < m)%nat → filter (λ e : nat * instr, e.1 = tid)
        (concat (imap (λ i code, pair (m + i)%nat <$> code) codes')) = []).
    { clear. intros m codes' Hm. destruct (filter _ _) as [|e l] eqn:E; [done|exfalso].
      assert (He : e ∈ e :: l) by left. rewrite <- E in He. apply list_elem_of_filter in He as [He1 He2].
      apply list_elem_of_In, in_concat in He2 as (k & Hk & He2).
      apply list_elem_of_In, list_elem_of_lookup in Hk as [i Hk]. rewrite list_lookup_imap in Hk.
      destruct (codes' !! i); [|done]. injection Hk as <-.
      apply list_elem_of_In, list_elem_of_fmap in He2 as (a & -> & _). cbn in He1. lia. }
    rewrite E2 by lia. rewrite app_nil_r. clear. induction c as [|a c IH]; [done|].
    rewrite fmap_cons, filter_cons_True by done. rewrite fmap_cons. by rewrite IH.
  - replace (tid - n)%nat with (S (tid - S n)) by lia. cbn [lookup list_lookup].
    rewrite IH by lia. enough (E2 : filter (λ e : nat * instr, e.1 = tid) (pair n <$> c) = []) by by rewrite E2.
    clear -Hne. induction c as [|a c IH]; [done|].
    rewrite fmap_cons, filter_cons_False by done. exact IH.
Qed.

Lemma sequential_interleaving codes : interleaving codes (sequential codes).
Proof.
  split.
  - apply Forall_forall. intros e He. apply sequential_elem in He as (c & Hc & _).
    by eapply lookup_lt_Some.
  - intros tid code Hc. pose proof (project_sequential codes 0 tid) as E. cbn [Nat.add] in E.
    unfold sequential. rewrite E, Nat.sub_0_r, Hc by lia. done.
Qed.

Section Progress.
Context {F : Type} `{FloatOps F} (kernels : gmap string Z).
Implicit Types (s : metal (F := F)).






End Progress.

(** ** Growth of a pooled buffer *)

Fixpoint ensure_all {F} (dev : device F) (ty : cell_type) (needs : list Z) (b : gpu_buffer)
    (m : memory F) : gpu_buffer * memory F :=
  match needs with
  | [] => (b, m)
  | n :: needs => let '(_, b, m) := ensure_capacity dev ty n b m in ensure_all dev ty needs b m
  end.

Lemma ensure_all_growth {F} (dev : device F) ty needs b m largest (k a : nat) :
  (∀ ty bytes, is_Some (dev ty bytes)) → 0 ≤ largest < 2 ^ 62 → largest ≤ 4096 * 2 ^ Z.of_nat k →
  Forall (λ n, n ≤ largest) needs → (a ≤ S k)%nat →
  0 ≤ capacity b ≤ Z.max 4096 (2 * largest) →
  (handle b = None → a = 0%nat ∧ capacity b = 0) → (∀ a', a = S a' → 4096 * 2 ^ Z.of_nat a' ≤ capacity b) →
  ∃ a', (a ≤ a' ≤ S k)%nat ∧ (ensure_all dev ty needs b m).2.2 = (m.2 + (a' - a))%nat ∧
    capacity (ensure_all dev ty needs b m).1 ≤ Z.max 4096 (2 * largest).
Proof.
  intros Hdev Hl Hk Hn. revert b m a. induction Hn as [|n needs Hn _ IH]; intros b m a Ha Hc Hnull Hg.
  { exists a. cbn. split_and!; [lia|lia|lia|lia]. }
  cbn [ensure_all]. unfold ensure_capacity.
  destruct (bool_decide (is_Some (handle b)) && (n <=? capacity b)) eqn:Et; [by apply IH|].
  unfold new_buffer. destruct (Hdev ty (grown_capacity (capacity b) n)) as [c Ec]. rewrite Ec.
  assert (Hw : wrap 64 (capacity b * 2) = capacity b * 2) by (apply wrap_small; unfold is_uint; lia).
  assert (Hak : (a ≤ k)%nat ∧ (capacity b < largest ∨ capacity b = 0)).
  { apply andb_false_iff in Et as [Et|Et].
    - apply bool_decide_eq_false in Et. destruct (handle b); [|destruct Hnull; [done|lia]].
      exfalso. apply Et. by eexists.
    - apply Z.leb_gt in Et. split; [|lia]. destruct a as [|a]; [lia|]. specialize (Hg a eq_refl).
      assert (2 ^ Z.of_nat a < 2 ^ Z.of_nat k) as Hp by lia.
      apply Z.pow_lt_mono_r_iff in Hp; lia. }
  destruct Hak as [Hak Hcap].
  destruct (IH (mk_gpu_buffer (Some m.2) (grown_capacity (capacity b) n)) (<[m.2:=c]> m.1, S m.2) (S a))
    as (a' & Ha' & E & Hcap'); cbn [capacity handle snd].
  - lia.
  - unfold grown_capacity. rewrite Hw. lia.
  - done.
  - intros a' [= <-]. unfold grown_capacity. rewrite Hw. destruct a as [|a]; [cbn; lia|].
    specialize (Hg a eq_refl). rewrite (Nat2Z.inj_succ a), Z.pow_succ_r by lia. lia.
  - exists a'. rewrite E. cbn. split_and!; [lia|lia|lia|done].
Qed.

(** ** Executable histories are histories *)

Section Play.
Context {F : Type} `{FloatOps F}.
Implicit Types (s : metal (F := F)).

Lemma zero_device_ok : device_ok zero_device.
Proof.
  intros ty bytes c. unfold zero_device. destruct (Z.ltb_spec bytes 0); [done|].
  assert (0 ≤ bytes / 4) by (apply Z.div_pos; lia).
  destruct ty; intros [= <-]; unfold fits, Zlength; rewrite length_replicate; [|lia|lia].
  split; [lia|]. apply Forall_replicate. by_decide.
Qed.

Lemma run_kernel_result data threads offset len v :
  run_kernel data threads offset len = Some v → kernel_result (F := F) data threads offset len v.
Proof.
  unfold run_kernel. case_decide as Hok; [|done]. intros [= <-].
  destruct Hok as (HT & Hb & Hs & Hw).
  exists ((λ phase, sequential (thread_codes threads phase)) <$> phases len threads),
    (mk_group (replicate (Z.to_nat threads) (d_of_uint 0)) (replicate 256 0)
       (replicate 256 (d_of_uint 0)) None).
  assert (Hsh : shape (F := F) threads (mk_group (replicate (Z.to_nat threads) (d_of_uint 0))
    (replicate 256 0) (replicate 256 (d_of_uint 0)) None)).
  { split_and!; cbn; by rewrite ?length_replicate. }
  assert (Hsc : kernel_schedule len threads
    ((λ phase, sequential (thread_codes threads phase)) <$> phases len threads)).
  { apply Forall2_fmap_r, Forall_Forall2_diag, Forall_forall. intros phase _.
    apply sequential_interleaving. }
  destruct (kernel_run data offset len threads HT Hb Hs Hw _ _ Hsh Hsc) as (g' & E & O).
  by exists g'.
Qed.

Lemma gpu_values_dispatch threads count data offsets lengths results values :
  gpu_values threads count data offsets lengths = Some values → length values = count →
  (count ≤ length results)%nat →
  dispatch (F := F) threads count data offsets lengths results (values ++ drop count results).
Proof.
  intros Hv Hl Hr. exists values. split_and!; [done|done|done|]. intros i v Hi.
  apply mapM_Some in Hv. apply Forall2_flip in Hv.
  destruct (Forall2_lookup_l _ _ _ _ _ Hv Hi) as ([o l] & He & Hk).
  rewrite lookup_take_Some in He. destruct He as [He _].
  apply lookup_zip_with_Some in He as (o' & l' & [= <- <-] & Ho & Hlen).
  exists o, l. split_and!; [done|done|]. by apply run_kernel_result.
Qed.

Lemma metal_act_step a s s' : metal_act a s = Some s' → metal_step s s'.
Proof.
  destruct a as [payloads|i|i|i|i|i|i]; cbn [metal_act]; intros E.
  - case_decide as Hd; [|done]. destruct Hd as (H1 & H2 & H3).
    destruct (take_buffers s) as [b s1] eqn:Et. injection E as <-. by apply ms_take.
  - destruct (jobs s !! i) as [[[|p l] [b| | | | |] a]|] eqn:Ei; try done.
    destruct (ensure_buffers _ _ _ _ _) as [[[] b'] m'] eqn:Ee; [|done]. injection E as <-.
    eapply ms_ensure; [done|done|apply zero_device_ok|done].
  - destruct (jobs s !! i) as [[payloads [|b| | | |] a]|] eqn:Ei; try done.
    destruct (fill_buffers payloads b (mem s).1) as [h|] eqn:Ef; [|done]. injection E as <-.
    by eapply ms_fill.
  - destruct (jobs s !! i) as [[payloads [| |b| | |] a]|] eqn:Ei; try done. injection E as <-.
    by eapply ms_commit.
  - destruct (jobs s !! i) as [[payloads [| | |b [[]|] w| |] a]|] eqn:Ei; try done.
    destruct (pipelines s !! kernel_name) as [mt|] eqn:Ep; [|done].
    destruct (bytes_of _ _) as [d|] eqn:E1; [|done]. destruct (words_of _ (b_offsets b)) as [o|] eqn:E2; [|done].
    destruct (words_of _ (b_lengths b)) as [l|] eqn:E3; [|done].
    destruct (floats_of _ _) as [r|] eqn:E4; [|done]. cbn [mbind option_bind] in E.
    destruct (gpu_values _ _ _ _ _) as [v|] eqn:E5; [|done]. cbn [mbind option_bind] in E.
    case_decide as Hd; [|done]. injection E as <-.
    eapply ms_gpu; [done..|]. apply gpu_values_dispatch; naive_solver.
  - destruct (jobs s !! i) as [[payloads [| | |b [[]|] []| |] []]|] eqn:Ei; try done.
    destruct (floats_of _ _) as [r|] eqn:E4; [|done]. injection E as <-. by eapply ms_wait.
  - destruct (jobs s !! i) as [[payloads [| | |b cmd w| |] a]|] eqn:Ei; try done.
    destruct cmd as [[]|]; [done|..]; injection E as <-; by eapply ms_destroy.
Qed.

Lemma metal_play_reachable kernels actions s s' :
  metal_reachable kernels s → metal_play actions s = Some s' → metal_reachable kernels s'.
Proof.
  revert s. induction actions as [|a actions IH]; intros s Hs; cbn; [by intros [= <-]|].
  destruct (metal_act a s) as [s1|] eqn:E; [|done]. apply IH.
  eapply mr_step, metal_act_step; done.
Qed.

End Play.

(** ** Properties *)

(** C10. Dispatches do not disturb each other: in every state the worker threads
    and the device can reach, no GPU buffer belongs to two sets, pooled or in
    use, and a [wait] that succeeds returns, for each payload of its own call in
    order, the value of the kernel on that payload alone, however the calls and
    the device interleave and whatever buffers were reused. *)
Theorem dispatch_isolated {F} `{FloatOps F} kernels (s : metal (F := F)) :
  metal_reachable kernels s →
  NoDup (sets s ≫= handles) ∧
  ∀ i payloads ph values max_threads,
    jobs s !! i = Some (mk_job payloads ph (WaitValues values)) →
    kernels !! kernel_name = Some max_threads → 1 ≤ max_threads → addressable payloads →
    values = expected max_threads payloads.
Proof.
  intros Hr. pose proof (metal_reachable_inv kernels s Hr) as Hinv. split; [apply Hinv|].
  intros i payloads ph values mt Hi Hk Hm Ha. pose proof (inv_jobs _ _ Hinv) as Hj.
  rewrite Forall_lookup in Hj. by apply (job_answer_ok _ _ _ (Hj _ _ Hi) values).
Qed.


(** C25. A pooled buffer settles: over any sequence of requests of at most
    [largest] bytes that the device can serve, its capacity stays within twice
    the largest request (or 4096), and it is allocated at most k + 1 times, where
    4096 * 2^k covers the largest request. *)
Theorem pooled_buffer_settles {F} (dev : device F) ty needs m largest k :
  (∀ ty bytes, is_Some (dev ty bytes)) → 0 ≤ largest < 2 ^ 62 → largest ≤ 4096 * 2 ^ Z.of_nat k →
  Forall (λ n, n ≤ largest) needs →
  capacity (ensure_all dev ty needs null_buffer m).1 ≤ Z.max 4096 (2 * largest) ∧
  ((ensure_all dev ty needs null_buffer m).2.2 ≤ m.2 + S k)%nat.
Proof.
  intros Hdev Hl Hk Hn.
  destruct (ensure_all_growth dev ty needs null_buffer m largest k 0) as (a & Ha & E & Hc);
    cbn; try done; [lia|lia|].
  split; [done|]. rewrite E. lia.
Qed.

(** ** Witnesses *)

Definition test_kernels : gmap string Z := {[ kernel_name := 4 ]}.

(** Two calls at once; the third reuses the buffers of the first. *)
Definition test_history : list metal_action :=
  [ASubmit [[1; 2]; [7]]; ASubmit [[5; 6; 5; 6]]; AEnsure 1; AEnsure 0; AFill 0; ACommit 0; AFill 1;
   AGpu 0; ACommit 1; AWait 0; ADestroy 0; ASubmit [[3; 3; 4; 4]; []]; AEnsure 2; AFill 2;
   AGpu 1; ACommit 2; AGpu 2; AWait 2; AWait 1].

Definition test_state : metal := default (metal_start test_kernels)
  (metal_play test_history (metal_start (F := spec_float) test_kernels)).

Lemma test_state_reachable : metal_reachable test_kernels test_state.
Proof.
  unfold test_state.
  destruct (metal_play test_history (metal_start (F := spec_float) test_kernels)) as [s|] eqn:E;
    [|constructor]. eapply metal_play_reachable, E. constructor.
Qed.


(** The third call, on the buffers of the first. *)
Lemma dispatch_isolated_witness :
  ∃ ph values, jobs test_state !! 2%nat =
    Some (mk_job [[3; 3; 4; 4]; []] ph (WaitValues values)) ∧
    values = expected 4 [[3; 3; 4; 4]; []].
Proof.
  destruct (dispatch_isolated test_kernels test_state test_state_reachable) as [_ Hv].
  assert (E : (λ j, (j_payloads j, j_answer j)) <$> jobs test_state !! 2%nat =
              Some ([[3; 3; 4; 4]; []], WaitValues [d_of_uint 1; d_of_uint 0])) by (vm_compute; reflexivity).
  destruct (jobs test_state !! 2%nat) as [[payloads ph a]|] eqn:Ej; [|discriminate E].
  injection E as -> ->. exists ph, [d_of_uint 1; d_of_uint 0]. split; [reflexivity|].
  apply (Hv 2%nat [[3; 3; 4; 4]; []] ph _ 4 Ej); [reflexivity|lia|by_decide].
Defined.




Definition sample_needs : list Z := [100; 5000; 9000; 20000; 6000; 16000].

Lemma pooled_buffer_settles_witness :
  let m := (∅, 0%nat) : memory spec_float in
  let dev := λ (_ : cell_type) (_ : Z), Some (CBytes (F := spec_float) []) in
  capacity (ensure_all dev TBytes sample_needs null_buffer m).1 ≤ 40000 ∧
  ((ensure_all dev TBytes sample_needs null_buffer m).2.2 ≤ 4)%nat.
Proof.
  apply (pooled_buffer_settles (λ _ _, Some (CBytes (F := spec_float) [])) TBytes
    sample_needs (∅, 0%nat) 20000 3);
    [by eexists|lia|lia|by_decide].
Defined.

(** ** Beyond 4 GiB

    The offsets are 32 bits wide: a payload that starts 2^32 bytes into the batch
    is entered at offset 0, and the kernel reads the first payload instead. *)
Lemma offset_wraps payloads k p data offsets lengths :
  Zsum (Zlength <$> payloads) ≤ Zlength data → Zsum (Zlength <$> payloads) < 2 ^ 64 →
  (length payloads ≤ length offsets)%nat → (length payloads ≤ length lengths)%nat →
  bytes_ok data → Forall bytes_ok payloads →
  payloads !! k = Some p → starts payloads k = 2 ^ 32 →
  ∃ data' offsets' lengths', fill payloads 0 0 data offsets lengths = Some (data', offsets', lengths') ∧
    offsets' !! k = Some 0.
Proof.
  intros Hd Hw Ho Hl Hok Hp Hk Hs.
  destruct (fill_spec payloads 0 0 data offsets lengths) as (d & o & l & E & _ & _ & _ & _ & _ & _ & At);
    try done.
  exists d, o, l. split; [done|]. destruct (At k p Hk) as [E0 _]. cbn in E0. by rewrite Hs in E0.
Qed.
