(* ===== verification/GpuReal.v ===== *)
(** * The entropy kernel computes the entropy of the CPU routine

    On the real numbers, for a group whose size is a power of two: the partial
    sums of the threads cover the histogram once and the reduction adds them all.
    The two implementations differ only in the order of the additions. *)
From Stdlib Require Import Reals Lra.
From S2P Require Import Prelude Entropy EntropyReal GpuKernel Metal MetalSpec.

Local Open Scope R_scope.

#[export] Instance real_float : FloatOps R := {| float_double := real_ops; f_add := Rplus |}.

(** ** Sums *)

Lemma Rsum_app l k : Rsum (l ++ k) = Rsum l + Rsum k.
Proof. induction l as [|x l IH]; cbn; [lra|]. rewrite IH. lra. Qed.

Lemma Rsum_permutation l k : l ≡ₚ k → Rsum l = Rsum k.
Proof. induction 1; cbn; lra. Qed.

(** The reduction by halves adds up the first [2 ^ k] values. *)
Lemma halves_sum k fuel (p : Z → R) :
  (k < fuel)%nat →
  fold_left halve (strides fuel (2 ^ Z.of_nat k)%Z) p 0%Z = Rsum (p <$> seqZ 0 (2 ^ Z.of_nat (S k))).
Proof.
  revert fuel p. induction k as [|k IH]; intros [|fuel] p Hf; [lia| |lia|].
  - cbn [strides]. change (2 ^ Z.of_nat 0)%Z with 1%Z. cbn -[strides].
    change (1 / 2)%Z with 0%Z. change (seqZ 0 (2 ^ Z.of_nat 1)) with [0%Z; 1%Z].
    destruct fuel; cbn; change (0 + 1)%Z with 1%Z; lra.
  - cbn [strides]. rewrite (proj2 (Z.ltb_lt _ _)) by (apply Z.pow_pos_nonneg; lia).
    cbn [fold_left]. replace (2 ^ Z.of_nat (S k) / 2)%Z with (2 ^ Z.of_nat k)%Z.
    2: { rewrite Nat2Z.inj_succ, Z.pow_succ_r by lia. rewrite Z.mul_comm, Z.div_mul; lia. }
    rewrite IH by lia. set (n := (2 ^ Z.of_nat (S k))%Z).
    assert (0 <= n)%Z by (unfold n; apply Z.pow_nonneg; lia).
    replace (2 ^ Z.of_nat (S (S k)))%Z with (n + n)%Z.
    2: { unfold n. rewrite (Nat2Z.inj_succ (S k)), Z.pow_succ_r by lia. lia. }
    rewrite seqZ_app, fmap_app, Rsum_app by lia.
    replace (0 + n)%Z with (n + 0)%Z by lia.
    rewrite <- fmap_add_seqZ, <- list_fmap_compose.
    assert (Hall : Forall (λ t, (0 <= t < n)%Z) (seqZ 0 n)).
    { apply Forall_forall. intros t. rewrite elem_of_seqZ. lia. }
    induction Hall as [|t l Ht _ IHl]; cbn; [lra|]. rewrite IHl. unfold halve at 1.
    rewrite (proj2 (Z.ltb_lt _ _)) by lia. cbn. replace (n + t)%Z with (t + n)%Z by lia. lra.
Qed.

(** What a thread adds up, and what all of them do. *)
Lemma thread_sum_real len threads hist tid :
  thread_sum (F := R) len threads hist tid =
  - Rsum ((λ bin, plogp (IZR len) (default 0%Z (hist !! Z.to_nat bin))) <$>
          (if (0 <? len)%Z then strided 256 tid 256 threads else [])).
Proof.
  unfold thread_sum. generalize (if (0 <? len)%Z then strided 256 tid 256 threads else []) as bins.
  intros bins. change (d_of_uint 0) with 0. rewrite <- (Rplus_0_l (- _)).
  generalize 0 as e. induction bins as [|b bins IH]; intros e; [cbn; lra|].
  cbn [fold_left fmap list_fmap Rsum]. rewrite IH. unfold entropy_step, plogp at 2. cbn.
  destruct (default 0%Z (hist !! Z.to_nat b) =? 0)%Z; lra.
Qed.

Lemma Rsum_bind {A} (f : A → list R) l : Rsum ((λ x, - Rsum (f x)) <$> l) = - Rsum (l ≫= f).
Proof. induction l as [|x l IH]; cbn; [lra|]. rewrite IH, Rsum_app. lra. Qed.

Lemma all_bins {A} (f : Z → A) (hist : list Z) :
  length hist = 256%nat → (λ bin, f (default 0%Z (hist !! Z.to_nat bin))) <$> seqZ 0 256 = f <$> hist.
Proof.
  intros Hl. apply list_eq. intros i. rewrite !list_lookup_fmap.
  destruct (decide (i < 256)%nat).
  - rewrite lookup_seqZ_lt by lia. destruct (lookup_lt_is_Some_2 hist i) as [c E]; [lia|].
    cbn [fmap option_fmap option_map].
    replace (Z.to_nat (0 + Z.of_nat i)) with i by lia. by rewrite E.
  - rewrite lookup_seqZ_ge, lookup_ge_None_2 by lia. done.
Qed.

Lemma Rsum_shares (g : Z → R) threads :
  (1 <= threads <= 256)%Z →
  Rsum ((λ tid, - Rsum (g <$> strided 256 tid 256 threads)) <$> seqZ 0 threads) =
  - Rsum (g <$> seqZ 0 256).
Proof.
  intros Ht. rewrite Rsum_bind. f_equal. apply Rsum_permutation.
  rewrite <- (strided_partition 256 256 threads) by lia. unfold seqZ.
  induction (seq 0 (Z.to_nat threads)) as [|t l IH]; [done|].
  cbn. rewrite fmap_app, IH, Z.add_0_r. done.
Qed.

(** The reference value of the kernel is the entropy. *)
Lemma group_entropy_real data offset len k :
  (k <= 8)%nat → bytes_ok data →
  (0 <= offset ∧ 0 <= len < 2 ^ 32 ∧ offset + len <= Zlength data)%Z →
  group_entropy (F := R) data offset len (2 ^ Z.of_nat k) =
  shannon_entropy (Some (slice data offset len)).
Proof.
  intros Hk Hok (Ho & Hl & Hle). set (threads := (2 ^ Z.of_nat k)%Z).
  assert (1 <= threads <= 256)%Z as HT by by apply group_power_range.
  unfold group_entropy. set (bytes := slice data offset len).
  set (p := thread_sum len threads (byte_histogram bytes)).
  assert (E : fold_left halve (strides 32 (threads / 2)) p 0%Z = Rsum (p <$> seqZ 0 threads)).
  { unfold threads. destruct k as [|k].
    { change (seqZ 0 (2 ^ Z.of_nat 0)) with [0%Z].
      change (strides 32 (2 ^ Z.of_nat 0 / 2)) with (@nil Z). cbn. lra. }
    replace (2 ^ Z.of_nat (S k) / 2)%Z with (2 ^ Z.of_nat k)%Z; [apply halves_sum; lia|].
    rewrite Nat2Z.inj_succ, Z.pow_succ_r, Z.mul_comm, Z.div_mul; lia. }
  rewrite E. unfold p. clear E p.
  assert (Hlen : Zlength bytes = len).
  { unfold bytes, slice, Zlength in *. rewrite length_take, length_drop. lia. }
  rewrite (list_fmap_ext _ (λ tid, - Rsum ((λ bin, plogp (IZR len)
     (default 0%Z (byte_histogram bytes !! Z.to_nat bin))) <$>
       (if (0 <? len)%Z then strided 256 tid 256 threads else [])))) by (intros; apply thread_sum_real).
  unfold shannon_entropy. rewrite Hlen.
  destruct (Z.ltb_spec 0 len), (Z.eqb_spec len 0); [lia| | |lia].
  - rewrite Rsum_shares by done. rewrite all_bins; [|apply histogram_length].
    rewrite entropy_fold. cbn [d_of_uint real_ops]. lra.
  - cbn [fmap list_fmap Rsum]. change (d_of_uint 0) with 0. clear.
    induction (seqZ 0 threads) as [|x l IH]; cbn; [lra|]. rewrite IH. lra.
Qed.

(** ** Properties *)

(** In exact arithmetic the kernel is the CPU routine: for every payload in
    the data buffer and every group size the host can choose (a power of two up
    to 256), the value the kernel writes, whatever the schedule, is the entropy
    [shannon_entropy] computes for the same bytes. *)
Theorem kernel_entropy_exact data offset len k traces (g : group R) :
  (k <= 8)%nat → bytes_ok data →
  (0 <= offset ∧ 0 <= len ∧ offset + len <= Zlength data)%Z →
  (offset + len <= 2 ^ 32 ∧ len + 2 ^ Z.of_nat k <= 2 ^ 32)%Z →
  shape (2 ^ Z.of_nat k) g → kernel_schedule len (2 ^ Z.of_nat k) traces →
  ∃ g', exec_phases data offset len traces g = Some g' ∧
        entropy_out g' = Some (shannon_entropy (Some (take (Z.to_nat len) (drop (Z.to_nat offset) data)))).
Proof.
  intros Hk Hok Hs Hw Hg Ht. set (threads := (2 ^ Z.of_nat k)%Z) in *.
  assert (1 <= threads <= 256)%Z as HT by by apply group_power_range.
  destruct (kernel_run data offset len threads) with (traces := traces) (g := g)
    as (g' & E & O); [done..|].
  exists g'. split; [exact E|]. rewrite O. f_equal. apply group_entropy_real; [done..|lia].
Qed.

(** C8. From the host to the kernel and back: in exact arithmetic, whatever the
    worker threads and the device do in between, a [wait] that succeeds returns
    the entropies the CPU routine computes for the payloads of that call, for
    any limit of the device on the size of a threadgroup. *)
Theorem gpu_wait_exact kernels (s : metal (F := R)) i payloads ph values max_threads :
  metal_reachable kernels s → jobs s !! i = Some (mk_job payloads ph (WaitValues values)) →
  kernels !! kernel_name = Some max_threads → (1 <= max_threads)%Z → addressable payloads →
  values = (λ p, shannon_entropy (Some p)) <$> payloads.
Proof.
  intros Hr Hi Hk Hm Ha. pose proof (metal_reachable_inv kernels s Hr) as Hinv.
  pose proof (inv_jobs _ _ Hinv) as Hj. rewrite Forall_lookup in Hj. specialize (Hj _ _ Hi).
  rewrite (job_answer_ok _ _ _ Hj values eq_refl max_threads Hk Hm Ha).
  destruct (job_in_memory _ _ _ Hj) as [[_ E]|[_ Hok]]; [done|]. cbn in Hok.
  destruct (group_size_spec max_threads Hm) as (k & Hk8 & Eg & _). unfold expected. rewrite Eg.
  destruct Ha as [_ Hlen]. apply list_fmap_ext. intros n p Hn.
  rewrite Forall_lookup in Hok, Hlen. specialize (Hok _ _ Hn). specialize (Hlen _ _ Hn). cbn in Hlen.
  pose proof (Zlength_nonneg p). rewrite group_entropy_real by (done || lia).
  unfold slice. rewrite drop_0, take_ge; [done|]. unfold Zlength. lia.
Qed.

(** ** Witness *)

Lemma kernel_entropy_exact_witness :
  ∃ g', exec_phases (F := R) [9; 3; 1; 4]%Z 1 2 (round_robin_schedule 2 4)
          (mk_group (replicate 4 5) (replicate 256 0%Z) (replicate 256 5) None) = Some g' ∧
        entropy_out g' = Some (shannon_entropy (Some [3; 1]%Z)).
Proof.
  apply (kernel_entropy_exact [9; 3; 1; 4]%Z 1 2 2 (round_robin_schedule 2 4)
    (mk_group (replicate 4 5) (replicate 256 0%Z) (replicate 256 5) None));
    [lia|by_decide|by_decide|by_decide|by split_and!|by_decide].
Defined.

Definition real_state : metal (F := R) := default (metal_start test_kernels)
  (metal_play [ASubmit [[5; 6; 5; 6]%Z]; AEnsure 0; AFill 0; ACommit 0; AGpu 0; AWait 0]
     (metal_start test_kernels)).

Lemma real_state_reachable : metal_reachable test_kernels real_state.
Proof.
  unfold real_state. destruct (metal_play _ _) as [s|] eqn:E; [|constructor].
  eapply metal_play_reachable, E. constructor.
Qed.

Lemma gpu_wait_exact_witness :
  ∃ ph values, jobs real_state !! 0%nat = Some (mk_job [[5; 6; 5; 6]%Z] ph (WaitValues values)) ∧
    values = [shannon_entropy (Some [5; 6; 5; 6]%Z)].
Proof.
  assert (E : (λ j, (j_payloads j, match j_answer j with WaitValues _ => true | _ => false end)) <$>
              jobs real_state !! 0%nat = Some ([[5; 6; 5; 6]%Z], true)) by (vm_compute; reflexivity).
  destruct (jobs real_state !! 0%nat) as [[payloads ph a]|] eqn:Ej; [|discriminate E].
  cbn in E. injection E as -> Ea. destruct a as [| |values]; try discriminate Ea.
  exists ph, values. split; [reflexivity|].
  apply (gpu_wait_exact test_kernels real_state 0 [[5; 6; 5; 6]%Z] ph values 4 real_state_reachable Ej);
    [reflexivity|lia|by_decide].
Defined.
