(* ===== verification/AnalysisEngine.v ===== *)
(** * Entropy backends and the analysis engine
      ([src/analysis/entropy_backend.cpp], [src/analysis/analysis_engine.cpp])

    The alert sink is the list of alerts a call emits, in order.  [std::log2],
    the hash and the iteration order of the maps are arguments, as in the files
    this one uses.  A backend is any pair of [start] and [wait] functions; what
    the engine may rely on is the class [FaithfulBackend]. *)
From Stdlib Require Import Floats.SpecFloat.
From S2P Require Import Prelude Fmt FmtFloat Packet Alert Signature FlowTracker FlowShards Entropy.

(** ** Backends *)

(** [start] returns null or a pending computation, and [wait] on that returns
    false or the values. *)
Record EntropyBackend : Type := mk_EntropyBackend {
  PendingEntropy : Type;
  start : list QueuedPacket → option PendingEntropy;
  wait : PendingEntropy → option (list spec_float)
}.

(** [EntropyBackend::compute]. *)
Definition compute (backend : EntropyBackend) (packets : list QueuedPacket)
    : option (list spec_float) :=
  match start backend packets with
  | Some pending => wait backend pending
  | None => None
  end.

Section Cpu.
Context (log2 : spec_float → spec_float).

Definition payload_entropy (p : QueuedPacket) : spec_float :=
  shannon_entropy (H := binary64 log2) (Some (q_payload p)).

(** [CpuEntropyBackend]: [start] computes everything, [ReadyEntropy::wait] hands
    it over. *)
Definition CpuEntropyBackend : EntropyBackend :=
  mk_EntropyBackend (list spec_float) (λ packets, Some (payload_entropy <$> packets)) Some.

(** A backend whose values, when it returns one per packet, are those of the CPU
    routine.  It may fail at any time. *)
Class FaithfulBackend (backend : EntropyBackend) : Prop :=
  faithful packets values :
    compute backend packets = Some values → length values = length packets →
    values = payload_entropy <$> packets.

#[export] Instance CpuEntropyBackend_faithful : FaithfulBackend CpuEntropyBackend.
Proof. intros packets values H _. by injection H. Qed.

End Cpu.

(** ** The engine *)

Record AnalysisConfig : Type := mk_AnalysisConfig {
  flow : FlowTrackerConfig;
  entropy_threshold : spec_float;
  entropy_min_payload_bytes : Z
}.

Definition AnalysisConfig_default : AnalysisConfig :=
  mk_AnalysisConfig FlowTrackerConfig_default (b64_of_uint 7) 32.

Record AnalysisEngine : Type := mk_AnalysisEngine {
  a_config : AnalysisConfig;
  fallbacks_ : Z;
  flow_tracker_ : FlowTracker;
  signatures_ : SignatureDatabase
}.

(** The constructor; the backend stays an argument of [analyze_batch]. *)
Definition AnalysisEngine_new (config : AnalysisConfig) : AnalysisEngine :=
  mk_AnalysisEngine config 0 (FlowTracker_new (flow config)) SignatureDatabase_new.

(** A null backend means the CPU one. *)
Definition choose_backend (log2 : spec_float → spec_float) (backend : option EntropyBackend)
    : EntropyBackend :=
  match backend with Some b => b | None => CpuEntropyBackend log2 end.

Definition alert_for (type : AnomalyType) (packet : QueuedPacket) (detail : string) : Alert :=
  let m := meta packet in
  mk_Alert type (src_ip m) (dst_ip m) (src_port m) (dst_port m) detail.

Definition eligible (config : AnalysisConfig) (p : QueuedPacket) : Prop :=
  (entropy_min_payload_bytes config ≤ payload_size p)%Z.

#[export] Instance eligible_dec config p : Decision (eligible config p).
Proof. unfold eligible. apply _. Defined.

Definition signature_alerts (db : SignatureDatabase) (p : QueuedPacket) : list Alert :=
  if (0 <? payload_size p)%Z && matches db (Some (q_payload p))
  then [alert_for kSignatureMatch p "payload matches a known-bad signature hash"]
  else [].

Definition entropy_detail (value : spec_float) (size : Z) : string :=
  snprintf 96 ("entropy=" +:+ fmt_fixed 2 value +:+ " bits/byte over " +:+ fmt_u size +:+ "B").

(** [>=] on doubles. *)
Definition entropy_alert (config : AnalysisConfig) (p : QueuedPacket) (value : spec_float)
    : list Alert :=
  if SFleb (entropy_threshold config) value
  then [alert_for kHighEntropyPayload p (entropy_detail value (payload_size p))]
  else [].

Section Engine.
Context (hash32 : Z → Z) (iter : gmap Z PerIpState → list Z).
Context (log2 : spec_float → spec_float).

(** The loop over the batch: signature, then flow rules, packet by packet. *)
Fixpoint run_rules (db : SignatureDatabase) (t : FlowTracker) (batch : list QueuedPacket)
    : FlowTracker * list Alert :=
  match batch with
  | [] => (t, [])
  | p :: rest =>
      let '(t, flow_alerts) := observe hash32 iter t p in
      let '(t, more) := run_rules db t rest in
      (t, signature_alerts db p ++ flow_alerts ++ more)
  end.

Definition analyze_batch (backend : EntropyBackend) (engine : AnalysisEngine)
    (batch : list QueuedPacket) : AnalysisEngine * list Alert :=
  let config := a_config engine in
  let eligible_packets := filter (eligible config) batch in
  let pending := match eligible_packets with [] => None | _ => start backend eligible_packets end in
  let '(tracker, alerts) := run_rules (signatures_ engine) (flow_tracker_ engine) batch in
  let engine := mk_AnalysisEngine config (fallbacks_ engine) tracker (signatures_ engine) in
  match eligible_packets with
  | [] => (engine, alerts)
  | _ =>
      let '(entropies, fallback) :=
        match (match pending with Some h => wait backend h | None => None end) with
        | Some values =>
            if (Zlength values =? Zlength eligible_packets)%Z then (values, 0%Z)
            else (default values (compute (CpuEntropyBackend log2) eligible_packets), 1%Z)
        | None => (default [] (compute (CpuEntropyBackend log2) eligible_packets), 1%Z)
        end in
      (mk_AnalysisEngine config (wrap 64 (fallbacks_ engine + fallback)) tracker (signatures_ engine),
       alerts ++ concat (zip_with (entropy_alert config) eligible_packets entropies))
  end.

End Engine.

(** ** Reference: the alerts of a batch *)

(** Signature and entropy alerts depend on the packet alone. *)
Definition entropy_alerts log2 (config : AnalysisConfig) (p : QueuedPacket) : list Alert :=
  if decide (eligible config p) then entropy_alert config p (payload_entropy log2 p) else [].

(** The alerts of a batch, given what the flow rules return for each packet. *)
Definition batch_alerts log2 (config : AnalysisConfig) (db : SignatureDatabase)
    (batch : list QueuedPacket) (flow_alerts : list (list Alert)) : list Alert :=
  concat (zip_with (λ p f, signature_alerts db p ++ f) batch flow_alerts) ++
  concat (entropy_alerts log2 config <$> batch).

Definition stateless_alerts log2 (config : AnalysisConfig) (db : SignatureDatabase)
    (p : QueuedPacket) : list Alert :=
  signature_alerts db p ++ entropy_alerts log2 config p.

Definition stateless (a : Alert) : Prop :=
  alert_type a = kSignatureMatch ∨ alert_type a = kHighEntropyPayload.

#[export] Instance stateless_dec a : Decision (stateless a).
Proof. unfold stateless. apply _. Defined.

(** Alerts of the two stateful rules. *)
Definition stateful (a : Alert) : Prop := alert_type a = kPortScan ∨ alert_type a = kSynFlood.

(** ** Lemmas *)

Lemma run_rules_eq hash32 iter db t batch :
  run_rules hash32 iter db t batch =
  ((observe_all hash32 iter t batch).1,
   concat (zip_with (λ p f, signature_alerts db p ++ f) batch (observe_all hash32 iter t batch).2)).
Proof.
  revert t. induction batch as [|p batch IH]; intros t; [done|].
  cbn [run_rules observe_all]. destruct (observe hash32 iter t p) as [t' a]. rewrite IH.
  destruct (observe_all hash32 iter t' batch) as [t'' more]. cbn. by rewrite <- app_assoc.
Qed.

Lemma entropy_alerts_filter log2 config batch :
  concat (zip_with (entropy_alert config) (filter (eligible config) batch)
            (payload_entropy log2 <$> filter (eligible config) batch)) =
  concat (entropy_alerts log2 config <$> batch).
Proof.
  induction batch as [|p batch IH]; [done|]. rewrite filter_cons, fmap_cons.
  unfold entropy_alerts at 1. cbn [concat]. case_decide; [|by rewrite IH].
  cbn. by rewrite IH.
Qed.

Lemma filter_none_eligible log2 config batch :
  filter (eligible config) batch = [] → concat (entropy_alerts log2 config <$> batch) = [].
Proof. intros E. rewrite <- entropy_alerts_filter, E. done. Qed.

(** Whether the backend's values are used, and the values the engine works with. *)
Definition backend_answers (backend : EntropyBackend) (packets : list QueuedPacket) : bool :=
  match compute backend packets with
  | Some values => (Zlength values =? Zlength packets)%Z
  | None => false
  end.

Definition used_values log2 (backend : EntropyBackend) (packets : list QueuedPacket)
    : list spec_float :=
  if backend_answers backend packets then default [] (compute backend packets)
  else payload_entropy log2 <$> packets.

Definition batch_fallbacks (config : AnalysisConfig) (backend : EntropyBackend) (n : Z)
    (batch : list QueuedPacket) : Z :=
  match filter (eligible config) batch with
  | [] => n
  | packets => wrap 64 (n + if backend_answers backend packets then 0 else 1)
  end.

(** One call, for any backend. *)
Lemma analyze_batch_eq hash32 iter log2 backend engine batch :
  let config := a_config engine in
  let packets := filter (eligible config) batch in
  let obs := observe_all hash32 iter (flow_tracker_ engine) batch in
  analyze_batch hash32 iter log2 backend engine batch =
  (mk_AnalysisEngine config (batch_fallbacks config backend (fallbacks_ engine) batch)
     obs.1 (signatures_ engine),
   concat (zip_with (λ p f, signature_alerts (signatures_ engine) p ++ f) batch obs.2) ++
   concat (zip_with (entropy_alert config) packets (used_values log2 backend packets))).
Proof.
  intros config packets obs. unfold analyze_batch, batch_fallbacks. rewrite run_rules_eq.
  fold config obs packets.
  destruct packets as [|p ps] eqn:E; [by rewrite app_nil_r|]. rewrite <- E.
  unfold used_values, backend_answers. fold (compute backend packets).
  destruct (compute backend packets) as [values|] eqn:Ec; [|done].
  by destruct (Z.eqb_spec (Zlength values) (Zlength packets)).
Qed.

Lemma used_values_faithful log2 backend `{!FaithfulBackend log2 backend} packets :
  used_values log2 backend packets = payload_entropy log2 <$> packets.
Proof.
  unfold used_values, backend_answers. destruct (compute backend packets) as [values|] eqn:Ec; [|done].
  destruct (Z.eqb_spec (Zlength values) (Zlength packets)) as [El|]; [|done].
  cbn. apply (faithful log2 packets values Ec). unfold Zlength in El. lia.
Qed.

Lemma used_values_length log2 backend packets :
  length (used_values log2 backend packets) = length packets.
Proof.
  unfold used_values, backend_answers. destruct (compute backend packets) as [values|] eqn:Ec;
    [|apply length_fmap].
  destruct (Z.eqb_spec (Zlength values) (Zlength packets)) as [El|]; [|apply length_fmap].
  cbn. unfold Zlength in El. lia.
Qed.

Lemma stateless_not_stateful a : stateless a → ¬ stateful a.
Proof. unfold stateless, stateful. intros [-> | ->] [?|?]; done. Qed.

(** What holds of every alert the two flow rules build holds of all alerts of the
    tracker. *)
Section FlowAlerts.
Context (P : Alert → Prop).
Hypothesis (Hscan : ∀ src dst ports window,
  P (mk_Alert kPortScan src dst 0 0 (port_scan_detail ports window))).
Hypothesis (Hflood : ∀ src pending window,
  P (mk_Alert kSynFlood src 0 0 0 (syn_flood_detail pending window))).

Lemma port_scan_rule_Forall cfg now m s : Forall P (port_scan_rule cfg now m s).2.
Proof.
  unfold port_scan_rule. destruct (is_connection_attempt m); [|done].
  destruct (expire_ports _ _ _). destruct (_ <=? _); [|done].
  destruct (debounce_allows _ _ _) as [[] last]; [|done]. cbn. by apply Forall_singleton.
Qed.

Lemma syn_flood_rule_Forall cfg now m s : Forall P (syn_flood_rule cfg now m s).2.
Proof.
  unfold syn_flood_rule. case_bool_decide; [|done].
  destruct (if _ && _ then _ else _) as [pending order]. destruct (expire_syns _ _ _).
  destruct (_ <=? _); [|done].
  destruct (debounce_allows _ _ _) as [[] last]; [|done]. cbn. by apply Forall_singleton.
Qed.

Lemma observe_ip_Forall cfg m s : Forall P (observe_ip cfg m s).2.
Proof.
  unfold observe_ip. set (now := timeval_to_ms (timestamp m)).
  pose proof (port_scan_rule_Forall cfg now m (set_last_seen now s)) as H1.
  destruct (port_scan_rule cfg now m (set_last_seen now s)) as [s1 scans].
  pose proof (syn_flood_rule_Forall cfg now m s1) as H2.
  destruct (syn_flood_rule cfg now m s1) as [s2 floods]. by apply Forall_app_2.
Qed.

Lemma observe_Forall hash32 iter t p : Forall P (observe hash32 iter t p).2.
Proof.
  unfold observe. destruct (has_ip (meta p)); [|constructor].
  destruct (shards_ t !! _) as [shard|]; [|constructor].
  pose proof (observe_shard_alerts iter (config_ t) (meta p) shard) as E.
  destruct (observe_shard _ _ _ _) as [shard' alerts]. cbn [snd] in *. rewrite E.
  apply observe_ip_Forall.
Qed.

Lemma observe_all_Forall hash32 iter t packets :
  Forall (Forall P) (observe_all hash32 iter t packets).2 ∧
  length (observe_all hash32 iter t packets).2 = length packets.
Proof.
  revert t. induction packets as [|p rest IH]; intros t; [by split; [constructor|]|].
  rewrite observe_all_cons. cbn [snd length]. destruct (IH (observe hash32 iter t p).1) as [A B].
  split; [constructor; [apply observe_Forall|done]|by rewrite B].
Qed.

End FlowAlerts.

Lemma observe_all_stateful hash32 iter t packets :
  Forall (Forall stateful) (observe_all hash32 iter t packets).2 ∧
  length (observe_all hash32 iter t packets).2 = length packets.
Proof. apply observe_all_Forall; intros; [by left|by right]. Qed.

Lemma filter_stateful l : Forall stateful l → filter stateless l = [].
Proof.
  induction 1 as [|a l Ha _ IH]; [done|]. rewrite filter_cons_False; [done|].
  intros H. by apply stateless_not_stateful in H.
Qed.

Lemma signature_stateless db p : Forall stateless (signature_alerts db p).
Proof. unfold signature_alerts. destruct (_ && _); repeat constructor. Qed.

Lemma entropy_stateless log2 config p : Forall stateless (entropy_alerts log2 config p).
Proof.
  unfold entropy_alerts, entropy_alert. case_decide; [|constructor].
  destruct (SFleb _ _); [|constructor]. constructor; [by right|constructor].
Qed.

(** The stateless alerts of a batch, up to order. *)
Lemma batch_stateless log2 config db batch flow_alerts :
  Forall (Forall stateful) flow_alerts → length flow_alerts = length batch →
  filter stateless (batch_alerts log2 config db batch flow_alerts) ≡ₚ
  concat (stateless_alerts log2 config db <$> batch).
Proof.
  intros Hf. unfold batch_alerts. rewrite filter_app.
  revert batch. induction Hf as [|f fs Hf _ IH]; intros [|p batch] Hl; try done.
  injection Hl as Hl. specialize (IH batch Hl). rewrite !fmap_cons.
  cbn [zip_with concat]. rewrite !filter_app in *.
  rewrite (filter_stateful f Hf), (filter_all _ _ (signature_stateless db p)),
    (filter_all _ _ (entropy_stateless log2 config p)).
  unfold stateless_alerts at 1. rewrite <- IH. solve_Permutation.
Qed.

(** ** Properties *)

(** C21. The engine does not depend on the entropy backend: whatever a faithful
    backend does (refuse to start, fail, or return the wrong number of values),
    the alerts, their order and the tracker are those of the reference: for each
    packet its signature alert and the alerts of the flow rules, then the
    entropy alerts of the batch.  Only the fallback counter tells the backends
    apart: one more for a batch with eligible payloads the backend did not
    answer. *)
Theorem analyze_batch_correct hash32 iter log2 backend `{!FaithfulBackend log2 backend}
    engine batch :
  let config := a_config engine in
  let r := analyze_batch hash32 iter log2 backend engine batch in
  let obs := observe_all hash32 iter (flow_tracker_ engine) batch in
  r.2 = batch_alerts log2 config (signatures_ engine) batch obs.2 ∧
  flow_tracker_ r.1 = obs.1 ∧ a_config r.1 = config ∧ signatures_ r.1 = signatures_ engine ∧
  fallbacks_ r.1 = batch_fallbacks config backend (fallbacks_ engine) batch.
Proof.
  intros config r obs. unfold r. rewrite (analyze_batch_eq hash32 iter log2 backend engine batch).
  fold config. cbn [fst snd a_config flow_tracker_ signatures_ fallbacks_].
  split_and!; try done. unfold batch_alerts.
  by rewrite <- entropy_alerts_filter, used_values_faithful.
Qed.

(** Any backend, faithful or not: a value is used for every eligible packet
    and for no other (no index out of range), the backend's own when it returned
    one per packet and the CPU's otherwise; and the backend can influence
    nothing but the entropy alerts. *)
Theorem analyze_batch_any_backend hash32 iter log2 backend engine batch :
  let config := a_config engine in
  let packets := filter (eligible config) batch in
  let values := used_values log2 backend packets in
  let r := analyze_batch hash32 iter log2 backend engine batch in
  let cpu := analyze_batch hash32 iter log2 (CpuEntropyBackend log2) engine batch in
  length values = length packets ∧
  r.2 = (run_rules hash32 iter (signatures_ engine) (flow_tracker_ engine) batch).2 ++
        concat (zip_with (entropy_alert config) packets values) ∧
  flow_tracker_ r.1 = flow_tracker_ cpu.1 ∧
  filter (λ a, alert_type a ≠ kHighEntropyPayload) r.2 =
    filter (λ a, alert_type a ≠ kHighEntropyPayload) cpu.2.
Proof.
  intros config packets values r cpu. unfold r, cpu.
  rewrite !analyze_batch_eq, run_rules_eq. cbn [fst snd flow_tracker_].
  fold config packets. split_and!; [apply used_values_length|done..|].
  assert (H : ∀ ps vs, filter (λ a, alert_type a ≠ kHighEntropyPayload)
                         (concat (zip_with (entropy_alert config) ps vs)) = []).
  { induction ps as [|p ps IH]; intros [|v vs]; try done. cbn [zip_with concat].
    rewrite filter_app, IH, app_nil_r. unfold entropy_alert. destruct (SFleb _ _); [|done].
    rewrite filter_cons_False; [done|]. by intros []. }
  by rewrite !filter_app, !H.
Qed.

(** *** Witnesses *)

(** A backend that always fails, as a GPU without a device does. *)
Definition broken_backend : EntropyBackend :=
  mk_EntropyBackend unit (λ _, None) (λ _, None).

#[export] Instance broken_backend_faithful log2 : FaithfulBackend log2 broken_backend.
Proof. by intros packets values H. Qed.

(** The EICAR string, and 128 different bytes. *)
Definition mixed_batch : list QueuedPacket :=
  [mk_QueuedPacket (test_packet 0 1 2 4444 80 kTcpFlagAck) (string_bytes kEicarTestString);
   mk_QueuedPacket (test_packet 1 3 2 4444 80 kTcpFlagAck) (Z.of_nat <$> seq 0 128)].

Lemma analyze_batch_correct_witness :
  let engine := AnalysisEngine_new AnalysisConfig_default in
  let r := analyze_batch id_hash map_keys log2_powers broken_backend engine mixed_batch in
  r.2 = [mk_Alert kSignatureMatch 1 2 4444 80 "payload matches a known-bad signature hash";
         mk_Alert kHighEntropyPayload 3 2 4444 80 "entropy=7.00 bits/byte over 128B"] ∧
  fallbacks_ r.1 = 1 ∧
  r.2 = batch_alerts log2_powers AnalysisConfig_default (signatures_ engine) mixed_batch
          (observe_all id_hash map_keys (flow_tracker_ engine) mixed_batch).2.
Proof.
  cbv zeta. split; [by vm_compute|]. split; [by vm_compute|].
  apply (analyze_batch_correct id_hash map_keys log2_powers broken_backend
           (AnalysisEngine_new AnalysisConfig_default) mixed_batch).
Defined.

(** ** Stateless alerts of a whole run *)

Lemma stateless_alerts_permutation log2 config db packets batches outputs :
  concat batches ≡ₚ packets →
  Forall2 (λ batch out, ∃ flow_alerts,
    Forall (Forall stateful) flow_alerts ∧ length flow_alerts = length batch ∧
    out = batch_alerts log2 config db batch flow_alerts) batches outputs →
  filter stateless (concat outputs) ≡ₚ concat (stateless_alerts log2 config db <$> packets).
Proof.
  intros Hp Hout. transitivity (concat (stateless_alerts log2 config db <$> concat batches)).
  - clear Hp. induction Hout as [|batch out batches outs (f & Hf & Hl & ->) _ IH]; [done|].
    cbn [concat]. rewrite filter_app, fmap_app, concat_app, IH.
    by rewrite batch_stateless.
  - clear Hout. induction Hp as [|p l k _ IH|p q l|l k j _ IH1 _ IH2]; rewrite ?fmap_cons; cbn.
    + done.
    + by rewrite IH.
    + solve_Permutation.
    + by rewrite IH1.
Qed.
