(* ===== verification/EntropyError.v ===== *)
(** * The entropy in binary64 ([src/analysis/entropy.cpp])

    How far the [double] that [shannon_entropy] returns is from Shannon's
    entropy, the instance on the real numbers of [EntropyReal], when [std::log2]
    is accurate to four units in the last place.  Every count, quotient, product
    and addition rounds; the terms have the same sign, so the relative errors
    add up. *)
From Stdlib Require Import Reals Lra Floats.SpecFloat.
From S2P Require Import Prelude Packet Alert Signature FlowTracker Entropy EntropyReal FloatError AnalysisEngine.

Local Open Scope R_scope.

(** ** What is asked of [std::log2] *)

(** On a number up to 1: nothing is lost at 1, and below the result is negative
    and at most four units in the last place off, each at most [2 * ulp] of it. *)
Definition log2_accurate (log2 : spec_float → spec_float) (x : spec_float) : Prop :=
  ∀ v, has_value x v →
    (v = 1 → ∃ s, log2 x = S754_zero s) ∧
    (v < 1 → ∃ y w, log2 x = SFopp y ∧ has_value y w ∧
       - Rlog2 v <= w * rounding ^ 4 ∧ w <= - Rlog2 v * rounding ^ 4).

(** ... on the frequencies of a payload. *)
Definition accurate_on (log2 : spec_float → spec_float) (data : list Z) : Prop :=
  Forall (λ c, c ≠ 0%Z → log2_accurate log2 (SFdiv 53 1024 (b64_of_uint c) (b64_of_uint (Zlength data))))
    (byte_histogram data).

(** ** Logarithms *)

Lemma ln_ge x : 0 < x → 1 - / x <= ln x.
Proof. intros Hx. pose proof (ln_le_pred (/ x) (Rinv_0_lt_compat _ Hx)) as H. rewrite ln_Rinv in H by done. lra. Qed.

Lemma ln2_bounds : / 2 <= ln 2 <= 1.
Proof. pose proof (ln_ge 2 ltac:(lra)). pose proof (ln_le_pred 2 ltac:(lra)). lra. Qed.

Lemma Rlog2_mul x y : 0 < x → 0 < y → Rlog2 (x * y) = Rlog2 x + Rlog2 y.
Proof. intros. unfold Rlog2. rewrite ln_mult by done. lra. Qed.

Lemma Rlog2_bpow e : Rlog2 (bpow e) = IZR e.
Proof.
  pose proof ln2_pos. assert (Hn : ∀ n, Rlog2 (bpow (Z.of_nat n)) = IZR (Z.of_nat n))
    by (intros n; rewrite <- bpow_IZR, Rlog2_pow by lia; apply INR_IZR_INZ).
  destruct (Z.le_ge_cases 0 e) as [He|He].
  - rewrite <- (Z2Nat.id e) by done. apply Hn.
  - pose proof (Hn (Z.to_nat (- e))) as H1. rewrite Z2Nat.id in H1 by lia.
    pose proof (bpow_opp_mul e) as E. apply (f_equal Rlog2) in E.
    rewrite Rlog2_mul, H1, opp_IZR in E by apply bpow_pos. unfold Rlog2 in E at 2. rewrite ln_1 in E. lra.
Qed.

Lemma Rlog2_mono x y : 0 < x → x <= y → Rlog2 x <= Rlog2 y.
Proof. intros Hx [H| ->]; [left; by apply Rlog2_increasing|lra]. Qed.

(** The logarithm of a number just above 1. *)
Lemma Rlog2_upper x : 1 <= x → Rlog2 x <= 2 * (x - 1).
Proof.
  intros Hx. pose proof ln2_bounds. pose proof (ln_le_pred x ltac:(lra)) as H1. unfold Rlog2.
  apply (Rmult_le_reg_r (ln 2)); [lra|]. replace (ln x / ln 2 * ln 2) with (ln x) by (field; lra). nra.
Qed.

(** The logarithm of a number just below 1. *)
Lemma Rlog2_lower x : 0 < x → x <= 1 → 1 - x <= - Rlog2 x.
Proof.
  intros Hx Hx1. pose proof ln2_bounds. pose proof (ln_le_pred x Hx) as H1. unfold Rlog2.
  apply (Rmult_le_reg_r (ln 2)); [lra|]. replace (- (ln x / ln 2) * ln 2) with (- ln x) by (field; lra). nra.
Qed.

(** ** One term *)

(** What rounding a frequency can add to its term, relative to the frequency. *)
Definition term_slack : R := bpow (-48).

Lemma term_slack_rounding : 2 * (rounding ^ 3 - 1) <= term_slack.
Proof.
  pose proof (rounding_pow 3) as H. replace (INR 3) with 3 in H by (cbn; lra).
  pose proof ulp_small. unfold term_slack. replace (-48)%Z with (5 + -53)%Z by lia. rewrite bpow_add.
  assert (E : bpow 5 = 32) by (rewrite <- bpow_IZR by lia; f_equal). rewrite E.
  pose proof (bpow_pos (-53)). lra.
Qed.

(** The logarithm of a rounded frequency. *)
Lemma Rlog2_near p v :
  0 < p → 0 < v → p <= v * rounding ^ 3 → v <= p * rounding ^ 3 →
  - Rlog2 v <= - Rlog2 p + term_slack ∧ - Rlog2 p <= - Rlog2 v + term_slack.
Proof.
  pose proof term_slack_rounding. pose proof (rounding_pos 3) as Hr.
  pose proof (Rlog2_upper (rounding ^ 3) Hr). intros Hp Hv H1 H2.
  apply Rlog2_mono in H1; [|done]. apply Rlog2_mono in H2; [|done].
  rewrite Rlog2_mul in H1 by lra. rewrite Rlog2_mul in H2 by lra. lra.
Qed.

Section Term.
Context (log2 : spec_float → spec_float) (n c : Z).
Hypothesis (Hn : (n < 2 ^ 32)%Z) (Hc : (0 < c <= n)%Z).
Let p : R := IZR c / IZR n.
Let p_hat : spec_float := SFdiv 53 1024 (b64_of_uint c) (b64_of_uint n).
Hypothesis (Hlog : log2_accurate log2 p_hat).

(** The frequency. *)
Lemma frequency_near : near 3 32 32 p_hat p.
Proof using All.
  pose proof (of_uint_near c 32 ltac:(lia) ltac:(done)) as N1.
  pose proof (of_uint_near n 32 ltac:(lia) ltac:(done)) as N2.
  exact (div_near _ _ _ _ _ _ _ _ _ _ N1 N2 ltac:(lia) ltac:(lia) ltac:(lia)).
Qed.

Lemma frequency_below : (c < n)%Z → p <= 1 - bpow (-32).
Proof using All.
  intros Hlt. assert (Hn' : 0 < IZR n) by (apply IZR_lt; lia).
  assert (Hn32 : IZR n <= bpow 32) by (rewrite <- bpow_IZR by lia; apply IZR_le; lia).
  assert (Hb : bpow (-32) * IZR n <= 1) by (rewrite <- (bpow_opp_mul 32); apply Rmult_le_compat_l; [left; apply bpow_pos|done]).
  apply (Rmult_le_reg_r (IZR n)); [done|]. unfold p. replace (IZR c / IZR n * IZR n) with (IZR c) by (field; lra).
  assert (IZR c <= IZR n - 1) by (rewrite <- minus_IZR; apply IZR_le; lia). lra.
Qed.

(** The rounded frequency is below 1 too, and its logarithm in range. *)
Lemma log_range v :
  (c < n)%Z → p <= v * rounding ^ 3 → v <= p * rounding ^ 3 → 0 < v →
  v < 1 ∧ bpow (-33) <= - Rlog2 v <= bpow 6 ∧ bpow (-33) <= v.
Proof using All.
  intros Hlt V1 V2 Hv. pose proof (frequency_below Hlt) as Hp. destruct frequency_near as [[Hp0 _] _].
  pose proof (rounding_small 3 ltac:(lia)) as Hr. pose proof (rounding_pos 3).
  pose proof (bpow_pos (-32)). pose proof (bpow_pos (-40)). pose proof bpow_40_small.
  assert (E32 : bpow (-32) = 256 * bpow (-40)).
  { replace (-32)%Z with (8 + -40)%Z by lia. rewrite bpow_add. f_equal. rewrite <- bpow_IZR by lia. f_equal. }
  assert (E33 : bpow (-32) = 2 * bpow (-33)) by (replace (-32)%Z with (1 + -33)%Z by lia; rewrite bpow_add; change (bpow 1) with (2 * 1); lra).
  change (bpow (- (32))) with (bpow (-32)) in Hp0.
  assert (Hup : v <= 1 - bpow (-33)) by nra. assert (Hlo : bpow (-33) <= v) by nra.
  split; [pose proof (bpow_pos (-33)); lra|]. split; [|done].
  pose proof (Rlog2_lower v Hv ltac:(pose proof (bpow_pos (-33)); lra)). split; [lra|].
  apply Rlog2_mono in Hlo; [|apply bpow_pos]. rewrite Rlog2_bpow in Hlo.
  assert (E6 : bpow 6 = 64) by (rewrite <- bpow_IZR by lia; f_equal). lra.
Qed.

(** The term of a byte that is not the only one. *)
Lemma term_near :
  (c < n)%Z →
  ∃ q t, SFmul 53 1024 p_hat (log2 p_hat) = SFopp q ∧ has_value q t ∧ bpow (-100) <= t ∧
    - plogp (IZR n) c <= t * rounding ^ 8 + term_slack * p ∧
    t <= (- plogp (IZR n) c + term_slack * p) * rounding ^ 8.
Proof using All.
  intros Hlt. destruct frequency_near as [Hp (v & Hv & V1 & V2)]. pose proof (has_value_pos _ _ Hv) as Pv.
  destruct (log_range v Hlt V1 V2 Pv) as (Hv1 & Hl & Hvl).
  destruct (Hlog v Hv) as [_ Hacc]. destruct (Hacc Hv1) as (y & w & El & Hy & W1 & W2).
  assert (Ny : near 4 33 6 y (- Rlog2 v)) by (split; [done|by exists w]).
  assert (Nv : near 0 33 0 p_hat v) by (split; [change (bpow (- (33))) with (bpow (-33)); change (bpow 0) with 1; lra|exists v; cbn; split; [done|lra]]).
  destruct (mul_near _ _ _ _ _ _ _ _ _ _ Nv Ny ltac:(lia) ltac:(lia) ltac:(lia)) as [Hr (t & Ht & T1 & T2)].
  exists (SFmul 53 1024 p_hat y), t. rewrite El. split; [exact (mul_opp _ _ _ _ Hv Hy)|]. split; [done|].
  pose proof (bpow_pos (- (32))) as Hb32. assert (Pp : 0 < p) by lra. pose proof (Rlog2_near p v Pp Pv V1 V2) as [L1 L2].
  unfold plogp. destruct (Z.eqb_spec c 0) as [?|_]; [lia|]. fold p.
  change (S (0 + 4)) with 5%nat in *. change (33 + 33)%Z with 66%Z in Hr.
  pose proof (rounding_pos 3). pose proof (rounding_pos 5). pose proof (rounding_small 5 ltac:(lia)).
  pose proof bpow_40_small. pose proof (bpow_pos (-33)). pose proof (has_value_pos _ _ Ht).
  set (L := - Rlog2 p) in *. set (L' := - Rlog2 v) in *. assert (0 < L') by lra.
  replace (- (p * Rlog2 p)) with (p * L) by (unfold L; ring).
  replace (rounding ^ 8) with (rounding ^ 5 * rounding ^ 3) by ring. split_and!.
  - apply (Rle_trans _ (bpow (-67))); [apply bpow_le; lia|].
    assert (E : bpow (-66) = 2 * bpow (-67)).
    { replace (-66)%Z with (1 + -67)%Z by lia. rewrite bpow_add. change (bpow 1) with (2 * 1). lra. }
    change (bpow (- (66))) with (bpow (-66)) in Hr. nra.
  - apply (Rle_trans _ (p * L' + term_slack * p)); [nra|]. apply Rplus_le_compat_r.
    apply (Rle_trans _ (v * rounding ^ 3 * L')); [apply Rmult_le_compat_r; lra|].
    replace (v * rounding ^ 3 * L') with (v * L' * rounding ^ 3) by ring. rewrite <- Rmult_assoc.
    apply Rmult_le_compat_r; lra.
  - apply (Rle_trans _ (v * L' * rounding ^ 5)); [done|].
    apply (Rle_trans _ (p * rounding ^ 3 * L' * rounding ^ 5)); [repeat apply Rmult_le_compat_r; lra|].
    replace (p * rounding ^ 3 * L' * rounding ^ 5) with (p * L' * (rounding ^ 5 * rounding ^ 3)) by ring.
    apply Rmult_le_compat_r; [nra|]. nra.
Qed.

End Term.

(** ** The loop over the histogram *)

(** After [k] counts, with the exact sum [s] of their terms and the sum [f] of
    their frequencies. *)
Definition sum_near (k : nat) (x : spec_float) (s f : R) : Prop :=
  ∃ a, denotes x a ∧ a <= (s + term_slack * f) * rounding ^ (8 + k) ∧
    s <= a * rounding ^ (8 + k) + term_slack * f.

Lemma term_slack_pos : 0 < term_slack.
Proof. apply bpow_pos. Qed.

Lemma rounding_more j k : (j <= k)%nat → rounding ^ j <= rounding ^ k.
Proof. intros H. apply Rle_pow; [apply rounding_gt_1|done]. Qed.

(** A count that adds nothing to the sum. *)
Lemma sum_near_skip k x y s f f' :
  sum_near k x s f → (∀ a, denotes x a → denotes y a) → 0 <= s → 0 <= f → f <= f' →
  sum_near (S k) y s f'.
Proof.
  intros (a & Ha & A1 & A2) Hy Hs Hf Hle. exists a. split; [by apply Hy|].
  pose proof term_slack_pos. pose proof (denotes_nonneg _ _ Ha). pose proof (rounding_pos (8 + k)).
  pose proof (rounding_more (8 + k) (8 + S k) ltac:(lia)).
  assert (term_slack * f <= term_slack * f') by nra. assert (0 <= term_slack * f) by nra. split.
  - eapply Rle_trans; [exact A1|]. apply Rmult_le_compat; lra.
  - eapply Rle_trans; [exact A2|]. apply Rplus_le_compat; [apply Rmult_le_compat_l|]; lra.
Qed.

(** A count that adds a term. *)
Lemma sum_near_add k x q t s f T p :
  sum_near k x s f → has_value q t → bpow (-100) <= t →
  T <= t * rounding ^ 8 + term_slack * p → t <= (T + term_slack * p) * rounding ^ 8 →
  0 <= s → 0 <= f → 0 <= T → 0 <= p → s + T <= 8 → f + p <= 1 → (k <= 900)%nat →
  sum_near (S k) (SFsub 53 1024 x (SFopp q)) (s + T) (f + p).
Proof.
  intros (a & Ha & A1 & A2) Hq Ht T1 T2 Hs Hf HT Hp Hmax Hfmax Hk.
  pose proof term_slack_pos as Hsl. pose proof (denotes_nonneg _ _ Ha) as Pa. pose proof (bpow_pos (-100)).
  pose proof (rounding_pos (8 + k)) as R1. pose proof (rounding_pos 8) as R8.
  pose proof (rounding_more 8 (8 + k) ltac:(lia)) as Rm. pose proof rounding_gt_1 as Rg.
  assert (B1 : a + t <= (s + T + term_slack * (f + p)) * rounding ^ (8 + k)).
  { assert (t <= (T + term_slack * p) * rounding ^ (8 + k)); [|lra].
    eapply Rle_trans; [exact T2|]. apply Rmult_le_compat_l; nra. }
  assert (B2 : s + T <= (a + t) * rounding ^ (8 + k) + term_slack * (f + p)).
  { assert (t * rounding ^ 8 <= t * rounding ^ (8 + k)) by (apply Rmult_le_compat_l; lra). lra. }
  destruct (sub_error x q a t Ha Hq) as (r & Hr & He).
  { split; [pose proof (bpow_le (-500) (-100) ltac:(lia)); lra|].
    pose proof (rounding_small (8 + k) ltac:(lia)). pose proof bpow_40_small.
    assert (term_slack <= 1) by (apply (bpow_le (-48) 0); lia).
    assert (bpow 10 = 1024) by (rewrite <- bpow_IZR by lia; f_equal).
    pose proof (bpow_le 10 500 ltac:(lia)). assert (a + t <= 9 * 2); [|lra].
    eapply Rle_trans; [exact B1|]. apply Rmult_le_compat; nra. }
  exists r. split; [by right|]. change (8 + S k)%nat with (S (8 + k)). cbn [pow].
  pose proof (Rle_abs (r - (a + t))). pose proof (Rle_abs (- (r - (a + t)))) as He2. rewrite Rabs_Ropp in He2.
  pose proof ulp_small. pose proof (bpow_pos (-53)).
  assert (C1 : r <= (a + t) * rounding) by (unfold rounding; nra).
  assert (C2 : a + t <= r * rounding) by (unfold rounding; nra). split.
  - eapply Rle_trans; [exact C1|]. rewrite (Rmult_comm rounding), <- Rmult_assoc.
    apply Rmult_le_compat_r; lra.
  - eapply Rle_trans; [exact B2|]. apply Rplus_le_compat_r. rewrite <- Rmult_assoc.
    apply Rmult_le_compat_r; lra.
Qed.

Lemma one_value : has_value one_b64 1.
Proof.
  exists 4503599627370496%positive, (-52)%Z. split; [by vm_compute|]. split; [by split|].
  change (IZR 4503599627370496) with (IZR (2 ^ 52)). rewrite bpow_IZR, <- bpow_add by lia. done.
Qed.

Section Loop.
Context (log2 : spec_float → spec_float) (n : Z).
Hypothesis (Hn : (0 < n < 2 ^ 32)%Z).

Definition count_ok (c : Z) : Prop :=
  (0 <= c <= n)%Z ∧ (c ≠ 0%Z → log2_accurate log2 (SFdiv 53 1024 (b64_of_uint c) (b64_of_uint n))).

Lemma term_nonneg c : (0 <= c <= n)%Z → 0 <= - plogp (IZR n) c ∧ 0 <= IZR c / IZR n.
Proof using Hn.
  intros Hc. assert (Hn' : 0 < IZR n) by (apply IZR_lt; lia).
  pose proof (Rsum_upper_0 (IZR n) [c] Hn') as H. cbn in H. split.
  - enough (plogp (IZR n) c + 0 <= 0) by lra. apply H, Forall_singleton. split; [lia|]. apply IZR_le. lia.
  - apply Rmult_le_pos; [apply IZR_le; lia|]. left. by apply Rinv_0_lt_compat.
Qed.

(** One count, whatever it is. *)
Lemma step_near k x s f c :
  sum_near k x s f → count_ok c → 0 <= s → 0 <= f → s - plogp (IZR n) c <= 8 →
  f + IZR c / IZR n <= 1 → (k <= 900)%nat →
  sum_near (S k) (@entropy_step _ (binary64 log2) (b64_of_uint n) x c) (s - plogp (IZR n) c) (f + IZR c / IZR n).
Proof using Hn.
  intros Hx [Hc Hlog] Hs Hf Hmax Hfmax Hk. destruct (term_nonneg c Hc) as [PT Pp].
  unfold entropy_step. cbn [binary64 d_of_uint d_div d_sub d_mul d_log2].
  destruct (Z.eqb_spec c 0) as [->|Hc0].
  { unfold plogp. cbn [Z.eqb]. rewrite Rminus_0_r. by apply (sum_near_skip _ x _ _ f); [..|lra]. }
  specialize (Hlog Hc0). destruct (Z.eq_dec c n) as [->|Hne].
  - assert (Hp : plogp (IZR n) n = 0).
    { unfold plogp. destruct (n =? 0)%Z; [done|]. replace (IZR n / IZR n) with 1 by (field; apply not_0_IZR; lia).
      unfold Rlog2. rewrite ln_1. lra. }
    rewrite Hp, Rminus_0_r. apply (sum_near_skip _ x _ _ f); [done| |done..|lra].
    assert (Hone : SFdiv 53 1024 (b64_of_uint n) (b64_of_uint n) = one_b64) by (apply self_ratio; lia).
    rewrite Hone in *. destruct (Hlog 1 one_value) as [Hz _]. destruct (Hz eq_refl) as [z ->].
    intros a [[[z' ->] ->]|Ha].
    + left. split; [|done]. cbn. by destruct z, z'; eauto.
    + right. by destruct Ha as (m & e & -> & Hm); exists m, e.
  - destruct (term_near log2 n c ltac:(lia) ltac:(lia) Hlog ltac:(lia)) as (q & t & -> & Hq & Ht & T1 & T2).
    unfold Rminus. apply (sum_near_add k x q t); try done; lra.
Qed.

Lemma Rsum_nonneg h : Forall count_ok h → 0 <= - Rsum (plogp (IZR n) <$> h).
Proof using Hn.
  induction 1 as [|c h [Hc _] _ IH]; [cbn; lra|]. rewrite fmap_cons. cbn [Rsum].
  pose proof (term_nonneg c Hc). lra.
Qed.

Lemma Zsum_ok_nonneg h : Forall count_ok h → (0 <= Zsum h)%Z.
Proof using Hn. induction 1 as [|c h [Hc _] _ IH]; cbn [Zsum]; lia. Qed.

(** The whole loop. *)
Lemma fold_near h k x s f :
  Forall count_ok h → sum_near k x s f → 0 <= s → 0 <= f →
  s - Rsum (plogp (IZR n) <$> h) <= 8 → f + IZR (Zsum h) / IZR n <= 1 → (k + length h <= 900)%nat →
  sum_near (k + length h) (fold_left (@entropy_step _ (binary64 log2) (b64_of_uint n)) h x)
    (s - Rsum (plogp (IZR n) <$> h)) (f + IZR (Zsum h) / IZR n).
Proof using Hn.
  intros Hh. revert k x s f. induction Hh as [|c h Hc Hh IH]; intros k x s f Hx Hs Hf Hmax Hfmax Hk.
  - cbn. rewrite Nat.add_0_r. unfold Rdiv. by rewrite Rminus_0_r, Rmult_0_l, Rplus_0_r.
  - rewrite fmap_cons in *. cbn [fold_left Rsum Zsum length] in *. rewrite plus_IZR in *.
    pose proof (Rsum_nonneg h Hh). destruct (term_nonneg c (proj1 Hc)).
    assert (0 <= IZR (Zsum h) / IZR n).
    { apply Rmult_le_pos; [apply IZR_le, Zsum_ok_nonneg, Hh|]. left. apply Rinv_0_lt_compat, IZR_lt. lia. }
    rewrite Rdiv_plus_distr in *.
    replace (k + S (length h))%nat with (S k + length h)%nat by lia.
    replace (s - (plogp (IZR n) c + Rsum (plogp (IZR n) <$> h))) with
      (s - plogp (IZR n) c - Rsum (plogp (IZR n) <$> h)) in * by ring.
    rewrite <- Rplus_assoc in *.
    apply IH; try lra; [|lia]. apply step_near; try done; try lra. lia.
Qed.

End Loop.

(** ** The value for a payload *)

(** What the bounds of the loop amount to after 256 counts. *)
Lemma error_collect a h :
  0 <= h <= 8 → 0 <= a →
  a <= (h + term_slack * 1) * rounding ^ 264 → h <= a * rounding ^ 264 + term_slack * 1 →
  Rabs (a - h) <= bpow (-38).
Proof.
  intros Hh Ha A1 A2. pose proof term_slack_pos as Hs.
  assert (Hr : rounding ^ 264 <= 1 + 64 * term_slack).
  { assert (E : INR 264 = 264) by (rewrite INR_IZR_INZ; f_equal; lia).
    assert (E48 : term_slack = 32 * bpow (-53)).
    { unfold term_slack. replace (-48)%Z with (5 + -53)%Z by lia. rewrite bpow_add.
      f_equal. rewrite <- bpow_IZR by lia. f_equal. }
    pose proof (rounding_pow 264) as H. rewrite E in H. pose proof ulp_small. pose proof (bpow_pos (-53)). lra. }
  assert (E38 : bpow (-38) = 1024 * term_slack).
  { unfold term_slack. replace (-38)%Z with (10 + -48)%Z by lia. rewrite bpow_add.
    f_equal. rewrite <- bpow_IZR by lia. f_equal. }
  assert (Hsm : term_slack <= / 1000).
  { apply (Rle_trans _ (bpow (-40))); [apply bpow_le; lia|apply bpow_40_small]. }
  pose proof (rounding_pos 264).
  assert (B1 : a <= (h + term_slack) * (1 + 64 * term_slack)).
  { eapply Rle_trans; [exact A1|]. rewrite Rmult_1_r. apply Rmult_le_compat_l; lra. }
  assert (B2 : h <= a * (1 + 64 * term_slack) + term_slack).
  { eapply Rle_trans; [exact A2|]. rewrite Rmult_1_r. apply Rplus_le_compat_r, Rmult_le_compat_l; lra. }
  assert (a <= 9) by nra. rewrite E38. apply Rabs_le. nra.
Qed.

Lemma seven_value : has_value (b64_of_uint 7) 7.
Proof.
  exists 7881299347898368%positive, (-50)%Z. split; [by vm_compute|]. split; [by split|].
  change (IZR 7881299347898368) with (IZR (7 * 2 ^ 50)). rewrite mult_IZR, bpow_IZR, Rmult_assoc, <- bpow_add by lia.
  change (bpow (50 + -50)) with 1. lra.
Qed.

(** Fewer than 128 bytes stay away from 7 bits. *)
Lemma log2_short n : (0 < n < 128)%Z → Rlog2 (IZR n) <= 7 - bpow (-7).
Proof.
  intros Hn. assert (E7 : bpow 7 = 128) by (rewrite <- bpow_IZR by lia; f_equal).
  pose proof (bpow_opp_mul 7) as E. change (bpow (- (7))) with (bpow (-7)) in E.
  assert (Hn0 : 0 < IZR n) by (apply IZR_lt; lia). assert (Hn1 : IZR n <= 127) by (apply IZR_le; lia).
  pose proof (bpow_pos (-7)). pose proof (Rlog2_mul (IZR n * bpow (-7)) (bpow 7)) as Hm.
  replace (IZR n * bpow (-7) * bpow 7) with (IZR n) in Hm by (rewrite Rmult_assoc, E; ring).
  rewrite Rlog2_bpow in Hm. rewrite Hm by (nra || apply bpow_pos).
  pose proof (Rlog2_lower (IZR n * bpow (-7)) ltac:(nra) ltac:(nra)). nra.
Qed.

Section Payload.
Context (log2 : spec_float → spec_float) (data : list Z).
Hypothesis (Hok : bytes_ok data) (Hlen : (0 < Zlength data < 2 ^ 32)%Z) (Hlog : accurate_on log2 data).

Lemma counts_ok : Forall (count_ok log2 (Zlength data)) (byte_histogram data).
Proof using All.
  destruct (histogram_sum data Hok) as [Hsum Hpos]; [lia|]. apply Forall_lookup. intros i c Hi.
  split; [|by eapply (Forall_lookup_1 _ _ _ _ Hlog)]. split; [by eapply (Forall_lookup_1 _ _ _ _ Hpos)|].
  rewrite <- Hsum. by eapply Zsum_lookup_le.
Qed.

Lemma real_entropy_sum :
  shannon_entropy (F := R) (Some data) = - Rsum (plogp (IZR (Zlength data)) <$> byte_histogram data).
Proof using Hlen.
  unfold shannon_entropy. rewrite (proj2 (Z.eqb_neq _ _)) by lia. rewrite entropy_fold. cbn. lra.
Qed.

(** The errors of all operations together. *)
Lemma entropy_error :
  ∃ h, denotes (@shannon_entropy _ (binary64 log2) (Some data)) h ∧
    Rabs (h - shannon_entropy (F := R) (Some data)) <= bpow (-38).
Proof using All.
  destruct (histogram_sum data Hok) as [Hsum _]; [lia|]. destruct (entropy_range data Hok Hlen) as [[H0 H8] _].
  rewrite real_entropy_sum in *. set (H := - Rsum _) in *.
  assert (Hlen256 : length (byte_histogram data) = 256%nat) by (unfold byte_histogram; by rewrite histogram_length).
  assert (Hn0 : IZR (Zlength data) ≠ 0) by (apply not_0_IZR; lia).
  destruct (fold_near log2 (Zlength data) Hlen (byte_histogram data) 0 (b64_of_uint 0) 0 0) as (a & Ha & A1 & A2).
  - apply counts_ok.
  - exists 0. split; [left; by eauto|]. lra.
  - lra.
  - lra.
  - unfold Rminus. fold H. lra.
  - rewrite Hsum. right. field. done.
  - rewrite Hlen256. lia.
  - rewrite Hsum, Hlen256 in *. cbn [Nat.add] in *.
    replace (0 + IZR (Zlength data) / IZR (Zlength data)) with 1 in * by (field; done).
    replace (0 - Rsum (plogp (IZR (Zlength data)) <$> byte_histogram data)) with H in * by (unfold H; ring).
    exists a. split.
    + unfold shannon_entropy. by rewrite (proj2 (Z.eqb_neq _ _)) by lia.
    + apply error_collect; [lra|by apply (denotes_nonneg _ _ Ha)|done..].
Qed.

End Payload.

(** ** Properties *)

(** C30. The entropy that is computed: for every payload below 2^32 bytes and
    every [std::log2] that is accurate to four units in the last place on its
    byte frequencies, the [double] returned for it is within 2^-38 of Shannon's
    entropy, hence at most 8 + 2^-38.  So the entropy rule decides as the exact
    entropy would unless that is within 2^-38 of the threshold, and with the
    default threshold a payload of fewer than 128 bytes, although payloads from
    32 bytes on are examined, raises no alert. *)
Theorem entropy_accurate log2 p config :
  let data := q_payload p in
  let exact := shannon_entropy (F := R) (Some data) in
  bytes_ok data → (0 < Zlength data < 2 ^ 32)%Z → accurate_on log2 data →
  ∃ h, denotes (payload_entropy log2 p) h ∧ Rabs (h - exact) <= bpow (-38) ∧ 0 <= h <= 8 + bpow (-38) ∧
    (∀ t, denotes (entropy_threshold config) t → eligible config p →
       (t <= exact - bpow (-38) → entropy_alerts log2 config p =
          [alert_for kHighEntropyPayload p (entropy_detail (payload_entropy log2 p) (payload_size p))]) ∧
       (exact + bpow (-38) < t → entropy_alerts log2 config p = [])) ∧
    ((Zlength data < 128)%Z → entropy_alerts log2 AnalysisConfig_default p = []).
Proof.
  intros data exact Hok Hlen Hlog. destruct (entropy_error log2 data Hok Hlen Hlog) as (h & Hh & He).
  fold exact in He. change (@shannon_entropy _ (binary64 log2) (Some data)) with (payload_entropy log2 p) in Hh.
  destruct (entropy_range data Hok Hlen) as ([H0 H8] & Hup & _). fold exact in H0, H8, Hup.
  pose proof (Rle_abs (h - exact)). pose proof (Rle_abs (- (h - exact))) as Hlow. rewrite Rabs_Ropp in Hlow.
  pose proof (denotes_nonneg _ _ Hh). exists h. split; [done|]. split; [done|]. split; [lra|]. split.
  - intros t Ht Hel. pose proof (SFleb_value _ _ _ _ Ht Hh) as Hle.
    unfold entropy_alerts, entropy_alert. rewrite decide_True by done. split; intros Hd.
    + by rewrite (proj2 Hle) by lra.
    + destruct (SFleb _ _); [|done]. assert (t <= h) by by apply Hle. lra.
  - intros Hshort. unfold entropy_alerts, entropy_alert. destruct (decide _); [|done].
    pose proof (SFleb_value _ _ _ _ (or_intror seven_value) Hh) as Hle.
    cbn [AnalysisConfig_default entropy_threshold]. destruct (SFleb _ _); [|done].
    assert (7 <= h) by by apply Hle. pose proof (log2_short _ ltac:(split; [apply Hlen|exact Hshort])).
    assert (bpow (-38) < bpow (-7)) by (apply bpow_lt; lia). lra.
Qed.

(** ** Witness *)

(** [log2_powers] on a power of two [2^-k], where it is exact. *)
Lemma power_accurate x e k :
  x = S754_finite false 4503599627370496 e → (1 <= k < 2 ^ 64)%Z → (e = - 52 - k)%Z →
  log2_powers x = SFopp (b64_of_uint k) → has_value (b64_of_uint k) (IZR k) → log2_accurate log2_powers x.
Proof.
  intros -> Hk -> El Hv v (m & e' & [= <- <-] & _ & ->). rewrite El.
  assert (E : IZR (Z.pos 4503599627370496) * bpow (- 52 - k) = bpow (- k)).
  { change (IZR (Z.pos 4503599627370496)) with (IZR (2 ^ 52)). rewrite bpow_IZR, <- bpow_add by lia. f_equal. lia. }
  rewrite E. assert (bpow (- k) < 1) by (apply (bpow_lt _ 0); lia). split; [lra|]. intros _.
  exists (b64_of_uint k), (IZR k). rewrite Rlog2_bpow, opp_IZR, Ropp_involutive.
  pose proof (rounding_pos 4). assert (1 <= IZR k) by (apply IZR_le; lia). split_and!; try done; nra.
Qed.

Lemma half_accurate : log2_accurate log2_powers (SFdiv 53 1024 (b64_of_uint 32) (b64_of_uint 64)).
Proof.
  apply (power_accurate _ (-53) 1); [by vm_compute|lia|lia|by vm_compute|].
  exists 4503599627370496%positive, (-52)%Z. split; [by vm_compute|]. split; [by split|].
  change (IZR (Z.pos 4503599627370496)) with (IZR (2 ^ 52)). rewrite bpow_IZR, <- bpow_add by lia. done.
Qed.

Lemma quarter_accurate : log2_accurate log2_powers (SFdiv 53 1024 (b64_of_uint 16) (b64_of_uint 64)).
Proof.
  apply (power_accurate _ (-54) 2); [by vm_compute|lia|lia|by vm_compute|].
  exists 4503599627370496%positive, (-51)%Z. split; [by vm_compute|]. split; [by split|].
  change (IZR (Z.pos 4503599627370496)) with (IZR (2 * 2 ^ 51)). rewrite mult_IZR, (bpow_IZR 51), Rmult_assoc, <- bpow_add by lia.
  change (bpow (51 + -51)) with 1. lra.
Qed.

(** 64 bytes, of three values. *)
Definition three_bytes : QueuedPacket :=
  mk_QueuedPacket ParsedPacket_default (replicate 32 0%Z ++ replicate 16 1%Z ++ replicate 16 2%Z).

Lemma three_bytes_accurate : accurate_on log2_powers (q_payload three_bytes).
Proof.
  unfold accurate_on.
  replace (byte_histogram (q_payload three_bytes)) with ([32; 16; 16] ++ replicate 253 0)%Z by by vm_compute.
  change (Zlength (q_payload three_bytes)) with 64%Z. apply Forall_app. split.
  - repeat apply Forall_cons_2; [..|by apply Forall_nil_2]; intros _;
      [apply half_accurate|apply quarter_accurate|apply quarter_accurate].
  - apply Forall_replicate. done.
Qed.

Lemma entropy_accurate_witness :
  payload_entropy log2_powers three_bytes = SFdiv 53 1024 (b64_of_uint 3) (b64_of_uint 2) ∧
  ∃ h, denotes (payload_entropy log2_powers three_bytes) h ∧
    Rabs (h - shannon_entropy (F := R) (Some (q_payload three_bytes))) <= bpow (-38) ∧
    entropy_alerts log2_powers AnalysisConfig_default three_bytes = [].
Proof.
  split; [vm_compute; reflexivity|].
  destruct (entropy_accurate log2_powers three_bytes AnalysisConfig_default) as (h & Hh & He & _ & _ & Hno).
  - by_decide.
  - by_decide.
  - apply three_bytes_accurate.
  - exists h. split; [exact Hh|]. split; [exact He|]. apply Hno. by_decide.
Defined.
