(* ===== verification/AlertLines.v ===== *)
(** * The lines of the alerts

    [format_alert] writes into a buffer of 256 bytes, the details into buffers of
    96: every alert the engine can emit is printed in full, and the entropy in a
    detail is the nearest hundredth of the value. *)
From Stdlib Require Import Floats.SpecFloat.
From S2P Require Import Prelude Fmt FmtFloat Packet Alert Signature FlowTracker FlowShards Entropy AnalysisEngine.

Local Open Scope string_scope.
Local Open Scope Z_scope.
Local Open Scope list_scope.

(** ** Definitions *)

(** An alert whose line fits the buffer. *)
Definition printable (a : Alert) : Prop :=
  is_uint 16 (a_src_port a) ∧ is_uint 16 (a_dst_port a) ∧ (String.length (detail a) < 96)%nat.

(** The ports of a packet are what its header holds. *)
Definition ports_ok (p : QueuedPacket) : Prop :=
  is_uint 16 (src_port (meta p)) ∧ is_uint 16 (dst_port (meta p)).

#[export] Instance ports_ok_dec p : Decision (ports_ok p).
Proof. unfold ports_ok. apply _. Defined.

(** [h] hundredths are nearest to a value that is not negative. *)
Definition nearest_hundredth (value : spec_float) (h : Z) : Prop :=
  match value with
  | S754_zero false => h = 0
  | S754_finite false m e => 2 * Z.abs (2 ^ (- e) * h - 100 * Z.pos m) ≤ 2 ^ (- e)
  | _ => False
  end.

(** ** Lemmas *)

Lemma printable_flow :
  (∀ src dst ports window, printable (mk_Alert kPortScan src dst 0 0 (port_scan_detail ports window))) ∧
  (∀ src pending window, printable (mk_Alert kSynFlood src 0 0 0 (syn_flood_detail pending window))).
Proof. split; intros; (split_and!; [done..|apply snprintf_length; lia]). Qed.

Lemma printable_signature db p : ports_ok p → Forall printable (signature_alerts db p).
Proof.
  intros [H1 H2]. unfold signature_alerts. destruct (_ && _); [|constructor].
  apply Forall_singleton. split_and!; [done..|]. cbn. lia.
Qed.

Lemma printable_entropy config p value : ports_ok p → Forall printable (entropy_alert config p value).
Proof.
  intros [H1 H2]. unfold entropy_alert. destruct (SFleb _ _); [|constructor].
  apply Forall_singleton. split_and!; [done..|]. apply snprintf_length. lia.
Qed.

Lemma Forall_concat_zip_with {A B C} (P : C → Prop) (Q : A → Prop) (R : B → Prop) (f : A → B → list C) l k :
  (∀ x y, Q x → R y → Forall P (f x y)) → Forall Q l → Forall R k → Forall P (concat (zip_with f l k)).
Proof.
  intros Hf Hl. revert k. induction Hl as [|x l Hx Hl IH]; intros k Hk; [constructor|].
  destruct Hk as [|y k Hy Hk]; [constructor|]. cbn. apply Forall_app_2; [by apply Hf|by apply IH].
Qed.

Lemma printable_batch hash32 iter log2 backend engine batch :
  Forall ports_ok batch →
  Forall printable (analyze_batch hash32 iter log2 backend engine batch).2.
Proof.
  intros Hb. rewrite analyze_batch_eq. cbn [snd]. apply Forall_app_2.
  - apply (Forall_concat_zip_with _ ports_ok (Forall printable)); [|done|].
    + intros p f Hp Hf. by apply Forall_app_2; [apply printable_signature|].
    + apply observe_all_Forall; apply printable_flow.
  - apply (Forall_concat_zip_with _ ports_ok (λ _, True)); [..|by apply Forall_true].
    + intros. by apply printable_entropy.
    + rewrite Forall_forall in *. intros p [_ Hp]%list_elem_of_filter. by apply Hb.
Qed.

(** ** Properties *)

(** C31. No alert line is cut: whatever the backend answers and the tracker has
    seen, for packets with 16-bit ports every alert that [analyze_batch] emits is
    printed as its whole prefix followed by its whole detail. *)
Theorem alert_lines_complete hash32 iter log2 backend engine batch a :
  Forall ports_ok batch → a ∈ (analyze_batch hash32 iter log2 backend engine batch).2 →
  format_alert a = (alert_prefix a +:+ detail a)%string.
Proof.
  intros Hb Ha. pose proof (printable_batch hash32 iter log2 backend engine batch Hb) as Hp.
  rewrite Forall_forall in Hp. destruct (Hp a Ha) as (? & ? & ?). by apply format_alert_complete.
Qed.

(** C32. What the detail of an entropy alert says: for every value in the range of
    an entropy and every payload size, the text is not cut by its buffer, gives the
    size, and the number printed is a number of hundredths, at most 8.00, that no
    other number of hundredths is closer to the value than. *)
Theorem entropy_detail_nearest value size :
  in_bits_range value → value ≠ S754_zero true → is_uint 64 size →
  ∃ h, 0 ≤ h ≤ 800 ∧ nearest_hundredth value h ∧
    entropy_detail value size =
      ("entropy=" +:+ fixed_digits 2 h +:+ " bits/byte over " +:+ fmt_u size +:+ "B")%string.
Proof.
  intros Hr Hz [_ Hs].
  assert (Hh : ∃ h, 0 ≤ h ≤ 800 ∧ nearest_hundredth value h ∧ fmt_fixed 2 value = fixed_digits 2 h).
  { destruct (in_bits_range_cases value Hr) as [[[] ->]|(m & e & -> & _ & He & Hm)]; [done|by exists 0|].
    exists (scaled 100 (Z.pos m) e). split; [apply scaled_range; nia|].
    split; [|done]. apply scaled_nearest. lia. }
  destruct Hh as (h & Hh & Hn & E). exists h. split; [done|]. split; [done|].
  unfold entropy_detail. rewrite E, snprintf_fits; [done|].
  pose proof (fixed_digits_length 2 1 h ltac:(lia) ltac:(cbn; lia)).
  pose proof (fmt_u_length size 20 ltac:(lia) ltac:(cbn in *; lia)).
  rewrite !str_length_app. cbn [String.length]. lia.
Qed.

(** *** Witnesses *)

(** A packet with the EICAR string. *)
Definition eicar_packet : QueuedPacket :=
  mk_QueuedPacket (set_transport kTCP 40000 80 24 ParsedPacket_default) (string_bytes kEicarTestString).

Lemma alert_lines_complete_witness :
  let out := (analyze_batch id_hash map_keys log2_powers (CpuEntropyBackend log2_powers)
                (AnalysisEngine_new AnalysisConfig_default) [eicar_packet]).2 in
  ∃ a, out = [a] ∧ format_alert a = (alert_prefix a +:+ detail a)%string ∧
    detail a = "payload matches a known-bad signature hash".
Proof.
  eexists. split; [vm_compute; reflexivity|]. split; [|done].
  apply (alert_lines_complete id_hash map_keys log2_powers (CpuEntropyBackend log2_powers)
    (AnalysisEngine_new AnalysisConfig_default) [eicar_packet]); [by_decide|vm_compute; by left].
Defined.

(** 7.625, half-way between two hundredths: the even one is printed. *)
Definition tie_value : spec_float := SFdiv 53 1024 (b64_of_uint 61) (b64_of_uint 8).

Lemma entropy_detail_nearest_witness :
  entropy_detail tie_value 1460 = "entropy=7.62 bits/byte over 1460B" ∧
  ∃ h, 0 ≤ h ≤ 800 ∧ nearest_hundredth tie_value h ∧
    entropy_detail tie_value 1460 =
      ("entropy=" +:+ fixed_digits 2 h +:+ " bits/byte over " +:+ fmt_u 1460 +:+ "B")%string.
Proof.
  split; [by vm_compute|]. apply entropy_detail_nearest; [by_decide|done|by_decide].
Defined.
