(* ===== verification/GpuBackend.v ===== *)
(** * GPU entropy backend ([src/gpu/gpu_entropy_backend.cpp], set-up and the
      synchronous calls of [src/gpu/metal_context.cpp])

    [GpuEntropyBackend] is an [EntropyBackend] whose dispatches go through
    [MetalContext].  What it needs from the dispatches is the class
    [DispatchContract], which the histories of [Metal] satisfy; the engine is used
    through its own interface.  Answers of Metal (devices, compilers, errors) are
    arguments. *)
From Stdlib Require Import Floats.SpecFloat.
From S2P Require Import Prelude Fmt Packet Alert Signature FlowTracker Entropy GpuKernel Metal.
From S2P Require Import FlowShards MetalSpec AnalysisEngine.

Local Open Scope string_scope.
Local Open Scope Z_scope.
Local Open Scope list_scope.

(** ** Set-up *)

Section Context.
Context {F : Type} `{FloatOps F}.

(** [NS::Error*]: null, or an error with or without a description. *)
Definition ns_error_to_string (error : option (option string)) : string :=
  match error with
  | None => "(no error details)"
  | Some None => "(no description)"
  | Some (Some desc) => desc
  end.

(** The device with its name, if it has one, whether there is a queue, and the
    rest of the context. *)
Record MetalContext : Type := mk_MetalContext {
  ctx_device : option (option string);
  ctx_queue : bool;
  impl : metal (F := F)
}.

Definition empty_impl : metal (F := F) := metal_start ∅.

Definition MetalContext_new (device : option (option string)) (queue : bool) : MetalContext :=
  match device with
  | None => mk_MetalContext None false
      (set_error "MTL::CreateSystemDefaultDevice() returned null — no Metal-capable GPU found" empty_impl)
  | Some _ =>
      mk_MetalContext device queue
        (if queue then empty_impl else set_error "device->newCommandQueue() returned null" empty_impl)
  end.

Definition is_available (c : MetalContext) : bool :=
  bool_decide (is_Some (ctx_device c)) && ctx_queue c.

Definition device_name (c : MetalContext) : string :=
  match ctx_device c with
  | None => "(none)"
  | Some None => "(unnamed)"
  | Some (Some name) => name
  end.

(** What the shader compiler answers: a library, the function, the pipeline with
    its [maxTotalThreadsPerThreadgroup], and the error object. *)
Record compilation : Type := mk_compilation {
  c_library : bool; c_function : bool; c_pipeline : option Z; c_error : option (option string)
}.

Definition set_impl (s : metal) (c : MetalContext) : MetalContext :=
  mk_MetalContext (ctx_device c) (ctx_queue c) s.

Definition fail_with (message : string) (c : MetalContext) : bool * MetalContext :=
  (false, set_impl (set_error message (impl c)) c).

Definition load_kernel (answer : compilation) (function_name : string) (c : MetalContext)
    : bool * MetalContext :=
  if negb (is_available c) then fail_with "no Metal device available" c
  else if negb (c_library answer)
  then fail_with ("shader compile failed: " +:+ ns_error_to_string (c_error answer)) c
  else if negb (c_function answer)
  then fail_with ("kernel function '" +:+ function_name +:+ "' not found in the compiled library") c
  else match c_pipeline answer with
  | None => fail_with ("failed to build compute pipeline: " +:+ ns_error_to_string (c_error answer)) c
  | Some max_threads =>
      let s := impl c in
      (true, set_impl (mk_metal (mem s) (<[function_name := max_threads]> (pipelines s))
                         (free_buffers s) (last_error s) (jobs s)) c)
  end.

(** The constructor: [ok_] and the context. *)
Definition GpuEntropyBackend_new (device : option (option string)) (queue : bool)
    (answer : compilation) : bool * MetalContext :=
  let ctx := MetalContext_new device queue in
  if is_available ctx then load_kernel answer kernel_name ctx else (false, ctx).

Definition backend_name (c : MetalContext) : string := "gpu (" +:+ device_name c +:+ ")".

(** ** PayloadBatch *)

Record PayloadBatch : Type := mk_PayloadBatch {
  pb_bytes : list Z; pb_offsets : list Z; pb_lengths : list Z
}.

Definition PayloadBatch_empty : PayloadBatch := mk_PayloadBatch [] [] [].

Definition batch_add (data : list Z) (b : PayloadBatch) : PayloadBatch :=
  mk_PayloadBatch (if 0 <? Zlength data then pb_bytes b ++ data else pb_bytes b)
    (pb_offsets b ++ [wrap 32 (Zlength (pb_bytes b))]) (pb_lengths b ++ [wrap 32 (Zlength data)]).

(** The spans [run_payload_entropy] hands to [submit_payload_entropy]. *)
Definition batch_spans (b : PayloadBatch) : list (list Z) :=
  zip_with (λ offset length, take (Z.to_nat length) (drop (Z.to_nat offset) (pb_bytes b)))
    (pb_offsets b) (pb_lengths b).

(** [submit_and_wait]: whether the command buffer completed, and its error object
    otherwise. *)
Definition submit_and_wait (completed : bool) (error : option (option string)) (c : MetalContext)
    : bool * MetalContext :=
  if completed then (true, c)
  else fail_with ("GPU command buffer did not complete: " +:+ ns_error_to_string error) c.

(** ** run_vector_add

    [dispatchThreads(count)]: every thread of the grid writes one element, in any
    order. *)
Definition add_element (a b : list F) (result : list F) (id : nat) : option (list F) :=
  x ← a !! id; y ← b !! id;
  if decide (id < length result)%nat then Some (<[id := f_add x y]> result) else None.

(** [make_buffer]: [newBuffer] copies the data it is given, or leaves the contents
    open; Metal rejects an empty buffer. *)
Definition make_buffer (newBuffer : option (list F) → Z → option (list F)) (data : option (list F)) (bytes : Z)
    : option (list F) :=
  let length := Z.max bytes 1 in
  match data with
  | Some l => if 0 <? bytes then newBuffer (Some l) length else newBuffer None length
  | None => newBuffer None length
  end.

(** [newBuffer i] is what the device answers to the [i]-th of the three calls;
    [order] the threads of the grid in the order they run. *)
Definition run_vector_add (newBuffer : nat → option (list F) → Z → option (list F)) (completed : bool)
    (error : option (option string)) (order : list nat) (c : MetalContext) (a b result : list F)
    : option (bool * list F * MetalContext) :=
  match pipelines (impl c) !! "vector_add" with
  | None => Some (false, result, set_impl (set_error
      "kernel 'vector_add' not loaded — call load_kernel() first" (impl c)) c)
  | Some _ =>
      if Zlength a =? 0 then Some (true, result, c)
      else
        let bytes := Zlength a * 4 in
        let buf_a := make_buffer (newBuffer 0%nat) (Some a) bytes in
        let buf_b := make_buffer (newBuffer 1%nat) (Some b) bytes in
        let buf_out := make_buffer (newBuffer 2%nat) None bytes in
        match buf_a, buf_b, buf_out with
        | Some a', Some b', Some out =>
            out ← foldl (λ r id, r ≫= λ out, add_element a' b' out id) (Some out) order;
            let '(ok, c) := submit_and_wait completed error c in
            Some (ok, if ok then take (length a) out else result, c)
        | _, _, _ => Some (false, result, (fail_with "failed to allocate GPU buffers" c).2)
        end
  end.

(** What Metal says of [newBuffer]: the buffer has the length, and the data. *)
Definition newBuffer_ok (newBuffer : nat → option (list F) → Z → option (list F)) : Prop :=
  ∀ i data bytes l, newBuffer i data bytes = Some l →
    Zlength l * 4 = bytes ∧ ∀ d, data = Some d → Zlength d * 4 = bytes → l = d.

End Context.

(** ** The backend *)

(** What the backend expects of [submit_payload_entropy] and [wait]. *)
Class DispatchContract {F} `{FloatOps F} {P : Type} (max_threads : Z)
    (submit : list (list Z) → option P) (wait : P → option (list F)) : Prop :=
  dispatched payloads p values :
    submit payloads = Some p → wait p = Some values → addressable payloads →
    values = expected max_threads payloads.

Definition GpuEntropyBackend {F P : Type} (ok : bool) (to_double : F → spec_float)
    (submit : list (list Z) → option P) (wait : P → option (list F)) : EntropyBackend :=
  mk_EntropyBackend P
    (λ packets, if ok then submit (q_payload <$> packets) else None)
    (λ pending, (λ values : list F, to_double <$> values) <$> wait pending).

(** A call of a history, with its result. *)
Section Histories.
Context {F : Type} `{FloatOps F} (kernels : gmap string Z).

Record finished_call : Type := mk_finished_call { call_state : metal (F := F); call_index : nat }.

Definition call_answer (c : finished_call) : option (list F) :=
  match j_answer <$> jobs (call_state c) !! call_index c with
  | Some (WaitValues values) => Some values
  | _ => None
  end.

(** Any way of running the calls inside histories of the context meets the
    contract. *)
Lemma histories_dispatch max_threads (submit : list (list Z) → option finished_call) :
  kernels !! kernel_name = Some max_threads → 1 ≤ max_threads →
  (∀ payloads c, submit payloads = Some c → metal_reachable kernels (call_state c) ∧
     j_payloads <$> jobs (call_state c) !! call_index c = Some payloads) →
  DispatchContract max_threads submit call_answer.
Proof.
  intros Hk Hm Hsub payloads [s i] values E Ew Ha. destruct (Hsub _ _ E) as [Hr Hp]. cbn in *.
  unfold call_answer in Ew. cbn in Ew.
  destruct (jobs s !! i) as [[pl ph a]|] eqn:Ej; [|done]. cbn in *. injection Hp as ->.
  destruct a; try done. injection Ew as ->.
  pose proof (metal_reachable_inv kernels s Hr) as Hinv. pose proof (inv_jobs _ _ Hinv) as Hj.
  rewrite Forall_lookup in Hj. by apply (job_answer_ok _ _ _ (Hj _ _ Ej) values).
Qed.

End Histories.

(** ** Lemmas *)

Lemma expected_length {F} `{FloatOps F} max_threads payloads :
  length (expected max_threads payloads) = length payloads.
Proof. apply length_fmap. Qed.

Lemma gpu_used_values {F P} `{FloatOps F} log2 (to_double : F → spec_float) max_threads
    (submit : list (list Z) → option P) wait `{!DispatchContract max_threads submit wait} packets :
  addressable (q_payload <$> packets) →
  let backend := GpuEntropyBackend true to_double submit wait in
  backend_answers backend packets = bool_decide (is_Some (compute backend packets)) ∧
  used_values log2 backend packets =
    match compute backend packets with
    | Some _ => to_double <$> expected max_threads (q_payload <$> packets)
    | None => payload_entropy log2 <$> packets
    end.
Proof.
  intros Ha backend. unfold used_values, backend_answers.
  destruct (compute backend packets) as [values|] eqn:Ec; [|done].
  unfold compute in Ec. cbn in Ec. destruct (submit (q_payload <$> packets)) as [p|] eqn:Es; [|done].
  destruct (wait p) as [vs|] eqn:Ew; [|done]. injection Ec as <-.
  rewrite (dispatched _ _ _ Es Ew Ha). rewrite (proj2 (Z.eqb_eq _ _)); [done|].
  unfold Zlength. by rewrite length_fmap, expected_length, length_fmap.
Qed.

(** The spans of a batch are the payloads added to it. *)
Definition batch_of (payloads : list (list Z)) : PayloadBatch :=
  fold_left (λ b p, batch_add p b) payloads PayloadBatch_empty.

Lemma batch_add_bytes data b : pb_bytes (batch_add data b) = pb_bytes b ++ data.
Proof.
  cbn. destruct (Z.ltb_spec 0 (Zlength data)); [done|]. destruct data; [by rewrite app_nil_r|].
  unfold Zlength in *. cbn in *. lia.
Qed.

Lemma batch_spans_add data b :
  length (pb_offsets b) = length (pb_lengths b) →
  (∀ i o l, pb_offsets b !! i = Some o → pb_lengths b !! i = Some l →
     0 ≤ o ∧ 0 ≤ l ∧ o + l ≤ Zlength (pb_bytes b)) →
  Zlength (pb_bytes b) < 2 ^ 32 → Zlength data < 2 ^ 32 →
  batch_spans (batch_add data b) = batch_spans b ++ [data].
Proof.
  intros Hl Hin Hb Hd. pose proof (Zlength_nonneg (pb_bytes b)). pose proof (Zlength_nonneg data).
  unfold batch_spans. rewrite batch_add_bytes. cbn [pb_offsets pb_lengths batch_add].
  rewrite zip_with_app by done. f_equal.
  - apply list_eq. intros i. rewrite !lookup_zip_with.
    destruct (pb_offsets b !! i) as [o|] eqn:Eo; [|done].
    destruct (pb_lengths b !! i) as [l|] eqn:El; [|done]. cbn. f_equal.
    destruct (Hin _ _ _ Eo El) as (? & ? & ?). unfold Zlength in *.
    rewrite drop_app_le by lia. rewrite take_app_le; [done|]. rewrite length_drop. lia.
  - cbn. rewrite !wrap_small by (unfold is_uint; lia). unfold Zlength. rewrite !Nat2Z.id.
    by rewrite drop_app_length, take_ge by lia.
Qed.

Lemma batch_of_spans payloads b :
  length (pb_offsets b) = length (pb_lengths b) →
  (∀ i o l, pb_offsets b !! i = Some o → pb_lengths b !! i = Some l →
     0 ≤ o ∧ 0 ≤ l ∧ o + l ≤ Zlength (pb_bytes b)) →
  Zlength (pb_bytes b) + Zsum (Zlength <$> payloads) < 2 ^ 32 →
  batch_spans (fold_left (λ b p, batch_add p b) payloads b) = batch_spans b ++ payloads.
Proof.
  revert b. induction payloads as [|p payloads IH]; intros b Hl Hin Ht; cbn; [by rewrite app_nil_r|].
  cbn in Ht. pose proof (Zlength_nonneg p). pose proof (Zlength_nonneg (pb_bytes b)).
  pose proof (Zsum_lengths_nonneg payloads).
  rewrite IH.
  - rewrite batch_spans_add by (done || lia). by rewrite <- app_assoc.
  - cbn. rewrite !length_app. cbn. lia.
  - intros i o l. rewrite batch_add_bytes. cbn [pb_offsets pb_lengths batch_add]. rewrite Zlength_app.
    rewrite !lookup_app_Some, !list_lookup_singleton_Some.
    rewrite !wrap_small by (unfold is_uint; lia).
    intros [Ho|(Hi1 & Ho & <-)] [Hl'|(Hi2 & Hl' & <-)].
    + destruct (Hin _ _ _ Ho Hl') as (? & ? & ?). lia.
    + apply lookup_lt_Some in Ho. lia.
    + apply lookup_lt_Some in Hl'. lia.
    + lia.
  - rewrite batch_add_bytes, Zlength_app. lia.
Qed.

(** [run_payload_entropy] submits the payloads that were added. *)
Lemma payload_batch_roundtrip payloads :
  Zsum (Zlength <$> payloads) < 2 ^ 32 → batch_spans (batch_of payloads) = payloads.
Proof. intros Ht. apply (batch_of_spans payloads PayloadBatch_empty); [done|done|done]. Qed.

(** [ok()] says whether the backend can work: a device, a queue and the kernel;
    otherwise there is a message to show. *)
Lemma backend_ready {F} `{FloatOps F} device queue answer :
  let r := GpuEntropyBackend_new (F := F) device queue answer in
  (r.1 = true ↔ is_Some device ∧ queue = true ∧ c_library answer = true ∧ c_function answer = true ∧
                ∃ n, c_pipeline answer = Some n ∧ pipelines (impl r.2) !! kernel_name = Some n) ∧
  (r.1 = false → last_error (impl r.2) ≠ "").
Proof.
  destruct device as [name|], queue, answer as [[] [] [n|] e]; cbn;
    (split; [|try discriminate]); try naive_solver.
Qed.

(** Every order of the grid's threads gives the elementwise sum. *)
Lemma add_elements {F} `{FloatOps F} (a b out : list F) order :
  length a = length b → length out = length a → Forall (λ id, (id < length a)%nat) order →
  ∃ out', foldl (λ r id, r ≫= λ out, add_element a b out id) (Some out) order = Some out' ∧
    length out' = length out ∧
    ∀ id, (id ∈ order → out' !! id = zip_with f_add a b !! id) ∧ (id ∉ order → out' !! id = out !! id).
Proof.
  intros Hab. revert out. induction order as [|id order IH]; intros out Hl Ho; cbn.
  - exists out. split_and!; [done|done|]. intros id. split; [intros H'; by apply elem_of_nil in H'|done].
  - apply Forall_cons_1 in Ho as [Hid Ho].
    destruct (lookup_lt_is_Some_2 a id) as [x Hx]; [done|].
    destruct (lookup_lt_is_Some_2 b id) as [y Hy]; [lia|].
    unfold add_element at 2. rewrite Hx, Hy. cbn. rewrite decide_True by lia.
    destruct (IH (<[id := f_add x y]> out)) as (out' & E & L & Hout); [by rewrite length_insert|done|].
    exists out'. rewrite length_insert in L. split_and!; [done|done|]. intros k. rewrite elem_of_cons.
    destruct (Hout k) as [H1 H2]. destruct (decide (k ∈ order)).
    + split; [by intros _; apply H1|]. intros Hn. exfalso. apply Hn. by right.
    + rewrite H2 by done. split.
      * intros [->|]; [|done]. rewrite list_lookup_insert_eq by lia.
        by rewrite lookup_zip_with, Hx, Hy.
      * intros Hn. rewrite list_lookup_insert_ne; [done|]. intros ->. apply Hn. by left.
Qed.

(** The three buffers of [run_vector_add]. *)
Definition vector_buffers {F} (newBuffer : nat → option (list F) → Z → option (list F)) (a b : list F)
    : option (list F * list F * list F) :=
  a' ← newBuffer 0%nat (Some a) (Zlength a * 4);
  b' ← newBuffer 1%nat (Some b) (Zlength a * 4);
  out ← newBuffer 2%nat None (Zlength a * 4);
  Some (a', b', out).

Lemma vector_buffers_ok {F} (newBuffer : nat → option (list F) → Z → option (list F)) a b a' b' out :
  newBuffer_ok newBuffer → length a = length b → vector_buffers newBuffer a b = Some (a', b', out) →
  a' = a ∧ b' = b ∧ length out = length a.
Proof.
  intros Hok Hab (x & Ha & (y & Hb & (z & Ho & [= <- <- <-])%bind_Some)%bind_Some)%bind_Some.
  apply Hok in Ha as [_ Ha], Hb as [_ Hb], Ho as [Ho _]. unfold Zlength in *.
  split_and!; [by apply Ha|apply Hb; [done|lia]|lia].
Qed.

(** With its buffers, and whatever the result buffer held, the sum is the
    elementwise sum; without one of them, or when the command fails, the result is
    left alone. *)
Lemma run_vector_add_correct {F} `{FloatOps F} newBuffer completed error order (c : MetalContext (F := F)) a b result n :
  pipelines (impl c) !! "vector_add" = Some n → newBuffer_ok newBuffer → length a = length b → a ≠ [] →
  order ≡ₚ seq 0 (length a) →
  run_vector_add newBuffer completed error order c a b result =
    Some (match vector_buffers newBuffer a b with
          | None => (false, result, (fail_with "failed to allocate GPU buffers" c).2)
          | Some _ =>
              let '(ok, c) := submit_and_wait completed error c in
              (ok, if ok then zip_with f_add a b else result, c)
          end).
Proof.
  intros Hp Hok Hab Hne Ho. unfold run_vector_add. rewrite Hp.
  assert (Hpos : 0 < Zlength a) by (unfold Zlength; destruct a; [done|cbn; lia]).
  rewrite (proj2 (Z.eqb_neq _ _)) by lia. unfold make_buffer.
  rewrite Z.max_l, (proj2 (Z.ltb_lt _ _)) by lia.
  pose proof (vector_buffers_ok newBuffer a b) as Hv. unfold vector_buffers in *.
  destruct (newBuffer 0%nat _ _) as [a'|]; [|done]. cbn [mbind option_bind] in *.
  destruct (newBuffer 1%nat _ _) as [b'|]; [|done]. cbn [mbind option_bind] in *.
  destruct (newBuffer 2%nat _ _) as [out|]; [|done]. cbn [mbind option_bind] in *.
  destruct (Hv _ _ _ Hok Hab eq_refl) as (-> & -> & Hl).
  destruct (add_elements a b out order) as (out' & E & L & Hout); [done|done| |].
  { rewrite Ho. apply Forall_forall. intros id. rewrite elem_of_seq. lia. }
  rewrite E. cbn [mbind option_bind]. destruct completed; cbn [submit_and_wait]; [|done].
  do 3 f_equal. rewrite take_ge by lia. apply list_eq. intros id. destruct (decide (id < length a)%nat).
  - apply Hout. rewrite Ho, elem_of_seq. lia.
  - rewrite !lookup_ge_None_2; rewrite ?length_zip_with; done || lia.
Qed.

(** ** Properties *)

(** The engine on the GPU: with a backend whose dispatches meet the contract,
    the signature and flow alerts and the tracker of a batch are those of the
    CPU; the entropy of each eligible packet is the kernel's value for its
    payload, one per packet and in order, when the dispatch succeeded, and the
    CPU's when it failed; and exactly the failed dispatches are counted as
    fallbacks. *)
Theorem gpu_batch {F P} `{FloatOps F} hash32 iter log2 (to_double : F → spec_float) max_threads
    (submit : list (list Z) → option P) wait `{!DispatchContract max_threads submit wait} engine batch :
  let config := a_config engine in
  let packets := filter (eligible config) batch in
  let backend := GpuEntropyBackend true to_double submit wait in
  let r := analyze_batch hash32 iter log2 backend engine batch in
  let obs := observe_all hash32 iter (flow_tracker_ engine) batch in
  addressable (q_payload <$> packets) →
  r.2 = concat (zip_with (λ p f, signature_alerts (signatures_ engine) p ++ f) batch obs.2) ++
        concat (zip_with (entropy_alert config) packets
          (match compute backend packets with
           | Some _ => to_double <$> expected max_threads (q_payload <$> packets)
           | None => payload_entropy log2 <$> packets
           end)) ∧
  flow_tracker_ r.1 = obs.1 ∧
  fallbacks_ r.1 = match packets with
                   | [] => fallbacks_ engine
                   | _ => wrap 64 (fallbacks_ engine +
                            if decide (is_Some (compute backend packets)) then 0 else 1)
                   end.
Proof.
  intros config packets backend r obs Ha. unfold r. rewrite analyze_batch_eq. fold config packets obs.
  cbn [fst snd flow_tracker_ fallbacks_].
  destruct (gpu_used_values log2 to_double max_threads submit wait packets Ha) as [E1 E2].
  fold backend in E1, E2. rewrite E2. split_and!; [done|done|].
  unfold batch_fallbacks. fold config packets. clear E2 Ha. destruct packets as [|p l]; [done|].
  rewrite E1. by case_bool_decide; case_decide.
Qed.

(** ** Witness *)

Definition run_call (payloads : list (list Z)) : option (finished_call (F := spec_float)) :=
  s ← metal_play [ASubmit payloads; AEnsure 0; AFill 0; ACommit 0; AGpu 0; AWait 0]
        (metal_start test_kernels);
  if decide (j_payloads <$> jobs s !! 0%nat = Some payloads) then Some (mk_finished_call s 0) else None.

Lemma run_call_contract : DispatchContract 4 run_call call_answer.
Proof.
  apply (histories_dispatch test_kernels); [reflexivity|lia|]. intros payloads c E. unfold run_call in E.
  destruct (metal_play _ _) as [s|] eqn:Es; [|done]. cbn [mbind option_bind] in E.
  case_decide as Hp; [|done]. injection E as <-. split; [|exact Hp].
  eapply metal_play_reachable, Es. constructor.
Qed.

(** [float] to [double]. *)
Definition widen (x : spec_float) : spec_float :=
  match x with
  | S754_finite sign m e => binary_normalize 53 1024 (if sign then Zneg m else Zpos m) e sign
  | _ => x
  end.

Lemma gpu_batch_witness :
  let engine := AnalysisEngine_new AnalysisConfig_default in
  let batch := drop 1 mixed_batch in
  let r := analyze_batch id_hash map_keys log2_powers
             (GpuEntropyBackend true widen run_call call_answer) engine batch in
  r.2 = [mk_Alert kHighEntropyPayload 3 2 4444 80 "entropy=7.00 bits/byte over 128B"] ∧
  fallbacks_ r.1 = 0 ∧
  flow_tracker_ r.1 = (observe_all id_hash map_keys (flow_tracker_ engine) batch).1.
Proof.
  cbv zeta. pose proof run_call_contract as Hc.
  split; [by vm_compute|]. split; [by vm_compute|].
  apply (gpu_batch id_hash map_keys log2_powers widen 4 run_call call_answer
           (AnalysisEngine_new AnalysisConfig_default) (drop 1 mixed_batch)).
  by_decide.
Defined.
