(* ===== verification/Main.v ===== *)
(** * Command line and output ([src/main.cpp])

    The option parser with the checks in front of the pipeline, the line printed
    for a packet, and the counters behind the summary.  Numbers are read by
    [strtoll] and [strtod] of [Scan]. *)
From Stdlib Require Import Floats.SpecFloat.
From S2P Require Import Prelude Fmt FmtFloat Scan Packet Alert Entropy PacketQueue Pipeline AnalysisEngine.

(** [parse_nonnegative]: the new value of [out], or the error. *)
Definition parse_nonnegative (text : string) (max_value : Z) : option Z :=
  let '(value, rest, erange) := strtoll text in
  match rest with
  | None => None
  | Some rest =>
      if negb (bool_decide (rest = "")) || erange || (value <? 0) || (max_value <? value)
      then None else Some value
  end.

(** ** Options *)

Record options : Type := mk_options {
  device : string;
  pcap_file : string;
  max_packets : Z;
  list_only : bool;
  verbose : bool;
  use_gpu : bool;
  num_workers : Z;
  queue_capacity : Z;
  batch_size : Z;
  linger : Z;
  threshold : spec_float;
  quiet : bool
}.

(** [cores]: [std::thread::hardware_concurrency()]. *)
Definition options_default (cores : Z) : options :=
  mk_options "" "" 0 false false false (if 1 <? cores then cores - 1 else 1) 4096 64 2000
    (b64_of_uint 7) false.

Definition with_device v o := mk_options v (pcap_file o) (max_packets o) (list_only o) (verbose o)
  (use_gpu o) (num_workers o) (queue_capacity o) (batch_size o) (linger o) (threshold o) (quiet o).
Definition with_pcap v o := mk_options (device o) v (max_packets o) (list_only o) (verbose o)
  (use_gpu o) (num_workers o) (queue_capacity o) (batch_size o) (linger o) (threshold o) (quiet o).
Definition with_max v o := mk_options (device o) (pcap_file o) v (list_only o) (verbose o)
  (use_gpu o) (num_workers o) (queue_capacity o) (batch_size o) (linger o) (threshold o) (quiet o).
Definition with_list o := mk_options (device o) (pcap_file o) (max_packets o) true (verbose o)
  (use_gpu o) (num_workers o) (queue_capacity o) (batch_size o) (linger o) (threshold o) (quiet o).
Definition with_verbose o := mk_options (device o) (pcap_file o) (max_packets o) (list_only o) true
  (use_gpu o) (num_workers o) (queue_capacity o) (batch_size o) (linger o) (threshold o) (quiet o).
Definition with_gpu o := mk_options (device o) (pcap_file o) (max_packets o) (list_only o) (verbose o)
  true (num_workers o) (queue_capacity o) (batch_size o) (linger o) (threshold o) (quiet o).
Definition with_workers v o := mk_options (device o) (pcap_file o) (max_packets o) (list_only o)
  (verbose o) (use_gpu o) v (queue_capacity o) (batch_size o) (linger o) (threshold o) (quiet o).
Definition with_capacity v o := mk_options (device o) (pcap_file o) (max_packets o) (list_only o)
  (verbose o) (use_gpu o) (num_workers o) v (batch_size o) (linger o) (threshold o) (quiet o).
Definition with_batch v o := mk_options (device o) (pcap_file o) (max_packets o) (list_only o)
  (verbose o) (use_gpu o) (num_workers o) (queue_capacity o) v (linger o) (threshold o) (quiet o).
Definition with_linger v o := mk_options (device o) (pcap_file o) (max_packets o) (list_only o)
  (verbose o) (use_gpu o) (num_workers o) (queue_capacity o) (batch_size o) v (threshold o) (quiet o).
Definition with_threshold v o := mk_options (device o) (pcap_file o) (max_packets o) (list_only o)
  (verbose o) (use_gpu o) (num_workers o) (queue_capacity o) (batch_size o) (linger o) v (quiet o).
Definition with_quiet o := mk_options (device o) (pcap_file o) (max_packets o) (list_only o) (verbose o)
  (use_gpu o) (num_workers o) (queue_capacity o) (batch_size o) (linger o) (threshold o) true.

(** The [-e] option. *)
Definition parse_threshold (text : string) : option spec_float :=
  let '(value, rest) := strtod text in
  if bool_decide (rest = text) || negb (bool_decide (rest = "")) ||
     SFltb value (b64_of_uint 0) || SFltb (b64_of_uint 8) value
  then None else Some value.

Definition integer_option (max_value : Z) (set : Z → options → options) (v : string) (o : options)
    : option options :=
  (λ n, set n o) <$> parse_nonnegative v max_value.

(** The options that take a value. *)
Definition value_option (flag : string) : option (string → options → option options) :=
  if bool_decide (flag = "-i") then Some (λ v o, Some (with_device v o))
  else if bool_decide (flag = "-r") then Some (λ v o, Some (with_pcap v o))
  else if bool_decide (flag = "-c") then Some (integer_option (2 ^ 31 - 1) with_max)
  else if bool_decide (flag = "-w") then Some (integer_option 1024 with_workers)
  else if bool_decide (flag = "-q") then Some (integer_option (2 ^ 24) with_capacity)
  else if bool_decide (flag = "-b") then Some (integer_option (2 ^ 20) with_batch)
  else if bool_decide (flag = "-L") then Some (integer_option 1000000 with_linger)
  else if bool_decide (flag = "-e")
    then Some (λ v o, (λ t, with_threshold t o) <$> parse_threshold v)
  else None.

Definition switch_option (flag : string) : option (options → options) :=
  if bool_decide (flag = "-l") then Some with_list
  else if bool_decide (flag = "-v") then Some with_verbose
  else if bool_decide (flag = "-g") then Some with_gpu
  else if bool_decide (flag = "-s") then Some with_quiet
  else None.

(** The loop over [argv]; [None] is [EXIT_FAILURE]. *)
Fixpoint parse_args (args : list string) (o : options) : option options :=
  match args with
  | [] => Some o
  | flag :: rest =>
      match value_option flag, rest with
      | Some set, v :: rest' =>
          match set v o with Some o => parse_args rest' o | None => None end
      | _, _ =>
          match switch_option flag with Some set => parse_args rest (set o) | None => None end
      end
  end.

(** The checks before the capture is opened (with [-l] the program lists the
    devices and returns before them). *)
Definition runnable (o : options) : bool :=
  negb (list_only o) &&
  negb (Bool.eqb (bool_decide (device o = "")) (bool_decide (pcap_file o = ""))) &&
  negb ((queue_capacity o =? 0) || (batch_size o =? 0)).

(** What [main] hands to the engine and to the pipeline. *)
Definition analysis_config (o : options) : AnalysisConfig :=
  mk_AnalysisConfig (flow AnalysisConfig_default) (threshold o)
    (entropy_min_payload_bytes AnalysisConfig_default).

Definition pool_of (o : options) : pool_config :=
  WorkerPool_new (num_workers o) (batch_size o) (linger o).

(** ** [print_packet] *)

(** [%06ld]. *)
Definition fmt_06 (z : Z) : string :=
  let digits := fmt_u (Z.abs z) in
  if z <? 0 then "-" +:+ zeros (5 - String.length digits) +:+ digits
  else zeros (6 - String.length digits) +:+ digits.

Definition has_ports (t : Transport) : bool :=
  match t with kTCP | kUDP => true | _ => false end.

Definition print_packet (q : QueuedPacket) : string :=
  let pkt := meta q in
  "[" +:+ fmt_lld (tv_sec (timestamp pkt)) +:+ "." +:+ fmt_06 (tv_usec (timestamp pkt)) +:+
  "] len=" +:+ fmt_u (wire_length pkt) +:+ " cap=" +:+ fmt_u (capture_length pkt) +:+ "  " +:+
  mac_to_string (src_mac pkt) +:+ " -> " +:+ mac_to_string (dst_mac pkt) +:+
  if negb (has_ip pkt) then "  (non-IPv4)" +:+ String "010"%char ""
  else
    "  " +:+ ipv4_to_string (src_ip pkt) +:+
    (if has_ports (transport pkt) then ":" +:+ fmt_u (src_port pkt) else "") +:+
    " -> " +:+ ipv4_to_string (dst_ip pkt) +:+
    (if has_ports (transport pkt) then ":" +:+ fmt_u (dst_port pkt) else "") +:+
    " proto=" +:+ transport_to_string (transport pkt) +:+ " ttl=" +:+ fmt_u (ttl pkt) +:+
    (if bool_decide (transport pkt = kTCP)
     then " flags=" +:+ tcp_flags_to_string (tcp_flags pkt) else "") +:+
    " payload=" +:+ fmt_u (payload_size q) +:+ "B" +:+ String "010"%char "".

(** ** [print_alert] *)

(** The counters; [g_alerts_by_type] as a function of the index. *)
Record alert_counters : Type := mk_alert_counters {
  g_alert_count : Z;
  g_alerts_by_type : AnomalyType → Z
}.

Definition counters_zero : alert_counters := mk_alert_counters 0 (λ _, 0).

(** The counters after one alert, and the line printed. *)
Definition print_alert (g_quiet : bool) (a : Alert) (c : alert_counters)
    : alert_counters * option string :=
  let c := mk_alert_counters (wrap 64 (g_alert_count c + 1))
    (λ t, if decide (t = alert_type a) then wrap 64 (g_alerts_by_type c t + 1)
          else g_alerts_by_type c t) in
  if g_quiet then (c, None) else (c, Some (format_alert a +:+ String "010"%char "")).

Definition print_all (g_quiet : bool) (alerts : list Alert) (c : alert_counters) : alert_counters :=
  fold_left (λ c a, (print_alert g_quiet a c).1) alerts c.

(** ** Properties *)

(** Integer options: an accepted value is in [0..max], and every number in
    that range (up to [LLONG_MAX]) is accepted from its decimal text with its
    own value. *)
Theorem parse_nonnegative_exact text max_value v :
  (parse_nonnegative text max_value = Some v → 0 ≤ v ≤ max_value) ∧
  (0 ≤ v ≤ max_value → v ≤ LLONG_MAX → parse_nonnegative (fmt_u v) max_value = Some v).
Proof.
  split.
  - unfold parse_nonnegative. destruct (strtoll text) as [[value [rest|]] e]; [|done].
    destruct (negb _ || e || (value <? 0) || (max_value <? value)) eqn:E; [done|].
    intros [= <-]. apply orb_false_iff in E as [[E1 E2]%orb_false_iff E3].
    apply Z.ltb_ge in E2, E3. lia.
  - intros Hv Hl. unfold parse_nonnegative. rewrite strtoll_pretty by lia. cbn.
    rewrite (proj2 (Z.ltb_ge _ _)) by lia. by rewrite (proj2 (Z.ltb_ge _ _)) by lia.
Qed.

Lemma parse_nonnegative_exact_witness :
  0 ≤ 1024 ≤ 1024 ∧ parse_nonnegative (fmt_u 64) 1024 = Some 64 ∧
  parse_nonnegative "-1" 1024 = None ∧ parse_nonnegative "12x" 1024 = None ∧
  parse_nonnegative "99999999999999999999" LLONG_MAX = None.
Proof.
  split; [apply (parse_nonnegative_exact " +1024" 1024 1024); by vm_compute|].
  split; [apply (parse_nonnegative_exact "" 1024 64); by vm_compute|].
  by vm_compute.
Defined.

(** What the option parser maintains. *)
Record options_ok (o : options) : Prop := {
  ok_workers : 0 ≤ num_workers o < 2 ^ 32;
  ok_capacity : 0 ≤ queue_capacity o ≤ 2 ^ 24;
  ok_batch : 0 ≤ batch_size o ≤ 2 ^ 20;
  ok_max : 0 ≤ max_packets o < 2 ^ 31;
  ok_linger : 0 ≤ linger o ≤ 1000000;
  ok_threshold : SFltb (threshold o) (b64_of_uint 0) = false ∧
                 SFltb (b64_of_uint 8) (threshold o) = false
}.

Lemma options_default_ok cores : is_uint 32 cores → options_ok (options_default cores).
Proof.
  unfold is_uint. intros Hc. split; cbn [options_default num_workers queue_capacity batch_size
    max_packets linger threshold]; try lia; [|by vm_compute].
  destruct (Z.ltb_spec 1 cores); lia.
Qed.

Lemma parse_nonnegative_range text max v : parse_nonnegative text max = Some v → 0 ≤ v ≤ max.
Proof.
  unfold parse_nonnegative. destruct (strtoll text) as [[value [rest|]] e]; [|done].
  destruct (negb _ || e || (value <? 0) || (max <? value)) eqn:E; [done|].
  intros [= <-]. apply orb_false_iff in E as [[E1 E2]%orb_false_iff E3].
  apply Z.ltb_ge in E2, E3. lia.
Qed.

Lemma parse_threshold_range text v :
  parse_threshold text = Some v →
  SFltb v (b64_of_uint 0) = false ∧ SFltb (b64_of_uint 8) v = false.
Proof.
  unfold parse_threshold. destruct (strtod text) as [value rest].
  destruct (_ || _ || _ || _) eqn:E; [done|]. intros [= <-].
  apply orb_false_iff in E as [[E1 E2]%orb_false_iff E3]. done.
Qed.

Lemma integer_option_some max set v o o' :
  integer_option max set v o = Some o' → ∃ n, 0 ≤ n ≤ max ∧ o' = set n o.
Proof.
  unfold integer_option. intros (n & H & ->)%fmap_Some.
  exists n. split; [by eapply parse_nonnegative_range|done].
Qed.

Lemma value_option_ok flag set v o o' :
  options_ok o → value_option flag = Some set → set v o = Some o' → options_ok o'.
Proof.
  intros [H1 H2 H3 H4 H5 H6]. unfold value_option.
  repeat (case_bool_decide; [intros [= <-] Hset|]); try done;
    try (apply integer_option_some in Hset as (n & Hn & ->));
    try (apply fmap_Some in Hset as (t & Ht & ->); apply parse_threshold_range in Ht);
    try (injection Hset as <-); split; cbn; try done; lia.
Qed.

Lemma switch_option_ok flag set o : options_ok o → switch_option flag = Some set → options_ok (set o).
Proof.
  intros [H1 H2 H3 H4 H5 H6]. unfold switch_option.
  repeat (case_bool_decide; [intros [= <-]; by split|]). done.
Qed.

Lemma parse_args_ok args o o' :
  options_ok o → parse_args args o = Some o' → options_ok o'.
Proof.
  enough (H : (∀ o, options_ok o → parse_args args o = Some o' → options_ok o') ∧
              (∀ flag o, options_ok o → parse_args (flag :: args) o = Some o' → options_ok o'))
    by (intros; by eapply (proj1 H)).
  clear o. induction args as [|v args [IH1 IH2]].
  - split; cbn [parse_args]; [by intros o H [= <-]|].
    intros flag o H. destruct (value_option flag);
      (destruct (switch_option flag) as [set|] eqn:E; [|done]; intros [= <-]; by eapply switch_option_ok).
  - split; [intros o; apply IH2|]. intros flag o H.
    change (parse_args (flag :: v :: args) o) with
      (match value_option flag with
       | Some set => match set v o with Some o => parse_args args o | None => None end
       | None => match switch_option flag with
                 | Some set => parse_args (v :: args) (set o) | None => None end
       end).
    destruct (value_option flag) as [set|] eqn:E.
    + destruct (set v o) as [o1|] eqn:E1; [|done]. apply IH1. by eapply value_option_ok.
    + destruct (switch_option flag) as [set|] eqn:E1; [|done]. apply IH2. by eapply switch_option_ok.
Qed.

(** What reaches the pipeline: whatever the arguments are, options that pass
    the parser and the checks give at least one worker, a batch size and a queue
    capacity of at least one (the hypotheses under which the pipeline is proved
    to end), a packet limit that fits [int], and a threshold that is not outside
    0..8. *)
Theorem runnable_options cores args o :
  is_uint 32 cores → parse_args args (options_default cores) = Some o →
  runnable o = true →
  1 ≤ num_workers_ (pool_of o) ∧ 1 ≤ batch_size_ (pool_of o) ≤ 2 ^ 20 ∧
  1 ≤ queue_capacity o ≤ 2 ^ 24 ∧ 0 ≤ max_packets o < 2 ^ 31 ∧ 0 ≤ linger o ≤ 1000000 ∧
  SFltb (threshold o) (b64_of_uint 0) = false ∧ SFltb (b64_of_uint 8) (threshold o) = false.
Proof.
  intros Hc Hp Hr.
  destruct (parse_args_ok args _ o (options_default_ok cores Hc) Hp) as [H1 H2 H3 H4 H5 H6].
  unfold runnable in Hr. apply andb_true_iff in Hr as [_ Hr].
  apply negb_true_iff, orb_false_iff in Hr as [Hq%Z.eqb_neq Hb%Z.eqb_neq].
  cbn [pool_of WorkerPool_new num_workers_ batch_size_]. split_and!; try lia; try apply H6.
  unfold pool_of, WorkerPool_new. cbn [num_workers_]. destruct (Z.eqb_spec (num_workers o) 0); lia.
Qed.

Lemma runnable_options_witness :
  ∃ o, parse_args ["-r"; "x.pcap"; "-e"; "6.5"; "-w"; "0"; "-s"] (options_default 8) = Some o ∧
    runnable o = true ∧ num_workers o = 0 ∧ 1 ≤ num_workers_ (pool_of o).
Proof.
  eexists. split; [vm_compute; reflexivity|]. split; [reflexivity|]. split; [reflexivity|].
  eapply (runnable_options 8 ["-r"; "x.pcap"; "-e"; "6.5"; "-w"; "0"; "-s"]);
    [by_decide|vm_compute; reflexivity|reflexivity].
Defined.

Lemma parse_threshold_exact n x :
  (0 < n)%nat → in_bits_range x → has_digits n x → parse_threshold (fmt_fixed n x) = Some x.
Proof.
  intros Hn Hr Hd. pose proof Hr as (Hv & _). destruct (in_bits_range_ltb x Hr) as [H1 H2].
  unfold parse_threshold. rewrite strtod_fmt_fixed by done. rewrite H1, H2.
  rewrite bool_decide_eq_false_2; [done|]. intros E. by apply (fmt_fixed_not_empty n x).
Qed.

(** C33. Every threshold can be asked for: for each [double] from 0 to 8, its
    decimal text with as many digits as it takes to write it exactly, and with any
    number of digits from 1074 on, is accepted by [-e] and gives that very
    [double]. *)
Theorem threshold_exact cores file n x :
  in_bits_range x → (0 < n)%nat → has_digits n x ∨ 1074 ≤ Z.of_nat n →
  parse_args ["-r"; file; "-e"; fmt_fixed n x] (options_default cores) =
    Some (with_threshold x (with_pcap file (options_default cores))).
Proof.
  intros Hr Hn Hd.
  assert (has_digits n x) by (destruct Hd; [done|by apply in_bits_range_digits]).
  assert (Hf : value_option "-r" = Some (λ v o, Some (with_pcap v o))) by done.
  assert (He : value_option "-e" = Some (λ v o, (λ t, with_threshold t o) <$> parse_threshold v)) by done.
  cbn [parse_args]. rewrite Hf, He, parse_threshold_exact by done. done.
Qed.

Lemma threshold_exact_witness :
  fmt_fixed 3 (SFdiv 53 1024 (b64_of_uint 61) (b64_of_uint 8)) = "7.625" ∧
  parse_args ["-r"; "x.pcap"; "-e"; fmt_fixed 3 (SFdiv 53 1024 (b64_of_uint 61) (b64_of_uint 8))]
      (options_default 8) =
    Some (with_threshold (SFdiv 53 1024 (b64_of_uint 61) (b64_of_uint 8))
            (with_pcap "x.pcap" (options_default 8))).
Proof.
  split; [by vm_compute|]. apply threshold_exact; [by_decide|lia|]. left.
  split; [done|]. exists 7625. by vm_compute.
Defined.

(** The range check of [-e] lets [nan] through (both comparisons with a NaN
    are false), and with a NaN threshold no payload ever raises an entropy
    alert. *)
Theorem nan_threshold_accepted cores file :
  ∃ o, parse_args ["-r"; file; "-e"; "nan"] (options_default cores) = Some o ∧
    (file ≠ "" → runnable o = true) ∧
    ∀ p value, entropy_alert (analysis_config o) p value = [].
Proof.
  eexists. split; [reflexivity|]. split; [|done].
  intros Hf. unfold runnable. cbn. by rewrite (bool_decide_eq_false_2 (file = "")) by done.
Qed.

(** The counters of [print_alert]. *)
Lemma print_all_by_type g_quiet alerts c t :
  is_uint 64 (g_alerts_by_type c t) →
  g_alerts_by_type (print_all g_quiet alerts c) t =
  wrap 64 (g_alerts_by_type c t + Zlength (filter (λ a, alert_type a = t) alerts)).
Proof.
  unfold print_all. revert c. induction alerts as [|a alerts IH]; intros c Hc.
  - unfold Zlength. cbn. rewrite Z.add_0_r. by rewrite wrap_small.
  - cbn [fold_left]. rewrite filter_cons.
    assert (E : g_alerts_by_type (print_alert g_quiet a c).1 t =
                if decide (t = alert_type a) then wrap 64 (g_alerts_by_type c t + 1)
                else g_alerts_by_type c t) by by destruct g_quiet.
    rewrite IH; rewrite E.
    + destruct (decide (t = alert_type a)) as [->|Hne].
      * rewrite decide_True by done. rewrite Zlength_cons. unfold wrap.
        rewrite Zplus_mod_idemp_l. f_equal. lia.
      * by rewrite decide_False by congruence.
    + case_decide; [by apply wrap_range|done].
Qed.
