(* ===== verification/Startup.v ===== *)
(** * [main]: from the command line to the threads, and the summary
      ([src/main.cpp])

    What happens before the threads start (the listing of devices, the checks,
    the opening of the source, the choice of the entropy backend), with the exit
    codes and the messages, and the lines printed after they have ended.  The
    answers of libpcap and of Metal are an [environment]; the clock readings of
    the summary are arguments. *)
From Stdlib Require Import Floats.SpecFloat.
From S2P Require Import Prelude Fmt FmtFloat Scan Packet Alert Capture PacketQueue Pipeline Entropy AnalysisEngine Main.
From S2P Require Import GpuKernel Metal GpuBackend.

Local Open Scope string_scope.
Local Open Scope Z_scope.
Local Open Scope list_scope.

(** ** Messages of the option parser *)

Definition usage (argv0 : string) : list string :=
  ["Usage: " +:+ argv0 +:+ " -i <device> | -r <file.pcap> [options]" +:+ newline;
   "  -i <device>   capture live from a network interface" +:+ newline;
   "  -r <file>     replay packets from a .pcap file" +:+ newline;
   "  -c <count>    stop after this many parsed packets (0 = unlimited)" +:+ newline;
   "  -l            list available capture devices and exit" +:+ newline;
   "  -w <n>        worker thread count (default: cores - 1)" +:+ newline;
   "  -q <n>        bounded queue capacity (default: 4096)" +:+ newline;
   "  -b <n>        max packets a worker pops per batch (default: 64)" +:+ newline;
   "  -L <usec>     how long a worker waits to fill a batch (default: 2000)" +:+ newline;
   "  -v            print every packet, not just alerts" +:+ newline;
   "  -e <bits>     high-entropy alert threshold, bits/byte (default: 7.0)" +:+ newline;
   "  -g            compute entropy on the Metal GPU (Metal builds only)" +:+ newline;
   "  -s            silent: count alerts without printing them (for benchmarking)" +:+ newline].

(** The range an invalid value is reported with. *)
Definition expected_range (flag : string) : string :=
  if bool_decide (flag = "-c") then "0..2147483647"
  else if bool_decide (flag = "-w") then "0..1024"
  else if bool_decide (flag = "-q") then "0..16777216"
  else if bool_decide (flag = "-b") then "0..1048576"
  else if bool_decide (flag = "-L") then "0..1000000"
  else "0.0..8.0".

(** ** Start *)

Section Startup.
Context {F : Type} `{FloatOps F} (pcap_t : Type).

(** What [pcap_findalldevs], the two calls that open a source and the calls of
    Metal answer; [env_metal]: the build has [NETSENTINEL_HAS_METAL]. *)
Record environment : Type := mk_environment {
  env_argv0 : string;
  env_cores : Z;
  env_devices : string + list string;
  env_open_live : string → open_answer pcap_t;
  env_open_offline : string → open_answer pcap_t;
  env_metal : bool;
  env_gpu_device : option (option string);
  env_gpu_queue : bool;
  env_gpu_kernel : compilation
}.

(** The objects the threads are started with; [run_gpu]: the context behind the
    GPU backend, none when the engine uses the CPU. *)
Record running : Type := mk_running {
  run_options : options;
  run_capture : Capture pcap_t;
  run_gpu : option (MetalContext (F := F));
  run_banner : string
}.

Inductive startup : Type :=
  | Exit (code : Z) (out err : list string)
  | Running (r : running).

Definition EXIT_SUCCESS : Z := 0.
Definition EXIT_FAILURE : Z := 1.

Section Arguments.
Context (env : environment).

(** What the loop over [argv] prints when it fails. *)
Fixpoint args_error (args : list string) (o : options) : list string :=
  match args with
  | [] => []
  | flag :: rest =>
      match value_option flag, rest with
      | Some set, v :: rest' =>
          match set v o with
          | Some o => args_error rest' o
          | None => ["invalid value for " +:+ flag +:+ ": '" +:+ v +:+ "' (expected " +:+
                     expected_range flag +:+ ")" +:+ newline]
          end
      | _, _ =>
          match switch_option flag with
          | Some set => args_error rest (set o)
          | None => usage (env_argv0 env)
          end
      end
  end.

(** The listing of [-l]. *)
Definition list_only_exit : startup :=
  let '(devices, error) := list_devices (env_devices env) in
  if negb (bool_decide (error = "")) && bool_decide (devices = [])
  then Exit EXIT_FAILURE [] ["error listing devices: " +:+ error +:+ newline]
  else Exit EXIT_SUCCESS ((λ name, name +:+ newline) <$> devices) [].

Definition open_source (o : options) : Capture pcap_t * (bool * string) :=
  if bool_decide (Main.device o = "")
  then open_offline pcap_t (env_open_offline env (pcap_file o)) (pcap_file o) (Capture_new pcap_t)
  else open_live pcap_t (env_open_live env (Main.device o)) (Main.device o) (Capture_new pcap_t).

(** The entropy backend: none for the CPU, or the message of the failure. *)
Definition choose_gpu (o : options) : string + option (MetalContext (F := F)) :=
  if use_gpu o then
    if env_metal env then
      let '(ok, ctx) := GpuEntropyBackend_new (env_gpu_device env) (env_gpu_queue env) (env_gpu_kernel env) in
      if negb ok then inl ("GPU unavailable: " +:+ last_error (impl ctx) +:+ newline)
      else inr (Some ctx)
    else inl ("-g needs a Metal build: cmake -S . -B build -DNETSENTINEL_ENABLE_METAL=ON" +:+ newline)
  else inr None.

(** [engine.backend_name()]. *)
Definition engine_backend_name (gpu : option (MetalContext (F := F))) : string :=
  match gpu with Some ctx => backend_name ctx | None => "cpu" end.

Definition banner (o : options) (gpu : option (MetalContext (F := F))) : string :=
  "capturing from " +:+ (if bool_decide (Main.device o = "") then pcap_file o else Main.device o) +:+ " ... (" +:+
  fmt_u (num_workers o) +:+ " worker(s), queue capacity " +:+ fmt_u (queue_capacity o) +:+
  ", batch size " +:+ fmt_u (batch_size o) +:+ ", entropy on " +:+ engine_backend_name gpu +:+ ")" +:+
  newline.

(** [main] up to [pool.start()]. *)
Definition start_main (args : list string) : startup :=
  match parse_args args (options_default (env_cores env)) with
  | None => Exit EXIT_FAILURE [] (args_error args (options_default (env_cores env)))
  | Some o =>
      if list_only o then list_only_exit
      else if Bool.eqb (bool_decide (Main.device o = "")) (bool_decide (pcap_file o = ""))
      then Exit EXIT_FAILURE [] (usage (env_argv0 env))
      else if (queue_capacity o =? 0) || (batch_size o =? 0)
      then Exit EXIT_FAILURE [] ["queue capacity and batch size must be positive" +:+ newline]
      else
        let '(capture, (opened, error)) := open_source o in
        if negb opened
        then Exit EXIT_FAILURE []
               (("failed to open capture source: " +:+ error +:+ newline) ::
                (if bool_decide (Main.device o = "") then []
                 else ["(on macOS this is often the /dev/bpf* permission issue — see README.md)" +:+ newline]))
        else
          match choose_gpu o with
          | inl message => Exit EXIT_FAILURE [] [message]
          | inr gpu => Running (mk_running o capture gpu (banner o gpu))
          end
  end.

End Arguments.

End Startup.

(** [handle_sigint]: [registered] says whether [g_capture_for_signal] is set. *)
Definition handle_sigint (registered : bool) (s : run_state) : run_state :=
  if registered then request_stop s else s.

(** ** Summary *)

(** [push_wait_seconds], [pop_wait_seconds]. *)
Definition wait_seconds (ns : Z) : spec_float := SFdiv 53 1024 (b64_of_uint ns) (b64_of_uint 1000000000).
Definition push_wait_seconds (q : PacketQueue) : spec_float := wait_seconds (push_wait_ns_ q).
Definition pop_wait_seconds (q : PacketQueue) : spec_float := wait_seconds (pop_wait_ns_ q).

(** [d > 0 ? n / d : 0.0]. *)
Definition ratio (num den : spec_float) : spec_float :=
  if SFltb (b64_of_uint 0) den then SFdiv 53 1024 num den else b64_of_uint 0.

Definition percent (num den : spec_float) : spec_float :=
  ratio (SFmul 53 1024 (b64_of_uint 100) num) den.

(** The lines printed after the threads have ended: [s] is the state of the
    pipeline, [seconds] and [capture_seconds] are the clock's, [fallbacks] and
    [name] the engine's. *)
Definition summary (o : options) (delivered : Z) (s : pipeline) (counters : alert_counters)
    (seconds capture_seconds : spec_float) (fallbacks : Z) (name : string) : list string :=
  let processed := processed_ s in
  let batches := batches_ s in
  let by_type t := fmt_u (g_alerts_by_type counters t) in
  let worker_seconds := SFmul 53 1024 seconds (b64_of_uint (num_workers o)) in
  ["done — " +:+ fmt_lld delivered +:+ " packet(s) captured, " +:+ fmt_u processed +:+ " processed, " +:+
   fmt_u (g_alert_count counters) +:+ " alert(s), " +:+ fmt_fixed 3 seconds +:+ "s, " +:+
   fmt_fixed 0 (ratio (b64_of_uint processed) seconds) +:+ " packets/sec, avg batch " +:+
   fmt_fixed 1 (if 0 <? batches then SFdiv 53 1024 (b64_of_uint processed) (b64_of_uint batches)
                else b64_of_uint 0) +:+ newline;
   "alerts by type: port_scan=" +:+ by_type kPortScan +:+ " syn_flood=" +:+ by_type kSynFlood +:+
   " high_entropy=" +:+ by_type kHighEntropyPayload +:+ " signature=" +:+ by_type kSignatureMatch +:+ newline;
   "waiting: capture thread blocked on a full queue " +:+
   fmt_fixed 0 (percent (push_wait_seconds (queue s)) capture_seconds) +:+ "% of its " +:+
   fmt_fixed 3 capture_seconds +:+ "s, workers waiting for packets " +:+
   fmt_fixed 0 (percent (pop_wait_seconds (queue s)) worker_seconds) +:+ "% of their time" +:+ newline] ++
  (if 0 <? fallbacks
   then ["warning: " +:+ fmt_u fallbacks +:+ " batch(es) fell back to CPU entropy after a " +:+ name +:+
         " failure" +:+ newline]
   else []).

(** ** Lemmas *)

Lemma args_error_some {F} `{FloatOps F} pcap_t (env : environment pcap_t) args o :
  parse_args args o = None → args_error pcap_t env args o ≠ [].
Proof.
  enough (Hs : (∀ o, parse_args args o = None → args_error pcap_t env args o ≠ []) ∧
               (∀ flag o, parse_args (flag :: args) o = None →
                  args_error pcap_t env (flag :: args) o ≠ [])) by by intros; apply (proj1 Hs).
  clear o. induction args as [|v args [IH1 IH2]].
  - split; [done|]. intros flag o. cbn [parse_args args_error].
    destruct (value_option flag); by destruct (switch_option flag).
  - split; [intros o; apply IH2|]. intros flag o.
    change (parse_args (flag :: v :: args) o) with
      (match value_option flag with
       | Some set => match set v o with Some o => parse_args args o | None => None end
       | None => match switch_option flag with
                 | Some set => parse_args (v :: args) (set o) | None => None end
       end).
    cbn [args_error]. destruct (value_option flag) as [set|].
    + destruct (set v o) as [o1|]; [apply IH1|done].
    + destruct (switch_option flag) as [set|]; [apply IH2|done].
Qed.

Lemma open_source_opened {F} `{FloatOps F} pcap_t (env : environment pcap_t) o c error :
  open_source pcap_t env o = (c, (true, error)) →
  is_Some (handle_ c) ∧ live_ c = negb (bool_decide (Main.device o = "")).
Proof.
  unfold open_source. case_bool_decide; unfold open_offline, open_live.
  - destruct (env_open_offline pcap_t env (pcap_file o)) as [[handle link]|e]; [|done].
    destruct (negb (link =? DLT_EN10MB)); [done|]. intros [= <- _]. cbn. by split.
  - destruct (env_open_live pcap_t env (Main.device o)) as [[handle link]|e]; [|done].
    destruct (negb (link =? DLT_EN10MB)); [done|]. intros [= <- _]. cbn. by split.
Qed.

(** A backend the program runs with has what its dispatches need. *)
Lemma choose_gpu_ready {F} `{FloatOps F} pcap_t (env : environment pcap_t) o (gpu : option (MetalContext (F := F))) :
  choose_gpu pcap_t env o = inr gpu →
  match gpu with
  | None => use_gpu o = false
  | Some ctx => use_gpu o = true ∧ env_metal pcap_t env = true ∧ is_available ctx = true ∧
                is_Some (pipelines (impl ctx) !! kernel_name)
  end.
Proof.
  unfold choose_gpu. destruct (use_gpu o); [|by intros [= <-]].
  destruct (env_metal pcap_t env); [|done].
  destruct (env_gpu_device pcap_t env) as [name|], (env_gpu_queue pcap_t env),
    (env_gpu_kernel pcap_t env) as [[] [] [n|] e]; cbn; try done.
  intros [= <-]. cbn. by split_and!.
Qed.

Lemma runnable_checks o :
  runnable o = true ↔
  list_only o = false ∧ Bool.eqb (bool_decide (Main.device o = "")) (bool_decide (pcap_file o = "")) = false ∧
  (queue_capacity o =? 0) || (batch_size o =? 0) = false.
Proof. unfold runnable. rewrite !andb_true_iff, !negb_true_iff. tauto. Qed.

(** What [main] has checked when it goes on. *)
Lemma start_main_running {F} `{FloatOps F} pcap_t (env : environment pcap_t) args r :
  is_uint 32 (env_cores pcap_t env) → start_main (F := F) pcap_t env args = Running pcap_t r →
  let o := run_options pcap_t r in
  parse_args args (options_default (env_cores pcap_t env)) = Some o ∧ runnable o = true ∧
  1 ≤ num_workers_ (pool_of o) ∧ 1 ≤ batch_size_ (pool_of o) ∧ 1 ≤ queue_capacity o ∧
  is_Some (handle_ (run_capture pcap_t r)) ∧
  live_ (run_capture pcap_t r) = negb (bool_decide (Main.device o = "")) ∧
  match run_gpu pcap_t r with
  | None => use_gpu o = false
  | Some ctx => use_gpu o = true ∧ is_available ctx = true ∧ is_Some (pipelines (impl ctx) !! kernel_name)
  end.
Proof.
  intros Hc. unfold start_main. destruct (parse_args args _) as [o|] eqn:Hp; [|done].
  destruct (list_only o) eqn:Hl.
  { unfold list_only_exit. destruct (list_devices _). by destruct (_ && _). }
  destruct (Bool.eqb _ _) eqn:Hsource; [done|]. destruct (_ || _) eqn:Hsize; [done|].
  destruct (open_source pcap_t env o) as [c [[|] error]] eqn:Hopen; cbn [negb]; [|done].
  destruct (choose_gpu pcap_t env o) as [message|gpu] eqn:Hgpu; [done|].
  intros [= <-]. cbn [run_options run_capture run_gpu].
  assert (Hr : runnable o = true) by by apply runnable_checks.
  destruct (parse_args_ok args _ o (options_default_ok _ Hc) Hp) as [H1 H2 H3 H4 H5 H6].
  apply orb_false_iff in Hsize as [Hq%Z.eqb_neq Hb%Z.eqb_neq].
  destruct (open_source_opened pcap_t env o c error Hopen) as [Hh Hlive].
  pose proof (choose_gpu_ready pcap_t env o gpu Hgpu) as Hg.
  split_and!; try done; cbn [pool_of WorkerPool_new num_workers_ batch_size_]; try lia.
  - destruct (Z.eqb_spec (num_workers o) 0); lia.
  - destruct gpu; tauto.
Qed.

(** ** Properties *)

(** C40. The ways [main] can go before its threads start: it exits with success
    only after listing the devices; every other exit is a failure that prints
    nothing on the standard output and a message on the error stream; and when it
    goes on, the options passed every check (so the pool has a worker, and batch
    and queue have room for a packet), the source is open with an Ethernet link,
    live exactly when a device was named, and the GPU backend, if asked for, has
    its device, its queue and its kernel. *)
Theorem start_main_outcome {F} `{FloatOps F} pcap_t (env : environment pcap_t) args :
  is_uint 32 (env_cores pcap_t env) →
  match start_main (F := F) pcap_t env args with
  | Exit _ code out err =>
      (code = EXIT_SUCCESS ∧ err = [] ∧
       ∃ o, parse_args args (options_default (env_cores pcap_t env)) = Some o ∧ list_only o = true) ∨
      (code = EXIT_FAILURE ∧ out = [] ∧ err ≠ [])
  | Running _ r =>
      let o := run_options pcap_t r in
      parse_args args (options_default (env_cores pcap_t env)) = Some o ∧ runnable o = true ∧
      1 ≤ num_workers_ (pool_of o) ∧ 1 ≤ batch_size_ (pool_of o) ∧ 1 ≤ queue_capacity o ∧
      is_Some (handle_ (run_capture pcap_t r)) ∧
      live_ (run_capture pcap_t r) = negb (bool_decide (Main.device o = "")) ∧
      match run_gpu pcap_t r with
      | None => use_gpu o = false
      | Some ctx => use_gpu o = true ∧ is_available ctx = true ∧ is_Some (pipelines (impl ctx) !! kernel_name)
      end
  end.
Proof.
  intros Hc. destruct (start_main pcap_t env args) as [code out err|r] eqn:E;
    [|by apply (start_main_running pcap_t env args r Hc)].
  unfold start_main in E. destruct (parse_args args _) as [o|] eqn:Hp.
  2: { injection E as <- <- <-. right. split_and!; try done. by apply args_error_some. }
  destruct (list_only o) eqn:Hl.
  { unfold list_only_exit in E. destruct (list_devices _) as [devices error].
    destruct (_ && _); injection E as <- <- <-; [by right|]. left. split_and!; try done. by exists o. }
  right. destruct (Bool.eqb _ _); [by injection E as <- <- <-|].
  destruct (_ || _); [by injection E as <- <- <-|].
  destruct (open_source pcap_t env o) as [c [[|] error]]; cbn [negb] in E; [|by injection E as <- <- <-].
  destruct (choose_gpu pcap_t env o); [by injection E as <- <- <-|done].
Qed.

(** Nothing else stops the program. *)
Lemma start_main_runs {F} `{FloatOps F} pcap_t (env : environment pcap_t) args o :
  parse_args args (options_default (env_cores pcap_t env)) = Some o → runnable o = true →
  (open_source pcap_t env o).2.1 = true →
  (use_gpu o = true → env_metal pcap_t env = true ∧
     (GpuEntropyBackend_new (F := F) (env_gpu_device pcap_t env) (env_gpu_queue pcap_t env)
        (env_gpu_kernel pcap_t env)).1 = true) →
  ∃ r, start_main (F := F) pcap_t env args = Running pcap_t r.
Proof.
  intros Hp (Hl & Hs & Hz)%runnable_checks Ho Hg. unfold start_main. rewrite Hp, Hl, Hs, Hz.
  destruct (open_source pcap_t env o) as [c [opened error]]. cbn in Ho. rewrite Ho. cbn [negb].
  unfold choose_gpu. destruct (use_gpu o); [|by eexists].
  destruct Hg as [-> Hok]; [done|]. destruct (GpuEntropyBackend_new _ _ _) as [ok ctx]. cbn in Hok.
  rewrite Hok. by eexists.
Qed.

(** [-w 0] runs one worker and reports none: the pool raises the number to
    one, while the line printed at the start says 0 workers and the share of the
    time the workers waited is computed from 0 worker seconds, so it is reported
    as 0% however long the worker waited. *)
Theorem zero_workers_misreported {F} `{FloatOps F} cores file wait s m e
    (gpu : option (MetalContext (F := F))) :
  ∃ o, parse_args ["-r"; file; "-w"; "0"] (options_default cores) = Some o ∧
    num_workers_ (pool_of o) = 1 ∧
    banner o gpu = "capturing from " +:+ file +:+ " ... (0 worker(s), queue capacity 4096, batch size 64, " +:+
                   "entropy on " +:+ engine_backend_name gpu +:+ ")" +:+ newline ∧
    percent wait (SFmul 53 1024 (S754_finite s m e) (b64_of_uint (num_workers o))) = b64_of_uint 0.
Proof.
  assert (Hr : value_option "-r" = Some (λ v o, Some (with_pcap v o))) by done.
  assert (Hw : value_option "-w" = Some (integer_option 1024 with_workers)) by done.
  exists (with_workers 0 (with_pcap file (options_default cores))).
  split; [cbn [parse_args]; rewrite Hr, Hw; by vm_compute|]. split; [done|]. split; [|by destruct s].
  unfold banner. cbn [Main.device with_workers with_pcap options_default pcap_file num_workers
    queue_capacity batch_size]. by rewrite bool_decide_eq_true_2.
Qed.

(** *** Witness *)

(** A build without Metal, a file that can be opened and no permission for live
    capture. *)
Definition example_env : environment unit :=
  mk_environment unit "netsentinel" 8 (inr ["en0"; "lo0"]) (λ _, inr "permission denied")
    (λ _, inl (tt, DLT_EN10MB)) false None false (mk_compilation false false None None).

Lemma start_main_outcome_witness :
  start_main (F := spec_float) unit example_env ["-l"] =
    Exit unit EXIT_SUCCESS ["en0" +:+ newline; "lo0" +:+ newline] [] ∧
  (∃ err, start_main (F := spec_float) unit example_env
            ["-r"; "x.pcap"; "-g"] = Exit unit EXIT_FAILURE [] err) ∧
  ∃ r, start_main (F := spec_float) unit example_env
         ["-r"; "x.pcap"; "-w"; "0"] = Running unit r ∧
    1 ≤ num_workers_ (pool_of (run_options unit r)) ∧ live_ (run_capture unit r) = false.
Proof.
  split; [by vm_compute|]. split; [eexists; by vm_compute|].
  eexists. split; [vm_compute; reflexivity|].
  pose proof (start_main_outcome unit example_env
    ["-r"; "x.pcap"; "-w"; "0"] ltac:(by_decide)) as W.
  split; apply W.
Defined.
