(* ===== verification/SmokeTest.v ===== *)
(** * The GPU smoke test ([src/gpu/vector_add_smoke_test.cpp])

    One run of the vector kernel through [MetalContext], compared with the sum
    the CPU computes, in binary32.  Metal's answers and the order of the grid's
    threads are arguments. *)
From Stdlib Require Import Floats.SpecFloat.
From S2P Require Import Prelude Fmt Entropy GpuKernel Metal GpuBackend.

Local Open Scope string_scope.
Local Open Scope Z_scope.
Local Open Scope list_scope.

Definition kCount : nat := 1024.

Definition float_of (i : nat) : spec_float := binary_normalize 24 128 (Z.of_nat i) 0 false.

Definition smoke_a : list spec_float := float_of <$> seq 0 kCount.
Definition smoke_b : list spec_float := (λ i, SFmul 24 128 (float_of i) (float_of 2)) <$> seq 0 kCount.

(** [1e-5f]. *)
Definition tolerance : spec_float :=
  SFdiv 24 128 (binary_normalize 24 128 1 0 false) (binary_normalize 24 128 100000 0 false).

(** [fabs(result - expected) > 1e-5f]. *)
Definition mismatch (result expected : spec_float) : bool :=
  SFltb tolerance (SFabs (SFsub 24 128 result expected)).

Definition mismatches (result : list spec_float) : nat :=
  length (filter (λ b : bool, b = true)
    (zip_with mismatch result (zip_with (SFadd 24 128) smoke_a smoke_b))).

(** What [main] prints last, and its exit code, after [run_vector_add]. *)
Definition smoke_report (dispatched : bool * list spec_float * MetalContext (F := spec_float)) : Z * string :=
  let '(ok, result, ctx) := dispatched in
  if negb ok then (1, "GPU dispatch failed: " +:+ last_error (impl ctx))
  else if (0 <? mismatches result)%nat
  then (1, "FAIL: " +:+ fmt_u (Z.of_nat (mismatches result)) +:+ " / " +:+
           fmt_u (Z.of_nat kCount) +:+ " results wrong")
  else (0, "PASS: " +:+ fmt_u (Z.of_nat kCount) +:+
           " GPU-computed results matched CPU-computed expected values").

(** The context with the kernel, or the message of the failure. *)
Definition smoke_setup (device : option (option string)) (queue : bool) (answer : compilation)
    : string + MetalContext (F := spec_float) :=
  let ctx := MetalContext_new device queue in
  if negb (is_available ctx) then inl ("no Metal device available: " +:+ last_error (impl ctx))
  else
    let '(loaded, ctx) := load_kernel answer "vector_add" ctx in
    if negb loaded then inl ("failed to load kernel: " +:+ last_error (impl ctx)) else inr ctx.

(** [main]; no result when the kernel writes outside the result buffer. *)
Definition smoke_test (device : option (option string)) (queue : bool) (answer : compilation)
    (newBuffer : nat → option (list spec_float) → Z → option (list spec_float)) (completed : bool)
    (error : option (option string)) (order : list nat) : option (Z * string) :=
  match smoke_setup device queue answer with
  | inl message => Some (1, message)
  | inr ctx => smoke_report <$> run_vector_add newBuffer completed error order ctx smoke_a smoke_b
                                  (replicate kCount (float_of 0))
  end.

(** ** Lemmas *)

Lemma mismatch_self x : mismatch x x = false.
Proof.
  unfold mismatch. destruct x as [[]|[]| |s m e]; try by vm_compute.
  unfold SFsub. rewrite Z.sub_diag. by vm_compute.
Qed.

Lemma mismatches_exact : mismatches (zip_with (SFadd 24 128) smoke_a smoke_b) = 0%nat.
Proof.
  unfold mismatches. generalize (zip_with (SFadd 24 128) smoke_a smoke_b) as l.
  induction l as [|x l IH]; [done|]. cbn [zip_with]. rewrite mismatch_self.
  by rewrite filter_cons_False.
Qed.

Lemma mismatches_sum : mismatches (zip_with (f_add (FloatOps := binary32)) smoke_a smoke_b) = 0%nat.
Proof. exact mismatches_exact. Qed.

Lemma smoke_report_ok c :
  (smoke_report (true, zip_with (f_add (FloatOps := binary32)) smoke_a smoke_b, c)).1 = 0.
Proof. unfold smoke_report. by rewrite mismatches_sum. Qed.

Lemma smoke_run newBuffer completed error order (c : MetalContext (F := spec_float)) result n :
  pipelines (impl c) !! "vector_add" = Some n → newBuffer_ok newBuffer → order ≡ₚ seq 0 kCount →
  run_vector_add newBuffer completed error order c smoke_a smoke_b result =
    Some (match vector_buffers newBuffer smoke_a smoke_b with
          | None => (false, result, (fail_with "failed to allocate GPU buffers" c).2)
          | Some _ =>
              let '(ok, c) := submit_and_wait completed error c in
              (ok, if ok then zip_with f_add smoke_a smoke_b else result, c)
          end).
Proof.
  intros Hp Hok Ho.
  assert (Hl : length smoke_a = kCount) by (unfold smoke_a; by rewrite length_fmap, length_seq).
  assert (Hl' : length smoke_b = kCount) by (unfold smoke_b; by rewrite length_fmap, length_seq).
  apply (run_vector_add_correct _ _ _ _ _ _ _ _ n Hp Hok); [congruence| |by rewrite Hl].
  intros E. rewrite E in Hl. discriminate Hl.
Qed.

Lemma smoke_setup_spec device queue answer :
  match smoke_setup device queue answer with
  | inl _ => ¬ (is_Some device ∧ queue = true ∧ c_library answer = true ∧ c_function answer = true ∧
                is_Some (c_pipeline answer))
  | inr ctx => (is_Some device ∧ queue = true ∧ c_library answer = true ∧ c_function answer = true ∧
                is_Some (c_pipeline answer)) ∧ is_Some (pipelines (impl ctx) !! "vector_add")
  end.
Proof.
  destruct device as [name|], queue, answer as [[] [] [n|] e]; cbn;
    try (intros ([? ?] & ? & ? & ? & [? ?]); done).
  split; [split_and!; by eauto|by eexists].
Qed.

(** ** Properties *)

(** The smoke test tells a working GPU from a broken one: with a device, a
    queue, the kernel and buffers, and threads of the grid that run in any order
    and add in binary32, it passes, whatever the result buffer held before; if
    any of these is missing or the dispatch fails, it exits with a failure. *)
Theorem smoke_test_verdict device queue answer newBuffer completed error order :
  order ≡ₚ seq 0 kCount → newBuffer_ok newBuffer →
  ∃ code message, smoke_test device queue answer newBuffer completed error order = Some (code, message) ∧
    (code = 0 ↔ is_Some device ∧ queue = true ∧ c_library answer = true ∧ c_function answer = true ∧
                is_Some (c_pipeline answer) ∧ is_Some (vector_buffers newBuffer smoke_a smoke_b) ∧ completed = true).
Proof.
  intros Ho Hok. unfold smoke_test. pose proof (smoke_setup_spec device queue answer) as Hs.
  destruct (smoke_setup device queue answer) as [message|loaded].
  { exists 1, message. split; [done|]. split; [done|]. intros H. destruct Hs. tauto. }
  destruct Hs as [Hs [n Hp]].
  rewrite (smoke_run newBuffer completed error order loaded _ n Hp Hok Ho). cbn [fmap option_fmap option_map].
  destruct (vector_buffers newBuffer smoke_a smoke_b) as [v|].
  2: { eexists _, _. split; [reflexivity|]. split; [done|]. by intros (_ & _ & _ & _ & _ & [? ?] & _). }
  destruct completed; cbn [submit_and_wait].
  2: { eexists _, _. split; [reflexivity|]. split; [done|]. by intros (_ & _ & _ & _ & _ & _ & ?). }
  pose proof (smoke_report_ok loaded) as Hr. destruct (smoke_report _) as [code message]. cbn in Hr. subst code.
  exists 0, message. split; [done|]. split; [intros _|done]. destruct_and!. by split_and!.
Qed.

(** The threads in reverse order, on a buffer of NaNs; and a dispatch that does
    not complete. *)
Definition nan_buffers (i : nat) (data : option (list spec_float)) (bytes : Z) : option (list spec_float) :=
  let l := default (replicate (Z.to_nat (bytes / 4)) S754_nan) data in
  if Zlength l * 4 =? bytes then Some l else None.

Lemma nan_buffers_ok : newBuffer_ok nan_buffers.
Proof.
  intros i data bytes l. unfold nan_buffers. destruct (_ =? bytes) eqn:E; [|done]. apply Z.eqb_eq in E.
  intros [= <-]. split; [done|]. by intros d ->.
Qed.

Lemma smoke_test_verdict_witness :
  (∃ message, smoke_test (Some (Some "GPU")) true (mk_compilation true true (Some 1024) None) nan_buffers true None
     (reverse (seq 0 kCount)) = Some (0, message)) ∧
  ∃ code message, smoke_test (Some (Some "GPU")) true (mk_compilation true true (Some 1024) None) nan_buffers false
     (Some (Some "page fault")) (reverse (seq 0 kCount)) = Some (code, message) ∧ code ≠ 0.
Proof.
  assert (Ho : reverse (seq 0 kCount) ≡ₚ seq 0 kCount) by apply reverse_Permutation.
  split.
  - destruct (smoke_test_verdict (Some (Some "GPU")) true (mk_compilation true true (Some 1024) None)
      nan_buffers true None _ Ho nan_buffers_ok) as (code & message & E & C).
    exists message. rewrite E. do 2 f_equal. apply C. split_and!; done || by eexists.
  - destruct (smoke_test_verdict (Some (Some "GPU")) true (mk_compilation true true (Some 1024) None)
      nan_buffers false (Some (Some "page fault")) _ Ho nan_buffers_ok) as (code & message & E & C).
    exists code, message. split; [exact E|]. intros H. apply C in H. destruct_and!. done.
Defined.
