(* ===== verification/System.v ===== *)
(** * The program as a whole

    A replay: the capture thread reads a file, the pipeline cuts its packets into
    batches, the workers analyse the batches concurrently, and the alerts are
    counted as they are printed; and a session that is interrupted, live or not.
    The flow rules see the packets in whatever
    order the workers' calls of [observe] interleave. *)
From Stdlib Require Import Floats.SpecFloat.
From S2P Require Import Prelude Packet Parser Wire Capture Alert Signature FlowTracker FlowShards.
From S2P Require Import PacketQueue Pipeline PipelineSpec Entropy AnalysisEngine Main.
From S2P Require Import Fmt GpuKernel GpuBackend Startup.

(** ** Definitions *)

(** The packets the capture thread pushes for a file. *)
Definition replayed (frames : list frame) (max_packets : Z) : list QueuedPacket :=
  (λ x, make_queued_packet x.1 x.2) <$> limit max_packets (omap parse_result frames).

(** An order of the workers' calls of [observe]: each call with the index of its
    batch.  Inside a batch the calls are in order. *)
Definition interleaves (batches : list (list QueuedPacket)) (calls : list (nat * QueuedPacket))
    : Prop :=
  ∀ i batch, batches !! i = Some batch → (filter (λ c, c.1 = i) calls).*2 = batch.

(** What the tracker returned to the calls of one batch. *)
Definition returned_to (i : nat) (calls : list (nat * QueuedPacket)) (out : list (list Alert))
    : list (list Alert) :=
  (filter (λ x, x.1.1 = i) (zip calls out)).*2.

Section Concurrent.
Context (hash32 : Z → Z) (iter : gmap Z PerIpState → list Z) (log2 : spec_float → spec_float).

(** The alerts each batch emits when the batches run concurrently on one
    engine. *)
Definition concurrent_alerts (config : AnalysisConfig) (db : SignatureDatabase) (t : FlowTracker)
    (batches : list (list QueuedPacket)) (calls : list (nat * QueuedPacket)) : list (list Alert) :=
  let out := (observe_all hash32 iter t calls.*2).2 in
  imap (λ i batch, batch_alerts log2 config db batch (returned_to i calls out)) batches.

(** ** Lemmas *)

Lemma length_filter_zip {A B} (P : A → Prop) `{∀ x, Decision (P x)} (l : list A) (k : list B) :
  length k = length l →
  length (filter (λ x, P x.1) (zip l k)) = length (filter P l).
Proof.
  revert k. induction l as [|x l IH]; intros [|y k] Hl; try done. injection Hl as Hl.
  cbn [zip_with]. rewrite !filter_cons. cbn [fst]. case_decide; cbn [length]; by rewrite IH.
Qed.

Lemma returned_to_ok config db t batches calls i batch :
  interleaves batches calls → batches !! i = Some batch →
  let flow_alerts := returned_to i calls (observe_all hash32 iter t calls.*2).2 in
  Forall (Forall stateful) flow_alerts ∧ length flow_alerts = length batch ∧
  concurrent_alerts config db t batches calls !! i =
    Some (batch_alerts log2 config db batch flow_alerts).
Proof.
  intros Hint Hi flow_alerts.
  destruct (observe_all_stateful hash32 iter t calls.*2) as [Hst Hlen]. rewrite length_fmap in Hlen.
  split_and!.
  - unfold flow_alerts, returned_to. apply Forall_fmap, Forall_forall.
    intros [c a] [_ Hin]%list_elem_of_filter. cbn. apply elem_of_zip_r in Hin.
    rewrite Forall_forall in Hst. by apply Hst.
  - unfold flow_alerts, returned_to. rewrite length_fmap.
    rewrite <- (Hint i batch Hi), length_fmap.
    exact (length_filter_zip (λ c : nat * QueuedPacket, c.1 = i) calls _ Hlen).
  - unfold concurrent_alerts. rewrite list_lookup_imap, Hi. done.
Qed.

Lemma concurrent_stateless config db t packets batches calls :
  concat batches ≡ₚ packets → interleaves batches calls →
  filter stateless (concat (concurrent_alerts config db t batches calls)) ≡ₚ
  concat (stateless_alerts log2 config db <$> packets).
Proof.
  intros Hp Hint. apply (stateless_alerts_permutation log2 config db packets batches); [done|].
  apply Forall2_same_length_lookup_2.
  - unfold concurrent_alerts. by rewrite length_imap.
  - intros i batch out Hb Ho.
    destruct (returned_to_ok config db t batches calls i batch Hint Hb) as (A & B & C).
    rewrite C in Ho. injection Ho as <-. by eexists.
Qed.

(** One worker at a time is a possible interleaving. *)
Lemma analyze_batch_concurrent backend `{!FaithfulBackend log2 backend} engine batch :
  concurrent_alerts (a_config engine) (signatures_ engine) (flow_tracker_ engine) [batch]
    ((λ p, (0%nat, p)) <$> batch) =
  [(analyze_batch hash32 iter log2 backend engine batch).2].
Proof.
  rewrite (analyze_batch_eq hash32 iter log2 backend engine batch). cbn [snd].
  rewrite (used_values_faithful log2 backend), entropy_alerts_filter.
  unfold concurrent_alerts, batch_alerts. cbn. do 4 f_equal.
  rewrite <- list_fmap_compose. cbn.
  assert (E : (snd ∘ (λ p : QueuedPacket, (0%nat, p))) <$> batch = batch) by apply list_fmap_id.
  rewrite E. destruct (observe_all_stateful hash32 iter (flow_tracker_ engine) batch) as [_ Hlen].
  revert Hlen. generalize (observe_all hash32 iter (flow_tracker_ engine) batch).2 as out.
  unfold returned_to. clear. induction batch as [|p batch IH]; intros [|o out] Hl; try done.
  injection Hl as Hl. rewrite fmap_cons. cbn [zip_with].
  rewrite filter_cons_True by done. rewrite fmap_cons. by rewrite IH.
Qed.

End Concurrent.

Lemma replayed_fits frames max_packets :
  fits_int max_packets (Zlength (omap parse_result frames)) → Zlength (replayed frames max_packets) ≤ INT_MAX.
Proof.
  intros Hfits. unfold replayed, limit, Zlength in *. rewrite length_fmap.
  destruct (Z.ltb_spec 0 max_packets); [rewrite length_take|]; unfold fits_int in *; lia.
Qed.

Lemma filter_type_stateless ty (l : list Alert) :
  ty = kSignatureMatch ∨ ty = kHighEntropyPayload →
  filter (λ a, alert_type a = ty) (filter stateless l) = filter (λ a, alert_type a = ty) l.
Proof.
  intros Hty. rewrite list_filter_filter_l; [done|]. intros a. unfold stateless. by intros ->.
Qed.

(** What the sink counts once every batch of the delivered packets has been
    analysed. *)
Lemma session_counts hash32 iter log2 config db pool capacity packets s t calls alerts g_quiet ty :
  Zlength packets < 2 ^ 64 → 1 ≤ num_workers_ pool → 0 ≤ batch_size_ pool → 0 ≤ capacity →
  reachable pool capacity packets s → main s = MEnd →
  interleaves (analyzed s) calls →
  alerts ≡ₚ concat (concurrent_alerts hash32 iter log2 config db t (analyzed s) calls) →
  processed_ s = Zlength packets ∧
  (ty = kSignatureMatch ∨ ty = kHighEntropyPayload →
   g_alerts_by_type (print_all g_quiet alerts counters_zero) ty =
     wrap 64 (Zlength (filter (λ a, alert_type a = ty) (concat (stateless_alerts log2 config db <$> packets))))).
Proof.
  intros Hcount Hn Hb Hc Hr Hend Hint Hal.
  destruct (final_state pool capacity packets s) as (Hperm & _ & Hproc & _); [done..|].
  split; [done|]. intros Hty. rewrite print_all_by_type by done. cbn [counters_zero g_alerts_by_type]. rewrite Z.add_0_l.
  f_equal. unfold Zlength. f_equal. apply Permutation_length.
  rewrite Hal, <- (filter_type_stateless ty (concat (concurrent_alerts _ _ _ _ _ _ _ _))) by done.
  by rewrite (concurrent_stateless hash32 iter log2 config db t _ _ calls Hperm Hint).
Qed.

(** ** Properties *)

(** The summary of a replay: for every file, whatever the number of workers,
    the batch size, the queue capacity, the schedule, the interleaving of the
    workers inside the tracker and the order in which alerts reach the sink, the
    program reports all delivered packets as processed, and its counts of
    signature and entropy alerts are those of the delivered packets taken one by
    one. *)
Theorem replay_summary hash32 iter log2 config db pool capacity frames max_packets fuel stop s t
    calls alerts g_quiet ty :
  Forall frame_ok frames → (length frames + 1 < fuel)%nat → 0 ≤ max_packets →
  fits_int max_packets (Zlength (omap parse_result frames)) →
  1 ≤ num_workers_ pool → 0 ≤ batch_size_ pool → 0 ≤ capacity →
  reachable pool capacity (replayed frames max_packets) s → main s = MEnd →
  interleaves (analyzed s) calls →
  alerts ≡ₚ concat (concurrent_alerts hash32 iter log2 config db t (analyzed s) calls) →
  ty = kSignatureMatch ∨ ty = kHighEntropyPayload →
  (∃ r, Capture.run (mk_Capture (Some tt) false) (λ _, 0) (file_world frames) fuel max_packets stop = Returned r ∧
        delivered r = processed_ s) ∧
  g_alerts_by_type (print_all g_quiet alerts counters_zero) ty =
    wrap 64 (Zlength (filter (λ a, alert_type a = ty)
      (concat (stateless_alerts log2 config db <$> replayed frames max_packets)))).
Proof.
  intros Hok Hfuel Hmax Hfits Hn Hb Hc Hr Hend Hint Hal Hty.
  destruct (session_counts hash32 iter log2 config db pool capacity (replayed frames max_packets) s t calls
    alerts g_quiet ty) as [Hproc Hcounts]; [pose proof (replayed_fits frames max_packets Hfits); unfold INT_MAX in *; lia|done..|].
  split; [|by apply Hcounts].
  destruct (run_file tt (λ _, 0) frames max_packets stop fuel Hok Hfuel Hmax Hfits) as (r & E & F & G).
  exists r. split; [exact E|]. rewrite Hproc, G, F. unfold replayed, Zlength. by rewrite length_fmap.
Qed.

(** *** Witness *)

(** A UDP datagram with the EICAR string, a TCP segment with 128 different bytes,
    and an ARP frame. *)
Definition frame_of (l : list Z) : frame := mk_frame l (Zlength l) (Zlength l) (mk_timeval 1 0).

Definition replay_file : list frame :=
  [frame_of (ip_frame ex_dst ex_src ex_ipv4 17
     (udp_header 5353 53 76 0 ++ string_bytes kEicarTestString) []);
   frame_of (ip_frame ex_dst ex_src ex_ipv4 6 (tcp_header ex_tcp ++ (Z.of_nat <$> seq 0 128)) []);
   frame_of (1 :: 2 :: 3 :: 4 :: 5 :: 6 :: 7 :: 8 :: 9 :: 10 :: 11 :: 12 :: [0x08; 0x06; 0; 1])].

Definition replay_trace : list QueuedPacket := replayed replay_file 0.

(** The capture thread pushes all, one worker takes two packets and the other
    the third, and the main thread shuts down. *)
Definition replay_schedule : list action :=
  replicate 5 (ACapture 0) ++ [AMain; AMain; AMain; AMain] ++
  replicate 2 (AWorker 0 0) ++ replicate 11 (AWorker 1 0) ++ replicate 9 (AWorker 0 0) ++
  [AMain; AMain; AMain].

(** The calls of [observe]: the second batch of the log first, the other batch
    between its two packets. *)
Definition replay_calls : list (nat * QueuedPacket) :=
  match replay_trace with
  | [a; b; c] => [(1%nat, a); (0%nat, c); (1%nat, b)]
  | _ => []
  end.

Definition replay_end : pipeline :=
  default (pipeline_start small_pool 4 []) (play small_pool replay_schedule
    (pipeline_start small_pool 4 replay_trace)).

Definition replay_alerts : list Alert :=
  concat (concurrent_alerts id_hash map_keys log2_powers AnalysisConfig_default
            SignatureDatabase_new (FlowTracker_new FlowTrackerConfig_default) (analyzed replay_end)
            replay_calls).

Lemma replay_interleaved : interleaves (analyzed replay_end) replay_calls.
Proof.
  assert (E : length (analyzed replay_end) = 2%nat) by by vm_compute.
  intros i batch Hi. assert (Hlt := lookup_lt_Some _ _ _ Hi). rewrite E in Hlt.
  destruct i as [|[|i]]; [..|lia].
  - enough (Some (filter (λ c, c.1 = 0%nat) replay_calls).*2 = analyzed replay_end !! 0%nat)
      as H by congruence. by vm_compute.
  - enough (Some (filter (λ c, c.1 = 1%nat) replay_calls).*2 = analyzed replay_end !! 1%nat)
      as H by congruence. by vm_compute.
Qed.

Lemma replay_summary_witness :
  processed_ replay_end = 3 ∧
  g_alerts_by_type (print_all true replay_alerts counters_zero) kSignatureMatch = 1 ∧
  g_alerts_by_type (print_all true replay_alerts counters_zero) kSignatureMatch =
    wrap 64 (Zlength (filter (λ a, alert_type a = kSignatureMatch)
      (concat (stateless_alerts log2_powers AnalysisConfig_default SignatureDatabase_new <$>
                 replayed replay_file 0)))).
Proof.
  split; [by vm_compute|]. split; [by vm_compute|].
  apply (replay_summary id_hash map_keys log2_powers AnalysisConfig_default SignatureDatabase_new
    small_pool 4 replay_file 0 5 false replay_end (FlowTracker_new FlowTrackerConfig_default)
    replay_calls replay_alerts true kSignatureMatch).
  - by_decide.
  - cbn. lia.
  - lia.
  - by_decide.
  - by_decide.
  - by_decide.
  - lia.
  - apply (play_reachable small_pool 4 (replayed replay_file 0) replay_schedule). by vm_compute.
  - by vm_compute.
  - exact replay_interleaved.
  - done.
  - by left.
Defined.

(** ** From the command line to the summary *)

Section Program.
Context {F} `{FloatOps F} (hash32 : Z → Z) (iter : gmap Z PerIpState → list Z) (log2 : spec_float → spec_float).
Context (env : environment unit) (args : list string) (r : running (F := F) unit).
Hypothesis (Hcores : is_uint 32 (env_cores unit env)) (Hstart : start_main unit env args = Running unit r).

(** The first two lines of the summary. *)
Definition summary_head (config : AnalysisConfig) (packets : list QueuedPacket) (counters : alert_counters)
    (first_line : string) : list string :=
  let expected ty := wrap 64 (Zlength (filter (λ a, alert_type a = ty)
    (concat (stateless_alerts log2 config SignatureDatabase_new <$> packets)))) in
  ["done — " +:+ fmt_lld (Zlength packets) +:+ " packet(s) captured, " +:+
   fmt_u (Zlength packets) +:+ " processed, " +:+ first_line;
   "alerts by type: port_scan=" +:+ fmt_u (g_alerts_by_type counters kPortScan) +:+
   " syn_flood=" +:+ fmt_u (g_alerts_by_type counters kSynFlood) +:+
   " high_entropy=" +:+ fmt_u (expected kHighEntropyPayload) +:+
   " signature=" +:+ fmt_u (expected kSignatureMatch) +:+ newline].

(** An execution of the threads on the delivered packets, and its alerts in the
    order they are printed. *)
Definition executed (packets : list QueuedPacket) (s : pipeline) (alerts : list Alert) : Prop :=
  let o := run_options unit r in
  reachable (pool_of o) (queue_capacity o) packets s ∧ main s = MEnd ∧
  ∃ calls, interleaves (analyzed s) calls ∧
    alerts ≡ₚ concat (concurrent_alerts hash32 iter log2 (analysis_config o) SignatureDatabase_new
                        (FlowTracker_new (flow (analysis_config o))) (analyzed s) calls).

Lemma executed_summary packets s alerts finished seconds capture_seconds fallbacks name :
  executed packets s alerts → Zlength packets < 2 ^ 64 → delivered finished = Zlength packets →
  let counters := print_all (quiet (run_options unit r)) alerts counters_zero in
  ∃ first_line,
    take 2 (summary (run_options unit r) (delivered finished) s counters seconds capture_seconds fallbacks name) =
    summary_head (analysis_config (run_options unit r)) packets counters first_line.
Proof using All.
  intros (Hreach & Hend & calls & Hint & Hal) Hcount Hdel counters.
  destruct (start_main_running unit env args r Hcores Hstart) as (Hp & _ & Hw & Hb & Hq & _).
  set (o := run_options unit r) in *.
  pose proof (λ ty, session_counts hash32 iter log2 (analysis_config o) SignatureDatabase_new (pool_of o)
    (queue_capacity o) packets s (FlowTracker_new (flow (analysis_config o))) calls alerts (quiet o) ty
    Hcount Hw ltac:(lia) ltac:(lia) Hreach Hend Hint Hal) as Hall.
  destruct (Hall kSignatureMatch) as [Hproc Hsig]. destruct (Hall kHighEntropyPayload) as [_ Hent].
  eexists. unfold summary. rewrite Hdel, Hproc. fold counters in Hsig, Hent.
  rewrite Hsig, Hent by auto. cbn [take app]. reflexivity.
Qed.

End Program.

(** C4. What a replay prints: for every command line that makes the program
    replay a file on the CPU backend, every file and every execution of its
    threads, the run of the capture thread returns, the first line of the summary
    gives the number of delivered packets both as captured and as processed, and
    the second line gives for entropy and signature alerts the counts of the
    delivered packets taken one by one. *)
Theorem replay_program {F} `{FloatOps F} hash32 iter log2 (env : environment unit) args r frames
    fuel fd stop s alerts seconds capture_seconds fallbacks name :
  let o := run_options (F := F) unit r in
  let packets := replayed frames (max_packets o) in
  let counters := print_all (quiet o) alerts counters_zero in
  is_uint 32 (env_cores unit env) → start_main unit env args = Running unit r →
  Main.device o = "" → use_gpu o = false →
  Forall frame_ok frames → fits_int (max_packets o) (Zlength (omap parse_result frames)) →
  (length frames + 1 < fuel)%nat →
  executed hash32 iter log2 r packets s alerts →
  ∃ finished first_line,
    Capture.run (run_capture unit r) fd (file_world frames) fuel (max_packets o) stop = Returned finished ∧
    take 2 (summary o (delivered finished) s counters seconds capture_seconds fallbacks name) =
      summary_head log2 (analysis_config o) packets counters first_line.
Proof.
  intros o packets counters Hc Hstart Hdev Hgpu Hok Hfits Hfuel Hex.
  destruct (start_main_running unit env args r Hc Hstart) as (Hp & _ & _ & _ & _ & [h Hh] & Hlive & _).
  destruct (parse_args_ok args _ _ (options_default_ok _ Hc) Hp) as [_ _ _ Hmax _ _]. fold o in Hlive, Hmax.
  rewrite Hdev in Hlive.
  assert (Hcap : run_capture unit r = mk_Capture (Some h) false)
    by (destruct (run_capture unit r) as [h' l]; cbn in *; by subst).
  destruct (run_file h fd frames (max_packets o) stop fuel Hok Hfuel) as (finished & E & Fh & G); [lia|done|].
  destruct (executed_summary hash32 iter log2 env args r Hc Hstart packets s alerts finished seconds
    capture_seconds fallbacks name Hex) as [first_line Hsum].
  - pose proof (replayed_fits frames (max_packets o) Hfits). unfold INT_MAX, packets in *. lia.
  - rewrite G, Fh. unfold packets, replayed, Zlength. by rewrite length_fmap.
  - exists finished, first_line. rewrite Hcap. by split.
Qed.

(** C6. What a session that is interrupted prints: for every command line that
    makes the program run on the CPU backend, live or on a file, if the stop
    request (SIGINT) arrives before the [k]-th test of the flag, the capture run
    returns after at most [k] reads whatever [poll] and libpcap answer; and every
    execution of the threads on the packets it delivered ends in a summary that
    reports all of them as captured and as processed, with the counts of entropy
    and signature alerts of these packets taken one by one: nothing that was
    delivered before the interrupt is lost. *)
Theorem interrupted_session {F} `{FloatOps F} hash32 iter log2 (env : environment unit) args r
    w fuel fd stop k seconds capture_seconds fallbacks name :
  let o := run_options (F := F) unit r in
  is_uint 32 (env_cores unit env) → start_main unit env args = Running unit r → use_gpu o = false →
  (∀ n f, next_answer w n = NextPacket f → frame_ok f) →
  signalled w k = true → (k < fuel)%nat → fits_int (max_packets o) (Z.of_nat k) →
  ∃ finished,
    Capture.run (run_capture unit r) fd w fuel (max_packets o) stop = Returned finished ∧
    (nexts finished ≤ k)%nat ∧
    ∀ s alerts, let packets := (λ x, make_queued_packet x.1 x.2) <$> handed finished in
      let counters := print_all (quiet o) alerts counters_zero in
      executed hash32 iter log2 r packets s alerts →
      ∃ first_line,
        take 2 (summary o (delivered finished) s counters seconds capture_seconds fallbacks name) =
          summary_head log2 (analysis_config o) packets counters first_line.
Proof.
  intros o Hc Hstart Hgpu Hok Hk Hfuel Hfits.
  destruct (run_until_stop (run_capture unit r) fd w (max_packets o) stop fuel k Hok Hk Hfuel Hfits)
    as (finished & E & Hn & Hd & Hmax & Hreads).
  exists finished. split; [done|]. split; [done|]. intros s alerts packets counters Hex.
  assert (Hlen : Zlength packets = delivered finished)
    by (rewrite Hd; unfold packets, Zlength; by rewrite length_fmap).
  apply (executed_summary hash32 iter log2 env args r Hc Hstart packets s alerts finished); [done| |done].
  rewrite Hlen. unfold fits_int, INT_MAX in *. lia.
Qed.

(** The same file, with the options of the pool above and [-s]. *)
Definition replay_command : list string :=
  ["-r"; "x.pcap"; "-w"; "2"; "-b"; "2"; "-q"; "4"; "-s"].

Definition replay_running : running (F := spec_float) unit :=
  match start_main unit example_env replay_command with
  | Running _ r => r
  | Exit _ _ _ _ => mk_running unit (options_default 8) (Capture_new unit) None ""
  end.

Lemma replay_executed :
  executed id_hash map_keys log2_powers replay_running replay_trace replay_end replay_alerts.
Proof.
  split; [|split].
  - apply (play_reachable small_pool 4 replay_trace replay_schedule). by vm_compute.
  - by vm_compute.
  - exists replay_calls. split; [exact replay_interleaved|by vm_compute].
Qed.

Lemma replay_program_witness :
  start_main (F := spec_float) unit example_env replay_command = Running unit replay_running ∧
    ∃ finished first_line,
      take 2 (summary (run_options unit replay_running) (delivered finished) replay_end
                (print_all true replay_alerts counters_zero) (b64_of_uint 1) (b64_of_uint 1) 0 "cpu") =
      ["done — 3 packet(s) captured, 3 processed, " +:+ first_line;
       "alerts by type: port_scan=0 syn_flood=0 high_entropy=1 signature=1" +:+ newline].
Proof.
  split; [by vm_compute|].
  destruct (replay_program id_hash map_keys log2_powers example_env replay_command replay_running
    replay_file 5 (λ _, 0) false replay_end replay_alerts (b64_of_uint 1) (b64_of_uint 1) 0 "cpu")
    as (finished & first_line & _ & E); cycle -1.
  - exists finished, first_line. etransitivity; [exact E|]. vm_compute. reflexivity.
  - by_decide.
  - vm_compute. reflexivity.
  - done.
  - done.
  - by_decide.
  - by_decide.
  - cbn. lia.
  - exact replay_executed.
Defined.

(** A live interface: one datagram arrives, then nothing until the interrupt. *)
Definition live_command : list string := ["-i"; "en0"; "-w"; "2"; "-b"; "2"; "-q"; "4"; "-s"].

Definition live_env : environment unit :=
  mk_environment unit "netsentinel" 8 (inr ["en0"; "lo0"]) (λ _, inl (tt, DLT_EN10MB)) (λ _, inr "no such file")
    false None false (mk_compilation false false None None).

Definition live_running : running (F := spec_float) unit :=
  match start_main unit live_env live_command with
  | Running _ r => r
  | Exit _ _ _ _ => mk_running unit (options_default 8) (Capture_new unit) None ""
  end.

Definition live_world : world :=
  mk_world (λ k, bool_decide (k = 5%nat)) (λ k, if decide (k = 0%nat) then PollReady else PollTimeout)
    (λ k, match replay_file !! k with Some f => if decide (k = 0%nat) then NextPacket f else NextNone | None => NextNone end).

Lemma interrupted_session_witness :
  ∃ finished,
    Capture.run (run_capture unit live_running) (λ _, 3) live_world 6 0 false = Returned finished ∧
    delivered finished = 1.
Proof.
  destruct (interrupted_session id_hash map_keys log2_powers live_env live_command live_running
    live_world 6 (λ _, 3) false 5 (b64_of_uint 1) (b64_of_uint 1) 0 "cpu") as (finished & E & _).
  - by_decide.
  - vm_compute. reflexivity.
  - done.
  - intros n f Hf. cbn in Hf. destruct (replay_file !! n) as [g|] eqn:Eg; [|done].
    destruct (decide _); [|done]. injection Hf as <-.
    assert (Hall : Forall frame_ok replay_file) by by_decide. rewrite Forall_lookup in Hall. by eapply Hall.
  - done.
  - lia.
  - by_decide.
  - exists finished. split; [exact E|]. vm_compute in E. injection E as <-. done.
Defined.
