(* ===== verification/BackendSession.v ===== *)
(** * Sessions on any entropy backend

    A session whose entropies come from a backend that may fail at any batch, such
    as a GPU: the alerts of the batches, the fallback counter of the engine, and
    the summary.  The backend of every batch is an argument of its own, since a
    dispatch that succeeds once may fail the next time. *)
From Stdlib Require Import Floats.SpecFloat.
From S2P Require Import Prelude Packet Parser Capture Alert Signature FlowTracker FlowShards.
From S2P Require Import PacketQueue Pipeline PipelineSpec Entropy AnalysisEngine Main.
From S2P Require Import Fmt GpuKernel GpuBackend Startup System.

Section Session.
Context (hash32 : Z → Z) (iter : gmap Z PerIpState → list Z) (log2 : spec_float → spec_float).
Context (config : AnalysisConfig) (db : SignatureDatabase).

(** ** Definitions *)

(** The entropy alerts of a batch, with the values [analyze_batch] uses. *)
Definition backend_entropy_alerts (backend : EntropyBackend) (batch : list QueuedPacket) : list Alert :=
  let packets := filter (eligible config) batch in
  concat (zip_with (entropy_alert config) packets (used_values log2 backend packets)).

Definition backend_batch_alerts (backend : EntropyBackend) (batch : list QueuedPacket)
    (flow_alerts : list (list Alert)) : list Alert :=
  concat (zip_with (λ p f, signature_alerts db p ++ f) batch flow_alerts) ++
  backend_entropy_alerts backend batch.

(** Batch [i] of the log runs on backend [backends i]; the calls of [observe] of
    the workers interleave. *)
Definition session_alerts (backends : nat → EntropyBackend) (t : FlowTracker)
    (batches : list (list QueuedPacket)) (calls : list (nat * QueuedPacket)) : list (list Alert) :=
  let out := (observe_all hash32 iter t calls.*2).2 in
  imap (λ i batch, backend_batch_alerts (backends i) batch (returned_to i calls out)) batches.

(** The counter of the engine after the batches. *)
Definition session_fallbacks (backends : nat → EntropyBackend) (batches : list (list QueuedPacket)) : Z :=
  foldl (λ n x, batch_fallbacks config x.2 n x.1) 0 (imap (λ i batch, (batch, backends i)) batches).

(** The batches whose entropies the backend had to give and did not. *)
Definition failed_batch (x : list QueuedPacket * EntropyBackend) : bool :=
  match filter (eligible config) x.1 with
  | [] => false
  | packets => negb (backend_answers x.2 packets)
  end.

Definition failed_batches (backends : nat → EntropyBackend) (batches : list (list QueuedPacket)) : Z :=
  Zlength (filter (λ x, failed_batch x = true) (imap (λ i batch, (batch, backends i)) batches)).

(** ** Lemmas *)

(** What one call of [analyze_batch] emits and counts. *)
Lemma analyze_batch_backend backend engine batch :
  a_config engine = config → signatures_ engine = db →
  let r := analyze_batch hash32 iter log2 backend engine batch in
  r.2 = backend_batch_alerts backend batch (observe_all hash32 iter (flow_tracker_ engine) batch).2 ∧
  fallbacks_ r.1 = batch_fallbacks config backend (fallbacks_ engine) batch.
Proof. intros Hc Hd. cbv zeta. rewrite analyze_batch_eq, Hc, Hd. done. Qed.

Lemma signature_type p : Forall (λ a, alert_type a = kSignatureMatch) (signature_alerts db p).
Proof. unfold signature_alerts. destruct (_ && _); repeat constructor. Qed.

Lemma entropy_type backend batch :
  Forall (λ a, alert_type a = kHighEntropyPayload) (backend_entropy_alerts backend batch).
Proof.
  unfold backend_entropy_alerts. apply Forall_concat.
  generalize (filter (eligible config) batch) at 1. intros ps.
  generalize (used_values log2 backend (filter (eligible config) batch)). intros vs.
  revert vs. induction ps as [|p ps IH]; intros [|v vs]; cbn; try by constructor.
  constructor; [|apply IH]. unfold entropy_alert. destruct (SFleb _ _); repeat constructor.
Qed.

Lemma rules_types batch flow_alerts :
  Forall (Forall stateful) flow_alerts → length flow_alerts = length batch →
  filter (λ a, alert_type a = kSignatureMatch) (concat (zip_with (λ p f, signature_alerts db p ++ f) batch flow_alerts)) =
    concat (signature_alerts db <$> batch) ∧
  filter (λ a, alert_type a = kHighEntropyPayload)
    (concat (zip_with (λ p f, signature_alerts db p ++ f) batch flow_alerts)) = [].
Proof.
  intros Hf. revert batch. induction Hf as [|f fs Hf _ IH]; intros [|p batch] Hl; try done.
  injection Hl as Hl. destruct (IH batch Hl) as [E1 E2]. rewrite fmap_cons. cbn [zip_with concat].
  rewrite !filter_app, E1, E2.
  rewrite (filter_all _ (signature_alerts db p)) by apply signature_type.
  rewrite (filter_none _ f), (filter_none _ (signature_alerts db p)), (filter_none _ f); [by rewrite !app_nil_r|..].
  - eapply Forall_impl; [exact Hf|]. by intros a [->| ->].
  - eapply Forall_impl; [apply signature_type|]. by intros a ->.
  - eapply Forall_impl; [exact Hf|]. by intros a [->| ->].
Qed.

Lemma batch_types backend batch flow_alerts :
  Forall (Forall stateful) flow_alerts → length flow_alerts = length batch →
  filter (λ a, alert_type a = kSignatureMatch) (backend_batch_alerts backend batch flow_alerts) =
    concat (signature_alerts db <$> batch) ∧
  filter (λ a, alert_type a = kHighEntropyPayload) (backend_batch_alerts backend batch flow_alerts) =
    backend_entropy_alerts backend batch.
Proof.
  intros Hf Hl. destruct (rules_types batch flow_alerts Hf Hl) as [E1 E2]. unfold backend_batch_alerts.
  rewrite !filter_app, E1, E2. split.
  - rewrite (filter_none _ (backend_entropy_alerts _ _)); [by rewrite app_nil_r|].
    eapply Forall_impl; [apply entropy_type|]. by intros a ->.
  - by rewrite filter_all by apply entropy_type.
Qed.

Lemma filter_concat_imap {A B} (P : B → Prop) `{∀ x, Decision (P x)} (f g : nat → A → list B) l :
  (∀ i x, l !! i = Some x → filter P (f i x) = g i x) → filter P (concat (imap f l)) = concat (imap g l).
Proof.
  revert f g. induction l as [|x l IH]; intros f g Hfg; [done|]. cbn [imap concat].
  rewrite filter_app, (Hfg 0%nat x eq_refl). f_equal. apply IH. intros i y Hy. by apply (Hfg (S i)).
Qed.

(** The alerts of a session, by type. *)
Lemma session_types backends t batches calls :
  interleaves batches calls →
  filter (λ a, alert_type a = kSignatureMatch) (concat (session_alerts backends t batches calls)) =
    concat (signature_alerts db <$> concat batches) ∧
  filter (λ a, alert_type a = kHighEntropyPayload) (concat (session_alerts backends t batches calls)) =
    concat (imap (λ i batch, backend_entropy_alerts (backends i) batch) batches).
Proof.
  intros Hint. unfold session_alerts. split.
  - rewrite (filter_concat_imap _ _ (λ _ batch, concat (signature_alerts db <$> batch))).
    + clear. generalize 0%nat. induction batches as [|b batches IH]; intros n; [done|]. cbn [imap concat].
      rewrite fmap_app, concat_app. f_equal. apply (IH 0%nat).
    + intros i batch Hb. destruct (returned_to_ok hash32 iter log2 config db t batches calls i batch Hint Hb) as (A & B & _).
      by apply batch_types.
  - apply filter_concat_imap. intros i batch Hb.
    destruct (returned_to_ok hash32 iter log2 config db t batches calls i batch Hint Hb) as (A & B & _).
    by apply batch_types.
Qed.

(** The counter counts the failed batches. *)
Lemma fallbacks_failed l n :
  0 ≤ n →
  foldl (λ n x, batch_fallbacks config x.2 n x.1) (wrap 64 n) l =
    wrap 64 (n + Zlength (filter (λ x, failed_batch x = true) l)).
Proof.
  revert n. induction l as [|[batch backend] l IH]; intros n Hn; cbn [foldl].
  - unfold Zlength. cbn. by rewrite Z.add_0_r.
  - assert (E : batch_fallbacks config backend (wrap 64 n) batch =
              wrap 64 (n + if failed_batch (batch, backend) then 1 else 0)).
    { unfold batch_fallbacks, failed_batch. cbn [fst snd].
      destruct (filter (eligible config) batch) as [|p ps]; [by rewrite Z.add_0_r|].
      destruct (backend_answers _ _); cbn [negb]; unfold wrap; by rewrite Zplus_mod_idemp_l. }
    cbn [fst snd]. rewrite E, IH by (destruct (failed_batch _); lia). f_equal.
    rewrite filter_cons. case_decide as Hb; rewrite ?Zlength_cons.
    + rewrite Hb. lia.
    + apply not_true_is_false in Hb. rewrite Hb. lia.
Qed.

Lemma failed_batches_bound backends batches :
  failed_batches backends batches ≤ Zlength (concat batches).
Proof.
  unfold failed_batches. generalize backends. clear backends.
  induction batches as [|b batches IH]; intros backends; [done|]. cbn [imap concat].
  rewrite filter_cons, Zlength_app. specialize (IH (λ i, backends (S i))).
  change (imap _ batches) with (imap (λ i batch, (batch, backends (S i))) batches) in *.
  case_decide as Hb; [|pose proof (Zlength_nonneg b); lia]. rewrite Zlength_cons.
  assert (1 ≤ Zlength b); [|lia]. destruct b; [done|]. rewrite Zlength_cons. pose proof (Zlength_nonneg b). lia.
Qed.

Lemma session_fallbacks_failed backends batches :
  Zlength (concat batches) < 2 ^ 64 →
  session_fallbacks backends batches = failed_batches backends batches.
Proof.
  intros Hlen. pose proof (failed_batches_bound backends batches).
  unfold session_fallbacks. change 0 with (wrap 64 0). rewrite fallbacks_failed by done.
  rewrite Z.add_0_l, wrap_small; [done|]. unfold failed_batches in *. split; [apply Zlength_nonneg|lia].
Qed.

(** The counter of a type after the alerts of a session, in any order. *)
Lemma counted_type g_quiet alerts l ty :
  alerts ≡ₚ l →
  g_alerts_by_type (print_all g_quiet alerts counters_zero) ty =
    wrap 64 (Zlength (filter (λ a, alert_type a = ty) l)).
Proof.
  intros Hal. rewrite print_all_by_type by done. cbn [counters_zero g_alerts_by_type].
  rewrite Z.add_0_l. unfold Zlength. by rewrite Hal.
Qed.

Lemma signature_count_perm l k :
  l ≡ₚ k → Zlength (concat (signature_alerts db <$> l)) = Zlength (concat (signature_alerts db <$> k)).
Proof.
  induction 1 as [|p l k _ IH|p q l|l k j _ IH1 _ IH2]; rewrite ?fmap_cons; cbn [concat];
    rewrite ?Zlength_app; lia.
Qed.

End Session.

(** ** The summary of a session *)

Lemma backend_summary {F} `{FloatOps F} hash32 iter log2 (env : environment unit) args r
    backends packets s calls alerts finished seconds capture_seconds name :
  let o := run_options (F := F) unit r in
  let config := analysis_config o in
  let counters := print_all (quiet o) alerts counters_zero in
  let failed := failed_batches config backends (analyzed s) in
  is_uint 32 (env_cores unit env) → start_main unit env args = Running unit r →
  Zlength packets < 2 ^ 64 → delivered finished = Zlength packets →
  reachable (pool_of o) (queue_capacity o) packets s → main s = MEnd →
  interleaves (analyzed s) calls →
  alerts ≡ₚ concat (session_alerts hash32 iter log2 config SignatureDatabase_new backends
                      (FlowTracker_new (flow config)) (analyzed s) calls) →
  ∃ first_line third_line,
    summary o (delivered finished) s counters seconds capture_seconds
      (session_fallbacks config backends (analyzed s)) name =
    ["done — " +:+ fmt_lld (Zlength packets) +:+ " packet(s) captured, " +:+
     fmt_u (Zlength packets) +:+ " processed, " +:+ first_line;
     "alerts by type: port_scan=" +:+ fmt_u (g_alerts_by_type counters kPortScan) +:+
     " syn_flood=" +:+ fmt_u (g_alerts_by_type counters kSynFlood) +:+
     " high_entropy=" +:+ fmt_u (wrap 64 (Zlength (concat
       (imap (λ i batch, backend_entropy_alerts log2 config (backends i) batch) (analyzed s))))) +:+
     " signature=" +:+ fmt_u (wrap 64 (Zlength (concat (signature_alerts SignatureDatabase_new <$> packets)))) +:+
     newline;
     third_line] ++
    (if decide (failed = 0) then []
     else ["warning: " +:+ fmt_u failed +:+ " batch(es) fell back to CPU entropy after a " +:+ name +:+
           " failure" +:+ newline])%string.
Proof.
  intros o config counters failed Hc Hstart Hlen Hdel Hreach Hend Hint Hal.
  destruct (start_main_running unit env args r Hc Hstart) as (_ & _ & Hw & Hb & Hq & _). fold o in Hw, Hb, Hq.
  destruct (final_state (pool_of o) (queue_capacity o) packets s) as (Hperm & _ & Hproc & _); [lia..|done|done|].
  destruct (session_types hash32 iter log2 config SignatureDatabase_new backends (FlowTracker_new (flow config))
    (analyzed s) calls Hint) as [Hsig Hent].
  eexists _, _. unfold summary, counters, failed.
  rewrite !(counted_type (quiet o) alerts _ kHighEntropyPayload Hal), !(counted_type (quiet o) alerts _ kSignatureMatch Hal).
  rewrite Hent, Hsig, (signature_count_perm _ _ _ Hperm), Hdel, Hproc.
  rewrite session_fallbacks_failed by (unfold Zlength in *; by rewrite Hperm).
  cbn [app]. do 3 f_equal. f_equal. case_decide as Hd; [by rewrite Hd|].
  rewrite (proj2 (Z.ltb_lt _ _)); [done|]. unfold failed_batches in *.
  pose proof (Zlength_nonneg (filter (λ x, failed_batch config x = true)
    (imap (λ i batch, (batch, backends i)) (analyzed s)))). lia.
Qed.

(** ** Property *)

(** C22. A session on any entropy backend: for every command line that makes the
    program run, every execution of its threads on the delivered packets, and
    whatever the backend answers to each batch, the summary reports all delivered
    packets as captured and as processed; its signature count is that of the
    packets taken one by one, so no failure of the backend touches it; its entropy
    count is that of the values the backend gave, or the CPU where it gave none;
    and it ends in a warning exactly when some batch with eligible payloads was not
    answered, with the number of these batches. *)
Theorem session_on_any_backend {F} `{FloatOps F} hash32 iter log2 (env : environment unit) args r
    backends packets s calls alerts finished seconds capture_seconds name :
  let o := run_options (F := F) unit r in
  let config := analysis_config o in
  let counters := print_all (quiet o) alerts counters_zero in
  let failed := failed_batches config backends (analyzed s) in
  is_uint 32 (env_cores unit env) → start_main unit env args = Running unit r →
  Zlength packets < 2 ^ 64 → delivered finished = Zlength packets →
  reachable (pool_of o) (queue_capacity o) packets s → main s = MEnd →
  interleaves (analyzed s) calls →
  alerts ≡ₚ concat (session_alerts hash32 iter log2 config SignatureDatabase_new backends
                      (FlowTracker_new (flow config)) (analyzed s) calls) →
  ∃ first_line third_line,
    summary o (delivered finished) s counters seconds capture_seconds
      (session_fallbacks config backends (analyzed s)) name =
    ["done — " +:+ fmt_lld (Zlength packets) +:+ " packet(s) captured, " +:+
     fmt_u (Zlength packets) +:+ " processed, " +:+ first_line;
     "alerts by type: port_scan=" +:+ fmt_u (g_alerts_by_type counters kPortScan) +:+
     " syn_flood=" +:+ fmt_u (g_alerts_by_type counters kSynFlood) +:+
     " high_entropy=" +:+ fmt_u (wrap 64 (Zlength (concat
       (imap (λ i batch, backend_entropy_alerts log2 config (backends i) batch) (analyzed s))))) +:+
     " signature=" +:+ fmt_u (wrap 64 (Zlength (concat (signature_alerts SignatureDatabase_new <$> packets)))) +:+
     newline;
     third_line] ++
    (if decide (failed = 0) then []
     else ["warning: " +:+ fmt_u failed +:+ " batch(es) fell back to CPU entropy after a " +:+ name +:+
           " failure" +:+ newline])%string.
Proof. apply backend_summary. Qed.

(** *** Witness *)

(** The replay of [System]; the backend fails at every batch but the first. *)
Definition flaky (i : nat) : EntropyBackend :=
  if decide (i = 0%nat) then CpuEntropyBackend log2_powers else broken_backend.

Definition flaky_alerts : list Alert :=
  concat (session_alerts id_hash map_keys log2_powers AnalysisConfig_default SignatureDatabase_new flaky
            (FlowTracker_new FlowTrackerConfig_default) (analyzed replay_end) replay_calls).

Definition all_delivered : run_state := mk_run_state false 0 0 0 3 [].

Lemma session_on_any_backend_witness :
  failed_batches AnalysisConfig_default flaky (analyzed replay_end) = 1 ∧
  drop 3 (summary (run_options unit replay_running) 3 replay_end (print_all true flaky_alerts counters_zero)
            (b64_of_uint 1) (b64_of_uint 1) 1 "gpu (GPU)") =
    ["warning: 1 batch(es) fell back to CPU entropy after a gpu (GPU) failure" +:+ newline]%string.
Proof.
  assert (Hf : failed_batches AnalysisConfig_default flaky (analyzed replay_end) = 1) by by vm_compute.
  split; [exact Hf|].
  assert (Hn : session_fallbacks AnalysisConfig_default flaky (analyzed replay_end) = 1) by by vm_compute.
  destruct (session_on_any_backend id_hash map_keys log2_powers example_env replay_command replay_running flaky
    replay_trace replay_end replay_calls flaky_alerts all_delivered (b64_of_uint 1) (b64_of_uint 1) "gpu (GPU)")
    as (first_line & third_line & E).
  - by_decide.
  - vm_compute. reflexivity.
  - by_decide.
  - by vm_compute.
  - apply (play_reachable small_pool 4 replay_trace replay_schedule). by vm_compute.
  - by vm_compute.
  - exact replay_interleaved.
  - by vm_compute.
  - change (analysis_config (run_options unit replay_running)) with AnalysisConfig_default in E.
    rewrite Hn, Hf in E. change (delivered all_delivered) with 3 in E. change (quiet _) with true in E.
    rewrite E. vm_compute. reflexivity.
Defined.
