(* ===== verification/WaitingLine.v ===== *)
(** * The line on waiting ([src/main.cpp], the end of [main])

    The third line of the summary says which side of the queue waited for the
    other, in per cent of the time each side had.  [PipelineTimeSpec] bounds the
    totals in nanoseconds; here the line itself is bounded, through every
    conversion, product and quotient of [double] and through [printf]. *)
From Stdlib Require Import Reals Lra Floats.SpecFloat.
From S2P Require Import Prelude Fmt FloatError FmtFloat Packet PacketQueue Pipeline PipelineSpec Entropy Main Startup.
From S2P Require Import PipelineTime PipelineTimeSpec.

Local Open Scope Z_scope.

(** ** Definitions *)

(** [std::chrono::duration<double>(t1 - t0).count()] of two readings of the
    steady clock, in nanoseconds. *)
Definition duration_seconds (t0 t1 : Z) : spec_float :=
  SFdiv 53 1024 (b64_of_uint (t1 - t0)) (b64_of_uint 1000000000).

(** The summary [main] prints at the end of a timed execution: [t0] and [f] are
    the readings around the threads, [c] and [e] those of the capture thread. *)
Definition timed_summary (o : options) (delivered : Z) (s : timed) (counters : alert_counters)
    (t0 f c e : Z) (fallbacks : Z) (name : string) : list string :=
  summary o delivered (base s) counters (duration_seconds t0 f) (duration_seconds c e) fallbacks name.

(** ** Lemmas *)

(** [%.0f] of a number below [n + 1/2]. *)
Lemma fmt_fixed_at_most m e n :
  (IZR (Z.pos m) * bpow e < IZR n + / 2)%R → ∃ a, 0 ≤ a ≤ n ∧ fmt_fixed 0 (S754_finite false m e) = fmt_u a.
Proof.
  intros Hx. exists (scaled 1 (Z.pos m) e). split.
  - unfold scaled. destruct (Z.leb_spec 0 e) as [He|He].
    + rewrite <- bpow_IZR, <- mult_IZR in Hx by done. rewrite Z.mul_1_l. split; [lia|].
      apply Zlt_succ_le, lt_IZR. unfold Z.succ. rewrite plus_IZR. lra.
    + assert (Hp : 0 < 2 ^ (- e)) by (apply Z.pow_pos_nonneg; lia).
      assert (Hm : 2 * Z.pos m < (2 * n + 1) * 2 ^ (- e)).
      { apply lt_IZR. rewrite !mult_IZR, plus_IZR, mult_IZR, bpow_IZR by lia.
        pose proof (bpow_pos (- e)). pose proof (bpow_opp_mul (- e)) as E. rewrite Z.opp_involutive in E.
        replace (IZR (Z.pos m)) with (IZR (Z.pos m) * bpow e * bpow (- e))%R by (rewrite Rmult_assoc, E; ring).
        nra. }
      pose proof (round_half_even_nearest (1 * Z.pos m) (2 ^ (- e)) Hp). nia.
  - cbn [fmt_fixed]. unfold fixed_digits. change (10 ^ Z.of_nat 0) with 1.
    by rewrite Z.div_1_r, str_app_nil_r.
Qed.

(** A share of the time that is available, as it is printed. *)
Lemma percent_at_most p t den k b :
  0 ≤ p ≤ t → p < 2 ^ 64 → (k ≤ 10)%nat → b ≤ 200 → near k 30 b den (IZR t / IZR 1000000000) →
  ∃ a, 0 ≤ a ≤ 100 ∧ fmt_fixed 0 (percent (wait_seconds p) den) = fmt_u a.
Proof.
  intros Hp Hlt Hk Hb Hden. pose proof (near_pos _ _ _ _ _ Hden) as Hpos.
  destruct (near_finite _ _ _ _ _ Hden) as (md & ed & Ed). unfold percent, ratio.
  replace (SFltb (b64_of_uint 0) den) with true by by rewrite Ed.
  destruct (Z.eq_dec p 0) as [->|Hp0]; [exists 0; split; [done|by rewrite Ed]|].
  assert (Ht : (0 < IZR t)%R) by (apply IZR_lt; lia). pose proof (IZR_le _ _ (proj2 Hp)) as Hle.
  pose proof (of_uint_near 100 7 ltac:(done) ltac:(done)) as N100.
  pose proof (of_uint_near p 64 ltac:(lia) ltac:(done)) as Np.
  pose proof (of_uint_near 1000000000 30 ltac:(done) ltac:(done)) as Ng.
  pose proof (div_near _ _ _ _ _ _ _ _ _ _ Np Ng ltac:(lia) ltac:(lia) ltac:(lia)) as Nw.
  pose proof (mul_near _ _ _ _ _ _ _ _ _ _ N100 Nw ltac:(lia) ltac:(lia) ltac:(lia)) as Nm.
  pose proof (div_near _ _ _ _ _ _ _ _ _ _ Nm Hden ltac:(lia) ltac:(lia) ltac:(lia)) as Nq.
  destruct (near_at_most _ _ _ _ _ 100 Nq) as (m & e & E & Hm); [lia| |lia|].
  - apply (Rmult_le_reg_r (IZR t)); [done|].
    replace (IZR 100 * (IZR p / IZR 1000000000) / (IZR t / IZR 1000000000) * IZR t)%R with (IZR 100 * IZR p)%R
      by (field; lra). apply Rmult_le_compat_l; lra.
  - unfold wait_seconds. rewrite E. by apply fmt_fixed_at_most.
Qed.

(** No time is available: [0.0] is printed. *)
Lemma percent_of_zero x s : fmt_fixed 0 (percent x (S754_zero s)) = "0".
Proof. done. Qed.

Lemma duration_zero t : duration_seconds t t = S754_zero false.
Proof. unfold duration_seconds. by rewrite Z.sub_diag. Qed.

Lemma duration_near t0 t1 :
  t0 < t1 → t1 - t0 < 2 ^ 64 → near 3 30 64 (duration_seconds t0 t1) (IZR (t1 - t0) / IZR 1000000000).
Proof.
  intros H Hlt. pose proof (of_uint_near (t1 - t0) 64 ltac:(lia) ltac:(done)) as Np.
  pose proof (of_uint_near 1000000000 30 ltac:(done) ltac:(done)) as Ng.
  exact (div_near _ _ _ _ _ _ _ _ _ _ Np Ng ltac:(lia) ltac:(lia) ltac:(lia)).
Qed.

(** The share of a thread that ran from [t0] to [t1]. *)
Lemma thread_share p t0 t1 :
  0 ≤ p ≤ t1 - t0 → t1 - t0 < 2 ^ 64 →
  ∃ a, 0 ≤ a ≤ 100 ∧ fmt_fixed 0 (percent (wait_seconds p) (duration_seconds t0 t1)) = fmt_u a.
Proof.
  intros Hp Hlt. destruct (Z.eq_dec t0 t1) as [->|Hne].
  - rewrite duration_zero. exists 0. by rewrite percent_of_zero.
  - apply (percent_at_most p (t1 - t0) _ 3 64); try lia. apply duration_near; lia.
Qed.

(** The share of [n] threads. *)
Lemma threads_share p n t0 t1 :
  0 ≤ n < 2 ^ 32 → t0 ≤ t1 → t1 - t0 < 2 ^ 64 → p < 2 ^ 64 → (n = 0 ∨ 0 ≤ p ≤ n * (t1 - t0)) →
  ∃ a, 0 ≤ a ≤ 100 ∧ (n = 0 → a = 0) ∧
    fmt_fixed 0 (percent (wait_seconds p) (SFmul 53 1024 (duration_seconds t0 t1) (b64_of_uint n))) = fmt_u a.
Proof.
  intros Hn Ht Hlt Hp64 Hp. destruct (Z.eq_dec n 0) as [->|Hn0]; [|destruct Hp as [?|Hp]; [done|]].
  - exists 0. split_and!; [done..|]. destruct (Z.eq_dec t0 t1) as [->|Hne]; [by rewrite duration_zero|].
    destruct (near_finite _ _ _ _ _ (duration_near t0 t1 ltac:(lia) Hlt)) as (m & e & ->). done.
  - pose proof (of_uint_near n 32 ltac:(lia) ltac:(done)) as Nn.
    destruct (Z.eq_dec t0 t1) as [->|Hne].
    { exists 0. split_and!; [done..|]. rewrite duration_zero. by destruct (near_finite _ _ _ _ _ Nn) as (m & e & ->). }
    pose proof (duration_near t0 t1 ltac:(lia) Hlt) as Nd.
    destruct (percent_at_most p (n * (t1 - t0)) (SFmul 53 1024 (duration_seconds t0 t1) (b64_of_uint n)) 5 96)
      as (a & Ha & E); try lia; [|by exists a].
    replace (IZR (n * (t1 - t0)) / IZR 1000000000)%R with (IZR (t1 - t0) / IZR 1000000000 * IZR n)%R
      by (rewrite mult_IZR; field).
    exact (mul_near _ _ _ _ _ _ _ _ _ _ Nd Nn ltac:(lia) ltac:(lia) ltac:(lia)).
Qed.

(** C14. The line on waiting: after every timed execution that ends before the
    workers' time exceeds 2^64 nanoseconds, both shares in the third line of the
    summary, computed and printed in floating point, are whole numbers from 0 to
    100, whatever the number of workers asked for (with [-w 0], where one worker
    runs, the second share is 0). *)
Theorem waiting_line o poll_ms packets t0 schedule s f delivered counters fallbacks name :
  let n := num_workers_ (pool_of o) in
  0 ≤ num_workers o < 2 ^ 32 → 0 ≤ batch_size o → 0 ≤ queue_capacity o →
  timed_play (pool_of o) poll_ms schedule (timed_start (pool_of o) (queue_capacity o) packets t0) = Some s →
  finished s = Some f → n * (clock s - t0) < 2 ^ 64 →
  ∃ c e blocked waiting, capture_started s = Some c ∧ capture_ended s = Some e ∧
    0 ≤ blocked ≤ 100 ∧ 0 ≤ waiting ≤ 100 ∧ (num_workers o = 0 → waiting = 0) ∧
    timed_summary o delivered s counters t0 f c e fallbacks name !! 2%nat = Some (
      "waiting: capture thread blocked on a full queue " +:+ fmt_u blocked +:+ "% of its " +:+
      fmt_fixed 3 (duration_seconds c e) +:+ "s, workers waiting for packets " +:+
      fmt_u waiting +:+ "% of their time" +:+ newline)%string.
Proof.
  intros n Hn Hb Hc Hplay Hf Hbound.
  assert (Hpool : 1 ≤ n ∧ (num_workers o = 0 ∨ n = num_workers o)).
  { unfold n, pool_of, WorkerPool_new. cbn. destruct (Z.eqb_spec (num_workers o) 0); lia. }
  destruct (waiting_totals _ _ _ _ _ _ _ _ (proj1 Hpool) Hb Hc Hplay Hf Hbound)
    as (c & e & Hcs & Hce & Hct & Hef & Hpush & Hpop).
  fold n in Hpop. assert (n * (f - t0) < 2 ^ 64 ∧ f - t0 ≤ n * (f - t0)) by nia. set (p := push_wait_ns_ _) in Hpush. set (w := pop_wait_ns_ _) in Hpop.
  destruct (thread_share p c e) as (blocked & Ha & Ea); [lia..|].
  destruct (threads_share w (num_workers o) t0 f) as (waiting & Hw & H0 & Ew); [done|lia..| |].
  { destruct (proj2 Hpool) as [?| <-]; auto. }
  exists c, e, blocked, waiting. split_and!; [done..|by apply Ha|by apply Ha|by apply Hw|by apply Hw|done|].
  by rewrite <- Ea, <- Ew.
Qed.

(** ** Witnesses *)

(** Two workers, a queue of two packets, batches of two. *)
Definition waiting_options : options :=
  default (options_default 4)
    (parse_args ["-r"; "x.pcap"; "-w"; "2"; "-q"; "2"; "-b"; "2"]%string (options_default 4)).

Lemma waiting_line_witness :
  ∃ s, timed_play (pool_of waiting_options) 100 timed_schedule
         (timed_start (pool_of waiting_options) (queue_capacity waiting_options) small_trace 7) = Some s ∧
    finished s = Some 49007 ∧
    ∃ c e blocked waiting, capture_started s = Some c ∧ capture_ended s = Some e ∧
      0 ≤ blocked ≤ 100 ∧ 0 ≤ waiting ≤ 100 ∧
      timed_summary waiting_options 5 s counters_zero 7 49007 c e 0 "cpu" !! 2%nat = Some (
        "waiting: capture thread blocked on a full queue " +:+ fmt_u blocked +:+ "% of its " +:+
        fmt_fixed 3 (duration_seconds c e) +:+ "s, workers waiting for packets " +:+
        fmt_u waiting +:+ "% of their time" +:+ newline)%string.
Proof.
  eexists. split; [vm_compute; reflexivity|]. split; [reflexivity|].
  edestruct (waiting_line waiting_options 100 small_trace 7 timed_schedule)
    as (c & e & blocked & waiting & Hc & He & Hb & Hw & _ & Hline); [by_decide..| | | |].
  - vm_compute. reflexivity.
  - reflexivity.
  - by_decide.
  - exists c, e, blocked, waiting. split; [exact Hc|]. split; [exact He|]. split; [exact Hb|].
    split; [exact Hw|]. exact Hline.
Defined.
