(* ===== verification/SessionOutput.v ===== *)
(** * What a session prints ([src/main.cpp])

    The callback of the workers: with [-v] a line for each packet of the batch,
    then the analysis, whose alerts are printed unless [-s] is given.  Each line is
    printed under [g_stdout_mutex], so the output of the workers is an
    interleaving of the lines of their batches; it lies between the banner and
    the summary. *)
From Stdlib Require Import Floats.SpecFloat.
From S2P Require Import Prelude Packet Parser Capture Alert Signature FlowTracker FlowShards.
From S2P Require Import PacketQueue Pipeline PipelineSpec Entropy AnalysisEngine Main.
From S2P Require Import Fmt GpuKernel GpuBackend Startup System BackendSession.

(** ** Definitions *)

(** The lines [print_alert] prints; it prints the same whatever the counters are. *)
Definition alert_lines (g_quiet : bool) (alerts : list Alert) : list string :=
  omap (λ a, (print_alert g_quiet a counters_zero).2) alerts.

(** The callback on a batch, whose analysis emits [alerts]. *)
Definition worker_lines (o : options) (batch : list QueuedPacket) (alerts : list Alert) : list string :=
  (if verbose o then print_packet <$> batch else []) ++ alert_lines (quiet o) alerts.

(** The lines of several callbacks, one line at a time. *)
Inductive merged {A} : list (list A) → list A → Prop :=
  | merged_nil ls : Forall (λ l, l = []) ls → merged ls []
  | merged_line ls i x l out :
      ls !! i = Some (x :: l) → merged (<[i := l]> ls) out → merged ls (x :: out).

(** ** Lemmas *)

Lemma concat_nils {A} (ls : list (list A)) : Forall (λ l, l = []) ls → concat ls = [].
Proof. induction 1 as [|l ls -> _ IH]; [done|]. exact IH. Qed.

Lemma concat_cons_insert {A} (ls : list (list A)) i x l :
  ls !! i = Some (x :: l) → concat ls ≡ₚ x :: concat (<[i := l]> ls).
Proof.
  revert i. induction ls as [|k ls IH]; intros [|i] Hi; try done; cbn in Hi |- *.
  - by injection Hi as ->.
  - rewrite (IH i Hi). symmetry. apply Permutation_middle.
Qed.

(** Nothing is lost, and the lines of a callback stay in order. *)
Lemma merged_all {A} (ls : list (list A)) out : merged ls out → out ≡ₚ concat ls.
Proof.
  induction 1 as [ls Hn|ls i x l out Hi _ IH]; [by rewrite concat_nils|].
  rewrite (concat_cons_insert _ _ _ _ Hi). by constructor.
Qed.

Lemma merged_order {A} (ls : list (list A)) out j k :
  merged ls out → ls !! j = Some k → k `sublist_of` out.
Proof.
  intros Hm. revert j k. induction Hm as [ls Hn|ls i x l out Hi _ IH]; intros j k Hj.
  - rewrite Forall_lookup in Hn. by rewrite (Hn _ _ Hj).
  - destruct (decide (i = j)) as [->|Hne].
    + rewrite Hi in Hj. injection Hj as <-. apply sublist_skip, (IH j).
      apply list_lookup_insert_eq. by eapply lookup_lt_Some.
    + apply sublist_cons, (IH j). by rewrite list_lookup_insert_ne.
Qed.

Lemma alert_lines_app g_quiet l k : alert_lines g_quiet (l ++ k) = alert_lines g_quiet l ++ alert_lines g_quiet k.
Proof. apply omap_app. Qed.

Lemma alert_lines_eq g_quiet alerts :
  alert_lines g_quiet alerts =
  if g_quiet then [] else (λ a, format_alert a +:+ newline)%string <$> alerts.
Proof. unfold alert_lines. induction alerts as [|a alerts IH]; destruct g_quiet; cbn in *; by rewrite ?IH. Qed.

(** The counter counts the alerts. *)
Lemma print_all_count g_quiet alerts c :
  g_alert_count (print_all g_quiet alerts c) = fold_left (λ n _, wrap 64 (n + 1)) alerts (g_alert_count c).
Proof.
  unfold print_all. revert c. induction alerts as [|a alerts IH]; intros c; [done|]. cbn [fold_left].
  rewrite IH. by destruct g_quiet.
Qed.

Lemma counted_all {A} (l : list A) n : fold_left (λ n _, wrap 64 (n + 1)) l (wrap 64 n) = wrap 64 (n + Zlength l).
Proof.
  revert n. induction l as [|x l IH]; intros n; cbn [fold_left].
  - unfold Zlength. cbn. by rewrite Z.add_0_r.
  - rewrite wrap_add_l, IH, Zlength_cons. f_equal. lia.
Qed.

(** The lines of all callbacks, packets and alerts apart. *)
Lemma worker_lines_all o batches alerts :
  length alerts = length batches →
  concat (zip_with (worker_lines o) batches alerts) ≡ₚ
  (if verbose o then print_packet <$> concat batches else []) ++ alert_lines (quiet o) (concat alerts).
Proof.
  revert alerts. induction batches as [|b batches IH]; intros [|a alerts] Hl; try done.
  - destruct (verbose o); done.
  - injection Hl as Hl. cbn [zip_with concat]. rewrite IH by done. unfold worker_lines.
    rewrite alert_lines_app. destruct (verbose o); [rewrite fmap_app|]; cbn [app]; solve_Permutation.
Qed.

(** ** Property *)

(** C5. What the workers print: for every command line that makes the program
    run, every execution of its threads and every interleaving of the lines of
    the callbacks, with [-v] there is exactly one line for each delivered packet,
    without it none; without [-s] there is exactly one line for each alert, with it
    none; the packet lines of a batch come first, in order, then its alerts; and
    the number of alerts in the summary counts the alert lines. *)
Theorem session_output {F} `{FloatOps F} hash32 iter log2 (env : environment unit) args r
    backends packets s calls out :
  let o := run_options (F := F) unit r in
  let config := analysis_config o in
  let alerts := session_alerts hash32 iter log2 config SignatureDatabase_new backends
                  (FlowTracker_new (flow config)) (analyzed s) calls in
  is_uint 32 (env_cores unit env) → start_main unit env args = Running unit r →
  Zlength packets < 2 ^ 64 →
  reachable (pool_of o) (queue_capacity o) packets s → main s = MEnd →
  merged (zip_with (worker_lines o) (analyzed s) alerts) out →
  out ≡ₚ (if verbose o then print_packet <$> packets else []) ++
         (if quiet o then [] else (λ a, format_alert a +:+ newline)%string <$> concat alerts) ∧
  (∀ i batch emitted, analyzed s !! i = Some batch → alerts !! i = Some emitted →
     worker_lines o batch emitted `sublist_of` out) ∧
  g_alert_count (print_all (quiet o) (concat alerts) counters_zero) = wrap 64 (Zlength (concat alerts)) ∧
  (verbose o = false → quiet o = false → Zlength (concat alerts) = Zlength out).
Proof.
  intros o config alerts Hc Hstart Hlen Hreach Hend Hm.
  destruct (start_main_running unit env args r Hc Hstart) as (_ & _ & Hw & Hb & Hq & _). fold o in Hw, Hb, Hq.
  destruct (final_state (pool_of o) (queue_capacity o) packets s) as (Hperm & _); [lia..|done|done|].
  assert (Hl : length alerts = length (analyzed s)) by apply length_imap.
  assert (Hout : out ≡ₚ (if verbose o then print_packet <$> packets else []) ++
    (if quiet o then [] else (λ a, format_alert a +:+ newline)%string <$> concat alerts)).
  { rewrite (merged_all _ _ Hm), worker_lines_all by done. rewrite alert_lines_eq.
    apply Permutation_app_tail. destruct (verbose o); [|done]. by rewrite Hperm. }
  split_and!; [done|..].
  - intros i batch emitted Hb1 Ha1. eapply merged_order; [done|].
    by rewrite lookup_zip_with, Hb1; cbn; rewrite Ha1.
  - rewrite print_all_count. apply (counted_all _ 0).
  - intros Ev Eq. unfold Zlength. rewrite Hout, Ev, Eq. cbn [app]. by rewrite length_fmap.
Qed.

(** *** Witness *)

(** One interleaving, by the callback each line comes from. *)
Fixpoint merge_by {A} (picks : list nat) (ls : list (list A)) : option (list A) :=
  match picks with
  | [] => if forallb (λ l, match l with [] => true | _ => false end) ls then Some [] else None
  | i :: picks =>
      match ls !! i with
      | Some (x :: l) => cons x <$> merge_by picks (<[i := l]> ls)
      | _ => None
      end
  end.

Lemma merge_by_merged {A} picks (ls : list (list A)) out : merge_by picks ls = Some out → merged ls out.
Proof.
  revert ls out. induction picks as [|i picks IH]; intros ls out; cbn [merge_by].
  - destruct (forallb _ ls) eqn:E; [|done]. intros [= <-]. constructor.
    apply Forall_forall. intros l Hl. rewrite forallb_forall in E.
    apply list_elem_of_In, E in Hl. by destruct l.
  - destruct (ls !! i) as [[|x l]|] eqn:Ei; try done. intros (out' & H & ->)%fmap_Some.
    by eapply merged_line, IH.
Qed.

Definition loud_command : list string := ["-r"; "x.pcap"; "-w"; "2"; "-b"; "2"; "-q"; "4"; "-v"]%string.

Definition loud_running : running (F := spec_float) unit :=
  match start_main unit example_env loud_command with
  | Running _ r => r
  | Exit _ _ _ _ => mk_running unit (options_default 8) (Capture_new unit) None ""
  end.

Definition loud_alerts : list (list Alert) :=
  session_alerts id_hash map_keys log2_powers AnalysisConfig_default SignatureDatabase_new
    (λ _, CpuEntropyBackend log2_powers) (FlowTracker_new FlowTrackerConfig_default) (analyzed replay_end)
    replay_calls.

Definition loud_lines : list (list string) :=
  zip_with (worker_lines (run_options unit loud_running)) (analyzed replay_end) loud_alerts.

(** Three packets and two alerts. *)
Lemma session_output_witness :
  ∃ out, merge_by [1; 0; 1; 1; 1]%nat loud_lines = Some out ∧
    g_alert_count (print_all false (concat loud_alerts) counters_zero) = 2 ∧
    out ≡ₚ (print_packet <$> replay_trace) ++
           ((λ a, format_alert a +:+ newline)%string <$> concat loud_alerts).
Proof.
  assert (E : is_Some (merge_by [1; 0; 1; 1; 1]%nat loud_lines)) by (vm_compute; by eexists).
  destruct E as [out E]. exists out. split; [exact E|]. split; [vm_compute; reflexivity|].
  destruct (session_output id_hash map_keys log2_powers example_env loud_command loud_running
    (λ _, CpuEntropyBackend log2_powers) replay_trace replay_end replay_calls out) as (A & _).
  - by_decide.
  - vm_compute. reflexivity.
  - by_decide.
  - apply (play_reachable small_pool 4 replay_trace replay_schedule). by vm_compute.
  - by vm_compute.
  - exact (merge_by_merged _ _ _ E).
  - assert (V : verbose (run_options unit loud_running) = true) by by vm_compute.
    assert (Q : quiet (run_options unit loud_running) = false) by by vm_compute.
    assert (C : analysis_config (run_options unit loud_running) = AnalysisConfig_default) by by vm_compute.
    rewrite V, Q, C in A. exact A.
Defined.
