(* ===== verification/MetalSession.v ===== *)
(** * A session on the GPU, from the command line to the summary

    [-g]: the program starts on a Metal context, its workers' batches are
    dispatched concurrently on that context, and the summary is printed from what
    the dispatches returned.  The parts are [Startup], [Pipeline], [Metal] and
    [BackendSession]; here they run together. *)
From Stdlib Require Import Floats.SpecFloat.
From S2P Require Import Prelude Packet Parser Capture Alert Signature FlowTracker FlowShards.
From S2P Require Import PacketQueue Pipeline PipelineSpec Entropy AnalysisEngine Main.
From S2P Require Import Fmt GpuKernel Metal MetalSpec GpuBackend Startup System BackendSession.

(** ** Definitions *)

Section Dispatches.
Context {F : Type} `{FloatOps F} (to_double : F → spec_float) (log2 : spec_float → spec_float).
Context (config : AnalysisConfig) (max_threads : Z).

(** [m] is the state of the context at the end, with all the calls in it; batch
    [i] of the log was the call [call_of i]. *)
Context (m : metal (F := F)) (call_of : nat → nat).

Definition call_for (i : nat) : finished_call := mk_finished_call m (call_of i).

(** The backend batch [i] met: its submission is that call. *)
Definition metal_backend (i : nat) : EntropyBackend :=
  GpuEntropyBackend true to_double
    (λ payloads, if decide (j_payloads <$> jobs m !! call_of i = Some payloads)
                 then Some (call_for i) else None)
    call_answer.

(** The payloads of a batch that go to the backend. *)
Definition eligible_payloads (batch : list QueuedPacket) : list (list Z) :=
  q_payload <$> filter (eligible config) batch.

(** The calls are those of the batches: each batch with eligible packets has
    submitted their payloads, which 32-bit offsets can address. *)
Definition dispatched_batches (batches : list (list QueuedPacket)) : Prop :=
  ∀ i batch, batches !! i = Some batch → filter (eligible config) batch ≠ [] →
    j_payloads <$> jobs m !! call_of i = Some (eligible_payloads batch) ∧
    addressable (eligible_payloads batch).

(** The values the summary rests on: those of the kernel where the call of the
    batch returned values, those of the CPU where it did not. *)
Definition dispatch_values (i : nat) (batch : list QueuedPacket) : list spec_float :=
  match call_answer (call_for i) with
  | Some _ => to_double <$> expected max_threads (eligible_payloads batch)
  | None => payload_entropy log2 <$> filter (eligible config) batch
  end.

Definition dispatch_alerts (i : nat) (batch : list QueuedPacket) : list Alert :=
  concat (zip_with (entropy_alert config) (filter (eligible config) batch) (dispatch_values i batch)).

(** The batches with eligible packets whose call returned nothing. *)
Definition unanswered (x : nat * list QueuedPacket) : bool :=
  match filter (eligible config) x.2 with
  | [] => false
  | _ => match call_answer (call_for x.1) with Some _ => false | None => true end
  end.

Definition unanswered_batches (batches : list (list QueuedPacket)) : Z :=
  Zlength (filter (λ x, unanswered x = true) (imap pair batches)).

End Dispatches.

(** ** Lemmas *)

(** The context the program starts with has the kernel and nothing else. *)
Lemma gpu_context_fresh {F} `{FloatOps F} pcap_t (env : environment pcap_t) args r ctx :
  start_main (F := F) pcap_t env args = Startup.Running pcap_t r → run_gpu pcap_t r = Some ctx →
  impl ctx = metal_start (pipelines (impl ctx)).
Proof.
  unfold start_main. destruct (parse_args args _) as [o|]; [|done].
  destruct (list_only o); [unfold list_only_exit; destruct (list_devices _); by destruct (_ && _)|].
  destruct (Bool.eqb _ _); [done|]. destruct (_ || _); [done|].
  destruct (open_source pcap_t env o) as [c [[|] error]]; [|done]. cbn [negb].
  destruct (choose_gpu pcap_t env o) as [message|gpu] eqn:Hg; [done|]. intros [= <-]. cbn. intros ->.
  revert Hg. unfold choose_gpu. destruct (use_gpu o); [|done]. destruct (env_metal pcap_t env); [|done].
  destruct (env_gpu_device pcap_t env) as [name|], (env_gpu_queue pcap_t env),
    (env_gpu_kernel pcap_t env) as [[] [] [n|] e]; cbn; try done.
  by intros [= <-].
Qed.

Lemma history_reachable {F} `{FloatOps F} kernels (s m : metal (F := F)) :
  metal_reachable kernels s → rtc metal_step s m → metal_reachable kernels m.
Proof. intros Hs Hr. induction Hr; [done|]. apply IHHr. by eapply mr_step. Qed.

(** Counting in two lists that are built alike. *)
Lemma count_imap {A B C} (P : B → bool) (Q : C → bool) (f : nat → A → B) (g : nat → A → C) l :
  (∀ i x, l !! i = Some x → P (f i x) = Q (g i x)) →
  Zlength (filter (λ x, P x = true) (imap f l)) = Zlength (filter (λ x, Q x = true) (imap g l)).
Proof.
  revert f g. induction l as [|x l IH]; intros f g Hfg; [done|]. cbn [imap].
  rewrite !filter_cons, (Hfg 0%nat x eq_refl).
  assert (E : Zlength (filter (λ x, P x = true) (imap (f ∘ S) l)) =
              Zlength (filter (λ x, Q x = true) (imap (g ∘ S) l)))
    by (apply IH; intros i y Hy; by apply (Hfg (S i))).
  destruct (decide _); rewrite ?Zlength_cons; by rewrite E.
Qed.

Section Lemmas.
Context {F : Type} `{FloatOps F} (to_double : F → spec_float) (log2 : spec_float → spec_float).
Context (config : AnalysisConfig) (kernels : gmap string Z) (max_threads : Z).
Context (m : metal (F := F)) (call_of : nat → nat).
Hypothesis (Hkernel : kernels !! kernel_name = Some max_threads) (Hthreads : 1 ≤ max_threads).
Hypothesis (Hreach : metal_reachable kernels m).

Lemma metal_contract i :
  DispatchContract max_threads
    (λ payloads, if decide (j_payloads <$> jobs m !! call_of i = Some payloads)
                 then Some (call_for m call_of i) else None)
    call_answer.
Proof.
  apply (histories_dispatch kernels); [done|done|]. intros payloads c E.
  case_decide as Hp; [|done]. by injection E as <-.
Qed.

(** What [analyze_batch] gets from the backend of a batch. *)
Lemma metal_batch i batch :
  filter (eligible config) batch ≠ [] →
  j_payloads <$> jobs m !! call_of i = Some (eligible_payloads config batch) →
  addressable (eligible_payloads config batch) →
  used_values log2 (metal_backend to_double m call_of i) (filter (eligible config) batch) =
    dispatch_values to_double log2 config max_threads m call_of i batch ∧
  failed_batch config (batch, metal_backend to_double m call_of i) = unanswered config m call_of (i, batch).
Proof.
  intros Hne Hj Ha. pose proof (metal_contract i) as Hc.
  destruct (gpu_used_values log2 to_double max_threads _ call_answer (filter (eligible config) batch) Ha)
    as [E1 E2].
  assert (E : compute (metal_backend to_double m call_of i) (filter (eligible config) batch) =
              (λ values : list F, to_double <$> values) <$> call_answer (call_for m call_of i))
    by (unfold compute; cbn; by rewrite decide_True).
  fold (metal_backend to_double m call_of i) in E1, E2. rewrite E in E1, E2.
  unfold dispatch_values, failed_batch, unanswered. cbn [fst snd]. split.
  - rewrite E2. by destruct (call_answer _).
  - destruct (filter (eligible config) batch) as [|p ps]; [done|]. rewrite E1.
    by destruct (call_answer _).
Qed.

Lemma metal_entropy_alerts batches :
  dispatched_batches config m call_of batches →
  imap (λ i batch, backend_entropy_alerts log2 config (metal_backend to_double m call_of i) batch) batches =
  imap (dispatch_alerts to_double log2 config max_threads m call_of) batches.
Proof.
  intros Hd. apply imap_ext. intros i batch Hi. unfold backend_entropy_alerts, dispatch_alerts.
  assert (Hcase : filter (eligible config) batch = [] ∨ filter (eligible config) batch ≠ [])
    by (destruct (filter _ batch); auto).
  destruct Hcase as [->|Hne]; [done|]. destruct (Hd i batch Hi Hne) as [Hj Ha].
  by destruct (metal_batch i batch Hne Hj Ha) as [-> _].
Qed.

Lemma metal_failed batches :
  dispatched_batches config m call_of batches →
  failed_batches config (metal_backend to_double m call_of) batches =
  unanswered_batches config m call_of batches.
Proof.
  intros Hd. unfold failed_batches, unanswered_batches. apply count_imap. intros i batch Hi.
  assert (Hcase : filter (eligible config) batch = [] ∨ filter (eligible config) batch ≠ [])
    by (destruct (filter _ batch); auto).
  destruct Hcase as [E|Hne]; [unfold failed_batch, unanswered; cbn [fst snd]; by rewrite E|].
  destruct (Hd i batch Hi Hne) as [Hj Ha]. by apply metal_batch.
Qed.

End Lemmas.

(** The name of the backend in the warning. *)
Lemma warning_name {F} `{FloatOps F} (ctx : MetalContext (F := F)) rest :
  (" batch(es) fell back to CPU entropy after a " +:+ engine_backend_name (Some ctx) +:+ " failure" +:+ rest =
   " batch(es) fell back to CPU entropy after a gpu (" +:+ device_name ctx +:+ ") failure" +:+ rest)%string.
Proof. cbn [engine_backend_name]. unfold backend_name. by rewrite !str_app_assoc. Qed.

(** ** Property *)

(** C7. A session with [-g]: for every command line on which the program starts
    with a Metal context, every execution of its threads, every history of that
    context in which the batches with eligible packets are dispatched, in any
    interleaving with the device and with each other, the summary reports all
    delivered packets as captured and as processed and the signature matches of
    the packets; the entropy alerts it counts are those of the kernel's values for
    the payloads of each batch, in order, and of the CPU's where a dispatch failed;
    and it warns of the failed dispatches, with their number and the name of the
    device, exactly when there are some. *)
Theorem gpu_session {F} `{FloatOps F} to_double hash32 iter log2 (env : environment unit) args r ctx max_threads
    (m : metal (F := F)) call_of packets s calls alerts finished seconds capture_seconds :
  let o := run_options unit r in
  let config := analysis_config o in
  let counters := print_all (quiet o) alerts counters_zero in
  let backends := metal_backend to_double m call_of in
  let failed := unanswered_batches config m call_of (analyzed s) in
  is_uint 32 (env_cores unit env) → start_main unit env args = Startup.Running unit r →
  run_gpu unit r = Some ctx → pipelines (impl ctx) !! kernel_name = Some max_threads → 1 ≤ max_threads →
  rtc metal_step (impl ctx) m → dispatched_batches config m call_of (analyzed s) →
  Zlength packets < 2 ^ 64 → delivered finished = Zlength packets →
  reachable (pool_of o) (queue_capacity o) packets s → main s = MEnd →
  interleaves (analyzed s) calls →
  alerts ≡ₚ concat (session_alerts hash32 iter log2 config SignatureDatabase_new backends
                      (FlowTracker_new (flow config)) (analyzed s) calls) →
  ∃ first_line third_line,
    summary o (delivered finished) s counters seconds capture_seconds
      (session_fallbacks config backends (analyzed s)) (engine_backend_name (Some ctx)) =
    ["done — " +:+ fmt_lld (Zlength packets) +:+ " packet(s) captured, " +:+
     fmt_u (Zlength packets) +:+ " processed, " +:+ first_line;
     "alerts by type: port_scan=" +:+ fmt_u (g_alerts_by_type counters kPortScan) +:+
     " syn_flood=" +:+ fmt_u (g_alerts_by_type counters kSynFlood) +:+
     " high_entropy=" +:+ fmt_u (wrap 64 (Zlength (concat
       (imap (dispatch_alerts to_double log2 config max_threads m call_of) (analyzed s))))) +:+
     " signature=" +:+ fmt_u (wrap 64 (Zlength (concat (signature_alerts SignatureDatabase_new <$> packets)))) +:+
     newline;
     third_line] ++
    (if decide (failed = 0) then []
     else ["warning: " +:+ fmt_u failed +:+ " batch(es) fell back to CPU entropy after a gpu (" +:+
           device_name ctx +:+ ") failure" +:+ newline])%string.
Proof.
  intros o config counters backends failed Hc Hstart Hgpu Hk Hm Hhist Hdisp Hlen Hdel Hreach Hend Hint Hal.
  assert (Hr : metal_reachable (pipelines (impl ctx)) m).
  { eapply history_reachable; [|exact Hhist]. rewrite (gpu_context_fresh unit env args r ctx Hstart Hgpu).
    constructor. }
  destruct (backend_summary hash32 iter log2 env args r backends packets s calls alerts finished seconds
    capture_seconds (engine_backend_name (Some ctx)) Hc Hstart Hlen Hdel Hreach Hend Hint Hal)
    as (first_line & third_line & E).
  exists first_line, third_line. etransitivity; [exact E|]. unfold failed, backends. fold o config.
  rewrite (metal_entropy_alerts to_double log2 config _ max_threads m call_of Hk Hm Hr _ Hdisp).
  rewrite (metal_failed to_double log2 config _ max_threads m call_of Hk Hm Hr _ Hdisp).
  by rewrite warning_name.
Qed.

(** *** Witness *)

(** The replay of [System] with [-g]: the batch of two packets is the second call
    of the context, and the first call ends after it has started. *)
Definition gpu_env : environment unit :=
  mk_environment unit "netsentinel" 8 (inr ["en0"]) (λ _, inr "permission denied"%string)
    (λ _, inl (tt, DLT_EN10MB)) true (Some (Some "M1"%string)) true (mk_compilation true true (Some 4) None).

Definition gpu_command : list string := replay_command ++ ["-g"%string].

Definition gpu_running : running (F := spec_float) unit :=
  match start_main unit gpu_env gpu_command with
  | Startup.Running _ r => r
  | Exit _ _ _ _ => mk_running unit (options_default 8) (Capture_new unit) None ""
  end.

Definition gpu_context : MetalContext (F := spec_float) :=
  default (MetalContext_new None false) (run_gpu unit gpu_running).

Definition gpu_history : list metal_action :=
  let payloads := match analyzed replay_end !! 1%nat with
                  | Some batch => eligible_payloads AnalysisConfig_default batch
                  | None => []
                  end in
  [ASubmit [[7; 7]]; AEnsure 0; ASubmit payloads; AEnsure 1; AFill 1; AFill 0; ACommit 1; ACommit 0;
   AGpu 1; AWait 1; AGpu 0; ADestroy 1; AWait 0].

Definition gpu_end : metal (F := spec_float) :=
  default (impl gpu_context) (metal_play gpu_history (impl gpu_context)).

Definition gpu_alerts : list Alert :=
  concat (session_alerts id_hash map_keys log2_powers AnalysisConfig_default SignatureDatabase_new
            (metal_backend widen gpu_end (λ _, 1%nat)) (FlowTracker_new FlowTrackerConfig_default)
            (analyzed replay_end) replay_calls).

Lemma metal_play_rtc {F} `{FloatOps F} actions (s s' : metal (F := F)) :
  metal_play actions s = Some s' → rtc metal_step s s'.
Proof.
  revert s. induction actions as [|a actions IH]; intros s; cbn [metal_play]; [by intros [= ->]|].
  intros (s1 & Ha%metal_act_step & Hp)%bind_Some. eapply rtc_l; [done|by apply IH].
Qed.

Lemma gpu_end_reached : rtc metal_step (impl gpu_context) gpu_end.
Proof.
  unfold gpu_end. destruct (metal_play gpu_history (impl gpu_context)) as [s|] eqn:E; [|done].
  by apply (metal_play_rtc gpu_history).
Qed.

Lemma gpu_dispatched : dispatched_batches AnalysisConfig_default gpu_end (λ _, 1%nat) (analyzed replay_end).
Proof.
  intros i batch Hi Hne.
  assert (E : (filter (eligible AnalysisConfig_default) <$> analyzed replay_end) !! 0%nat = Some [] ∧
    length (analyzed replay_end) = 2%nat) by (split; by vm_compute).
  destruct E as [E0 El]. pose proof (lookup_lt_Some _ _ _ Hi) as Hlt. rewrite El in Hlt.
  destruct i as [|[|i]]; [|clear Hne|lia].
  - rewrite list_lookup_fmap, Hi in E0. injection E0 as E0. destruct (Hne E0).
  - assert (Hb : batch = default [] (analyzed replay_end !! 1%nat)) by by rewrite Hi.
    rewrite Hb. clear Hi Hlt El E0 Hb.
    assert (E : eligible_payloads AnalysisConfig_default (default [] (analyzed replay_end !! 1%nat)) =
      [string_bytes kEicarTestString; Z.of_nat <$> seq 0 128]) by (vm_compute; reflexivity).
    rewrite E. split; [vm_compute; reflexivity|]. split; [by vm_compute|].
    repeat constructor; by vm_compute.
Qed.

Lemma gpu_session_witness :
  ∃ first_line third_line,
    summary (run_options unit gpu_running) 3 replay_end (print_all true gpu_alerts counters_zero)
      (b64_of_uint 1) (b64_of_uint 1)
      (session_fallbacks AnalysisConfig_default (metal_backend widen gpu_end (λ _, 1%nat)) (analyzed replay_end))
      "gpu (M1)" =
    ["done — 3 packet(s) captured, 3 processed, " +:+ first_line;
     "alerts by type: port_scan=0 syn_flood=0 high_entropy=1 signature=1" +:+ newline;
     third_line]%string.
Proof.
  destruct (gpu_session widen id_hash map_keys log2_powers gpu_env gpu_command gpu_running gpu_context 4
    gpu_end (λ _, 1%nat) replay_trace replay_end replay_calls gpu_alerts all_delivered (b64_of_uint 1) (b64_of_uint 1))
    as (first_line & third_line & E); cycle -1.
  - exists first_line, third_line. etransitivity; [|etransitivity; [exact E|]].
    + reflexivity.
    + vm_compute. reflexivity.
  - by_decide.
  - vm_compute. reflexivity.
  - by vm_compute.
  - by vm_compute.
  - lia.
  - exact gpu_end_reached.
  - exact gpu_dispatched.
  - by_decide.
  - by vm_compute.
  - apply (play_reachable small_pool 4 replay_trace replay_schedule). by vm_compute.
  - by vm_compute.
  - exact replay_interleaved.
  - by vm_compute.
Defined.
