(* ===== verification/Bench.v ===== *)
(** * What the benchmarks share ([src/bench/])

    The median of the measured times, the parser of a numeric option and the
    loop that cuts a vector into batches. *)
From Stdlib Require Import Floats.SpecFloat.
From stdpp Require Import sorting.
From S2P Require Import Prelude Fmt Scan Entropy Main.

(** ** [median] *)

(** [operator<] on doubles orders the vector; a NaN is below nothing. *)
Definition double_le (x y : spec_float) : Prop := SFltb y x = false.

#[export] Instance double_le_dec x y : Decision (double_le x y).
Proof. unfold double_le. apply _. Defined.

(** [v[i]] outside the vector is [None], as is the [v[n / 2 - 1]] of an empty
    one. *)
Definition median (v : list spec_float) : option spec_float :=
  let sorted := merge_sort double_le v in
  let n := length sorted in
  if Nat.odd n then sorted !! (n / 2)%nat
  else
    a ← sorted !! (n / 2 - 1)%nat;
    b ← sorted !! (n / 2)%nat;
    Some (SFdiv 53 1024 (SFadd 53 1024 a b) (b64_of_uint 2)).

(** ** [parse_count]

    [min] is 0 in [bench_capture.cpp] and 1 in [bench_analysis.cpp].  [strtol] is
    [strtoll] where [long] has 64 bits; its [ERANGE] is not looked at. *)
Definition parse_count_from (min : Z) (text : string) (max : Z) : option Z :=
  let '(value, rest, _) := strtoll text in
  match rest with
  | None => None
  | Some rest =>
      if negb (bool_decide (rest = "")) || (value <? min) || (max <? value) then None else Some value
  end.

(** [!arg.empty() && arg[0] != '-' && path.empty()]. *)
Definition is_path (arg path : string) : bool :=
  match arg with
  | EmptyString => false
  | String c _ => negb (bool_decide (c = "-"%char)) && bool_decide (path = "")
  end.

(** ** Batches of a vector *)

(** [packets[begin .. end)]. *)
Definition range {A} (l : list A) (begin finish : Z) : list A :=
  take (Z.to_nat (finish - begin)) (drop (Z.to_nat begin) l).

(** Where batch [b] begins and ends. *)
Definition batch_begin (batch_size b : Z) : Z := wrap 64 (b * batch_size).
Definition batch_end (n batch_size b : Z) : Z :=
  std_min (wrap 64 (batch_begin batch_size b + batch_size)) n.

(** ** How a benchmark ends *)

(** What is printed, in order, and the exit code. *)
Record ended : Type := mk_ended { out : list string; err : list string; code : Z }.

(** [g_sink.load() == 0xdeadbeef ? 1 : 0]. *)
Definition bench_exit (g_sink : Z) : Z := if g_sink =? 0xdeadbeef then 1 else 0.

(** The message for a capture file that does not open. *)
Definition cannot_open (path error : string) : string :=
  ("cannot open " +:+ path +:+ ": " +:+ error +:+ newline)%string.

(** ** Lemmas *)

Lemma median_defined v : v ≠ [] → is_Some (median v).
Proof.
  intros Hv. unfold median. set (l := merge_sort double_le v).
  assert (Hl : (0 < length l)%nat).
  { unfold l. rewrite merge_sort_Permutation. destruct v; [done|cbn; lia]. }
  assert (Hhalf : (length l / 2 < length l)%nat) by (apply Nat.div_lt; lia).
  destruct (lookup_lt_is_Some_2 l (length l / 2)) as [b Hb]; [done|].
  destruct (lookup_lt_is_Some_2 l (length l / 2 - 1)) as [a Ha]; [lia|].
  rewrite Ha, Hb. by destruct (Nat.odd _).
Qed.

Lemma parse_count_range min text max v : parse_count_from min text max = Some v → min ≤ v ≤ max.
Proof.
  unfold parse_count_from. destruct (strtoll text) as [[value [rest|]] e]; [|done].
  destruct (negb _ || _ || _) eqn:E; [done|]. intros [= <-].
  apply orb_false_iff in E as [[_ E1]%orb_false_iff E2]. apply Z.ltb_ge in E1, E2. lia.
Qed.

Lemma range_app {A} (l : list A) a b c :
  0 ≤ a ≤ b → b ≤ c → range l a b ++ range l b c = range l a c.
Proof.
  intros [Ha Hab] Hbc. unfold range.
  replace (Z.to_nat (c - a)) with (Z.to_nat (b - a) + Z.to_nat (c - b))%nat by lia.
  rewrite <- take_take_drop, drop_drop. do 4 f_equal. lia.
Qed.

Lemma range_full {A} (l : list A) : range l 0 (Zlength l) = l.
Proof. unfold range, Zlength. rewrite Z.sub_0_r, drop_0. apply take_ge. lia. Qed.

Lemma range_incl {A} (l : list A) a b : range l a b ⊆ l.
Proof. etrans; [apply subseteq_take|apply subseteq_drop]. Qed.

Lemma range_nil {A} (l : list A) a b : b ≤ a → range l a b = [].
Proof. intros H. unfold range. by replace (Z.to_nat (b - a)) with 0%nat by lia. Qed.

Lemma range_past {A} (l : list A) a b : Zlength l ≤ a → range l a b = [].
Proof. intros H. unfold range, Zlength in *. rewrite drop_ge by lia. by rewrite take_nil. Qed.

Lemma Zlength_range {A} (l : list A) a b :
  0 ≤ a ≤ b → b ≤ Zlength l → Zlength (range l a b) = b - a.
Proof. intros [Ha Hab] Hb. unfold range, Zlength in *. rewrite length_take, length_drop. lia. Qed.

Lemma range_lookup {A} (l : list A) a b k :
  0 ≤ a → a + Z.of_nat k < b → range l a b !! k = l !! Z.to_nat (a + Z.of_nat k).
Proof.
  intros Ha Hk. unfold range. rewrite lookup_take_lt by lia. rewrite lookup_drop. f_equal. lia.
Qed.

Lemma range_snoc {A} (l : list A) a b x :
  0 ≤ a ≤ b → l !! Z.to_nat b = Some x → range l a (b + 1) = range l a b ++ [x].
Proof.
  intros Hab Hx. rewrite <- (range_app l a b (b + 1)) by lia. f_equal.
  unfold range. replace (Z.to_nat (b + 1 - b)) with 1%nat by lia. by rewrite (drop_S _ x).
Qed.

Lemma elem_of_concat {A} (x : A) (ls : list (list A)) : x ∈ concat ls ↔ ∃ l, x ∈ l ∧ l ∈ ls.
Proof.
  induction ls as [|l ls IH]; cbn [concat].
  - split; [by intros ?%not_elem_of_nil|by intros (l & _ & ?%not_elem_of_nil)].
  - rewrite elem_of_app, IH. split.
    + intros [H|(k & Hk & Hin)]; [exists l|exists k]; (split; [done|]); [by left|by right].
    + intros (k & Hk & [->|Hin]%elem_of_cons); [by left|right; by exists k].
Qed.
