(* ===== verification/BenchCapture.v ===== *)
(** * The capture-side benchmark ([src/bench/bench_capture.cpp])

    Each stage reads the capture file with one thread and does one thing more
    with every packet than the stage before it; the last two push the packets on
    a [PacketQueue] that worker threads drain.  The reading thread is the
    producer of [Pipeline] and, after the loop, its main thread; the workers pop
    batches and only count them.  The clock is not modelled: the seconds of a
    run are an argument of the report. *)
From Stdlib Require Import Floats.SpecFloat.
From S2P Require Import Prelude Packet Parser Capture PacketQueue Pipeline PipelineSpec PipelineProgress.
From S2P Require Import Entropy Main Bench.

(** ** Options *)

Inductive Stage : Type := kRead | kDecode | kCopy | kAllocate | kQueue | kQueueNoPayload.

#[export] Instance Stage_eq_dec : EqDecision Stage.
Proof. solve_decision. Defined.

Record bench_options : Type := mk_bench_options {
  bc_path : string;
  bc_workers : Z;
  bc_batch : Z;
  bc_linger_us : Z;
  bc_capacity : Z;
  bc_reps : Z
}.

(** [cores]: [std::thread::hardware_concurrency()]. *)
Definition bench_options_default (cores : Z) : bench_options :=
  mk_bench_options "" (if 1 <? cores then cores - 1 else 1) 256 2000 4096 5.

Definition parse_count (text : string) (max : Z) : option Z := parse_count_from 0 text max.

(** [!parse_count(...) || value == 0] is a failure. *)
Definition parse_positive (text : string) (max : Z) : option Z :=
  match parse_count text max with
  | Some value => if value =? 0 then None else Some value
  | None => None
  end.

(** The options that take a value. *)
Definition bench_value_option (flag : string) (o : bench_options)
    : option (string → option bench_options) :=
  let '(mk_bench_options path workers batch linger capacity reps) := o in
  if bool_decide (flag = "-w") then Some (λ v, w ← parse_positive v 256;
    Some (mk_bench_options path w batch linger capacity reps))
  else if bool_decide (flag = "-b") then Some (λ v, b ← parse_positive v (2 ^ 20);
    Some (mk_bench_options path workers b linger capacity reps))
  else if bool_decide (flag = "-L") then Some (λ v, l ← parse_count v 1000000;
    Some (mk_bench_options path workers batch l capacity reps))
  else if bool_decide (flag = "-q") then Some (λ v, q ← parse_positive v (2 ^ 24);
    Some (mk_bench_options path workers batch linger q reps))
  else if bool_decide (flag = "--reps") then Some (λ v, r ← parse_positive v 1000;
    Some (mk_bench_options path workers batch linger capacity r))
  else None.

Definition set_path (v : string) (o : bench_options) : bench_options :=
  mk_bench_options v (bc_workers o) (bc_batch o) (bc_linger_us o) (bc_capacity o) (bc_reps o).

(** The loop over [argv]; [None] is [EXIT_FAILURE]. *)
Fixpoint parse_bench_args (args : list string) (o : bench_options) : option bench_options :=
  match args with
  | [] => Some o
  | arg :: rest =>
      match bench_value_option arg o, rest with
      | Some set, v :: rest' =>
          match set v with Some o => parse_bench_args rest' o | None => None end
      | _, _ =>
          if is_path arg (bc_path o) then parse_bench_args rest (set_path arg o) else None
      end
  end.

Definition bench_options_of (cores : Z) (args : list string) : option bench_options :=
  match parse_bench_args args (bench_options_default cores) with
  | Some o => if bool_decide (bc_path o = "") then None else Some o
  | None => None
  end.

(** ** One run of a stage *)

Definition queued_stage (stage : Stage) : bool :=
  match stage with kQueue | kQueueNoPayload => true | _ => false end.

(** The variables of the loop: [reused], [sink], [packets], and the packets
    pushed on the queue. *)
Record stage_state : Type := mk_stage_state {
  reused : list Z;
  sink : Z;
  packets : Z;
  to_push : list QueuedPacket
}.

Definition stage_start : stage_state := mk_stage_state (replicate (Z.to_nat 65536) 0) 0 0 [].

(** [sink += n]. *)
Definition add_sink (n : Z) (s : stage_state) : stage_state :=
  mk_stage_state (reused s) (wrap 64 (sink s + n)) (packets s) (to_push s).
Definition count_packet (s : stage_state) : stage_state :=
  mk_stage_state (reused s) (sink s) (wrap 64 (packets s + 1)) (to_push s).
Definition set_reused (l : list Z) (s : stage_state) : stage_state :=
  mk_stage_state l (sink s) (packets s) (to_push s).
Definition push_later (p : QueuedPacket) (s : stage_state) : stage_state :=
  mk_stage_state (reused s) (sink s) (packets s) (to_push s ++ [p]).

(** [memcpy(reused.data(), parsed->payload, n)] with the bytes read one by one
    from the captured buffer; the destination has room for [n]. *)
Definition copy_payload (buf : list Z) (parsed : ParsedPacket) (dst : list Z) : access (list Z) :=
  if 0 <? payload_length parsed then
    let n := Z.to_nat (std_min (payload_length parsed) (Zlength dst)) in
    match payload parsed with
    | Some off => bytes ← read_bytes buf off n; Ok (bytes ++ drop n dst)
    | None => OutOfBounds 0
    end
  else Ok dst.

(** The [switch], for a packet the parser accepted. *)
Definition stage_packet (stage : Stage) (buf : list Z) (parsed : ParsedPacket) (s : stage_state)
    : access stage_state :=
  match stage with
  | kRead => Ok s
  | kDecode => Ok (add_sink (payload_length parsed + dst_port parsed) s)
  | kCopy =>
      dst ← copy_payload buf parsed (reused s);
      Ok (add_sink (default 0 (dst !! 0%nat)) (set_reused dst s))
  | kAllocate => Ok (add_sink (payload_size (make_queued_packet buf parsed)) s)
  | kQueue => Ok (push_later (make_queued_packet buf parsed) s)
  | kQueueNoPayload => Ok (push_later (mk_QueuedPacket (set_payload None 0 parsed) []) s)
  end.

(** The loop over the packets [pcap_next_ex] returns. *)
Fixpoint read_loop (stage : Stage) (frames : list frame) (s : stage_state) : access stage_state :=
  match frames with
  | [] => Ok s
  | f :: rest =>
      match stage with
      | kRead => read_loop stage rest (count_packet (add_sink (fr_caplen f) s))
      | _ =>
          parsed ← parse_frame f;
          match parsed with
          | None => read_loop stage rest s
          | Some p =>
              s ← stage_packet stage (fr_data f) p (count_packet s);
              read_loop stage rest s
          end
      end
  end.

Record Result : Type := mk_Result {
  result_packets : Z;
  avg_batch : spec_float
}.

(** After the workers are joined; [None] is the exit with [EXIT_FAILURE]. *)
Definition finish_stage (stage : Stage) (s : stage_state) (consumed batches : Z) : option Result :=
  if queued_stage stage then
    if negb (consumed =? packets s) then None
    else Some (mk_Result (packets s)
      (if 0 <? batches then SFdiv 53 1024 (b64_of_uint (packets s)) (b64_of_uint batches)
       else b64_of_uint 0))
  else Some (mk_Result (packets s) (b64_of_uint 0)).

(** The threads of a queued stage. *)
Definition stage_pool (o : bench_options) : pool_config :=
  mk_pool_config (bc_workers o) (bc_batch o) (bc_linger_us o).

(** A run of a stage on a file, with the outcome it ends in. *)
Inductive run_stage (stage : Stage) (o : bench_options) (frames : list frame)
    : option Result → Prop :=
  | run_stage_alone s :
      queued_stage stage = false → read_loop stage frames stage_start = Ok s →
      run_stage stage o frames (finish_stage stage s 0 0)
  | run_stage_queued s q :
      queued_stage stage = true → read_loop stage frames stage_start = Ok s →
      reachable (stage_pool o) (bc_capacity o) (to_push s) q → main q = MEnd →
      run_stage stage o frames (finish_stage stage s (processed_ q) (batches_ q)).

(** ** The report *)

Definition stages : list (Stage * string) :=
  [(kRead, "read"); (kDecode, "+ decode"); (kCopy, "+ copy (reused buffer)");
   (kAllocate, "+ allocate (heap per packet)"); (kQueue, "+ queue (to workers)");
   (kQueueNoPayload, "queue, payload not copied")].

Definition kStages : nat := length stages.
Definition kCumulative : nat := kStages - 1.

(** What the repetitions leave behind. *)
Record measurements : Type := mk_measurements {
  m_seconds : list (list spec_float);
  m_avg_batches : list spec_float;
  m_packets : list Z
}.

Definition no_measurements : measurements :=
  mk_measurements (replicate kStages []) [] (replicate kStages 0).

Definition record_run (s : nat) (stage : Stage) (seconds : spec_float) (r : Result) (m : measurements)
    : measurements :=
  mk_measurements (alter (λ l, l ++ [seconds]) s (m_seconds m))
    (if bool_decide (stage = kQueue) then m_avg_batches m ++ [avg_batch r] else m_avg_batches m)
    (<[s := result_packets r]> (m_packets m)).

Section Report.
(** The seconds and the result of the run of stage [s] in repetition [rep]. *)
Context (timed : nat → nat → spec_float * Result).

Definition measure_rep (rep : nat) (m : measurements) : measurements :=
  foldl (λ m x, let '(s, stage) := x in
         record_run s stage (timed rep s).1 (timed rep s).2 m)
    m (imap (λ s x, (s, x.1)) stages).

Definition measure_all (reps : Z) : measurements :=
  foldl (λ m rep, measure_rep rep m) no_measurements (seq 0 (Z.to_nat reps)).

End Report.

(** A line of the table: packets per second, nanoseconds per packet and, for the
    cumulative stages after the first, the step. *)
Record row : Type := mk_row {
  row_name : string;
  row_pps : spec_float;
  row_ns : spec_float;
  row_step : option spec_float
}.

Fixpoint table_rows (s : nat) (l : list (Stage * string)) (m : measurements) (previous_ns : spec_float)
    : option (list row) :=
  match l with
  | [] => Some []
  | (_, name) :: rest =>
      samples ← m_seconds m !! s;
      count ← m_packets m !! s;
      sec ← median samples;
      let pps := SFdiv 53 1024 (b64_of_uint count) sec in
      let ns := SFdiv 53 1024 (b64_of_uint 1000000000) pps in
      let step := if (0 <? s)%nat && (s <? kCumulative)%nat
                  then Some (SFsub 53 1024 ns previous_ns) else None in
      rows ← table_rows (S s) rest m ns;
      Some (mk_row name pps ns step :: rows)
  end.

(** The table, and the line below it: packets read, packets decoded, average
    batch. *)
Definition report (m : measurements) : option (list row * (Z * Z * spec_float)) :=
  rows ← table_rows 0 stages m (b64_of_uint 0);
  read ← m_packets m !! 0%nat;
  decoded ← m_packets m !! (kCumulative - 1)%nat;
  batch ← median (m_avg_batches m);
  Some (rows, (read, decoded, batch)).

(** ** Lemmas *)

(** What a stage counts and what it pushes. *)
Definition counted (stage : Stage) (frames : list frame) : Z :=
  if decide (stage = kRead) then Zlength frames else Zlength (omap parse_result frames).

Definition pushed_by (stage : Stage) (x : list Z * ParsedPacket) : list QueuedPacket :=
  match stage with
  | kQueue => [make_queued_packet x.1 x.2]
  | kQueueNoPayload => [mk_QueuedPacket (set_payload None 0 x.2) []]
  | _ => []
  end.

Lemma copy_payload_ok f p dst :
  frame_ok f → parse_frame f = Ok (Some p) →
  ∃ dst', copy_payload (fr_data f) p dst = Ok dst' ∧ length dst' = length dst.
Proof.
  intros [Hb Hc] Hp. unfold copy_payload.
  pose proof (parse_packet_wp (fr_data f) (fr_caplen f) Hb Hc (fr_len f) (fr_ts f)) as W.
  unfold parse_frame in Hp. rewrite Hp in W. destruct W as (_ & [Hin _ _]). unfold payload_in in Hin.
  destruct (Z.ltb_spec 0 (payload_length p)); [|by exists dst].
  destruct (payload p) as [off|]; [|lia]. destruct Hin as (H1 & H2 & H3).
  set (n := Z.to_nat (std_min (payload_length p) (Zlength dst))).
  assert (Hn : (Z.of_nat n ≤ payload_length p) ∧ (n ≤ length dst)%nat)
    by (unfold n, std_min, Zlength; lia).
  destruct (wp_Ok _ _ (read_bytes_wp (fr_data f) off n Hb ltac:(lia) ltac:(lia))) as (l & -> & _ & Hl).
  eexists. split; [done|]. rewrite length_app, length_drop. lia.
Qed.

Lemma stage_packet_ok stage f p s :
  frame_ok f → parse_frame f = Ok (Some p) → stage ≠ kRead →
  ∃ s', stage_packet stage (fr_data f) p s = Ok s' ∧ packets s' = packets s ∧
    length (reused s') = length (reused s) ∧
    to_push s' = to_push s ++ pushed_by stage (fr_data f, p).
Proof.
  intros Hok Hp Hs. destruct stage; try done; cbn [stage_packet pushed_by fst snd];
    try (eexists; split; [done|]; cbn; by rewrite ?app_nil_r).
  destruct (copy_payload_ok f p (reused s) Hok Hp) as (dst & -> & Hl).
  eexists. split; [done|]. cbn. by rewrite app_nil_r.
Qed.

Lemma read_loop_ok stage frames s :
  Forall frame_ok frames → is_uint 64 (packets s) →
  ∃ s', read_loop stage frames s = Ok s' ∧
    packets s' = wrap 64 (packets s + counted stage frames) ∧
    length (reused s') = length (reused s) ∧
    to_push s' = to_push s ++ concat (pushed_by stage <$> omap parse_result frames).
Proof.
  intros Hok. revert s. induction Hok as [|f rest Hf _ IH]; intros s Hs.
  - exists s. split; [by destruct stage|].
    assert (E : counted stage [] = 0) by (unfold counted; by case_decide). rewrite E, Z.add_0_r.
    by rewrite wrap_small, app_nil_r by done.
  - destruct (decide (stage = kRead)) as [->|Hne].
    + destruct (IH (count_packet (add_sink (fr_caplen f) s))) as (s' & A & B & C & D); [by apply wrap_range|].
      exists s'. split; [exact A|]. split_and!; [|exact C|].
      * rewrite B. cbn [count_packet packets add_sink]. rewrite wrap_add_l. unfold counted.
        rewrite !decide_True by done. rewrite Zlength_cons. f_equal. lia.
      * rewrite D. cbn [to_push count_packet add_sink]. f_equal.
        assert (E : ∀ l : list (list Z * ParsedPacket), concat (pushed_by kRead <$> l) = [])
          by (intros l; induction l; [done|by rewrite fmap_cons]).
        by rewrite !E.
    + destruct (parse_frame_ok f Hf) as [r Hr].
      assert (E : read_loop stage (f :: rest) s =
        match r with
        | None => read_loop stage rest s
        | Some p => s ← stage_packet stage (fr_data f) p (count_packet s); read_loop stage rest s
        end) by (destruct stage; try done; cbn [read_loop]; by rewrite Hr).
      rewrite E. cbn [omap list_omap]. unfold parse_result at 1. unfold counted.
      rewrite decide_False by done. cbn [omap list_omap]. unfold parse_result at 1. rewrite Hr.
      destruct r as [p|].
      * destruct (stage_packet_ok stage f p (count_packet s) Hf Hr Hne) as (s1 & -> & P & L & Q).
        destruct (IH s1) as (s' & A & B & C & D); [rewrite P; by apply wrap_range|].
        exists s'. split; [exact A|]. split_and!.
        -- rewrite B, P. cbn [count_packet packets]. rewrite wrap_add_l, Zlength_cons. unfold counted.
           rewrite decide_False by done. f_equal. lia.
        -- by rewrite C, L.
        -- rewrite D, Q. cbn [count_packet to_push]. rewrite fmap_cons. cbn [concat].
           by rewrite app_assoc.
      * destruct (IH s Hs) as (s' & A & B & C & D). exists s'. split_and!; try done.
        rewrite B. unfold counted. by rewrite decide_False.
Qed.

(** A queued stage pushes one packet per packet counted. *)
Lemma pushed_count stage frames :
  queued_stage stage = true →
  Zlength (concat (pushed_by stage <$> omap parse_result frames)) = counted stage frames.
Proof.
  intros Hq. unfold counted. rewrite decide_False by by intros ->.
  induction (omap parse_result frames) as [|x l IH]; [done|].
  rewrite fmap_cons. cbn [concat]. rewrite Zlength_app, Zlength_cons, IH. by destruct stage.
Qed.

Lemma counted_bounds stage frames : 0 ≤ counted stage frames ≤ Zlength frames.
Proof.
  unfold counted. case_decide; [unfold Zlength; lia|].
  assert (∀ l, (length (omap parse_result l) ≤ length l)%nat).
  { intros l. induction l as [|x l IH]; cbn; [lia|]. destruct (parse_result x); cbn; lia. }
  unfold Zlength. specialize (H0 frames). lia.
Qed.

(** What the option parser maintains. *)
Record bench_options_ok (o : bench_options) : Prop := {
  bo_workers : 1 ≤ bc_workers o < 2 ^ 32;
  bo_batch : 1 ≤ bc_batch o ≤ 2 ^ 20;
  bo_capacity : 1 ≤ bc_capacity o ≤ 2 ^ 24;
  bo_linger : 0 ≤ bc_linger_us o ≤ 1000000;
  bo_reps : 1 ≤ bc_reps o ≤ 1000
}.

Lemma parse_positive_range text max v : parse_positive text max = Some v → 1 ≤ v ≤ max.
Proof.
  unfold parse_positive. destruct (parse_count text max) as [n|] eqn:E; [|done].
  apply parse_count_range in E. destruct (Z.eqb_spec n 0); [done|]. intros [= <-]. lia.
Qed.

Lemma bench_value_option_ok flag o set v o' :
  bench_options_ok o → bench_value_option flag o = Some set → set v = Some o' → bench_options_ok o'.
Proof.
  intros [H1 H2 H3 H4 H5]. destruct o as [path w b l q r]. unfold bench_value_option.
  repeat (case_bool_decide;
    [intros [= <-] (n & Hn & [= <-])%bind_Some;
     first [apply parse_positive_range in Hn|apply parse_count_range in Hn];
     split; cbn in *; lia|]).
  done.
Qed.

Lemma parse_bench_args_ok args o o' :
  bench_options_ok o → parse_bench_args args o = Some o' → bench_options_ok o'.
Proof.
  assert (Hpath : ∀ v o, bench_options_ok o → bench_options_ok (set_path v o))
    by (intros v ? [? ? ? ? ?]; by split).
  enough (H : (∀ o, bench_options_ok o → parse_bench_args args o = Some o' → bench_options_ok o') ∧
              (∀ arg o, bench_options_ok o → parse_bench_args (arg :: args) o = Some o' →
                 bench_options_ok o'))
    by (intros; by eapply (proj1 H)).
  clear o. induction args as [|v args [IH1 IH2]].
  - split; cbn [parse_bench_args]; [by intros o H [= <-]|].
    intros arg o H. destruct (bench_value_option arg o);
      (destruct (is_path arg (bc_path o)); [|done]; intros [= <-]; by apply Hpath).
  - split; [intros o; apply IH2|]. intros arg o H.
    change (parse_bench_args (arg :: v :: args) o) with
      (match bench_value_option arg o with
       | Some set => match set v with Some o => parse_bench_args args o | None => None end
       | None => if is_path arg (bc_path o) then parse_bench_args (v :: args) (set_path arg o) else None
       end).
    destruct (bench_value_option arg o) as [set|] eqn:E.
    + destruct (set v) as [o1|] eqn:E1; [|done]. apply IH1. by eapply bench_value_option_ok.
    + destruct (is_path arg (bc_path o)); [|done]. apply IH2. by apply Hpath.
Qed.

Lemma bench_options_of_ok cores args o :
  is_uint 32 cores → bench_options_of cores args = Some o → bench_options_ok o.
Proof.
  intros Hc. unfold bench_options_of.
  destruct (parse_bench_args args _) as [o1|] eqn:E; [|done]. case_bool_decide; [done|].
  intros [= <-]. eapply parse_bench_args_ok; [|exact E]. unfold is_uint in Hc.
  split; cbn; try lia. destruct (Z.ltb_spec 1 cores); lia.
Qed.

(** What a stage counts, for options that passed the parser. *)
Lemma run_stage_counts o stage frames :
  bench_options_ok o → Forall frame_ok frames → Zlength frames < 2 ^ 64 →
  (∃ outcome, run_stage stage o frames outcome) ∧
  ∀ outcome, run_stage stage o frames outcome →
    ∃ r, outcome = Some r ∧ result_packets r = counted stage frames ∧
      (queued_stage stage = true → ∃ batches,
         batches ≤ counted stage frames ≤ bc_batch o * batches ∧
         avg_batch r = if 0 <? batches
                       then SFdiv 53 1024 (b64_of_uint (counted stage frames)) (b64_of_uint batches)
                       else b64_of_uint 0).
Proof.
  intros [O1 O2 O3 O4 O5] Hok Hlen.
  destruct (read_loop_ok stage frames stage_start Hok) as (s & Hs & Hp & _ & Hpush); [by_decide|].
  pose proof (counted_bounds stage frames) as Hb.
  cbn [stage_start packets to_push app] in Hp, Hpush.
  rewrite Z.add_0_l, wrap_small in Hp by (unfold is_uint; lia).
  destruct (queued_stage stage) eqn:Hq.
  - assert (Hn : Zlength (to_push s) = counted stage frames) by (rewrite Hpush; by apply pushed_count).
    split.
    + destruct (can_finish (stage_pool o) (bc_capacity o) (to_push s)
        (pipeline_start (stage_pool o) (bc_capacity o) (to_push s))) as (w & q & Hr & He);
        [cbn; lia..|apply inv_start; cbn; lia|].
      eexists. apply (run_stage_queued stage o frames s q); try done. by exists w, 0%nat.
    + intros outcome Hrun. destruct Hrun as [s' Hq' Hs'|s' q _ Hs' Hr He]; [congruence|].
      assert (s' = s) as -> by congruence.
      destruct (final_state (stage_pool o) (bc_capacity o) (to_push s) q) as (Hperm & _ & P & B);
        [cbn; lia..|by rewrite Hn; lia|done|done|].
      pose proof (batches_bound (bc_batch o) (analyzed q)
        (analyzed_batches (stage_pool o) (bc_capacity o) (to_push s) q ltac:(cbn; lia) ltac:(lia) Hr)) as Hbound.
      assert (E : Zlength (concat (analyzed q)) = counted stage frames)
        by (rewrite <- Hn; unfold Zlength; by rewrite Hperm).
      rewrite E in Hbound. unfold finish_stage. rewrite Hq, P, Hp, Hn, Z.eqb_refl. cbn [negb].
      eexists. split; [done|]. split; [done|]. intros _. exists (batches_ q). rewrite B.
      split; [done|]. done.
  - split; [eexists; by apply run_stage_alone|]. intros outcome Hrun.
    destruct Hrun as [s' Hq' Hs'|s' q Hq']; [|congruence].
    assert (s' = s) as -> by congruence. unfold finish_stage. rewrite Hq.
    eexists. split; [done|]. split; [done|]. done.
Qed.

(** ** Properties *)

(** The self-check of [run_stage] never fires: for every command line the
    benchmark accepts and every file, a stage reads nothing out of bounds, can
    always be run to its end, and no execution of its threads ends in "queue
    lost packets"; the read stage counts the frames, every other stage counts
    the frames the parser accepts, and the average batch of a queued stage is
    that count over a number of batches that fits the batch size. *)
Theorem bench_stage_counts cores args o stage frames :
  is_uint 32 cores → bench_options_of cores args = Some o →
  Forall frame_ok frames → Zlength frames < 2 ^ 64 →
  (∃ outcome, run_stage stage o frames outcome) ∧
  ∀ outcome, run_stage stage o frames outcome →
    ∃ r, outcome = Some r ∧ result_packets r = counted stage frames ∧
      (queued_stage stage = true → ∃ batches,
         batches ≤ counted stage frames ≤ bc_batch o * batches ∧
         avg_batch r = if 0 <? batches
                       then SFdiv 53 1024 (b64_of_uint (counted stage frames)) (b64_of_uint batches)
                       else b64_of_uint 0).
Proof.
  intros Hc Ho. apply run_stage_counts. by apply (bench_options_of_ok cores args).
Qed.

(** The rows of the report are all there: with at least one repetition no median
    is taken of an empty vector. *)
Lemma measurements_shape timed reps rep0 :
  let m := foldl (λ m rep, measure_rep timed rep m) no_measurements (seq rep0 reps) in
  length (m_packets m) = kStages ∧ length (m_seconds m) = kStages ∧
  Forall (λ l, length l = reps) (m_seconds m) ∧ length (m_avg_batches m) = reps.
Proof.
  revert rep0. induction reps as [|reps IH] using nat_rect; intros rep0 m.
  - unfold m. cbn. split_and!; try done. repeat constructor.
  - assert (E : m = measure_rep timed (rep0 + reps) (foldl (λ m rep, measure_rep timed rep m)
                      no_measurements (seq rep0 reps))).
    { unfold m. by rewrite seq_S, foldl_app. }
    rewrite E. specialize (IH rep0). cbv zeta in IH.
    destruct (foldl _ _ (seq rep0 reps)) as [sec avg pk]. cbn [m_packets m_seconds m_avg_batches] in IH.
    destruct IH as (A & B & C & D). unfold kStages in *. cbn in A, B.
    do 6 (destruct pk as [|? pk]; [done|]). destruct pk; [|done].
    do 6 (destruct sec as [|? sec]; [done|]). destruct sec; [|done].
    rewrite !Forall_cons in C. destruct_and!. cbn. split_and!; try done.
    + rewrite !Forall_cons, Forall_nil, !length_app. cbn. split_and!; (done || lia).
    + rewrite (bool_decide_eq_true_2 (kQueue = kQueue)) by done.
      rewrite !bool_decide_eq_false_2 by done. rewrite length_app. cbn. lia.
Qed.

Lemma table_rows_some l s m ns :
  Forall (λ samples, samples ≠ []) (m_seconds m) → length (m_packets m) = length (m_seconds m) →
  (s + length l ≤ length (m_seconds m))%nat →
  ∃ rows, table_rows s l m ns = Some rows ∧ row_name <$> rows = l.*2.
Proof.
  intros Hne Hlen. revert s ns. induction l as [|[st name] l IH]; intros s ns Hs; [by exists []|].
  cbn [length] in Hs. cbn [table_rows].
  destruct (lookup_lt_is_Some_2 (m_seconds m) s) as [samples E]; [lia|].
  destruct (lookup_lt_is_Some_2 (m_packets m) s) as [count F]; [lia|].
  destruct (median_defined samples) as [sec G]; [by eapply (Forall_lookup_1 _ _ _ _ Hne)|].
  rewrite E, F. cbn. rewrite G. cbn.
  edestruct (IH (S s)) as (rows & -> & R); [lia|]. cbn. eexists. split; [done|]. cbn. by rewrite R.
Qed.

(** The report is always complete: with the repetitions the option parser
    accepts, no median is taken of an empty vector (whose middle would be read
    outside it), and the table has one line per stage, in order. *)
Theorem bench_report_complete cores args o timed :
  is_uint 32 cores → bench_options_of cores args = Some o →
  ∃ rows read decoded batch,
    report (measure_all timed (bc_reps o)) = Some (rows, (read, decoded, batch)) ∧
    row_name <$> rows = stages.*2.
Proof.
  intros Hc Ho. destruct (bench_options_of_ok cores args o Hc Ho) as [_ _ _ _ [R1 R2]].
  unfold measure_all. destruct (measurements_shape timed (Z.to_nat (bc_reps o)) 0) as (A & B & C & D).
  set (m := foldl _ _ _) in *.
  destruct (table_rows_some stages 0 m (b64_of_uint 0)) as (rows & E & F).
  { eapply Forall_impl; [exact C|]. intros l Hl ->. cbn in Hl. lia. }
  { by rewrite A, B. }
  { rewrite B. unfold kStages. lia. }
  destruct (lookup_lt_is_Some_2 (m_packets m) 0) as [read Hread]; [rewrite A; unfold kStages; cbn; lia|].
  destruct (lookup_lt_is_Some_2 (m_packets m) (kCumulative - 1)) as [decoded Hdec];
    [rewrite A; unfold kCumulative, kStages; cbn; lia|].
  destruct (median_defined (m_avg_batches m)) as [batch Hbatch];
    [intros E0; rewrite E0 in D; cbn in D; lia|].
  exists rows, read, decoded, batch. split; [|done].
  unfold report. rewrite E. cbn [mbind option_bind]. rewrite Hread. cbn [mbind option_bind].
  rewrite Hdec. cbn [mbind option_bind]. by rewrite Hbatch.
Qed.

(** *** Witnesses *)

Definition bench_command : list string := ["-w"; "2"; "-q"; "2"; "--reps"; "3"; "cap.pcap"].

Definition bench_parsed : bench_options := mk_bench_options "cap.pcap" 2 256 2000 2 3.

(** Three frames, one of them too short for the parser. *)
Lemma bench_stage_counts_witness :
  bench_options_of 4 bench_command = Some bench_parsed ∧
  (∃ r, run_stage kQueue bench_parsed short_capture (Some r) ∧ result_packets r = 2) ∧
  (∃ r, run_stage kRead bench_parsed short_capture (Some r) ∧ result_packets r = 3).
Proof.
  split; [by vm_compute|]. split.
  - destruct (bench_stage_counts 4 bench_command bench_parsed kQueue short_capture)
      as [[out Hrun] Hall]; [by_decide|by vm_compute|by_decide|by vm_compute|].
    destruct (Hall out Hrun) as (r & -> & E & _). exists r. split; [done|]. rewrite E. by vm_compute.
  - destruct (bench_stage_counts 4 bench_command bench_parsed kRead short_capture)
      as [[out Hrun] Hall]; [by_decide|by vm_compute|by_decide|by vm_compute|].
    destruct (Hall out Hrun) as (r & -> & E & _). exists r. split; [done|]. rewrite E. by vm_compute.
Defined.

(** Every run takes one second more than the one before it. *)
Definition sample_timing (rep s : nat) : spec_float * Result :=
  (b64_of_uint (Z.of_nat (rep * 6 + s) + 1), mk_Result (if (s =? 0)%nat then 3 else 2) (b64_of_uint 1)).

Lemma bench_report_complete_witness :
  ∃ rows read decoded batch,
    report (measure_all sample_timing 3) = Some (rows, (read, decoded, batch)) ∧
    row_name <$> rows = stages.*2 ∧ read = 3 ∧ decoded = 2.
Proof.
  destruct (bench_report_complete 4 bench_command bench_parsed sample_timing)
    as (rows & read & decoded & batch & E & F); [by_decide|by vm_compute|].
  exists rows, read, decoded, batch. split; [exact E|]. split; [exact F|].
  assert (G : (λ x, x.2.1) <$> report (measure_all sample_timing 3) = Some (3, 2)) by by vm_compute.
  change (bc_reps bench_parsed) with 3 in E. rewrite E in G. cbn in G. by simplify_eq.
Defined.
