(* ===== verification/CaptureReport.v ===== *)
(** * The output of the capture benchmark ([src/bench/bench_capture.cpp])

    The messages of the option loop, the banner, the table and the last line, from
    the measurements of [BenchCapture], and the exit code. *)
From Stdlib Require Import Floats.SpecFloat.
From S2P Require Import Prelude Fmt FmtFloat Scan Packet Parser Wire Capture PacketQueue Pipeline Entropy Main.
From S2P Require Import Startup System Bench BenchCapture.

Local Open Scope string_scope.
Local Open Scope Z_scope.
Local Open Scope list_scope.

(** ** Messages of the option loop *)

Definition count_error (flag : string) (max : Z) : string :=
  flag +:+ " expects a number from 0 to " +:+ fmt_lld max +:+ newline.

(** The bound each option passes to [parse_count]. *)
Definition option_max (flag : string) : Z :=
  if bool_decide (flag = "-w") then 256
  else if bool_decide (flag = "-b") then 2 ^ 20
  else if bool_decide (flag = "-L") then 1000000
  else if bool_decide (flag = "-q") then 2 ^ 24
  else 1000.

(** What the loop over [argv] and the test after it print when they fail. *)
Fixpoint bench_args_error (argv0 : string) (args : list string) (o : bench_options) : list string :=
  match args with
  | [] =>
      if bool_decide (bc_path o = "") then ["usage: " +:+ argv0 +:+ " [options] capture.pcap" +:+ newline] else []
  | arg :: rest =>
      match bench_value_option arg o, rest with
      | Some set, v :: rest' =>
          match set v with
          | Some o => bench_args_error argv0 rest' o
          | None =>
              match parse_count v (option_max arg) with
              | None => [count_error arg (option_max arg)]
              | Some _ => []
              end
          end
      | _, _ =>
          if is_path arg (bc_path o) then bench_args_error argv0 rest (set_path arg o)
          else ["usage: " +:+ argv0 +:+ " [-w workers] [-b batch] [-L linger_us] [-q capacity] " +:+
                "[--reps N] capture.pcap" +:+ newline]
      end
  end.

(** ** The output *)

Definition quoted (s : string) : string := String "034"%char (s +:+ String "034"%char "").

Definition capture_banner (o : bench_options) : string :=
  "capture thread alone: " +:+ bc_path o +:+ ", " +:+ fmt_u (bc_workers o) +:+ " workers, batch " +:+
  fmt_u (bc_batch o) +:+ ", linger " +:+ fmt_lld (bc_linger_us o) +:+ " us, queue " +:+
  fmt_u (bc_capacity o) +:+ ", median of " +:+ fmt_lld (bc_reps o) +:+ newline +:+ newline.

Definition capture_line (name pps ns step : string) : string :=
  fmt_left 30 name +:+ " " +:+ fmt_right 12 pps +:+ " " +:+ fmt_right 14 ns +:+ " " +:+
  fmt_right 14 step +:+ newline.

(** [char step[32]]. *)
Definition step_text (step : option spec_float) : string :=
  match step with
  | Some x => snprintf 32 (fmt_plus_fixed 0 x +:+ " ns")
  | None => ""
  end.

Definition capture_row (s : nat) (r : row) : string :=
  (if (s =? kCumulative)%nat then newline +:+ "compare with " +:+ quoted "+ queue" +:+ ":" +:+ newline else "") +:+
  capture_line (row_name r) (fmt_fixed 0 (row_pps r)) (fmt_fixed 0 (row_ns r)) (step_text (row_step r)).

Definition capture_footer (read decoded : Z) (batch : spec_float) : string :=
  newline +:+ "packets: " +:+ fmt_u read +:+ " read, " +:+ fmt_u decoded +:+
  " decoded; avg batch taken by workers: " +:+ fmt_fixed 1 batch +:+ newline.

Definition capture_output (o : bench_options) (m : measurements) : option (list string) :=
  match report m with
  | Some (rows, (read, decoded, batch)) =>
      Some ([capture_banner o; capture_line "stage" "packets/sec" "ns/packet" "step costs"] ++
            imap capture_row rows ++ [capture_footer read decoded batch])
  | None => None
  end.

(** ** [main] *)

(** [opened]: the error of [pcap_open_offline], if any; the file is opened by the
    first [run_stage], before anything is printed.  [g_sink]: its value at the
    end. *)
Definition capture_main (argv0 : string) (cores : Z) (args : list string) (opened : string → option string)
    (m : bench_options → measurements) (g_sink : Z) : option ended :=
  match bench_options_of cores args with
  | None => Some (mk_ended [] (bench_args_error argv0 args (bench_options_default cores)) 1)
  | Some o =>
      match opened (bc_path o) with
      | Some error => Some (mk_ended [] [cannot_open (bc_path o) error] 1)
      | None => lines ← capture_output o (m o); Some (mk_ended lines [] (bench_exit g_sink))
      end
  end.

(** ** Lemmas *)

Definition all_stages : list Stage := stages.*1.

(** What the repetitions leave in [packets] is what the last one counted. *)
Lemma measured_packets timed counts reps rep0 :
  (∀ rep s, (rep0 ≤ rep < rep0 + reps)%nat → (s < kStages)%nat →
     counts !! s = Some (result_packets (timed rep s).2)) →
  length counts = kStages → (0 < reps)%nat →
  m_packets (foldl (λ m rep, measure_rep timed rep m) no_measurements (seq rep0 reps)) = counts.
Proof.
  intros Hc Hl Hr. destruct reps as [|reps]; [lia|]. rewrite seq_S, foldl_app. cbn [foldl].
  destruct (measurements_shape timed reps rep0) as (A & _).
  set (m := foldl _ _ _) in *. specialize (Hc (rep0 + reps)%nat).
  assert (H : ∀ s, (s < kStages)%nat → counts !! s = Some (result_packets (timed (rep0 + reps)%nat s).2))
    by (intros; apply Hc; lia).
  clear Hc. destruct m as [sec avg pk]. cbn [m_packets] in A. unfold kStages in *. cbn in A, Hl, H.
  do 6 (destruct pk as [|? pk]; [done|]). destruct pk; [|done].
  do 6 (destruct counts as [|? counts]; [done|]). destruct counts; [|done].
  pose proof (H 0%nat ltac:(lia)) as H0. pose proof (H 1%nat ltac:(lia)) as H1.
  pose proof (H 2%nat ltac:(lia)) as H2. pose proof (H 3%nat ltac:(lia)) as H3.
  pose proof (H 4%nat ltac:(lia)) as H4. pose proof (H 5%nat ltac:(lia)) as H5.
  cbn in H0, H1, H2, H3, H4, H5. cbn. congruence.
Qed.

(** The value [0] of the options that want a positive number: no message. *)
Lemma zero_rejected_silently argv0 cores path flag :
  flag ∈ ["-w"; "-b"; "-q"; "--reps"] →
  bench_options_of cores [flag; "0"; path] = None ∧
  bench_args_error argv0 [flag; "0"; path] (bench_options_default cores) = [].
Proof.
  intros Hf. repeat (apply elem_of_cons in Hf as [->|Hf]; [by vm_compute|]).
  by apply not_elem_of_nil in Hf.
Qed.

Lemma report_values m rows read decoded batch :
  report m = Some (rows, (read, decoded, batch)) →
  m_packets m !! 0%nat = Some read ∧ m_packets m !! (kCumulative - 1)%nat = Some decoded.
Proof.
  unfold report. destruct (table_rows _ _ _ _); [|done]. cbn [mbind option_bind].
  destruct (m_packets m !! 0%nat) as [a|]; [|done]. cbn [mbind option_bind].
  destruct (m_packets m !! (kCumulative - 1)%nat) as [b|]; [|done]. cbn [mbind option_bind].
  destruct (median _); [|done]. by intros [= _ -> -> _].
Qed.

(** ** Property *)

(** C34. What the capture benchmark prints: for every command line it accepts and
    every file, if each timed run is a run of its stage on that file, the report
    has its banner, its header, one line per stage and a last line whose counts
    are the frames of the file and the frames the parser accepts. *)
Theorem capture_report argv0 cores args o frames timed g_sink :
  is_uint 32 cores → bench_options_of cores args = Some o →
  Forall frame_ok frames → Zlength frames < 2 ^ 64 →
  (∀ rep s stage, Z.of_nat rep < bc_reps o → all_stages !! s = Some stage →
     run_stage stage o frames (Some (timed rep s).2)) →
  ∃ rows batch,
    capture_main argv0 cores args (λ _, None) (λ o, measure_all timed (bc_reps o)) g_sink =
      Some (mk_ended ([capture_banner o; capture_line "stage" "packets/sec" "ns/packet" "step costs"] ++
            imap capture_row rows ++
            [capture_footer (Zlength frames) (Zlength (omap parse_result frames)) batch]) [] (bench_exit g_sink)) ∧
    row_name <$> rows = stages.*2.
Proof.
  intros Hc Ho Hok Hlen Hruns. pose proof (bench_options_of_ok cores args o Hc Ho) as Hopt.
  pose proof Hopt as [_ _ _ _ [R1 R2]].
  destruct (bench_report_complete cores args o timed Hc Ho) as (rows & read & decoded & batch & E & Hnames).
  exists rows, batch. split; [|done]. unfold capture_main. rewrite Ho. unfold capture_output. rewrite E.
  apply report_values in E as [E1 E2].
  assert (Hm : m_packets (measure_all timed (bc_reps o)) = (λ stage, counted stage frames) <$> all_stages).
  { apply measured_packets; [|done|lia]. intros rep s Hrep Hs.
    destruct (lookup_lt_is_Some_2 all_stages s) as [stage Hst]; [done|].
    rewrite list_lookup_fmap, Hst. cbn. f_equal.
    destruct (run_stage_counts o stage frames Hopt Hok Hlen) as [_ Hall].
    destruct (Hall _ (Hruns rep s stage ltac:(lia) Hst)) as (r & [= ->] & -> & _). done. }
  rewrite Hm in E1, E2. injection E1 as <-. injection E2 as <-. done.
Qed.

(** *** Witness *)

Lemma stage_runs stage : ∃ r, run_stage stage bench_parsed short_capture (Some r).
Proof.
  destruct (run_stage_counts bench_parsed stage short_capture) as [[out Hrun] Hall];
    [apply (bench_options_of_ok 4 bench_command); [by_decide|by vm_compute]|by_decide|by vm_compute|].
  destruct (Hall out Hrun) as (r & -> & _). by exists r.
Qed.

Lemma capture_report_witness :
  ∃ timed rows batch,
    capture_main "bench" 4 bench_command (λ _, None) (λ _, measure_all timed 3) 7 =
      Some (mk_ended ([capture_banner bench_parsed; capture_line "stage" "packets/sec" "ns/packet" "step costs"] ++
            imap capture_row rows ++ [capture_footer 3 2 batch]) [] 0) ∧
    row_name <$> rows = stages.*2.
Proof.
  destruct (stage_runs kRead) as [r0 H0], (stage_runs kDecode) as [r1 H1], (stage_runs kCopy) as [r2 H2],
    (stage_runs kAllocate) as [r3 H3], (stage_runs kQueue) as [r4 H4], (stage_runs kQueueNoPayload) as [r5 H5].
  exists (λ _ s, (b64_of_uint 1, nth s [r0; r1; r2; r3; r4; r5] r0)).
  destruct (capture_report "bench" 4 bench_command bench_parsed short_capture
    (λ _ s, (b64_of_uint 1, nth s [r0; r1; r2; r3; r4; r5] r0)) 7) as (rows & batch & E & F);
    [by_decide|by vm_compute|by_decide|by vm_compute| |].
  - intros rep s stage _ Hs. do 6 (destruct s as [|s]; [injection Hs as <-; done|]). done.
  - exists rows, batch. split; [|done]. exact E.
Defined.
