(* ===== verification/BenchAnalysis.v ===== *)
(** * The worker-side benchmark ([src/bench/bench_analysis.cpp])

    [run_rule] starts threads that take batches of an in-memory vector from a
    shared counter and run one rule on them.  A step is one action of one thread:
    the [fetch_add] on the counter, the body of a loop for one packet, the call
    that ends a batch, the [fetch_add] of its sink.  The payloads that the rule
    [kAll] swaps in and out live in the shared vector, so the model keeps that
    vector and every thread's own one.  An access outside either of them has no
    step.  Of [analyze_batch] the rules loop is one step per packet, with the call of
    [observe] and the alerts it emits, and the entropy alerts are one step; the
    sink of the engine is the counter [alerts].  The logs record what the rules
    were given. *)
From Stdlib Require Import Floats.SpecFloat.
From stdpp Require Import sorting.
From S2P Require Import Prelude Packet Signature FlowTracker FlowShards Entropy AnalysisEngine.
From S2P Require Import Capture Main Bench.

(** ** State *)

Inductive Rule : Type := kEntropy | kSignature | kFlow | kAll.

#[export] Instance Rule_eq_dec : EqDecision Rule.
Proof. solve_decision. Defined.

Definition kRules : list (Rule * string) :=
  [(kEntropy, "entropy"); (kSignature, "signature"); (kFlow, "flow"); (kAll, "all")].

Definition kEntropyMinPayload : Z := 32.

(** Where a thread is in [work]; [b] is its batch and [i] the index its loop has
    come to. *)
Inductive work_pc : Type :=
  | BTop
  | BLoop (b i : Z)      (* the loop over the batch; for [kAll], the swaps in *)
  | BCall (b : Z)        (* [entropy.compute], [engine.analyze_batch] *)
  | BRules (b : Z) (k : nat)   (* [kAll]: in the rules loop of [analyze_batch] *)
  | BBack (b i : Z)      (* [kAll]: the swaps back *)
  | BExit                (* about to add its sink to [g_sink] *)
  | BDone.

(** The variables of one thread: [batch], [eligible], [entropies], [sink].  The
    pointers of [eligible] are the packets they point to: the rule that uses them
    writes no packet. *)
Record thread : Type := mk_thread {
  at_ : work_pc;
  own : list QueuedPacket;
  eligible_ : list QueuedPacket;
  entropies_ : list spec_float;
  t_sink : Z
}.

(** The engine of a run and the counter behind its sink.  [e_rules]: the packets
    its rules loop has come to; [e_entropies]: those of the batches whose entropy
    alerts are out. *)
Record engine_state : Type := mk_engine_state {
  e_flow : FlowTracker;
  alerts : Z;
  e_rules : list QueuedPacket;
  e_entropies : list QueuedPacket
}.

Definition engine_start : engine_state := mk_engine_state (FlowTracker_new FlowTrackerConfig_default) 0 [] [].

(** [store]: the vector [packets]; [log]: what each call of a rule was given, the
    packets with their indexes. *)
Record bench : Type := mk_bench {
  next_batch : Z;
  store : list QueuedPacket;
  threads : list thread;
  shared_flow : FlowTracker;
  log : list (list (Z * QueuedPacket));
  g_sink : Z;
  engine : engine_state
}.

Definition QueuedPacket_default : QueuedPacket := mk_QueuedPacket ParsedPacket_default [].

Definition thread_start : thread := mk_thread BTop [] [] [] 0.

Definition bench_start (packets : list QueuedPacket) (threads : Z) : bench :=
  mk_bench 0 packets (replicate (Z.to_nat threads) thread_start)
    (FlowTracker_new FlowTrackerConfig_default) [] 0 engine_start.

(** [(packets.size() + batch_size - 1) / batch_size]. *)
Definition batch_count (n batch_size : Z) : Z := wrap 64 (wrap 64 (n + batch_size) - 1) / batch_size.

Definition goto (pc : work_pc) (th : thread) : thread :=
  mk_thread pc (own th) (eligible_ th) (entropies_ th) (t_sink th).
Definition set_own (l : list QueuedPacket) (th : thread) : thread :=
  mk_thread (at_ th) l (eligible_ th) (entropies_ th) (t_sink th).
Definition set_eligible (l : list QueuedPacket) (th : thread) : thread :=
  mk_thread (at_ th) (own th) l (entropies_ th) (t_sink th).
Definition set_entropies (l : list spec_float) (th : thread) : thread :=
  mk_thread (at_ th) (own th) (eligible_ th) l (t_sink th).
Definition add_thread_sink (n : Z) (th : thread) : thread :=
  mk_thread (at_ th) (own th) (eligible_ th) (entropies_ th) (wrap 64 (t_sink th + n)).

Definition put_thread (t : nat) (th : thread) (s : bench) : bench :=
  mk_bench (next_batch s) (store s) (<[t := th]> (threads s)) (shared_flow s) (log s) (g_sink s) (engine s).
Definition put_store (l : list QueuedPacket) (s : bench) : bench :=
  mk_bench (next_batch s) l (threads s) (shared_flow s) (log s) (g_sink s) (engine s).
Definition put_flow (f : FlowTracker) (s : bench) : bench :=
  mk_bench (next_batch s) (store s) (threads s) f (log s) (g_sink s) (engine s).
Definition log_call (call : list (Z * QueuedPacket)) (s : bench) : bench :=
  mk_bench (next_batch s) (store s) (threads s) (shared_flow s) (log s ++ [call]) (g_sink s) (engine s).
Definition take_batch (s : bench) : bench :=
  mk_bench (wrap 64 (next_batch s + 1)) (store s) (threads s) (shared_flow s) (log s) (g_sink s) (engine s).
Definition add_g_sink (n : Z) (s : bench) : bench :=
  mk_bench (next_batch s) (store s) (threads s) (shared_flow s) (log s) (wrap 64 (g_sink s + n)) (engine s).

Definition put_engine (e : engine_state) (s : bench) : bench :=
  mk_bench (next_batch s) (store s) (threads s) (shared_flow s) (log s) (g_sink s) e.

(** [batch.resize(n)]. *)
Definition resize (n : Z) (l : list QueuedPacket) : list QueuedPacket :=
  take (Z.to_nat n) l ++ replicate (Z.to_nat n - length l) QueuedPacket_default.

(** [a.payload.swap(b.payload)]. *)
Definition swap_payload (a b : QueuedPacket) : QueuedPacket * QueuedPacket :=
  (mk_QueuedPacket (meta a) (q_payload b), mk_QueuedPacket (meta b) (q_payload a)).

Definition set_meta (m : ParsedPacket) (q : QueuedPacket) : QueuedPacket :=
  mk_QueuedPacket m (q_payload q).

(** ** One thread *)

Section Work.
Context (hash32 : Z → Z) (iter : gmap Z PerIpState → list Z) (log2 : spec_float → spec_float).
Context (rule : Rule) (batch_size : Z).

Definition finish_of (s : bench) (b : Z) : Z := batch_end (Zlength (store s)) batch_size b.

(** The body of the loop for packet [i]. *)
Definition loop_body (b i : Z) (t : nat) (th : thread) (s : bench) : option bench :=
  p ← store s !! Z.to_nat i;
  let th := goto (BLoop b (i + 1)) th in
  match rule with
  | kEntropy =>
      let th := if kEntropyMinPayload <=? payload_size p
                then set_eligible (eligible_ th ++ [p]) th else th in
      Some (log_call [(i, p)] (put_thread t th s))
  | kSignature =>
      let hit := if matches SignatureDatabase_new (Some (q_payload p)) then 1 else 0 in
      Some (log_call [(i, p)] (put_thread t (add_thread_sink hit th) s))
  | kFlow =>
      let '(flow, alerts) := observe hash32 iter (shared_flow s) p in
      Some (log_call [(i, p)] (put_flow flow (put_thread t (add_thread_sink (Zlength alerts) th) s)))
  | kAll =>
      let k := Z.to_nat (i - batch_begin batch_size b) in
      q ← own th !! k;
      let '(q, p') := swap_payload (set_meta (meta p) q) p in
      Some (put_store (<[Z.to_nat i := p']> (store s)) (put_thread t (set_own (<[k := q]> (own th)) th) s))
  end.

(** The call after the loop. *)
Definition batch_call (b : Z) (t : nat) (th : thread) (s : bench) : bench :=
  match rule with
  | kEntropy =>
      let th := match eligible_ th with
                | [] => th
                | _ => match compute (CpuEntropyBackend log2) (eligible_ th) with
                       | Some values => set_entropies values th
                       | None => th
                       end
                end in
      put_thread t (goto BTop (add_thread_sink (Zlength (entropies_ th)) th)) s
  | kSignature | kFlow => put_thread t (goto BTop th) s
  | kAll =>
      let begin := batch_begin batch_size b in
      log_call (zip (seqZ begin (Zlength (own th))) (own th)) (put_thread t (goto (BRules b 0) th) s)
  end.

(** The body of the rules loop of [analyze_batch]: the alerts of packet [p]. *)
Definition engine_rules (p : QueuedPacket) (e : engine_state) : engine_state :=
  let '(flow, flow_alerts) := observe hash32 iter (e_flow e) p in
  let n := Zlength (signature_alerts SignatureDatabase_new p ++ flow_alerts) in
  mk_engine_state flow (wrap 64 (alerts e + n)) (e_rules e ++ [p]) (e_entropies e).

(** The entropy alerts at its end. *)
Definition engine_entropies (batch : list QueuedPacket) (e : engine_state) : engine_state :=
  let packets := filter (eligible AnalysisConfig_default) batch in
  let values := default [] (compute (CpuEntropyBackend log2) packets) in
  let n := Zlength (concat (zip_with (entropy_alert AnalysisConfig_default) packets values)) in
  mk_engine_state (e_flow e) (wrap 64 (alerts e + n)) (e_rules e) (e_entropies e ++ batch).

(** The next action of thread [t]. *)
Definition thread_step (t : nat) (s : bench) : option bench :=
  th ← threads s !! t;
  match at_ th with
  | BTop =>
      let b := next_batch s in
      let s := take_batch s in
      if batch_count (Zlength (store s)) batch_size <=? b then Some (put_thread t (goto BExit th) s)
      else
        let begin := batch_begin batch_size b in
        let th := goto (BLoop b begin) th in
        Some (put_thread t (match rule with
                            | kEntropy => set_eligible [] th
                            | kAll => set_own (resize (finish_of s b - begin) (own th)) th
                            | _ => th
                            end) s)
  | BLoop b i =>
      if i <? finish_of s b then loop_body b i t th s else Some (put_thread t (goto (BCall b) th) s)
  | BCall b => Some (batch_call b t th s)
  | BRules b k =>
      match own th !! k with
      | Some p => Some (put_engine (engine_rules p (engine s)) (put_thread t (goto (BRules b (S k)) th) s))
      | None =>
          Some (put_engine (engine_entropies (own th) (engine s))
                 (put_thread t (goto (BBack b (batch_begin batch_size b)) th) s))
      end
  | BBack b i =>
      if i <? finish_of s b then
        let k := Z.to_nat (i - batch_begin batch_size b) in
        p ← store s !! Z.to_nat i;
        q ← own th !! k;
        let '(q, p) := swap_payload q p in
        Some (put_store (<[Z.to_nat i := p]> (store s))
               (put_thread t (set_own (<[k := q]> (own th)) (goto (BBack b (i + 1)) th)) s))
      else Some (put_thread t (goto BTop th) s)
  | BExit => Some (add_g_sink (t_sink th) (put_thread t (goto BDone th) s))
  | BDone => None
  end.

(** The threads take their actions in the order of a schedule. *)
Fixpoint bench_play (schedule : list nat) (s : bench) : option bench :=
  match schedule with
  | [] => Some s
  | t :: rest => thread_step t s ≫= bench_play rest
  end.

End Work.

Definition finished (s : bench) : Prop := Forall (λ th, at_ th = BDone) (threads s).

#[export] Instance finished_dec s : Decision (finished s).
Proof.
  unfold finished. apply Forall_dec. intros th.
  refine (match at_ th as pc return {pc = BDone} + {¬ pc = BDone} with
          | BDone => left eq_refl | _ => right _ end); done.
Defined.

(** ** The thread counts of the report *)

(** The loop [for (t = 1; t < max; t *= 2)]. *)
Fixpoint doublings (fuel : nat) (t max : Z) : list Z :=
  match fuel with
  | O => []
  | S fuel => if t <? max then t :: doublings fuel (wrap 64 (t * 2)) max else []
  end.

(** [std::unique] and [erase]. *)
Fixpoint unique (l : list Z) : list Z :=
  match l with
  | x :: (y :: _) as rest => if x =? y then unique rest else x :: unique rest
  | _ => l
  end.

Definition thread_counts (max_threads : Z) : list Z :=
  let l := doublings 64 1 max_threads ++ (if 2 <? max_threads then [max_threads - 1] else []) ++
           [max_threads] in
  unique (merge_sort Z.le l).

(** ** [main] *)

Record analysis_options : Type := mk_analysis_options {
  ba_path : string;
  ba_batch_size : Z;
  ba_reps : Z;
  ba_max_threads : Z
}.

Definition analysis_options_default (cores : Z) : analysis_options :=
  mk_analysis_options "" 256 5 (if 0 <? cores then cores else 4).

Definition parse_count (text : string) (max : Z) : option Z := parse_count_from 1 text max.

Definition analysis_value_option (flag : string) (o : analysis_options)
    : option (string → option analysis_options) :=
  let '(mk_analysis_options path batch reps max_threads) := o in
  if bool_decide (flag = "-b") then Some (λ v, b ← parse_count v (2 ^ 20);
    Some (mk_analysis_options path b reps max_threads))
  else if bool_decide (flag = "--reps") then Some (λ v, r ← parse_count v 1000;
    Some (mk_analysis_options path batch r max_threads))
  else if bool_decide (flag = "--max-threads") then Some (λ v, m ← parse_count v 256;
    Some (mk_analysis_options path batch reps m))
  else None.

Definition set_analysis_path (v : string) (o : analysis_options) : analysis_options :=
  mk_analysis_options v (ba_batch_size o) (ba_reps o) (ba_max_threads o).

(** The loop over [argv]; [None] is [EXIT_FAILURE]. *)
Fixpoint parse_analysis_args (args : list string) (o : analysis_options) : option analysis_options :=
  match args with
  | [] => Some o
  | arg :: rest =>
      match analysis_value_option arg o, rest with
      | Some set, v :: rest' =>
          match set v with Some o => parse_analysis_args rest' o | None => None end
      | _, _ =>
          if is_path arg (ba_path o) then parse_analysis_args rest (set_analysis_path arg o) else None
      end
  end.

Definition analysis_options_of (cores : Z) (args : list string) : option analysis_options :=
  match parse_analysis_args args (analysis_options_default cores) with
  | Some o => if bool_decide (ba_path o = "") then None else Some o
  | None => None
  end.

(** The packets [capture.run] hands to the handler, copied into the vector;
    [None] is the exit for a file without any. *)
Definition load_packets (handed_on : list (list Z * ParsedPacket)) : option (list QueuedPacket) :=
  match handed_on with
  | [] => None
  | _ => Some ((λ x, make_queued_packet x.1 x.2) <$> handed_on)
  end.

(** The calls of [run_rule]: the warm-up, then every rule on every thread count
    in each repetition. *)
Definition all_runs (reps : Z) (counts : list Z) : list (Rule * Z) :=
  ((λ r, (r.1, 1)) <$> kRules) ++
  concat (replicate (Z.to_nat reps) (concat ((λ r, (λ t, (r.1, t)) <$> counts) <$> kRules))).
