(* ===== verification/BenchAnalysisSpec.v ===== *)
(** * What a run of a rule does ([bench_analysis.cpp])

    The batches partition the vector, no two threads are in the same batch, every
    payload that is swapped out comes back, and every run ends. *)
From Stdlib Require Import Floats.SpecFloat.
From stdpp Require Import sorting.
From S2P Require Import Prelude Packet Signature FlowTracker FlowShards Entropy AnalysisEngine.
From S2P Require Import Capture Main Bench BenchAnalysis.

(** A packet whose payload is swapped out. *)
Definition strip (p : QueuedPacket) : QueuedPacket := mk_QueuedPacket (meta p) [].

Definition blank (q : QueuedPacket) : Prop := q_payload q = [].

(** The batch a thread is in. *)
Definition current (pc : work_pc) : list Z :=
  match pc with BLoop b _ | BCall b | BRules b _ | BBack b _ => [b] | _ => [] end.

Definition exited (th : thread) : list unit :=
  match at_ th with BExit | BDone => [tt] | _ => [] end.

Section Run.
Context (hash32 : Z → Z) (iter : gmap Z PerIpState → list Z) (log2 : spec_float → spec_float).
Context (rule : Rule) (bs : Z) (packets : list QueuedPacket) (T : Z).
Hypothesis (Hbs : 1 ≤ bs) (HT : 0 ≤ T) (Hwide : Zlength packets + bs + T + 1 < 2 ^ 64).

Abbreviation n := (Zlength packets).
Abbreviation nb := (batch_count n bs).
Abbreviation bg b := (b * bs)%Z.
Abbreviation en b := (Z.min (b * bs + bs) n).

(** ** Batches *)

Lemma batch_count_eq : nb = (n + bs - 1) / bs.
Proof.
  pose proof (Zlength_nonneg packets). unfold batch_count. by rewrite !wrap_small by (unfold is_uint; rewrite ?wrap_small by (unfold is_uint; lia); lia).
Qed.

Lemma batch_count_bounds : 0 ≤ nb ∧ n ≤ bg nb ∧ nb ≤ n.
Proof.
  pose proof (Zlength_nonneg packets). rewrite batch_count_eq.
  pose proof (Z.div_mod (n + bs - 1) bs ltac:(lia)). pose proof (Z.mod_pos_bound (n + bs - 1) bs ltac:(lia)).
  split_and!; [by apply Z.div_pos; lia|lia|]. destruct (decide (n = 0)) as [->|].
  - rewrite Z.div_small; lia.
  - apply Z.div_le_upper_bound; [lia|]. nia.
Qed.

Lemma batch_in b : 0 ≤ b < nb → bg b < n ∧ 0 ≤ bg b.
Proof.
  intros Hb. pose proof batch_count_eq as E. rewrite E in Hb.
  pose proof (Z.div_mod (n + bs - 1) bs ltac:(lia)). pose proof (Z.mod_pos_bound (n + bs - 1) bs ltac:(lia)).
  split; nia.
Qed.

Lemma batch_begin_eq b : 0 ≤ b < nb → batch_begin bs b = bg b.
Proof. intros Hb. destruct (batch_in b Hb). apply wrap_small. unfold is_uint. lia. Qed.

Lemma batch_end_eq b : 0 ≤ b < nb → batch_end n bs b = en b.
Proof.
  intros Hb. destruct (batch_in b Hb). unfold batch_end, std_min. rewrite batch_begin_eq by done.
  f_equal. apply wrap_small. unfold is_uint. lia.
Qed.

Lemma batches_disjoint b b' j : bg b ≤ j < bg b + bs → bg b' ≤ j < bg b' + bs → b = b'.
Proof. intros. nia. Qed.

(** ** The state of the threads and of the vector *)

(** Whether a thread has the payload of packet [j]. *)
Definition held (th : thread) (j : Z) : Prop :=
  rule = kAll ∧
  match at_ th with
  | BLoop b i => bg b ≤ j < i
  | BCall b | BRules b _ => bg b ≤ j < en b
  | BBack b i => i ≤ j < en b
  | _ => False
  end.

(** [batch] during the swaps in, between them and the swaps back, and during
    those. *)
Definition own_ok (th : thread) : Prop :=
  match rule with
  | kAll =>
      match at_ th with
      | BLoop b i => ∃ rest, own th = range packets (bg b) i ++ rest ∧ Forall blank rest ∧
                             Zlength (own th) = en b - bg b
      | BCall b | BRules b _ => own th = range packets (bg b) (en b)
      | BBack b i => ∃ pre, own th = pre ++ range packets i (en b) ∧ Forall blank pre ∧
                            Zlength pre = i - bg b
      | _ => Forall blank (own th)
      end
  | _ => True
  end.

Definition place_ok (next : Z) (pc : work_pc) : Prop :=
  match pc with
  | BTop => True
  | BExit | BDone => nb ≤ next
  | BLoop b i => 0 ≤ b < nb ∧ b < next ∧ bg b ≤ i ≤ en b
  | BCall b => 0 ≤ b < nb ∧ b < next
  | BRules b k => rule = kAll ∧ 0 ≤ b < nb ∧ b < next ∧ Z.of_nat k ≤ en b - bg b
  | BBack b i => rule = kAll ∧ 0 ≤ b < nb ∧ b < next ∧ bg b ≤ i ≤ en b
  end.

Record inv_threads (s : bench) : Prop := {
  bt_length : Zlength (threads s) = T;
  bt_next : 0 ≤ next_batch s ≤ nb + Zlength (gather exited (threads s));
  bt_place t th : threads s !! t = Some th → place_ok (next_batch s) (at_ th);
  bt_own t th : threads s !! t = Some th → own_ok th;
  bt_alone t1 t2 th1 th2 b :
    t1 ≠ t2 → threads s !! t1 = Some th1 → threads s !! t2 = Some th2 →
    b ∈ current (at_ th1) → b ∈ current (at_ th2) → False;
  bt_store : length (store s) = length packets;
  bt_held t th j p :
    threads s !! t = Some th → 0 ≤ j → held th j → packets !! Z.to_nat j = Some p →
    store s !! Z.to_nat j = Some (strip p);
  bt_free j :
    0 ≤ j → (∀ t th, threads s !! t = Some th → ¬ held th j) →
    store s !! Z.to_nat j = packets !! Z.to_nat j
}.

Lemma held_current next th j :
  place_ok next (at_ th) → held th j → ∃ b, b ∈ current (at_ th) ∧ bg b ≤ j < bg b + bs.
Proof.
  unfold held. intros Hp [_ H]. destruct (at_ th) as [|b i|b|b k|b i| |]; try done;
    exists b; (split; [by left|]); cbn in Hp; lia.
Qed.

(** No other thread has a packet of a thread's batch. *)
Lemma held_elsewhere s t th t' th' b j :
  inv_threads s → threads s !! t = Some th → b ∈ current (at_ th) → bg b ≤ j < bg b + bs →
  threads s !! t' = Some th' → t' ≠ t → ¬ held th' j.
Proof.
  intros Hinv Ht Hb Hj Ht' Hne Hh.
  destruct (held_current _ _ _ (bt_place s Hinv _ _ Ht') Hh) as (b' & Hb' & Hj').
  assert (b' = b) as -> by by eapply batches_disjoint. by eapply (bt_alone s Hinv t' t).
Qed.

Lemma exited_le ths : Zlength (gather exited ths) ≤ Zlength ths.
Proof.
  unfold gather. induction ths as [|th ths IH]; [done|]. rewrite fmap_cons. cbn [concat].
  rewrite Zlength_app, Zlength_cons. unfold exited at 1. unfold Zlength in *.
  destruct (at_ th); cbn [length]; lia.
Qed.

Lemma inv_threads_start : inv_threads (bench_start packets T).
Proof.
  assert (Hstart : ∀ t th, threads (bench_start packets T) !! t = Some th → th = thread_start)
    by by intros t th [-> _]%lookup_replicate.
  split.
  - cbn. unfold Zlength. rewrite length_replicate. lia.
  - destruct batch_count_bounds as (H0 & _).
    pose proof (Zlength_nonneg (gather exited (threads (bench_start packets T)))).
    change (next_batch (bench_start packets T)) with 0. lia.
  - by intros t th ->%Hstart.
  - intros t th ->%Hstart. unfold own_ok. cbn. destruct rule; constructor.
  - intros t1 t2 th1 th2 b _ ->%Hstart _. cbn. by intros ?%not_elem_of_nil.
  - done.
  - intros t th j p ->%Hstart _ [_ []].
  - done.
Qed.

Lemma place_ok_mono next next' pc : next ≤ next' → place_ok next pc → place_ok next' pc.
Proof. intros Hle. destruct pc; cbn; intros; destruct_and?; split_and?; done || lia. Qed.

Lemma current_next next pc b : place_ok next pc → b ∈ current pc → 0 ≤ b < nb ∧ b < next.
Proof. destruct pc; cbn; (try by intros _ ?%not_elem_of_nil); intros H ->%list_elem_of_singleton; tauto. Qed.

(** What one action changes in the vector: nothing, one payload taken by the
    thread, or one given back. *)
Definition store_change (th th' : thread) (s s' : bench) : Prop :=
  (store s' = store s ∧ ∀ j, held th' j ↔ held th j) ∨
  (∃ b i p, 0 ≤ i ∧ b ∈ current (at_ th) ∧ bg b ≤ i < bg b + bs ∧
     packets !! Z.to_nat i = Some p ∧
     ((store s' = <[Z.to_nat i := strip p]> (store s) ∧ ∀ j, held th' j ↔ held th j ∨ j = i) ∨
      (store s' = <[Z.to_nat i := p]> (store s) ∧ ∀ j, held th' j ↔ held th j ∧ j ≠ i))).

(** The threads after one of them has changed. *)
Lemma changed_lookup s s' t th' t' th1 :
  threads s' = <[t := th']> (threads s) → threads s' !! t' = Some th1 →
  (t' = t ∧ th1 = th') ∨ (t' ≠ t ∧ threads s !! t' = Some th1).
Proof. intros ->. intros [(-> & -> & _)|[? ?]]%list_lookup_insert_Some; auto. Qed.

(** What the threads hold and what they do not, after a change. *)
Lemma change_held s s' t th th' t' th1 j p :
  inv_threads s → threads s !! t = Some th → threads s' = <[t := th']> (threads s) →
  store_change th th' s s' → threads s' !! t' = Some th1 → 0 ≤ j → held th1 j →
  packets !! Z.to_nat j = Some p → store s' !! Z.to_nat j = Some (strip p).
Proof.
  intros Hinv Ht Hths Hstore Hl Hj Hh Hp. pose proof (changed_lookup s s' t th' t' th1 Hths Hl) as Hlook.
  destruct Hstore as [[-> Hheld]|(b & i & q & Hi & Hb & Hbi & Hq & Hc)].
  { destruct Hlook as [[-> ->]|[_ Ht']]; [apply Hheld in Hh|]; by eapply (bt_held s Hinv). }
  assert (Hlt : (Z.to_nat i < length (store s))%nat)
    by (rewrite (bt_store s Hinv); by eapply lookup_lt_Some).
  destruct (decide (j = i)) as [->|Hne].
  - assert (p = q) as -> by congruence. destruct Hlook as [[-> ->]|[Hnt Ht']].
    + destruct Hc as [[-> Hheld]|[-> Hheld]]; [by rewrite list_lookup_insert_eq|].
      apply Hheld in Hh. tauto.
    + by destruct (held_elsewhere s t th t' th1 b i Hinv Ht Hb Hbi Ht' Hnt).
  - assert (E : store s' !! Z.to_nat j = store s !! Z.to_nat j)
      by (destruct Hc as [[-> _]|[-> _]]; rewrite list_lookup_insert_ne by lia; done).
    rewrite E. destruct Hlook as [[-> ->]|[_ Ht']]; [|by apply (bt_held s Hinv t' th1 j p)].
    apply (bt_held s Hinv t th j p Ht Hj); [|done].
    destruct Hc as [[_ Hheld]|[_ Hheld]]; apply Hheld in Hh; tauto.
Qed.

Lemma change_free s s' t th th' j :
  inv_threads s → threads s !! t = Some th → threads s' = <[t := th']> (threads s) →
  store_change th th' s s' → 0 ≤ j → (∀ t' th1, threads s' !! t' = Some th1 → ¬ held th1 j) →
  store s' !! Z.to_nat j = packets !! Z.to_nat j.
Proof.
  intros Hinv Ht Hths Hstore Hj Hfree.
  assert (Hnew : threads s' !! t = Some th')
    by (rewrite Hths; apply list_lookup_insert_eq; by eapply lookup_lt_Some).
  assert (Hrest : held th' j ∨ ¬ held th j → (∀ t' th1, threads s !! t' = Some th1 → ¬ held th1 j)).
  { intros Hor t' th1 Ht' Hh. destruct (decide (t' = t)) as [->|Hne].
    - assert (th1 = th) as -> by congruence. destruct Hor as [H|H]; [by apply (Hfree t th')|done].
    - apply (Hfree t' th1); [|done]. rewrite Hths. by rewrite list_lookup_insert_ne. }
  destruct Hstore as [[-> Hheld]|(b & i & q & Hi & Hb & Hbi & Hq & Hc)].
  { apply (bt_free s Hinv j Hj), Hrest. right. rewrite <- Hheld. by apply (Hfree t). }
  assert (Hlt : (Z.to_nat i < length (store s))%nat)
    by (rewrite (bt_store s Hinv); by eapply lookup_lt_Some).
  destruct (decide (j = i)) as [->|Hne].
  - destruct Hc as [[_ Hheld]|[-> _]]; [|by rewrite list_lookup_insert_eq].
    destruct (Hfree t th' Hnew). apply Hheld. by right.
  - destruct Hc as [[-> Hheld]|[-> Hheld]]; rewrite list_lookup_insert_ne by lia;
      apply (bt_free s Hinv j Hj), Hrest; right; intros Hh;
      apply (Hfree t th' Hnew), Hheld; by auto.
Qed.

Lemma inv_threads_change s s' t th th' :
  inv_threads s → threads s !! t = Some th → threads s' = <[t := th']> (threads s) →
  next_batch s ≤ next_batch s' ≤ nb + Zlength (gather exited (threads s')) →
  place_ok (next_batch s') (at_ th') → own_ok th' →
  (∀ b, b ∈ current (at_ th') → b ∈ current (at_ th) ∨ b = next_batch s) →
  store_change th th' s s' → inv_threads s'.
Proof.
  intros Hinv Ht Hths Hnext Hplace Hown Hcur Hstore.
  pose proof (λ t' th1, changed_lookup s s' t th' t' th1 Hths) as Hlook.
  assert (Hown_batch : ∀ t' th1 b, t' ≠ t → threads s !! t' = Some th1 → b ∈ current (at_ th1) →
            b ∈ current (at_ th') → False).
  { intros t' th1 b Hne Ht' Hb Hb'. destruct (Hcur b Hb') as [?| ->].
    - by eapply (bt_alone s Hinv t' t).
    - apply (current_next (next_batch s)) in Hb; [lia|]. by eapply (bt_place s Hinv). }
  split.
  - rewrite Hths. unfold Zlength. rewrite length_insert. exact (bt_length s Hinv).
  - pose proof (bt_next s Hinv). lia.
  - intros t' th1 [[-> ->]|[_ Ht']]%Hlook; [done|].
    eapply place_ok_mono; [|by eapply (bt_place s Hinv)]. lia.
  - intros t' th1 [[-> ->]|[_ Ht']]%Hlook; [done|]. by eapply (bt_own s Hinv).
  - intros t1 t2 th1 th2 b Hne [[-> ->]|[H1 Ht1]]%Hlook [[-> ->]|[H2 Ht2]]%Hlook Hb1 Hb2.
    + done.
    + by eapply (Hown_batch t2 th2 b).
    + by eapply (Hown_batch t1 th1 b).
    + by eapply (bt_alone s Hinv t1 t2).
  - pose proof (bt_store s Hinv) as Hl.
    destruct Hstore as [[-> _]|(b & i & p & _ & _ & _ & _ & [[-> _]|[-> _]])]; rewrite ?length_insert; done.
  - intros t' th1 j p Hl Hj Hh Hp. by eapply (change_held s s' t th th').
  - intros j Hj Hfree. by eapply (change_free s s' t th th').
Qed.

(** ** One action *)

Lemma packet_at i : 0 ≤ i < n → ∃ p, packets !! Z.to_nat i = Some p.
Proof. intros Hi. apply lookup_lt_is_Some_2. unfold Zlength in Hi. lia. Qed.

Lemma range_cons {A} (l : list A) a b x :
  0 ≤ a < b → l !! Z.to_nat a = Some x → range l a b = x :: range l (a + 1) b.
Proof.
  intros Hab Hx. rewrite <- (range_app l a (a + 1) b) by lia.
  rewrite (range_snoc l a a x) by (done || lia). by rewrite range_nil.
Qed.

Lemma lookup_middle_Z {A} (l k : list A) x i : Zlength l = i → (l ++ x :: k) !! Z.to_nat i = Some x.
Proof. intros <-. unfold Zlength. rewrite Nat2Z.id. by apply list_lookup_middle. Qed.

Lemma insert_middle_Z {A} (l k : list A) x y i :
  Zlength l = i → <[Z.to_nat i := y]> (l ++ x :: k) = l ++ y :: k.
Proof.
  intros <-. unfold Zlength. rewrite Nat2Z.id, insert_app_r_alt by lia. by rewrite Nat.sub_diag.
Qed.

Section Action.
Context (s : bench) (t : nat) (th : thread).
Hypothesis (Hinv : inv_threads s) (Ht : threads s !! t = Some th).

Lemma finish_of_eq b : b ∈ current (at_ th) → finish_of bs s b = en b ∧ batch_begin bs b = bg b ∧ 0 ≤ bg b.
Proof.
  intros Hb. destruct (current_next _ _ _ (bt_place s Hinv _ _ Ht) Hb) as [Hb1 _].
  unfold finish_of, Zlength. rewrite (bt_store s Hinv). split_and!;
    [by apply batch_end_eq|by apply batch_begin_eq|by apply batch_in].
Qed.

(** A packet the loop comes to is where it was. *)
Lemma loop_packet b i :
  at_ th = BLoop b i → i < en b →
  ∃ p, packets !! Z.to_nat i = Some p ∧ store s !! Z.to_nat i = Some p.
Proof.
  intros Hat Hi. pose proof (bt_place s Hinv _ _ Ht) as Hp. rewrite Hat in Hp. cbn in Hp.
  destruct Hp as (Hb & _ & Hi1). destruct (batch_in b Hb).
  destruct (packet_at i) as [p Hpk]; [lia|]. exists p. split; [done|]. rewrite <- Hpk.
  apply (bt_free s Hinv); [lia|]. intros t' th' Ht' Hh.
  destruct (decide (t' = t)) as [->|Hne].
  - assert (th' = th) as -> by congruence. unfold held in Hh. rewrite Hat in Hh. lia.
  - eapply (held_elsewhere s t th t' th' b i); [done|done| | |done|done|done]; [|lia].
    rewrite Hat. by left.
Qed.

Lemma swap_in_own b i p :
  rule = kAll → at_ th = BLoop b i → i < en b → packets !! Z.to_nat i = Some p →
  ∃ q, own th !! Z.to_nat (i - bg b) = Some q ∧ blank q ∧
    own_ok (set_own (<[Z.to_nat (i - bg b) := p]> (own th)) (goto (BLoop b (i + 1)) th)).
Proof.
  intros Hr Hat Hi Hpk. pose proof (bt_own s Hinv _ _ Ht) as Ho. unfold own_ok in Ho.
  rewrite Hr, Hat in Ho. destruct Ho as (rest & Ho & Hrest & Hlen).
  pose proof (bt_place s Hinv _ _ Ht) as Hp. rewrite Hat in Hp. destruct Hp as (Hb & _ & Hi1).
  destruct (batch_in b Hb).
  assert (Hpre : Zlength (range packets (bg b) i) = i - bg b) by (apply Zlength_range; lia).
  rewrite Ho, Zlength_app, Hpre in Hlen.
  destruct rest as [|q rest]; [rewrite Zlength_nil in Hlen; lia|].
  apply Forall_cons in Hrest as [Hq Hrest]. exists q. rewrite Ho, lookup_middle_Z by done.
  split; [done|]. split; [done|]. unfold own_ok. rewrite Hr. cbn [set_own goto at_ own].
  rewrite insert_middle_Z by done. exists rest.
  rewrite (range_snoc packets (bg b) i p), <- app_assoc by (done || lia). cbn [app].
  split; [done|]. split; [done|]. rewrite Zlength_app, Hpre, Zlength_cons.
  rewrite Zlength_cons in Hlen. lia.
Qed.

Lemma swap_back_own b i :
  at_ th = BBack b i → i < en b →
  ∃ p, packets !! Z.to_nat i = Some p ∧ store s !! Z.to_nat i = Some (strip p) ∧
    own th !! Z.to_nat (i - bg b) = Some p ∧
    own_ok (set_own (<[Z.to_nat (i - bg b) := strip p]> (own th)) (goto (BBack b (i + 1)) th)).
Proof.
  intros Hat Hi. pose proof (bt_place s Hinv _ _ Ht) as Hp. rewrite Hat in Hp.
  destruct Hp as (Hr & Hb & _ & Hi1). destruct (batch_in b Hb).
  pose proof (bt_own s Hinv _ _ Ht) as Ho. unfold own_ok in Ho. rewrite Hr, Hat in Ho.
  destruct Ho as (pre & Ho & Hpre & Hlen).
  destruct (packet_at i) as [p Hpk]; [lia|]. exists p. split; [done|]. split.
  { apply (bt_held s Hinv t th i p Ht); [lia| |done]. unfold held. rewrite Hat. split; [done|lia]. }
  rewrite Ho, (range_cons packets i (en b) p) by (done || lia).
  rewrite lookup_middle_Z by done. split; [done|].
  unfold own_ok. rewrite Hr. cbn [set_own goto at_ own]. rewrite insert_middle_Z by done.
  exists (pre ++ [strip p]). rewrite <- app_assoc. cbn [app]. split; [done|]. split.
  - apply Forall_app. split; [done|]. by constructor; [|constructor].
  - rewrite Zlength_app, Hlen. change (Zlength [strip p]) with 1. lia.
Qed.

End Action.

Lemma resize_blank k l : 0 ≤ k → Forall blank l → Forall blank (resize k l) ∧ Zlength (resize k l) = k.
Proof.
  intros Hk Hl. unfold resize. split.
  - apply Forall_app. split; [by apply Forall_take|]. by apply Forall_replicate.
  - unfold Zlength. rewrite length_app, length_take, length_replicate. lia.
Qed.

(** A thread moves on and the counter stays. *)
Lemma inv_threads_move s s' t th th' :
  inv_threads s → threads s !! t = Some th → threads s' = <[t := th']> (threads s) →
  next_batch s' = next_batch s → exited th' = exited th →
  place_ok (next_batch s) (at_ th') → own_ok th' →
  (∀ b, b ∈ current (at_ th') → b ∈ current (at_ th)) →
  store_change th th' s s' → inv_threads s'.
Proof.
  intros Hinv Ht Hths Hn He Hp Ho Hc Hs.
  eapply (inv_threads_change s s' t th th'); try done; rewrite ?Hn; try done; [|by auto].
  rewrite Hths, (insert_same_gather _ _ _ th) by done. pose proof (bt_next s Hinv). lia.
Qed.

Lemma inv_threads_enter s t th :
  inv_threads s → threads s !! t = Some th → at_ th = BTop → next_batch s < nb →
  ∀ th', at_ th' = BLoop (next_batch s) (bg (next_batch s)) → own_ok th' →
  ∀ s', threads s' = <[t := th']> (threads s) → next_batch s' = next_batch s + 1 → store s' = store s →
  inv_threads s'.
Proof.
  intros Hinv Ht Hat Hlt th' Hat' Hown s' Hths Hn Hst. pose proof (bt_next s Hinv) as Hb.
  destruct (batch_in (next_batch s)); [lia|].
  assert (He : exited th' = exited th) by (unfold exited; by rewrite Hat, Hat').
  eapply (inv_threads_change s s' t th th'); try done; rewrite ?Hn.
  - rewrite Hths, (insert_same_gather _ _ _ th) by done. pose proof (Zlength_nonneg (gather exited (threads s))). lia.
  - rewrite Hat'. cbn. split_and!; try lia.
  - intros b. rewrite Hat'. intros ->%list_elem_of_singleton. by right.
  - left. split; [done|]. intros j. unfold held. rewrite Hat, Hat'. split; [|tauto]. intros [_ ?]. lia.
Qed.

Lemma inv_threads_exit s t th :
  inv_threads s → threads s !! t = Some th → at_ th = BTop → nb ≤ next_batch s →
  ∀ s', threads s' = <[t := goto BExit th]> (threads s) → next_batch s' = next_batch s + 1 →
  store s' = store s → inv_threads s'.
Proof.
  intros Hinv Ht Hat Hlt s' Hths Hn Hst. pose proof (bt_next s Hinv) as Hb.
  eapply (inv_threads_change s s' t th (goto BExit th)); try done; rewrite ?Hn.
  - rewrite Hths. pose proof (gather_insert exited (threads s) t th (goto BExit th) Ht) as P.
    unfold exited at 1 3 in P. rewrite Hat in P. cbn in P.
    apply Permutation_length in P. cbn [length] in P. unfold Zlength in *. lia.
  - cbn. lia.
  - pose proof (bt_own s Hinv _ _ Ht) as Ho. unfold own_ok in *. rewrite Hat in Ho. done.
  - intros b. cbn. by intros ?%not_elem_of_nil.
  - left. split; [done|]. intros j. unfold held. rewrite Hat. cbn. done.
Qed.

Lemma next_no_wrap s t th :
  inv_threads s → threads s !! t = Some th → wrap 64 (next_batch s + 1) = next_batch s + 1.
Proof.
  intros Hinv Ht. pose proof (bt_next s Hinv). pose proof (exited_le (threads s)).
  pose proof (bt_length s Hinv). destruct batch_count_bounds as (_ & _ & ?).
  apply wrap_small. unfold is_uint. lia.
Qed.

Lemma own_ok_other th : rule ≠ kAll → own_ok th.
Proof. unfold own_ok. by destruct rule. Qed.

Lemma held_other th j : rule ≠ kAll → ¬ held th j.
Proof. by intros Hr [? _]. Qed.

(** The rules that only read move without touching the vector. *)
Lemma inv_threads_read s s' t th th' :
  rule ≠ kAll → inv_threads s → threads s !! t = Some th → threads s' = <[t := th']> (threads s) →
  next_batch s' = next_batch s → store s' = store s → exited th' = exited th →
  place_ok (next_batch s) (at_ th') → (∀ b, b ∈ current (at_ th') → b ∈ current (at_ th)) →
  inv_threads s'.
Proof.
  intros Hr Hinv Ht Hths Hn Hst He Hp Hc.
  eapply (inv_threads_move s s' t th th'); try done; [by apply own_ok_other|].
  left. split; [done|]. intros j. split; intros Hh; exfalso; by eapply held_other.
Qed.

Abbreviation step := (thread_step hash32 iter log2 rule bs).

Lemma loop_body_inv s s' t th b i :
  inv_threads s → threads s !! t = Some th → at_ th = BLoop b i → i < en b →
  loop_body hash32 iter rule bs b i t th s = Some s' → inv_threads s'.
Proof.
  intros Hinv Ht Hat Hi Hs.
  destruct (loop_packet s t th Hinv Ht b i Hat Hi) as (p & Hpk & Hst).
  assert (Hcur : b ∈ current (at_ th)) by (rewrite Hat; by left).
  destruct (finish_of_eq s t th Hinv Ht b Hcur) as (_ & Hbg & H0).
  pose proof (bt_place s Hinv _ _ Ht) as Hp. rewrite Hat in Hp. destruct Hp as (Hb & Hbn & Hbi).
  assert (Hplace : place_ok (next_batch s) (BLoop b (i + 1))) by (cbn; split_and!; lia).
  assert (He : ∀ th', at_ th' = BLoop b (i + 1) → exited th' = exited th)
    by (intros th' E; unfold exited; by rewrite E, Hat).
  assert (Hc : ∀ th' b', at_ th' = BLoop b (i + 1) → b' ∈ current (at_ th') → b' ∈ current (at_ th))
    by (intros th' b' E; by rewrite E, Hat).
  unfold loop_body in Hs. rewrite Hst in Hs. cbn [mbind option_bind] in Hs.
  destruct (decide (rule = kAll)) as [Hr|Hr].
  - destruct (swap_in_own s t th Hinv Ht b i p Hr Hat Hi Hpk) as (q & Hq & Hblank & Hown).
    rewrite Hr in Hs. cbv beta zeta iota in Hs. cbn [own goto] in Hs. rewrite Hbg, Hq in Hs.
    cbn [mbind option_bind swap_payload set_meta meta q_payload] in Hs.
    rewrite Hblank in Hs. assert (Eta : mk_QueuedPacket (meta p) (q_payload p) = p) by by destruct p.
    rewrite Eta in Hs. injection Hs as <-.
    eapply (inv_threads_move s _ t th _ Hinv Ht); [reflexivity|done|by apply He|done|exact Hown|by intros b'; apply Hc|].
    right. exists b, i, p. split_and!; try done; try lia. left. split; [done|]. intros j.
    unfold held. cbn [set_own goto at_]. rewrite Hat. split.
    + intros [_ ?]. destruct (decide (j = i)); [by right|left; split; [done|lia]].
    + intros [[_ ?]|E]; (split; [done|lia]).
  - assert (Hread : ∀ th' s1, at_ th' = BLoop b (i + 1) → threads s1 = <[t := th']> (threads s) →
              next_batch s1 = next_batch s → store s1 = store s → inv_threads s1).
    { intros th' s1 E E1 E2 E3. eapply (inv_threads_read s s1 t th th' Hr Hinv Ht); try done.
      - by apply He.
      - by rewrite E.
      - intros b'. by apply Hc. }
    remember rule as r eqn:Er in Hs. destruct r; [..|done].
    + injection Hs as <-. eapply Hread; [|reflexivity|done..]. by destruct (_ <=? _).
    + injection Hs as <-. by eapply Hread; [|reflexivity|..].
    + destruct (observe hash32 iter (shared_flow s) p) as [flow alerts]. injection Hs as <-.
      by eapply Hread; [|reflexivity|..].
Qed.

Lemma batch_call_inv s t th b :
  inv_threads s → threads s !! t = Some th → at_ th = BCall b →
  inv_threads (batch_call log2 rule bs b t th s).
Proof.
  intros Hinv Ht Hat. pose proof (bt_place s Hinv _ _ Ht) as Hp. rewrite Hat in Hp.
  destruct Hp as (Hb & Hbn). destruct (batch_in b Hb) as [B1 B2].
  assert (Hread : ∀ th' s1, rule ≠ kAll → at_ th' = BTop → threads s1 = <[t := th']> (threads s) →
            next_batch s1 = next_batch s → store s1 = store s → inv_threads s1).
  { intros th' s1 Hr E E1 E2 E3. eapply (inv_threads_read s s1 t th th' Hr Hinv Ht); try done.
    - unfold exited. by rewrite E, Hat.
    - by rewrite E.
    - intros b'. rewrite E. cbn. by intros ?%not_elem_of_nil. }
  destruct (decide (rule = kAll)) as [Hr|Hr].
  - unfold batch_call. rewrite Hr. cbv zeta. rewrite batch_begin_eq by done.
    eapply (inv_threads_move s _ t th (goto (BRules b 0) th) Hinv Ht); [reflexivity|done|..].
    + unfold exited. by rewrite Hat.
    + cbn. split_and!; done || lia.
    + pose proof (bt_own s Hinv _ _ Ht) as Ho. unfold own_ok in *. rewrite Hr in *. by rewrite Hat in Ho.
    + rewrite Hat. done.
    + left. split; [done|]. intros j. unfold held. by rewrite Hat.
  - unfold batch_call. remember rule as r eqn:Er in |- *. destruct r; [..|done];
      by eapply Hread; [| |reflexivity|..].
Qed.

(** What [analyze_batch] looks at is the batch. *)
Lemma rules_own s t th b k :
  inv_threads s → threads s !! t = Some th → at_ th = BRules b k →
  rule = kAll ∧ 0 ≤ b < nb ∧ b < next_batch s ∧ Z.of_nat k ≤ en b - bg b ∧
  own th = range packets (bg b) (en b) ∧ Zlength (own th) = en b - bg b.
Proof.
  intros Hinv Ht Hat. pose proof (bt_place s Hinv _ _ Ht) as Hp. rewrite Hat in Hp.
  destruct Hp as (Hr & Hb & Hbn & Hk). destruct (batch_in b Hb) as [B1 B2].
  pose proof (bt_own s Hinv _ _ Ht) as Ho. unfold own_ok in Ho. rewrite Hr, Hat in Ho.
  split_and!; try done; try lia. rewrite Ho. apply Zlength_range; lia.
Qed.

Lemma rules_step_inv s t th b k th' s' :
  inv_threads s → threads s !! t = Some th → at_ th = BRules b k →
  ((∃ p, own th !! k = Some p) ∧ th' = goto (BRules b (S k)) th) ∨
  (own th !! k = None ∧ th' = goto (BBack b (bg b)) th) →
  threads s' = <[t := th']> (threads s) → next_batch s' = next_batch s → store s' = store s →
  inv_threads s'.
Proof.
  intros Hinv Ht Hat Hth Hths Hn Hst.
  destruct (rules_own s t th b k Hinv Ht Hat) as (Hr & Hb & Hbn & Hk & Ho & Hl).
  destruct (batch_in b Hb) as [B1 B2].
  assert (Hpc : at_ th' = BRules b (S k) ∧ Z.of_nat (S k) ≤ en b - bg b ∨ at_ th' = BBack b (bg b)).
  { destruct Hth as [[[p Hp] ->]|[_ ->]]; [left|by right]. split; [done|].
    apply lookup_lt_Some in Hp. assert (Z.of_nat (S k) ≤ Zlength (own th)) by (unfold Zlength; lia). lia. }
  assert (Hown : own th' = own th) by by destruct Hth as [[_ ->]|[_ ->]].
  eapply (inv_threads_move s s' t th th' Hinv Ht); [done..| | | | |].
  - unfold exited. rewrite Hat. by destruct Hpc as [[-> _]| ->].
  - destruct Hpc as [[-> ?]| ->]; cbn; split_and!; done || lia.
  - unfold own_ok. rewrite Hr, Hown. destruct Hpc as [[-> _]| ->]; [done|].
    exists []. rewrite Ho. split; [done|]. split; [constructor|]. rewrite Zlength_nil. lia.
  - intros b'. rewrite Hat. by destruct Hpc as [[-> _]| ->].
  - left. split; [done|]. intros j. unfold held. rewrite Hat. by destruct Hpc as [[-> _]| ->].
Qed.

Lemma back_step_inv s t th b i :
  inv_threads s → threads s !! t = Some th → at_ th = BBack b i → i < en b →
  ∃ p, store s !! Z.to_nat i = Some (strip p) ∧ own th !! Z.to_nat (i - bg b) = Some p ∧
    inv_threads (put_store (<[Z.to_nat i := p]> (store s))
      (put_thread t (set_own (<[Z.to_nat (i - bg b) := strip p]> (own th)) (goto (BBack b (i + 1)) th)) s)).
Proof.
  intros Hinv Ht Hat Hi. destruct (swap_back_own s t th Hinv Ht b i Hat Hi) as (p & Hpk & Hst & Hq & Hown).
  pose proof (bt_place s Hinv _ _ Ht) as Hp. rewrite Hat in Hp. destruct Hp as (Hr & Hb & Hbn & Hbi).
  destruct (batch_in b Hb) as [B1 B2].
  exists p. split; [done|]. split; [done|].
  eapply (inv_threads_move s _ t th _ Hinv Ht); [reflexivity|done|..|exact Hown| |].
  - unfold exited. by rewrite Hat.
  - cbn. split_and!; done || lia.
  - rewrite Hat. done.
  - right. exists b, i, p. rewrite Hat. split_and!; try done; try lia; [by left|].
    right. split; [done|]. intros j. unfold held. cbn [set_own goto at_]. rewrite Hat. split.
    + intros [_ ?]. split; [split; [done|lia]|lia].
    + intros [[_ ?] ?]. split; [done|lia].
Qed.

(** The places of [work], one by one. *)
Lemma top_step_inv s s' t th :
  inv_threads s → threads s !! t = Some th → at_ th = BTop → step t s = Some s' → inv_threads s'.
Proof.
  intros Hinv Ht Hat. unfold thread_step. rewrite Ht. cbn [mbind option_bind]. rewrite Hat.
  assert (Hn : Zlength (store s) = n) by (unfold Zlength; by rewrite (bt_store s Hinv)).
  change (store (take_batch s)) with (store s). rewrite Hn.
  pose proof (next_no_wrap s t th Hinv Ht) as Hw. pose proof (bt_next s Hinv) as Hnext.
  destruct (Z.leb_spec nb (next_batch s)) as [Hge|Hlt]; intros [= <-]; [by eapply (inv_threads_exit s t th)|].
  destruct (batch_in (next_batch s)) as [B1 B2]; [lia|].
  assert (Hfin : finish_of bs (take_batch s) (next_batch s) = en (next_batch s)).
  { unfold finish_of. cbn [take_batch store]. rewrite Hn. apply batch_end_eq. lia. }
  rewrite Hfin, batch_begin_eq by lia.
  eapply (inv_threads_enter s t th Hinv Ht Hat Hlt); [| |reflexivity|exact Hw|done]; [by destruct rule|].
  pose proof (bt_own s Hinv _ _ Ht) as Ho. unfold own_ok in *. destruct rule; try done. rewrite Hat in Ho.
  cbn [set_own goto at_ own].
  destruct (resize_blank (en (next_batch s) - bg (next_batch s)) (own th)) as [R1 R2]; [lia|done|].
  eexists. rewrite range_nil by lia. split; [reflexivity|]. split; done.
Qed.

Lemma loop_step_inv s s' t th b i :
  inv_threads s → threads s !! t = Some th → at_ th = BLoop b i → step t s = Some s' → inv_threads s'.
Proof.
  intros Hinv Ht Hat. unfold thread_step. rewrite Ht. cbn [mbind option_bind]. rewrite Hat.
  pose proof (bt_place s Hinv _ _ Ht) as Hp. rewrite Hat in Hp. cbn in Hp.
  assert (Hcur : b ∈ current (at_ th)) by (rewrite Hat; by left).
  destruct (finish_of_eq s t th Hinv Ht b Hcur) as (-> & Hbg & H0).
  destruct (Z.ltb_spec i (en b)) as [Hi|Hi]; [by apply loop_body_inv|].
  intros [= <-]. assert (i = en b) as -> by lia.
  eapply (inv_threads_move s _ t th (goto (BCall b) th) Hinv Ht); [reflexivity|done|..].
  - unfold exited. by rewrite Hat.
  - cbn. tauto.
  - pose proof (bt_own s Hinv _ _ Ht) as Ho. unfold own_ok in *. destruct rule; try done.
    rewrite Hat in Ho. cbn [goto at_ own]. destruct Ho as (rest & Ho & Hrest & Hl).
    assert (Hlr : Zlength (range packets (bg b) (en b)) = en b - bg b) by (apply Zlength_range; lia).
    rewrite Ho, Zlength_app, Hlr in Hl. rewrite Ho.
    destruct rest; [by rewrite app_nil_r|]. rewrite Zlength_cons in Hl.
    pose proof (Zlength_nonneg rest). lia.
  - by rewrite Hat.
  - left. split; [done|]. intros j. unfold held. by rewrite Hat.
Qed.

Lemma back_end_inv s t th b :
  inv_threads s → threads s !! t = Some th → at_ th = BBack b (en b) →
  inv_threads (put_thread t (goto BTop th) s).
Proof.
  intros Hinv Ht Hat. pose proof (bt_place s Hinv _ _ Ht) as Hp. rewrite Hat in Hp.
  destruct Hp as (Hr & Hb & Hbn & Hbi).
  eapply (inv_threads_move s _ t th (goto BTop th) Hinv Ht); [reflexivity|done|..].
  - unfold exited. by rewrite Hat.
  - done.
  - pose proof (bt_own s Hinv _ _ Ht) as Ho. unfold own_ok in *. rewrite Hr in *. rewrite Hat in Ho.
    destruct Ho as (pre & Ho & Hpre & _).
    cbn [goto at_ own]. rewrite Ho, range_nil by lia. by rewrite app_nil_r.
  - intros b'. cbn. by intros ?%not_elem_of_nil.
  - left. split; [done|]. intros j. unfold held. rewrite Hat. cbn. split; [tauto|]. intros [_ ?]. lia.
Qed.

Lemma thread_step_inv s s' t : inv_threads s → step t s = Some s' → inv_threads s'.
Proof.
  intros Hinv Hstep. pose proof Hstep as Hs. unfold thread_step in Hs.
  destruct (threads s !! t) as [th|] eqn:Ht; [|done]. cbn [mbind option_bind] in Hs.
  pose proof (bt_place s Hinv _ _ Ht) as Hp.
  destruct (at_ th) as [|b i|b|b k|b i| |] eqn:Hat; cbn in Hp.
  - by eapply top_step_inv.
  - by eapply loop_step_inv.
  - injection Hs as <-. by apply batch_call_inv.
  - destruct (own th !! k) as [p|] eqn:Ek; injection Hs as <-.
    + eapply (rules_step_inv s t th b k (goto (BRules b (S k)) th) _ Hinv Ht Hat); [left; eauto|done..].
    + rewrite batch_begin_eq by tauto.
      eapply (rules_step_inv s t th b k (goto (BBack b (bg b)) th) _ Hinv Ht Hat); [right; eauto|done..].
  - assert (Hcur : b ∈ current (at_ th)) by (rewrite Hat; by left).
    destruct (finish_of_eq s t th Hinv Ht b Hcur) as (E & Hbg & H0). rewrite E, Hbg in Hs.
    destruct (Z.ltb_spec i (en b)) as [Hi|Hi].
    + destruct (back_step_inv s t th b i Hinv Ht Hat Hi) as (p & Ep & Eo & Hnew). rewrite Ep, Eo in Hs.
      cbn [mbind option_bind swap_payload strip meta q_payload] in Hs. destruct p as [m pl].
      by injection Hs as <-.
    + injection Hs as <-. assert (i = en b) as -> by lia. by eapply back_end_inv.
  - injection Hs as <-. eapply (inv_threads_move s _ t th (goto BDone th) Hinv Ht); [reflexivity|done|..].
    + unfold exited. by rewrite Hat.
    + done.
    + pose proof (bt_own s Hinv _ _ Ht) as Ho. unfold own_ok in *. by rewrite Hat in Ho.
    + intros b'. cbn. by intros ?%not_elem_of_nil.
    + left. split; [done|]. intros j. unfold held. by rewrite Hat.
  - done.
Qed.

(** ** Every access is inside, and every run ends *)

Lemma thread_can_step s t th :
  inv_threads s → threads s !! t = Some th → at_ th ≠ BDone → is_Some (step t s).
Proof.
  intros Hinv Ht Hd. unfold thread_step. rewrite Ht. cbn [mbind option_bind].
  destruct (at_ th) as [|b i|b|b k|b i| |] eqn:Hat; try done.
  - by destruct (_ <=? _).
  - assert (Hcur : b ∈ current (at_ th)) by (rewrite Hat; by left).
    destruct (finish_of_eq s t th Hinv Ht b Hcur) as (-> & Hbg & H0).
    destruct (Z.ltb_spec i (en b)) as [Hi|Hi]; [|done].
    destruct (loop_packet s t th Hinv Ht b i Hat Hi) as (p & Hpk & Hst).
    unfold loop_body. rewrite Hst. cbn [mbind option_bind].
    destruct (decide (rule = kAll)) as [Hr|Hr].
    + destruct (swap_in_own s t th Hinv Ht b i p Hr Hat Hi Hpk) as (q & Hq & _).
      rewrite Hr. cbv beta zeta iota. cbn [own goto]. rewrite Hbg, Hq. by eexists.
    + destruct rule; try done. destruct (observe _ _ _ _). by eexists.
  - by destruct (own th !! k).
  - assert (Hcur : b ∈ current (at_ th)) by (rewrite Hat; by left).
    destruct (finish_of_eq s t th Hinv Ht b Hcur) as (-> & Hbg & H0). rewrite Hbg.
    destruct (Z.ltb_spec i (en b)) as [Hi|Hi]; [|done].
    destruct (back_step_inv s t th b i Hinv Ht Hat Hi) as (p & -> & -> & _). by eexists.
Qed.

(** How many actions a thread takes before it is back at the counter. *)
Definition weight (pc : work_pc) : Z :=
  match pc with
  | BTop => 2
  | BLoop b i => (en b - i) + 2 * (en b - bg b) + 6
  | BCall b => 2 * (en b - bg b) + 5
  | BRules b k => 2 * (en b - bg b) - Z.of_nat k + 4
  | BBack b i => (en b - i) + 3
  | BExit => 1
  | BDone => 0
  end.

Definition weights (ths : list thread) : Z := foldr (λ th z, weight (at_ th) + z) 0 ths.

Definition measure (s : bench) : Z :=
  Z.max 0 (nb - next_batch s) * (3 * bs + 7) + weights (threads s).

Lemma thread_weights_insert ths t th th' :
  ths !! t = Some th → weights (<[t := th']> ths) = weights ths - weight (at_ th) + weight (at_ th').
Proof.
  unfold weights. revert t. induction ths as [|x ths IH]; intros [|t]; cbn [lookup list_lookup]; try done.
  - intros [= ->]. cbn. lia.
  - intros H. specialize (IH t H). change (<[S t := th']> (x :: ths)) with (x :: <[t := th']> ths).
    cbn [foldr]. lia.
Qed.

Lemma weight_nonneg next pc : place_ok next pc → 0 ≤ weight pc.
Proof.
  destruct pc as [|b i|b|b k|b i| |]; cbn; try lia.
  - intros [Hb _]. destruct (batch_in b Hb). lia.
Qed.

Lemma weights_nonneg s : inv_threads s → 0 ≤ weights (threads s).
Proof.
  intros Hinv. assert (H : ∀ t th, threads s !! t = Some th → 0 ≤ weight (at_ th))
    by (intros t th Ht; eapply weight_nonneg, (bt_place s Hinv); done).
  revert H. generalize (threads s) as ths. induction ths as [|th ths IH]; intros H; cbn; [lia|].
  specialize (H 0%nat th eq_refl) as H0. assert (0 ≤ weights ths); [|unfold weights in *; lia].
  apply IH. intros t th' Ht. by apply (H (S t)).
Qed.

Lemma measure_move s s' t th th' :
  threads s !! t = Some th → threads s' = <[t := th']> (threads s) →
  next_batch s' = next_batch s → weight (at_ th') + 1 ≤ weight (at_ th) → measure s' + 1 ≤ measure s.
Proof. intros Ht Hths Hn Hw. unfold measure. rewrite Hths, Hn, (thread_weights_insert _ _ th) by done. lia. Qed.

Lemma loop_measure s s' t th b i :
  inv_threads s → threads s !! t = Some th → at_ th = BLoop b i → step t s = Some s' →
  measure s' + 1 ≤ measure s.
Proof.
  intros Hinv Ht Hat. unfold thread_step. rewrite Ht. cbn [mbind option_bind]. rewrite Hat.
  pose proof (bt_place s Hinv _ _ Ht) as Hp. rewrite Hat in Hp. cbn in Hp.
  assert (Hcur : b ∈ current (at_ th)) by (rewrite Hat; by left).
  destruct (finish_of_eq s t th Hinv Ht b Hcur) as (-> & Hbg & H0).
  destruct (Z.ltb_spec i (en b)) as [Hi|Hi].
  - unfold loop_body. destruct (store s !! Z.to_nat i) as [p|]; [|done]. cbn [mbind option_bind].
    assert (Hmove : ∀ th' s1, threads s1 = <[t := th']> (threads s) → at_ th' = BLoop b (i + 1) →
              next_batch s1 = next_batch s → measure s1 + 1 ≤ measure s).
    { intros th' s1 E1 E2 E3. eapply (measure_move s s1 t th th'); try done.
      rewrite E2, Hat. cbn. lia. }
    destruct rule.
    + intros [= <-]. eapply Hmove; [reflexivity| |done]. by destruct (_ <=? _).
    + intros [= <-]. by eapply Hmove.
    + destruct (observe _ _ _ _) as [f a]. intros [= <-]. by eapply Hmove.
    + cbn [own goto]. destruct (own th !! _); [|done]. cbn. intros [= <-]. by eapply Hmove.
  - intros [= <-]. eapply (measure_move s _ t th); [done|reflexivity|done|]. rewrite Hat. cbn. lia.
Qed.

Lemma step_measure s s' t : inv_threads s → step t s = Some s' → measure s' + 1 ≤ measure s.
Proof.
  intros Hinv Hstep. pose proof Hstep as Hs. revert Hs. unfold thread_step at 1. destruct (threads s !! t) as [th|] eqn:Ht; [|done].
  cbn [mbind option_bind]. pose proof (bt_place s Hinv _ _ Ht) as Hp.
  assert (Hn : Zlength (store s) = n) by (unfold Zlength; by rewrite (bt_store s Hinv)).
  destruct (at_ th) as [|b i|b|b k|b i| |] eqn:Hat; cbn in Hp.
  - change (store (take_batch s)) with (store s). rewrite Hn.
    pose proof (next_no_wrap s t th Hinv Ht) as Hw. pose proof (bt_next s Hinv) as Hnext.
    destruct (Z.leb_spec nb (next_batch s)) as [Hge|Hlt]; intros [= <-]; unfold measure;
      cbn [put_thread take_batch next_batch threads]; rewrite Hw, (thread_weights_insert _ _ th), Hat by done.
    + cbn. lia.
    + destruct (batch_in (next_batch s)) as [B1 B2]; [lia|]. rewrite batch_begin_eq by lia.
      match goal with |- context [weight (at_ ?th')] =>
        assert (E : at_ th' = BLoop (next_batch s) (bg (next_batch s))) by by destruct rule end.
      rewrite E. cbn [weight]. nia.
  - intros _. by eapply loop_measure.
  - destruct (batch_in b) as [B1 B2]; [tauto|].
    assert (Hmove : ∀ th' s1, threads s1 = <[t := th']> (threads s) →
              (at_ th' = BTop ∨ at_ th' = BRules b 0) →
              next_batch s1 = next_batch s → measure s1 + 1 ≤ measure s).
    { intros th' s1 E1 E2 E3. eapply (measure_move s s1 t th th'); try done.
      rewrite Hat. destruct E2 as [-> | ->]; cbn; lia. }
    intros [= <-]. unfold batch_call. rewrite batch_begin_eq by tauto.
    destruct rule; (eapply Hmove; [reflexivity| |done]); cbn; auto.
  - destruct (rules_own s t th b k Hinv Ht Hat) as (_ & Hb & _ & Hk & _ & Hl).
    destruct (own th !! k) as [p|] eqn:Ek; intros [= <-].
    + eapply (measure_move s _ t th); [done|reflexivity|done|]. rewrite Hat. cbn. lia.
    + rewrite batch_begin_eq by done.
      eapply (measure_move s _ t th); [done|reflexivity|done|]. rewrite Hat. cbn.
      apply lookup_ge_None in Ek. assert (Zlength (own th) ≤ Z.of_nat k) by (unfold Zlength; lia). lia.
  - assert (Hcur : b ∈ current (at_ th)) by (rewrite Hat; by left).
    destruct (finish_of_eq s t th Hinv Ht b Hcur) as (-> & Hbg & H0).
    destruct (Z.ltb_spec i (en b)) as [Hi|Hi].
    + destruct (store s !! _) as [p|]; [|done]. destruct (own th !! _) as [q|]; [|done]. cbn.
      intros [= <-]. eapply (measure_move s _ t th); [done|reflexivity|done|]. rewrite Hat. cbn. lia.
    + intros [= <-]. eapply (measure_move s _ t th); [done|reflexivity|done|]. rewrite Hat. cbn. lia.
  - intros [= <-]. eapply (measure_move s _ t th); [done|reflexivity|done|]. rewrite Hat. cbn. lia.
  - done.
Qed.

(** ** What the rules are given *)

(** The packets of a thread's batch that its rule has not been given yet. *)
Definition remaining (th : thread) : list Z :=
  match at_ th with
  | BLoop b i => let i := if decide (rule = kAll) then bg b else i in seqZ i (en b - i)
  | BCall b => if decide (rule = kAll) then seqZ (bg b) (en b - bg b) else []
  | _ => []
  end.

Record inv_log (s : bench) : Prop := {
  lg_once : (concat (log s)).*1 ++ gather remaining (threads s) ≡ₚ
            seqZ 0 (Z.min (bg (next_batch s)) n);
  lg_real : Forall (λ x, packets !! Z.to_nat x.1 = Some x.2) (concat (log s));
  lg_batches : rule = kAll →
    Forall (λ call, ∃ b, 0 ≤ b < nb ∧ call.*2 = range packets (bg b) (en b)) (log s);
  lg_flow : rule = kFlow →
    shared_flow s = (observe_all hash32 iter (FlowTracker_new FlowTrackerConfig_default)
                       (concat (log s)).*2).1
}.

Lemma inv_log_start : inv_log (bench_start packets T).
Proof.
  split; cbn [bench_start next_batch log threads shared_flow concat]; try (by constructor).
  rewrite gather_nil by (apply Forall_replicate; done).
  by rewrite Z.mul_0_l, Z.min_l by auto with netdb.
Qed.

(** An action that gives nothing to the rule. *)
Lemma inv_log_quiet s s' t th th' :
  inv_log s → threads s !! t = Some th → threads s' = <[t := th']> (threads s) →
  log s' = log s → shared_flow s' = shared_flow s →
  Z.min (bg (next_batch s')) n = Z.min (bg (next_batch s)) n →
  remaining th' = remaining th → inv_log s'.
Proof.
  intros [L1 L2 L3 L4] Ht Hths Hl Hf Hn Hr. split; rewrite ?Hl, ?Hf; try done.
  by rewrite Hths, Hn, (insert_same_gather _ _ _ th).
Qed.

(** An action that gives a call to the rule. *)
Lemma inv_log_call s s' t th th' call :
  inv_log s → threads s !! t = Some th → threads s' = <[t := th']> (threads s) →
  log s' = log s ++ [call] → next_batch s' = next_batch s →
  remaining th = call.*1 ++ remaining th' →
  Forall (λ x, packets !! Z.to_nat x.1 = Some x.2) call →
  (rule = kAll → ∃ b, 0 ≤ b < nb ∧ call.*2 = range packets (bg b) (en b)) →
  (rule = kFlow → shared_flow s' = (observe_all hash32 iter (shared_flow s) call.*2).1) →
  inv_log s'.
Proof.
  intros [L1 L2 L3 L4] Ht Hths Hl Hn Hr Hreal Hb Hf.
  assert (Hc : concat (log s') = concat (log s) ++ call)
    by (rewrite Hl, concat_app; cbn; by rewrite app_nil_r).
  split; rewrite ?Hc, ?Hn.
  - rewrite <- L1, Hths, fmap_app. pose proof (gather_insert remaining (threads s) t th th' Ht) as P.
    rewrite Hr in P. rewrite <- app_assoc. apply Permutation_app_head.
    apply (Permutation_app_inv_l (remaining th')). rewrite <- P. solve_Permutation.
  - by apply Forall_app.
  - intros HA. rewrite Hl. apply Forall_app. split; [by apply L3|]. constructor; [by apply Hb|constructor].
  - intros HF. rewrite (Hf HF), (L4 HF), fmap_app. clear.
    generalize (FlowTracker_new FlowTrackerConfig_default) as t. generalize (concat (log s)).*2 as l.
    induction l as [|p l IH]; intros t; [done|]. cbn [app]. rewrite !observe_all_cons. cbn [fst]. apply IH.
Qed.

Lemma inv_log_enter s t th :
  inv_threads s → inv_log s → threads s !! t = Some th → at_ th = BTop → next_batch s < nb →
  ∀ th', at_ th' = BLoop (next_batch s) (bg (next_batch s)) →
  ∀ s', threads s' = <[t := th']> (threads s) → next_batch s' = next_batch s + 1 →
  log s' = log s → shared_flow s' = shared_flow s → inv_log s'.
Proof.
  intros Hinv [L1 L2 L3 L4] Ht Hat Hlt th' Hat' s' Hths Hn Hl Hf. pose proof (bt_next s Hinv).
  destruct (batch_in (next_batch s)) as [B1 B2]; [lia|].
  split; rewrite ?Hl, ?Hf; try done. rewrite Hths, Hn.
  pose proof (gather_insert remaining (threads s) t th th' Ht) as P. unfold remaining at 1 3 in P.
  rewrite Hat, Hat' in P. cbn [app] in P. rewrite P.
  assert (E : seqZ 0 (Z.min (bg (next_batch s + 1)) n) =
              seqZ 0 (Z.min (bg (next_batch s)) n) ++
              seqZ (bg (next_batch s)) (en (next_batch s) - bg (next_batch s))).
  { rewrite (Z.min_l (bg (next_batch s))) by lia.
    replace (Z.min (bg (next_batch s + 1)) n) with
      (bg (next_batch s) + (en (next_batch s) - bg (next_batch s))) by lia.
    rewrite seqZ_app by lia. by rewrite Z.add_0_l. }
  rewrite E, <- L1. destruct (decide _); solve_Permutation.
Qed.

Lemma fst_zip_seqZ (a : Z) (l : list QueuedPacket) : (zip (seqZ a (Zlength l)) l).*1 = seqZ a (Zlength l).
Proof. apply fst_zip. rewrite length_seqZ. unfold Zlength. lia. Qed.

Lemma snd_zip_seqZ (a : Z) (l : list QueuedPacket) : (zip (seqZ a (Zlength l)) l).*2 = l.
Proof. apply snd_zip. rewrite length_seqZ. unfold Zlength. lia. Qed.

Lemma zip_range_real b :
  0 ≤ b < nb → let l := range packets (bg b) (en b) in
  Forall (λ x, packets !! Z.to_nat x.1 = Some x.2) (zip (seqZ (bg b) (Zlength l)) l).
Proof.
  intros Hb l. destruct (batch_in b Hb) as [B1 B2]. apply Forall_lookup. intros k [i p] H.
  apply lookup_zip_with_Some in H as (i' & p' & E & Hi & Hp). injection E as -> ->. cbn.
  apply lookup_seqZ in Hi as [-> Hk]. assert (Hl : Zlength l = en b - bg b) by (apply Zlength_range; lia).
  rewrite <- Hp. unfold l. symmetry. apply range_lookup; lia.
Qed.

(** The loop of a rule that reads: packet [i] is given to it. *)
Lemma loop_body_log s s' t th b i :
  inv_threads s → inv_log s → threads s !! t = Some th → at_ th = BLoop b i → i < en b →
  loop_body hash32 iter rule bs b i t th s = Some s' → inv_log s'.
Proof.
  intros Hinv Hlog Ht Hat Hi Hs.
  destruct (loop_packet s t th Hinv Ht b i Hat Hi) as (p & Hpk & Hst).
  pose proof (bt_place s Hinv _ _ Ht) as Hp. rewrite Hat in Hp. destruct Hp as (Hb & Hbn & Hbi).
  unfold loop_body in Hs. rewrite Hst in Hs. cbn [mbind option_bind] in Hs.
  destruct (decide (rule = kAll)) as [Hr|Hr].
  - rewrite Hr in Hs. cbv beta zeta iota in Hs. destruct (own _ !! _) as [q|]; [|done].
    cbn in Hs. injection Hs as <-. eapply (inv_log_quiet s _ t th _ Hlog Ht); [reflexivity|done..|].
    unfold remaining. rewrite Hat. cbn [set_own goto at_]. by rewrite !decide_True by done.
  - assert (Hcall : ∀ th' s1, at_ th' = BLoop b (i + 1) → threads s1 = <[t := th']> (threads s) →
              log s1 = log s ++ [[(i, p)]] → next_batch s1 = next_batch s →
              (rule = kFlow → shared_flow s1 = (observe hash32 iter (shared_flow s) p).1) → inv_log s1).
    { intros th' s1 E E1 E2 E3 E4. eapply (inv_log_call s s1 t th th' [(i, p)] Hlog Ht); try done.
      - unfold remaining. rewrite Hat, E, !decide_False by done. rewrite seqZ_cons by lia.
        cbn. do 2 f_equal; lia.
      - by constructor; [|constructor].
      - intros HF. rewrite (E4 HF). cbn. by destruct (observe _ _ _ _). }
    remember rule as r eqn:Er in Hs. destruct r; [..|done].
    + injection Hs as <-. eapply Hcall; [|reflexivity|done|done|congruence]. by destruct (_ <=? _).
    + injection Hs as <-. eapply Hcall; [|reflexivity|done|done|congruence]. done.
    + destruct (observe hash32 iter (shared_flow s) p) as [f a] eqn:E. injection Hs as <-.
      by eapply Hcall; [|reflexivity|..].
Qed.

Lemma batch_call_log s t th b :
  inv_threads s → inv_log s → threads s !! t = Some th → at_ th = BCall b →
  inv_log (batch_call log2 rule bs b t th s).
Proof.
  intros Hinv Hlog Ht Hat. pose proof (bt_place s Hinv _ _ Ht) as Hp. rewrite Hat in Hp.
  destruct Hp as (Hb & Hbn). destruct (batch_in b Hb) as [B1 B2].
  destruct (decide (rule = kAll)) as [Hr|Hr].
  - pose proof (bt_own s Hinv _ _ Ht) as Ho. unfold own_ok in Ho. rewrite Hr, Hat in Ho.
    unfold batch_call. rewrite Hr. cbv zeta. rewrite batch_begin_eq by done.
    assert (Hl : Zlength (own th) = en b - bg b) by (rewrite Ho; apply Zlength_range; lia).
    eapply (inv_log_call s _ t th (goto (BRules b 0) th) (zip (seqZ (bg b) (Zlength (own th))) (own th)) Hlog Ht);
      [reflexivity|done|done|..].
    + unfold remaining at 1. rewrite Hat, decide_True by done. rewrite fst_zip_seqZ, Hl.
      unfold remaining. cbn. by rewrite app_nil_r.
    + rewrite Ho. by apply zip_range_real.
    + intros _. exists b. split; [done|]. by rewrite snd_zip_seqZ.
    + rewrite Hr. done.
  - assert (Hquiet : ∀ th' s1, at_ th' = BTop → threads s1 = <[t := th']> (threads s) →
              log s1 = log s → shared_flow s1 = shared_flow s → next_batch s1 = next_batch s → inv_log s1).
    { intros th' s1 E E1 E2 E3 E4. eapply (inv_log_quiet s s1 t th th' Hlog Ht); try done.
      - by rewrite E4.
      - unfold remaining. by rewrite Hat, E, decide_False. }
    unfold batch_call. remember rule as r eqn:Er in |- *. destruct r; [..|done];
      by eapply Hquiet; [|reflexivity|..].
Qed.

Lemma thread_step_log s s' t :
  inv_threads s → inv_log s → step t s = Some s' → inv_log s'.
Proof.
  intros Hinv Hlog. unfold thread_step. destruct (threads s !! t) as [th|] eqn:Ht; [|done].
  cbn [mbind option_bind]. pose proof (bt_place s Hinv _ _ Ht) as Hp.
  assert (Hn : Zlength (store s) = n) by (unfold Zlength; by rewrite (bt_store s Hinv)).
  destruct (at_ th) as [|b i|b|b k|b i| |] eqn:Hat; cbn in Hp.
  - change (store (take_batch s)) with (store s). rewrite Hn.
    pose proof (next_no_wrap s t th Hinv Ht) as Hw. pose proof (bt_next s Hinv) as Hnext.
    destruct (Z.leb_spec nb (next_batch s)) as [Hge|Hlt]; intros [= <-].
    + eapply (inv_log_quiet s _ t th (goto BExit th) Hlog Ht); [reflexivity|done|done| |].
      * cbn [put_thread take_batch next_batch]. rewrite Hw. destruct batch_count_bounds as (_ & Hc & _). nia.
      * unfold remaining. by rewrite Hat.
    + eapply (inv_log_enter s t th Hinv Hlog Ht Hat Hlt); [|reflexivity|exact Hw|done|done].
      destruct (batch_in (next_batch s)) as [B1 B2]; [lia|]. rewrite batch_begin_eq by lia.
      by destruct rule.
  - assert (Hcur : b ∈ current (at_ th)) by (rewrite Hat; by left).
    destruct (finish_of_eq s t th Hinv Ht b Hcur) as (-> & Hbg & H0).
    destruct (Z.ltb_spec i (en b)) as [Hi|Hi]; [by apply loop_body_log|].
    intros [= <-]. assert (i = en b) as -> by lia.
    eapply (inv_log_quiet s _ t th (goto (BCall b) th) Hlog Ht); [reflexivity|done..|].
    unfold remaining. rewrite Hat. cbn [goto at_]. case_decide; [done|]. by rewrite Z.sub_diag.
  - intros [= <-]. by apply batch_call_log.
  - destruct (own th !! k); intros [= <-];
      (eapply (inv_log_quiet s _ t th _ Hlog Ht); [reflexivity|done..|]; unfold remaining; by rewrite Hat).
  - assert (Hcur : b ∈ current (at_ th)) by (rewrite Hat; by left).
    destruct (finish_of_eq s t th Hinv Ht b Hcur) as (-> & Hbg & H0).
    destruct (Z.ltb_spec i (en b)) as [Hi|Hi].
    + destruct (store s !! _) as [p|]; [|done]. destruct (own th !! _) as [q|]; [|done]. cbn.
      intros [= <-]. eapply (inv_log_quiet s _ t th _ Hlog Ht); [reflexivity|done..|].
      unfold remaining. by rewrite Hat.
    + intros [= <-]. eapply (inv_log_quiet s _ t th _ Hlog Ht); [reflexivity|done..|].
      unfold remaining. by rewrite Hat.
  - intros [= <-]. eapply (inv_log_quiet s _ t th _ Hlog Ht); [reflexivity|done..|].
    unfold remaining. by rewrite Hat.
  - done.
Qed.

(** ** Runs *)

Abbreviation play := (bench_play hash32 iter log2 rule bs).

Lemma play_inv schedule s s' :
  inv_threads s → inv_log s → play schedule s = Some s' →
  inv_threads s' ∧ inv_log s' ∧ Z.of_nat (length schedule) + measure s' ≤ measure s.
Proof.
  revert s. induction schedule as [|t rest IH]; intros s Hi Hl; cbn [bench_play].
  - intros [= <-]. cbn. split_and!; done || lia.
  - destruct (step t s) as [s1|] eqn:E; [|done]. cbn [mbind option_bind]. intros Hp.
    destruct (IH s1) as (A & B & C); [by eapply thread_step_inv|by eapply thread_step_log|done|].
    apply step_measure in E; [|done]. split_and!; try done. cbn [length]. lia.
Qed.

Lemma measure_start : measure (bench_start packets T) = nb * (3 * bs + 7) + 2 * T.
Proof.
  unfold measure. cbn [bench_start next_batch threads]. destruct batch_count_bounds as (H0 & _).
  rewrite Z.sub_0_r, Z.max_r by done. f_equal. rewrite <- (Z2Nat.id T) at 2 by done. unfold weights.
  generalize (Z.to_nat T). intros k. induction k as [|k IH]; [done|]. cbn [replicate foldr]. rewrite IH.
  cbn. lia.
Qed.

(** Packets with their indexes, each index once. *)
Lemma indexed_permutation (l : list (Z * QueuedPacket)) :
  l.*1 ≡ₚ seqZ 0 n → Forall (λ x, packets !! Z.to_nat x.1 = Some x.2) l → l.*2 ≡ₚ packets.
Proof.
  intros Hp Hr.
  assert (E : Forall2 (λ i p, packets !! Z.to_nat i = Some p) l.*1 l.*2)
    by (clear Hp; induction Hr as [|[i p] l Hx _ IH]; [apply Forall2_nil_2|by apply Forall2_cons_2]).
  assert (H : ∀ k1 k2 ps, k1 ≡ₚ k2 → Forall2 (λ i p, packets !! Z.to_nat i = Some p) k1 ps →
            ∃ qs, ps ≡ₚ qs ∧ Forall2 (λ i p, packets !! Z.to_nat i = Some p) k2 qs).
  { intros k1 k2 ps Hij. revert ps. induction Hij as [|x k1 k2 _ IH|x y k1|k1 k2 k3 _ IH1 _ IH2];
      intros ps Hps.
    - exists ps. by split.
    - apply Forall2_cons_inv_l in Hps as (p & ps' & Hp1 & Hps & ->).
      destruct (IH ps' Hps) as (qs & A & B). exists (p :: qs). split; [by f_equiv|by constructor].
    - apply Forall2_cons_inv_l in Hps as (p & ps' & Hp1 & Hps & ->).
      apply Forall2_cons_inv_l in Hps as (p' & ps'' & Hp2 & Hps & ->).
      exists (p' :: p :: ps''). split; [apply Permutation_swap|by repeat constructor].
    - destruct (IH1 ps Hps) as (qs & A & B). destruct (IH2 qs B) as (rs & C & D).
      exists rs. split; [by etransitivity|done]. }
  destruct (H _ _ _ Hp E) as (qs & A & B). rewrite A. clear H. enough (qs = packets) as -> by done.
  apply list_eq. intros k. destruct (qs !! k) as [q|] eqn:Eq.
  - destruct (Forall2_lookup_r _ _ _ _ _ B Eq) as (i & Hi & Hq).
    apply lookup_seqZ in Hi as [-> Hk]. rewrite Z.add_0_l, Nat2Z.id in Hq. by rewrite Hq.
  - apply lookup_ge_None in Eq. rewrite <- (Forall2_length _ _ _ B), length_seqZ in Eq.
    symmetry. apply lookup_ge_None. unfold Zlength in Eq. lia.
Qed.

End Run.

(** ** The thread counts *)

Lemma doublings_bounds fuel t max x :
  1 ≤ t → max ≤ 2 ^ 32 → x ∈ doublings fuel t max → t ≤ x < max.
Proof.
  intros Ht Hm. revert t Ht. induction fuel as [|fuel IH]; intros t Ht; cbn [doublings];
    [by intros ?%not_elem_of_nil|].
  destruct (Z.ltb_spec t max) as [Hlt|]; [|by intros ?%not_elem_of_nil].
  rewrite wrap_small by (unfold is_uint; lia). intros [->|Hx]%elem_of_cons; [lia|].
  apply IH in Hx; lia.
Qed.

Lemma doublings_power fuel k j max :
  0 ≤ k ≤ j → j < k + Z.of_nat fuel → 2 ^ j < max → max ≤ 2 ^ 32 → 2 ^ j ∈ doublings fuel (2 ^ k) max.
Proof.
  intros Hk. revert k Hk. induction fuel as [|fuel IH]; intros k Hk Hf Hj Hm; [lia|]. cbn [doublings].
  assert (Hle : 2 ^ k ≤ 2 ^ j) by (apply Z.pow_le_mono_r; lia).
  rewrite (proj2 (Z.ltb_lt _ _)) by lia.
  destruct (decide (k = j)) as [->|Hne]; [by left|]. right.
  assert (0 < 2 ^ k) by (apply Z.pow_pos_nonneg; lia).
  rewrite wrap_small by (unfold is_uint; lia). rewrite (Z.mul_comm _ 2), <- Z.pow_succ_r by lia.
  apply IH; lia.
Qed.

Lemma unique_elem l x : x ∈ unique l ↔ x ∈ l.
Proof.
  induction l as [|a l IH]; [done|]. destruct l as [|b l]; [done|].
  change (unique (a :: b :: l)) with (if a =? b then unique (b :: l) else a :: unique (b :: l)).
  destruct (Z.eqb_spec a b) as [->|].
  - rewrite IH, !elem_of_cons. tauto.
  - by rewrite elem_of_cons, IH, (elem_of_cons _ x a).
Qed.

Lemma unique_sorted l : StronglySorted Z.le l → StronglySorted Z.lt (unique l).
Proof.
  induction l as [|a l IH]; [constructor|]. intros [Ha Hl]%StronglySorted_cons.
  destruct l as [|b l]; [by repeat constructor|].
  change (unique (a :: b :: l)) with (if a =? b then unique (b :: l) else a :: unique (b :: l)).
  destruct (Z.eqb_spec a b) as [->|Hne]; [by apply IH|]. apply StronglySorted_cons. split; [|by apply IH].
  apply Forall_forall. intros x. rewrite unique_elem. intros Hx. apply Forall_cons in Ha as [Hab Ha].
  apply StronglySorted_cons in Hl as [Hb _]. apply elem_of_cons in Hx as [->|Hx]; [lia|].
  rewrite Forall_forall in Hb. specialize (Hb x Hx). lia.
Qed.

Lemma sorted_head l x :
  StronglySorted Z.lt l → x ∈ l → (∀ y, y ∈ l → x ≤ y) → head l = Some x.
Proof.
  destruct l as [|a l]; [by intros _ ?%not_elem_of_nil|]. intros [Ha _]%StronglySorted_cons Hx Hmin.
  cbn. f_equal. apply elem_of_cons in Hx as [->|Hx]; [done|]. rewrite Forall_forall in Ha.
  specialize (Ha x Hx). specialize (Hmin a ltac:(by left)). lia.
Qed.

Lemma sorted_last l x :
  StronglySorted Z.lt l → x ∈ l → (∀ y, y ∈ l → y ≤ x) → last l = Some x.
Proof.
  intros Hl Hx Hmax. destruct (last l) as [z|] eqn:E; [|apply last_None in E as ->; by apply not_elem_of_nil in Hx].
  apply last_Some in E as [l' ->]. f_equal.
  apply elem_of_app in Hx as [Hx|Hx%list_elem_of_singleton]; [|done].
  apply StronglySorted_app in Hl as (H & _ & _).
  specialize (H x z Hx ltac:(by left)). specialize (Hmax z ltac:(apply elem_of_app; right; by left)). lia.
Qed.

Lemma thread_counts_elem max x :
  1 ≤ max ≤ 2 ^ 32 → x ∈ thread_counts max ↔
  x ∈ doublings 64 1 max ∨ (2 < max ∧ x = max - 1) ∨ x = max.
Proof.
  intros Hm. unfold thread_counts. rewrite unique_elem, merge_sort_Permutation, !elem_of_app.
  rewrite list_elem_of_singleton. destruct (Z.ltb_spec 2 max);
    rewrite ?list_elem_of_singleton, ?elem_of_nil; intuition lia.
Qed.

(** ** The runs of [main] *)

Record analysis_options_ok (o : analysis_options) : Prop := {
  ao_batch : 1 ≤ ba_batch_size o ≤ 2 ^ 20;
  ao_reps : 1 ≤ ba_reps o ≤ 1000;
  ao_threads : 1 ≤ ba_max_threads o < 2 ^ 32
}.

Lemma analysis_value_option_ok flag o set v o' :
  analysis_options_ok o → analysis_value_option flag o = Some set → set v = Some o' →
  analysis_options_ok o'.
Proof.
  intros [H1 H2 H3]. destruct o as [path b r m]. unfold analysis_value_option.
  repeat (case_bool_decide;
    [intros [= <-] (k & Hk%parse_count_range & [= <-])%bind_Some; split; cbn in *; lia|]).
  done.
Qed.

Lemma parse_analysis_args_ok args o o' :
  analysis_options_ok o → parse_analysis_args args o = Some o' → analysis_options_ok o'.
Proof.
  enough (H : (∀ o, analysis_options_ok o → parse_analysis_args args o = Some o' → analysis_options_ok o') ∧
              (∀ arg o, analysis_options_ok o → parse_analysis_args (arg :: args) o = Some o' →
                 analysis_options_ok o'))
    by (intros; by eapply (proj1 H)).
  clear o. induction args as [|v args [IH1 IH2]].
  - split; cbn [parse_analysis_args]; [by intros o H [= <-]|].
    intros arg o [H1 H2 H3]. destruct (analysis_value_option arg o);
      (destruct (is_path arg (ba_path o)); [|done]; intros [= <-]; by split).
  - split; [intros o; apply IH2|]. intros arg o H.
    change (parse_analysis_args (arg :: v :: args) o) with
      (match analysis_value_option arg o with
       | Some set => match set v with Some o => parse_analysis_args args o | None => None end
       | None => if is_path arg (ba_path o) then parse_analysis_args (v :: args) (set_analysis_path arg o)
                 else None
       end).
    destruct (analysis_value_option arg o) as [set|] eqn:E.
    + destruct (set v) as [o1|] eqn:E1; [|done]. apply IH1. by eapply analysis_value_option_ok.
    + destruct (is_path arg (ba_path o)); [|done]. apply IH2. by destruct H.
Qed.

Lemma analysis_options_of_ok cores args o :
  is_uint 32 cores → analysis_options_of cores args = Some o → analysis_options_ok o.
Proof.
  intros Hc. unfold analysis_options_of.
  destruct (parse_analysis_args args _) as [o1|] eqn:E; [|done]. case_bool_decide; [done|].
  intros [= <-]. eapply parse_analysis_args_ok; [|exact E]. unfold is_uint in Hc.
  split; cbn; try lia. destruct (Z.ltb_spec 0 cores); lia.
Qed.

Lemma thread_counts_bounds max x : 1 ≤ max ≤ 2 ^ 32 → x ∈ thread_counts max → 1 ≤ x ≤ max.
Proof.
  intros Hm. rewrite thread_counts_elem by done. intros [Hx|[[? ->]| ->]]; [|lia..].
  apply doublings_bounds in Hx; lia.
Qed.

(** Every call of [run_rule] meets the hypotheses of the theorems on it. *)
Lemma all_runs_ready cores args o (packets : list QueuedPacket) rule t :
  is_uint 32 cores → analysis_options_of cores args = Some o → Zlength packets < 2 ^ 63 →
  (rule, t) ∈ all_runs (ba_reps o) (thread_counts (ba_max_threads o)) →
  1 ≤ ba_batch_size o ∧ 1 ≤ t ∧ Zlength packets + ba_batch_size o + t + 1 < 2 ^ 64.
Proof.
  intros Hc Ho Hlen Hin. destruct (analysis_options_of_ok cores args o Hc Ho) as [A B C].
  assert (Ht : 1 ≤ t < 2 ^ 32).
  { unfold all_runs in Hin. apply elem_of_app in Hin as [Hin|Hin].
    - apply list_elem_of_fmap in Hin as (r & [= _ ->] & _). lia.
    - apply elem_of_concat in Hin as (l & Hl & [-> _]%elem_of_replicate).
      apply elem_of_concat in Hl as (l' & Hl' & Hr).
      apply list_elem_of_fmap in Hr as (r & -> & _).
      apply list_elem_of_fmap in Hl' as (x & [= _ ->] & Hx). apply thread_counts_bounds in Hx; lia. }
  lia.
Qed.

(** A run whose threads have all ended. *)
Lemma finished_run hash32 iter log2 rule batch_size packets n_threads schedule s :
  1 ≤ batch_size → 1 ≤ n_threads → Zlength packets + batch_size + n_threads + 1 < 2 ^ 64 →
  bench_play hash32 iter log2 rule batch_size schedule (bench_start packets n_threads) = Some s →
  finished s →
  inv_threads rule batch_size packets n_threads s ∧ inv_log hash32 iter rule batch_size packets s ∧
  (∀ t th, threads s !! t = Some th → at_ th = BDone) ∧ (concat (log s)).*2 ≡ₚ packets.
Proof.
  intros Hbs HT Hw Hplay Hfin.
  destruct (play_inv hash32 iter log2 rule batch_size packets n_threads Hbs ltac:(lia) Hw schedule
    (bench_start packets n_threads) s) as (Hinv & Hlog & _);
    [apply inv_threads_start; done || lia|by apply inv_log_start|done|].
  assert (Hdone : ∀ t th, threads s !! t = Some th → at_ th = BDone)
    by (intros t th Ht; by eapply (Forall_lookup_1 _ _ _ _ Hfin)).
  split; [done|]. split; [done|]. split; [done|]. destruct Hlog as [L1 L2 L3 L4].
  assert (Hnext : batch_count (Zlength packets) batch_size ≤ next_batch s).
  { pose proof (bt_length _ _ _ _ s Hinv) as Hlen.
    destruct (threads s) as [|th ths] eqn:E; [unfold Zlength in Hlen; cbn in Hlen; lia|].
    pose proof (bt_place _ _ _ _ s Hinv 0%nat th) as Hp. rewrite E in Hp. specialize (Hp eq_refl).
    rewrite (Hdone 0%nat th eq_refl) in Hp. done. }
  apply indexed_permutation; [|done]. rewrite gather_nil, app_nil_r in L1.
  - rewrite L1. f_equiv. apply Z.min_r.
    destruct (batch_count_bounds batch_size packets n_threads) as (_ & Hb & _); [lia..|]. nia.
  - apply Forall_lookup. intros t th Ht. unfold remaining. by rewrite (Hdone t th Ht).
Qed.

(** ** Properties *)

(** C26. Every packet once, and the vector intact: however the threads interleave,
    when all have ended the rule has been given each packet of the vector exactly
    once, and every payload that was swapped out is back in its place.  What
    [analyze_batch] is called with are whole batches of the original vector, and
    the flow rule's tracker is that of its calls in their order. *)
Theorem run_rule_every_packet_once hash32 iter log2 rule batch_size packets n_threads schedule s :
  1 ≤ batch_size → 1 ≤ n_threads → Zlength packets + batch_size + n_threads + 1 < 2 ^ 64 →
  bench_play hash32 iter log2 rule batch_size schedule (bench_start packets n_threads) = Some s →
  finished s →
  store s = packets ∧ (concat (log s)).*2 ≡ₚ packets ∧
  (rule = kAll → Forall (λ call, ∃ b, 0 ≤ b < batch_count (Zlength packets) batch_size ∧
     call.*2 = range packets (b * batch_size) (Z.min (b * batch_size + batch_size) (Zlength packets)))
     (log s)) ∧
  (rule = kFlow → shared_flow s =
     (observe_all hash32 iter (FlowTracker_new FlowTrackerConfig_default) (concat (log s)).*2).1).
Proof.
  intros Hbs HT Hw Hplay Hfin.
  destruct (finished_run hash32 iter log2 rule batch_size packets n_threads schedule s Hbs HT Hw Hplay Hfin)
    as (Hinv & [L1 L2 L3 L4] & Hdone & Hgiven).
  split_and!; try done. apply list_eq. intros k. rewrite <- (Nat2Z.id k).
  apply (bt_free _ _ _ _ s Hinv); [lia|]. intros t th Ht [_ Hh]. by rewrite (Hdone t th Ht) in Hh.
Qed.

(** C27. No access outside a vector, no batch shared, and an end: in every state
    of a run each thread that has not ended can take its next action (an access
    outside [packets] or [batch] would have none), two threads are never in the
    same batch, and a run has at most [batch_count * (3 * batch_size + 7) + 2 *
    n_threads] actions. *)
Theorem run_rule_ends hash32 iter log2 rule batch_size packets n_threads schedule s :
  1 ≤ batch_size → 1 ≤ n_threads → Zlength packets + batch_size + n_threads + 1 < 2 ^ 64 →
  bench_play hash32 iter log2 rule batch_size schedule (bench_start packets n_threads) = Some s →
  (∀ t th, threads s !! t = Some th → at_ th ≠ BDone →
     is_Some (thread_step hash32 iter log2 rule batch_size t s)) ∧
  (∀ t1 t2 th1 th2 b1 b2, t1 ≠ t2 →
     threads s !! t1 = Some th1 → threads s !! t2 = Some th2 →
     b1 ∈ current (at_ th1) → b2 ∈ current (at_ th2) → b1 ≠ b2) ∧
  Z.of_nat (length schedule) ≤
    batch_count (Zlength packets) batch_size * (3 * batch_size + 7) + 2 * n_threads.
Proof.
  intros Hbs HT Hw Hplay.
  destruct (play_inv hash32 iter log2 rule batch_size packets n_threads Hbs ltac:(lia) Hw schedule
    (bench_start packets n_threads) s) as (Hinv & _ & Hm);
    [apply inv_threads_start; done || lia|by apply inv_log_start|done|].
  split_and!.
  - intros t th. by apply (thread_can_step hash32 iter log2 rule batch_size packets n_threads Hbs ltac:(lia) Hw).
  - intros t1 t2 th1 th2 b1 b2 Hne H1 H2 Hb1 Hb2 ->. by eapply (bt_alone _ _ _ _ s Hinv t1 t2).
  - rewrite measure_start in Hm by (done || lia).
    pose proof (weights_nonneg rule batch_size packets n_threads Hbs ltac:(lia) Hw s Hinv).
    unfold measure in Hm. nia.
Qed.

(** The thread counts of the report: strictly increasing from one thread,
    which the speedups are relative to, to the maximum, with every power of two
    below it and, from three threads on, the default of the program itself. *)
Theorem thread_counts_increase max_threads :
  1 ≤ max_threads ≤ 2 ^ 32 →
  StronglySorted Z.lt (thread_counts max_threads) ∧
  head (thread_counts max_threads) = Some 1 ∧ last (thread_counts max_threads) = Some max_threads ∧
  (2 < max_threads → max_threads - 1 ∈ thread_counts max_threads) ∧
  (∀ k, 0 ≤ k → 2 ^ k < max_threads → 2 ^ k ∈ thread_counts max_threads).
Proof.
  intros Hm.
  assert (Hs : StronglySorted Z.lt (thread_counts max_threads)).
  { unfold thread_counts. apply unique_sorted. apply (StronglySorted_merge_sort Z.le). }
  assert (Hrange : ∀ y, y ∈ thread_counts max_threads → 1 ≤ y ≤ max_threads).
  { intros y. by apply thread_counts_bounds. }
  assert (Hpow : ∀ k, 0 ≤ k → 2 ^ k < max_threads → 2 ^ k ∈ thread_counts max_threads).
  { intros k Hk Hlt. apply thread_counts_elem; [done|]. left.
    apply (doublings_power 64 0 k); try lia.
    enough (k < 32) by lia. apply (Z.pow_lt_mono_r_iff 2); lia. }
  split_and!; try done.
  - apply sorted_head; [done| |intros; by apply Hrange].
    destruct (decide (max_threads = 1)) as [->|]; [|by apply (Hpow 0); lia].
    apply thread_counts_elem; [done|]. auto.
  - apply sorted_last; [done| |intros; by apply Hrange]. apply thread_counts_elem; auto.
  - intros. apply thread_counts_elem; auto.
Qed.

(** *** Witnesses *)

(** Five packets in batches of two, two threads that take turns. *)
Definition bench_packets : list QueuedPacket :=
  (λ i, mk_QueuedPacket ParsedPacket_default [Z.of_nat i; 7]) <$> seq 0 5.

Definition turns : list nat := concat (replicate 13 [0%nat; 1%nat]).

Definition bench_end (schedule : list nat) : bench :=
  default (bench_start [] 0)
    (bench_play id_hash map_keys log2_powers kAll 2 schedule (bench_start bench_packets 2)).

(** In the middle both threads hold payloads. *)
Lemma run_rule_every_packet_once_witness :
  q_payload <$> store (bench_end (take 10 turns)) = [[]; []; []; []; [4; 7]] ∧
  store (bench_end (turns ++ replicate 8 0%nat)) = bench_packets ∧
  (concat (log (bench_end (turns ++ replicate 8 0%nat)))).*2 ≡ₚ bench_packets ∧
  length (log (bench_end (turns ++ replicate 8 0%nat))) = 3%nat.
Proof.
  split; [by vm_compute|].
  destruct (run_rule_every_packet_once id_hash map_keys log2_powers kAll 2 bench_packets 2
    (turns ++ replicate 8 0%nat) (bench_end (turns ++ replicate 8 0%nat))) as (A & B & _);
    [lia|lia|by vm_compute|by vm_compute|by_decide|].
  split; [exact A|]. split; [exact B|]. by vm_compute.
Defined.

Lemma run_rule_ends_witness :
  at_ <$> threads (bench_end (take 10 turns)) = [BRules 0 0; BRules 1 0] ∧
  is_Some (thread_step id_hash map_keys log2_powers kAll 2 1 (bench_end (take 10 turns))) ∧
  Z.of_nat (length (take 10 turns)) ≤ batch_count 5 2 * (3 * 2 + 7) + 2 * 2.
Proof.
  split; [by vm_compute|].
  destruct (run_rule_ends id_hash map_keys log2_powers kAll 2 bench_packets 2 (take 10 turns)
    (bench_end (take 10 turns))) as (A & _ & C); [lia|lia|by vm_compute|by vm_compute|].
  split; [|exact C]. eapply (A 1%nat); [by vm_compute|by vm_compute].
Defined.

Lemma thread_counts_increase_witness :
  thread_counts 12 = [1; 2; 4; 8; 11; 12] ∧ head (thread_counts 12) = Some 1 ∧
  last (thread_counts 12) = Some 12.
Proof.
  split; [by vm_compute|]. destruct (thread_counts_increase 12) as (_ & A & B & _); [lia|]. by split.
Defined.
