(* ===== verification/BenchAnalysisTotals.v ===== *)
(** * What a run of a rule counts ([bench_analysis.cpp])

    The sinks of the threads and the alert counter behind the engine's sink: their
    totals do not depend on how the threads interleave, up to the order in which
    the flow rules see the packets. *)
From Stdlib Require Import Floats.SpecFloat.
From S2P Require Import Prelude Packet Alert Signature FlowTracker FlowShards Entropy AnalysisEngine.
From S2P Require Import Capture Main Bench BenchAnalysis BenchAnalysisSpec.

(** What a run adds to [g_sink]: the sinks of its threads, and the alerts. *)
Definition run_sink (s : bench) : Z := wrap 64 (g_sink s + alerts (engine s)).

(** ** Sums modulo 2^64 *)

Lemma wrap_add_cong w a b d : wrap w a = wrap w b → wrap w (a + d) = wrap w (b + d).
Proof. intros H. by rewrite <- (wrap_add_l w a), H, wrap_add_l. Qed.

Lemma Zsum_fmap_app {A} (f : A → Z) l k : Zsum (f <$> l ++ k) = Zsum (f <$> l) + Zsum (f <$> k).
Proof. induction l as [|x l IH]; cbn; [lia|]. rewrite IH. lia. Qed.

Lemma Zsum_fmap_snoc {A} (f : A → Z) l x : Zsum (f <$> l ++ [x]) = Zsum (f <$> l) + f x.
Proof. rewrite Zsum_fmap_app. cbn. lia. Qed.

Lemma Zsum_zero {A} (f : A → Z) l : Forall (λ x, f x = 0) l → Zsum (f <$> l) = 0.
Proof. induction 1; cbn; lia. Qed.

Lemma Zsum_permutation l k : l ≡ₚ k → Zsum l = Zsum k.
Proof. induction 1; cbn; lia. Qed.

Lemma Zlength_concat {A B} (f : A → list B) l : Zlength (concat (f <$> l)) = Zsum ((λ x, Zlength (f x)) <$> l).
Proof. induction l as [|x l IH]; [done|]. cbn. by rewrite Zlength_app, IH. Qed.

Section Flow.
Context (hash32 : Z → Z) (iter : gmap Z PerIpState → list Z).

Lemma observe_all_snoc t l p :
  let r := observe_all hash32 iter t l in
  observe_all hash32 iter t (l ++ [p]) =
    ((observe hash32 iter r.1 p).1, r.2 ++ [(observe hash32 iter r.1 p).2]).
Proof.
  revert t. induction l as [|q l IH]; intros t; cbn [app].
  - cbn. by destruct (observe hash32 iter t p).
  - rewrite (observe_all_cons _ _ _ q l), observe_all_cons. cbv zeta. rewrite IH. done.
Qed.

(** The tracker of a run after the packets of a list, and the alerts it raised. *)
Definition tracker_after (l : list QueuedPacket) : FlowTracker :=
  (observe_all hash32 iter (FlowTracker_new FlowTrackerConfig_default) l).1.
Definition flow_alert_count (l : list QueuedPacket) : Z :=
  Zlength (concat (observe_all hash32 iter (FlowTracker_new FlowTrackerConfig_default) l).2).

Lemma tracker_after_snoc l p :
  tracker_after (l ++ [p]) = (observe hash32 iter (tracker_after l) p).1.
Proof. unfold tracker_after. by rewrite observe_all_snoc. Qed.

Lemma flow_alert_count_snoc l p :
  flow_alert_count (l ++ [p]) = flow_alert_count l + Zlength (observe hash32 iter (tracker_after l) p).2.
Proof.
  unfold flow_alert_count, tracker_after. rewrite observe_all_snoc. cbn [snd].
  rewrite concat_app, Zlength_app. cbn. by rewrite app_nil_r.
Qed.

End Flow.

(** ** Invariants *)

Definition signature_hit (p : QueuedPacket) : Z :=
  if matches SignatureDatabase_new (Some (q_payload p)) then 1 else 0.

(** The sink a thread has still to add to [g_sink]. *)
Definition pending_sink (th : thread) : Z := match at_ th with BDone => 0 | _ => t_sink th end.

Section Run.
Context (hash32 : Z → Z) (iter : gmap Z PerIpState → list Z) (log2 : spec_float → spec_float).
Context (rule : Rule) (bs : Z) (packets : list QueuedPacket) (T : Z).
Hypothesis (Hbs : 1 ≤ bs) (HT : 0 ≤ T) (Hwide : Zlength packets + bs + T + 1 < 2 ^ 64).
Hypothesis (Hrule : rule ≠ kEntropy).

Abbreviation step := (thread_step hash32 iter log2 rule bs).
Abbreviation inv_threads := (inv_threads rule bs packets T).
Abbreviation inv_log := (inv_log hash32 iter rule bs packets).

(** *** The sinks *)

Definition sink_of (given : list QueuedPacket) : Z :=
  match rule with
  | kSignature => Zsum (signature_hit <$> given)
  | kFlow => flow_alert_count hash32 iter given
  | _ => 0
  end.

Definition inv_sink (s : bench) : Prop :=
  wrap 64 (g_sink s + Zsum (pending_sink <$> threads s)) = wrap 64 (sink_of (concat (log s)).*2).

Lemma inv_sink_start : inv_sink (bench_start packets T).
Proof.
  unfold inv_sink. cbn. rewrite fmap_replicate, Zsum_replicate. unfold sink_of. destruct rule; reflexivity.
Qed.

(** An action that moves [g] to the global sink and whose thread adds [d]. *)
Lemma inv_sink_step s s' t th th' g d :
  inv_sink s → threads s !! t = Some th → threads s' = <[t := th']> (threads s) →
  wrap 64 (g_sink s') = wrap 64 (g_sink s + g) →
  wrap 64 (pending_sink th' + g) = wrap 64 (pending_sink th + d) →
  sink_of (concat (log s')).*2 = sink_of (concat (log s)).*2 + d → inv_sink s'.
Proof.
  unfold inv_sink. intros H Ht Hths Hg Hp Hc. rewrite Hths, (Zsum_insert _ _ _ th) by done.
  rewrite Hc, <- (wrap_add_cong _ _ _ d H).
  set (S := Zsum (pending_sink <$> threads s)) in *.
  rewrite (wrap_add_cong _ _ _ (S - pending_sink th + pending_sink th') Hg).
  replace (g_sink s + g + (S - pending_sink th + pending_sink th'))
    with (pending_sink th' + g + (g_sink s + S - pending_sink th)) by lia.
  rewrite (wrap_add_cong _ _ _ _ Hp). f_equal. lia.
Qed.

Lemma inv_sink_quiet s s' t th th' :
  inv_sink s → threads s !! t = Some th → threads s' = <[t := th']> (threads s) →
  g_sink s' = g_sink s → pending_sink th' = pending_sink th →
  sink_of (concat (log s')).*2 = sink_of (concat (log s)).*2 → inv_sink s'.
Proof.
  intros H Ht Hths Hg Hp Hc. eapply (inv_sink_step s s' t th th' 0 0); try done.
  - by rewrite Hg, Z.add_0_r.
  - by rewrite Hp.
  - lia.
Qed.

(** *** The alert counter *)

(** The packets of a thread's batch that the rules loop has still to come to, and
    those whose entropy alerts are still to come. *)
Definition to_rules (th : thread) : list QueuedPacket :=
  match at_ th with BRules _ k => drop k (own th) | _ => [] end.
Definition to_entropies (th : thread) : list QueuedPacket :=
  match at_ th with BRules _ _ => own th | _ => [] end.

(** The alerts of the rules loop for a packet, the flow rules apart, and of the
    entropy rule. *)
Definition signature_count (p : QueuedPacket) : Z := Zlength (signature_alerts SignatureDatabase_new p).
Definition entropy_count (p : QueuedPacket) : Z := Zlength (entropy_alerts log2 AnalysisConfig_default p).

Definition engine_count (e : engine_state) : Z :=
  Zsum (signature_count <$> e_rules e) + flow_alert_count hash32 iter (e_rules e) +
  Zsum (entropy_count <$> e_entropies e).

Record inv_engine (s : bench) : Prop := {
  en_alerts : wrap 64 (alerts (engine s)) = wrap 64 (engine_count (engine s));
  en_flow : e_flow (engine s) = tracker_after hash32 iter (e_rules (engine s));
  en_rules : rule = kAll →
    e_rules (engine s) ++ gather to_rules (threads s) ≡ₚ (concat (log s)).*2;
  en_entropies : rule = kAll →
    e_entropies (engine s) ++ gather to_entropies (threads s) ≡ₚ (concat (log s)).*2;
  en_idle : rule ≠ kAll → engine s = engine_start
}.

Lemma inv_engine_start : inv_engine (bench_start packets T).
Proof.
  split; cbn [bench_start engine threads log]; try done.
  - intros _. by rewrite gather_nil by (apply Forall_replicate; done).
  - intros _. by rewrite gather_nil by (apply Forall_replicate; done).
Qed.

(** An action that leaves the engine alone. *)
Lemma inv_engine_quiet s s' t th th' :
  inv_engine s → threads s !! t = Some th → threads s' = <[t := th']> (threads s) →
  engine s' = engine s → to_rules th' = to_rules th → to_entropies th' = to_entropies th →
  (rule = kAll → log s' = log s) → inv_engine s'.
Proof.
  intros [E1 E2 E3 E4 E5] Ht Hths He Hr Hn Hl. split; rewrite ?He; try done; intros HA.
  - rewrite Hths, (insert_same_gather _ _ _ th), (Hl HA) by done. by apply E3.
  - rewrite Hths, (insert_same_gather _ _ _ th), (Hl HA) by done. by apply E4.
Qed.

(** The call: the batch is handed to the engine. *)
Lemma inv_engine_call s s' t th th' call :
  inv_engine s → threads s !! t = Some th → threads s' = <[t := th']> (threads s) →
  engine s' = engine s → to_rules th = [] → to_entropies th = [] →
  to_rules th' = call.*2 → to_entropies th' = call.*2 → log s' = log s ++ [call] → inv_engine s'.
Proof.
  intros [E1 E2 E3 E4 E5] Ht Hths He R1 N1 R2 N2 Hl.
  assert (Hc : (concat (log s')).*2 = (concat (log s)).*2 ++ call.*2)
    by (rewrite Hl, concat_app, fmap_app; cbn; by rewrite app_nil_r).
  assert (Hg : ∀ f : thread → list QueuedPacket, f th = [] → f th' = call.*2 →
            gather f (threads s') ≡ₚ call.*2 ++ gather f (threads s)).
  { intros f F1 F2. rewrite Hths. pose proof (gather_insert f (threads s) t th th' Ht) as P.
    by rewrite F1, F2 in P. }
  split; rewrite ?He, ?Hc; try done; intros HA.
  - rewrite (Hg to_rules R1 R2), <- (E3 HA). solve_Permutation.
  - rewrite (Hg to_entropies N1 N2), <- (E4 HA). solve_Permutation.
Qed.

Lemma engine_rules_count p e :
  e_flow e = tracker_after hash32 iter (e_rules e) →
  wrap 64 (alerts e) = wrap 64 (engine_count e) →
  let e' := engine_rules hash32 iter p e in
  e_flow e' = tracker_after hash32 iter (e_rules e') ∧
  wrap 64 (alerts e') = wrap 64 (engine_count e') ∧
  e_rules e' = e_rules e ++ [p] ∧ e_entropies e' = e_entropies e.
Proof.
  intros Hf Ha. unfold engine_rules. rewrite Hf.
  pose proof (tracker_after_snoc hash32 iter (e_rules e) p) as H1.
  pose proof (flow_alert_count_snoc hash32 iter (e_rules e) p) as H2.
  destruct (observe hash32 iter (tracker_after hash32 iter (e_rules e)) p) as [flow out].
  cbn [fst snd] in *. cbv zeta. cbn [e_flow e_rules e_entropies alerts]. split_and!; [done| |done..].
  rewrite wrap_wrap, Zlength_app.
  rewrite (wrap_add_cong _ _ _ _ Ha). f_equal. unfold engine_count. cbn [e_rules e_entropies].
  rewrite H2, Zsum_fmap_snoc. change (signature_count p) with (Zlength (signature_alerts SignatureDatabase_new p)). lia.
Qed.

Lemma engine_entropies_count batch e :
  wrap 64 (alerts e) = wrap 64 (engine_count e) →
  let e' := engine_entropies log2 batch e in
  wrap 64 (alerts e') = wrap 64 (engine_count e').
Proof.
  intros Ha. unfold engine_entropies. cbn [compute CpuEntropyBackend start wait default alerts].
  cbv zeta. rewrite wrap_wrap.
  rewrite (wrap_add_cong _ _ _ _ Ha). f_equal. unfold engine_count. cbn [e_rules e_entropies].
  rewrite Zsum_fmap_app. unfold entropy_count at 3.
  rewrite <- (Zlength_concat (entropy_alerts log2 AnalysisConfig_default) batch), <- entropy_alerts_filter.
  cbn. lia.
Qed.

(** *** One action *)

Lemma given_snoc s call :
  (concat (log s ++ [call])).*2 = (concat (log s)).*2 ++ call.*2.
Proof. rewrite concat_app, fmap_app. cbn. by rewrite app_nil_r. Qed.

Lemma sink_of_all l : rule = kAll → sink_of l = 0.
Proof. intros HA. unfold sink_of. by rewrite HA. Qed.

Lemma loop_body_sink s s' t th b i :
  inv_log s → inv_sink s → threads s !! t = Some th → at_ th = BLoop b i →
  loop_body hash32 iter rule bs b i t th s = Some s' → inv_sink s'.
Proof.
  intros Hlog Hs Ht Hat. unfold loop_body. destruct (store s !! Z.to_nat i) as [p|]; [|done].
  cbn [mbind option_bind]. pose proof (lg_flow _ _ _ _ _ _ Hlog) as Hflow.
  assert (Hadd : ∀ d s1, threads s1 = <[t := add_thread_sink d (goto (BLoop b (i + 1)) th)]> (threads s) →
            g_sink s1 = g_sink s → log s1 = log s ++ [[(i, p)]] →
            sink_of ((concat (log s)).*2 ++ [p]) = sink_of (concat (log s)).*2 + d → inv_sink s1).
  { intros d s1 E1 E2 E3 E4. eapply (inv_sink_step s s1 t th _ 0 d Hs Ht E1).
    - by rewrite E2, Z.add_0_r.
    - unfold pending_sink. rewrite Hat. cbn [add_thread_sink goto at_ t_sink].
      by rewrite Z.add_0_r, wrap_wrap.
    - by rewrite E3, given_snoc. }
  destruct rule eqn:Er; [done|..].
  - intros [= <-]. eapply Hadd; [reflexivity|done..|]. unfold sink_of. rewrite Er, Zsum_fmap_snoc. done.
  - destruct (observe hash32 iter (shared_flow s) p) as [flow out] eqn:Eo. intros [= <-].
    eapply Hadd; [reflexivity|done..|]. unfold sink_of. rewrite Er, flow_alert_count_snoc. f_equal.
    unfold tracker_after. rewrite <- Hflow by done. by rewrite Eo.
  - destruct (own _ !! _) as [q|]; [|done]. cbn. intros [= <-].
    eapply (inv_sink_quiet s _ t th _ Hs Ht); [reflexivity|done| |done].
    unfold pending_sink. by rewrite Hat.
Qed.

Lemma thread_step_sink s s' t :
  inv_log s → inv_sink s → step t s = Some s' → inv_sink s'.
Proof.
  intros Hlog Hs. unfold thread_step. destruct (threads s !! t) as [th|] eqn:Ht; [|done].
  cbn [mbind option_bind].
  assert (Hquiet : ∀ th' s1, threads s1 = <[t := th']> (threads s) → g_sink s1 = g_sink s →
            at_ th ≠ BDone → at_ th' ≠ BDone → t_sink th' = t_sink th →
            sink_of (concat (log s1)).*2 = sink_of (concat (log s)).*2 → inv_sink s1).
  { intros th' s1 E1 E2 D1 D2 E3 E4. eapply (inv_sink_quiet s s1 t th th'); try done.
    unfold pending_sink. by destruct (at_ th), (at_ th'). }
  destruct (at_ th) as [|b i|b|b k|b i| |] eqn:Hat.
  - destruct (_ <=? _); intros [= <-]; [by eapply Hquiet; [reflexivity|..]|].
    eapply Hquiet; [reflexivity|..]; try done; by destruct rule.
  - destruct (_ <? _); [by eapply loop_body_sink|]. intros [= <-]. by eapply Hquiet; [reflexivity|..].
  - intros [= <-]. unfold batch_call. destruct rule eqn:Er; [done|..].
    + by eapply Hquiet; [reflexivity|..].
    + by eapply Hquiet; [reflexivity|..].
    + eapply Hquiet; [reflexivity|done..|]. by rewrite !sink_of_all.
  - destruct (own th !! k); intros [= <-]; by eapply Hquiet; [reflexivity|..].
  - destruct (_ <? _); [|intros [= <-]; by eapply Hquiet; [reflexivity|..]].
    destruct (store s !! _); [|done]. destruct (own th !! _); [|done]. cbn.
    intros [= <-]. by eapply Hquiet; [reflexivity|..].
  - intros [= <-]. eapply (inv_sink_step s _ t th (goto BDone th) (t_sink th) 0 Hs Ht); [reflexivity|..].
    + cbn. by rewrite wrap_wrap.
    + unfold pending_sink. rewrite Hat. cbn. by rewrite Z.add_0_r.
    + cbn. lia.
  - done.
Qed.

Lemma loop_body_engine s s' t th b i :
  inv_engine s → threads s !! t = Some th → at_ th = BLoop b i →
  loop_body hash32 iter rule bs b i t th s = Some s' → inv_engine s'.
Proof.
  intros He Ht Hat. unfold loop_body. destruct (store s !! Z.to_nat i) as [p|]; [|done].
  cbn [mbind option_bind].
  assert (Hquiet : ∀ th' s1, threads s1 = <[t := th']> (threads s) → at_ th' = BLoop b (i + 1) →
            engine s1 = engine s → (rule = kAll → log s1 = log s) → inv_engine s1).
  { intros th' s1 E1 E2 E3 E4. eapply (inv_engine_quiet s s1 t th th' He Ht E1 E3); [..|done].
    - unfold to_rules. by rewrite Hat, E2.
    - unfold to_entropies. by rewrite Hat, E2. }
  destruct rule eqn:Er; [done|..].
  - intros [= <-]. by eapply Hquiet; [reflexivity|..].
  - destruct (observe hash32 iter (shared_flow s) p) as [flow out]. intros [= <-].
    by eapply Hquiet; [reflexivity|..].
  - destruct (own _ !! _) as [q|]; [|done]. cbn. intros [= <-]. by eapply Hquiet; [reflexivity|..].
Qed.

(** The actions inside [analyze_batch]. *)
Lemma rules_step_engine s t th b k s' :
  inv_threads s → inv_engine s → threads s !! t = Some th → at_ th = BRules b k →
  (∃ p, own th !! k = Some p ∧ threads s' = <[t := goto (BRules b (S k)) th]> (threads s) ∧
     engine s' = engine_rules hash32 iter p (engine s)) ∨
  (own th !! k = None ∧ ∃ i, threads s' = <[t := goto (BBack b i) th]> (threads s) ∧
     engine s' = engine_entropies log2 (own th) (engine s)) →
  log s' = log s → inv_engine s'.
Proof.
  intros Hinv [E1 E2 E3 E4 E5] Ht Hat Hcase Hl.
  destruct (rules_own rule bs packets T Hbs HT Hwide s t th b k Hinv Ht Hat) as (HA & _).
  assert (Hg : ∀ (f : thread → list QueuedPacket) th' add, threads s' = <[t := th']> (threads s) →
            f th = add ++ f th' → add ++ gather f (threads s') ≡ₚ gather f (threads s)).
  { intros f th' add -> Hf. pose proof (gather_insert f (threads s) t th th' Ht) as P. rewrite Hf in P.
    apply (Permutation_app_inv_l (f th')). rewrite <- P. solve_Permutation. }
  destruct Hcase as [(p & Hp & Hths & He)|(Hp & i & Hths & He)].
  - destruct (engine_rules_count p (engine s) E2 E1) as (F1 & F2 & F3 & F4).
    assert (R : to_rules th = [p] ++ to_rules (goto (BRules b (S k)) th)).
    { unfold to_rules. rewrite Hat. cbn [goto at_ own app]. by apply drop_S. }
    rewrite F3 in F1. split; rewrite ?He, ?Hl, ?F3, ?F4; [done|done|intros _..|done].
    + rewrite <- (E3 HA), <- (Hg to_rules _ [p] Hths R). solve_Permutation.
    + rewrite Hths, (insert_same_gather _ _ _ th); [by apply E4|done|]. unfold to_entropies. by rewrite Hat.
  - pose proof (engine_entropies_count (own th) (engine s) E1) as F2.
    split; rewrite ?He, ?Hl; [done|done|intros _..|done]; cbn [engine_entropies e_rules e_entropies].
    + rewrite Hths, (insert_same_gather _ _ _ th); [by apply E3|done|]. unfold to_rules. rewrite Hat.
      cbn. symmetry. apply drop_ge. by apply lookup_ge_None.
    + rewrite <- (E4 HA), <- (Hg to_entropies (goto (BBack b i) th) (own th) Hths).
      * solve_Permutation.
      * unfold to_entropies. rewrite Hat. cbn. by rewrite app_nil_r.
Qed.

Lemma thread_step_engine s s' t :
  inv_threads s → inv_engine s → step t s = Some s' → inv_engine s'.
Proof.
  intros Hinv He. unfold thread_step. destruct (threads s !! t) as [th|] eqn:Ht; [|done].
  cbn [mbind option_bind].
  assert (Hquiet : ∀ th' s1, threads s1 = <[t := th']> (threads s) → engine s1 = engine s →
            to_rules th = [] → to_entropies th = [] → to_rules th' = [] → to_entropies th' = [] →
            (rule = kAll → log s1 = log s) → inv_engine s1).
  { intros th' s1 E1 E2 R N R' N' E4. eapply (inv_engine_quiet s s1 t th th' He Ht E1 E2); [..|done]; congruence. }
  destruct (at_ th) as [|b i|b|b k|b i| |] eqn:Hat;
    try (assert (R : to_rules th = []) by (unfold to_rules; by rewrite Hat);
         assert (N : to_entropies th = []) by (unfold to_entropies; by rewrite Hat)).
  - destruct (_ <=? _); intros [= <-]; [by eapply Hquiet; [reflexivity|..]|].
    eapply Hquiet; [reflexivity|..]; try done; by destruct rule.
  - destruct (_ <? _); [by eapply loop_body_engine|]. intros [= <-]. by eapply Hquiet; [reflexivity|..].
  - intros [= <-]. unfold batch_call. destruct rule eqn:Er; [done|..].
    + by eapply Hquiet; [reflexivity|..].
    + by eapply Hquiet; [reflexivity|..].
    + eapply (inv_engine_call s _ t th (goto (BRules b 0) th) _ He Ht); [reflexivity|done..| | |reflexivity];
        by rewrite snd_zip_seqZ.
  - destruct (own th !! k) as [p|] eqn:Ek; intros [= <-];
      (eapply (rules_step_engine s t th b k _ Hinv He Ht Hat); [|done]).
    + left. by exists p.
    + right. split; [done|]. by eexists.
  - destruct (_ <? _); [|intros [= <-]; by eapply Hquiet; [reflexivity|..]].
    destruct (store s !! _); [|done]. destruct (own th !! _); [|done]. cbn.
    intros [= <-]. by eapply Hquiet; [reflexivity|..].
  - intros [= <-]. by eapply Hquiet; [reflexivity|..].
  - done.
Qed.

Lemma play_totals schedule s s' :
  inv_threads s → inv_log s → inv_sink s → inv_engine s →
  bench_play hash32 iter log2 rule bs schedule s = Some s' → inv_sink s' ∧ inv_engine s'.
Proof.
  revert s. induction schedule as [|t rest IH]; intros s Hi Hl Hs He; cbn [bench_play].
  - by intros [= <-].
  - destruct (step t s) as [s1|] eqn:E; [|done]. cbn [mbind option_bind]. apply IH.
    + by eapply (thread_step_inv hash32 iter log2 rule bs packets T Hbs HT Hwide).
    + by eapply (thread_step_log hash32 iter log2 rule bs packets T Hbs HT Hwide).
    + by eapply thread_step_sink.
    + by eapply thread_step_engine.
Qed.

End Run.

Lemma signature_hits l :
  Zsum (signature_hit <$> l) =
  Zlength (filter (λ p, matches SignatureDatabase_new (Some (q_payload p)) = true) l).
Proof.
  induction l as [|p l IH]; [done|]. rewrite fmap_cons, filter_cons. cbn [Zsum]. rewrite IH.
  unfold signature_hit. case_decide as E.
  - rewrite E, Zlength_cons. lia.
  - destruct (matches _ _); [done|lia].
Qed.

Lemma stateless_counts log2 l :
  Zsum (signature_count <$> l) + Zsum (entropy_count log2 <$> l) =
  Zlength (concat (stateless_alerts log2 AnalysisConfig_default SignatureDatabase_new <$> l)).
Proof.
  rewrite Zlength_concat. induction l as [|p l IH]; [done|]. cbn [fmap list_fmap Zsum]. rewrite <- IH.
  unfold stateless_alerts, signature_count, entropy_count. rewrite Zlength_app. lia.
Qed.

(** ** Properties *)

(** C35. What a run of the worker benchmark adds to the sink: however its threads
    interleave, the signature rule adds the number of packets whose payload is a
    known signature; the flow rule the number of alerts its tracker raises on the
    packets in some order; and the whole engine the signature and entropy alerts
    of the packets taken one by one plus the alerts of its tracker on the packets
    in some order; all modulo 2^64. *)
Theorem run_rule_totals hash32 iter log2 rule batch_size packets n_threads schedule s :
  1 ≤ batch_size → 1 ≤ n_threads → Zlength packets + batch_size + n_threads + 1 < 2 ^ 64 →
  bench_play hash32 iter log2 rule batch_size schedule (bench_start packets n_threads) = Some s →
  finished s →
  match rule with
  | kEntropy => True
  | kSignature => run_sink s = wrap 64 (Zlength (filter (λ p,
      matches SignatureDatabase_new (Some (q_payload p)) = true) packets))
  | kFlow => ∃ calls, calls ≡ₚ packets ∧ run_sink s = wrap 64 (flow_alert_count hash32 iter calls)
  | kAll => ∃ calls, calls ≡ₚ packets ∧ run_sink s = wrap 64 (
      Zlength (concat (stateless_alerts log2 AnalysisConfig_default SignatureDatabase_new <$> packets)) +
      flow_alert_count hash32 iter calls)
  end.
Proof.
  intros Hbs HT Hw Hplay Hfin. destruct (decide (rule = kEntropy)) as [->|Hrule]; [done|].
  destruct (finished_run hash32 iter log2 rule batch_size packets n_threads schedule s Hbs HT Hw Hplay Hfin)
    as (_ & _ & Hdone & Hgiven).
  destruct (play_totals hash32 iter log2 rule batch_size packets n_threads Hbs ltac:(lia) Hw Hrule schedule
    (bench_start packets n_threads) s) as (Hs & [E1 E2 E3 E4 E5]);
    [apply inv_threads_start; done || lia|by apply inv_log_start|by apply inv_sink_start
    |by apply inv_engine_start|done|].
  assert (Hzero : Zsum (pending_sink <$> threads s) = 0).
  { apply Zsum_zero, Forall_lookup. intros t th Ht. unfold pending_sink. by rewrite (Hdone t th Ht). }
  assert (Hnil : ∀ f : thread → list QueuedPacket, (∀ th, at_ th = BDone → f th = []) → gather f (threads s) = []).
  { intros f Hf. apply gather_nil, Forall_lookup. intros t th Ht. by apply Hf, (Hdone t). }
  unfold inv_sink in Hs. rewrite Hzero, Z.add_0_r in Hs. unfold run_sink.
  rewrite (wrap_add_cong _ _ _ _ Hs).
  destruct rule; [done|..].
  - rewrite E5 by done. cbn. rewrite Z.add_0_r, signature_hits. f_equal. unfold Zlength. f_equal.
    apply Permutation_length. by rewrite Hgiven.
  - exists (concat (log s)).*2. split; [done|]. rewrite E5 by done. cbn. by rewrite Z.add_0_r.
  - specialize (E3 eq_refl). specialize (E4 eq_refl).
    rewrite Hnil, app_nil_r in E3 by (intros th Hth; unfold to_rules; by rewrite Hth).
    rewrite Hnil, app_nil_r in E4 by (intros th Hth; unfold to_entropies; by rewrite Hth).
    exists (e_rules (engine s)). split; [by rewrite E3|]. cbn [sink_of]. rewrite Z.add_0_l, E1.
    f_equal. unfold engine_count. rewrite <- stateless_counts.
    rewrite (Zsum_permutation (entropy_count log2 <$> e_entropies _) (entropy_count log2 <$> packets))
      by by rewrite E4, Hgiven.
    rewrite (Zsum_permutation (signature_count <$> e_rules _) (signature_count <$> packets))
      by by rewrite E3, Hgiven.
    lia.
Qed.

(** Three packets, one of them the EICAR string, in batches of two, two threads. *)
Definition totals_packets : list QueuedPacket :=
  [mk_QueuedPacket ParsedPacket_default (string_bytes kEicarTestString);
   mk_QueuedPacket ParsedPacket_default [1; 2]; mk_QueuedPacket ParsedPacket_default [3]].

Definition totals_end (rule : Rule) : bench :=
  default (bench_start [] 0)
    (bench_play id_hash map_keys log2_powers rule 2
       (match rule with
        | kAll => concat (replicate 10 [0%nat; 1%nat]) ++ [0%nat; 0%nat; 0%nat]
        | _ => concat (replicate 6 [0%nat; 1%nat]) ++ [0%nat]
        end) (bench_start totals_packets 2)).

Lemma run_rule_totals_witness :
  run_sink (totals_end kSignature) = 1 ∧ run_sink (totals_end kSignature) = wrap 64 (Zlength (filter (λ p,
      matches SignatureDatabase_new (Some (q_payload p)) = true) totals_packets)) ∧
  ∃ calls, calls ≡ₚ totals_packets ∧ run_sink (totals_end kAll) = wrap 64 (
    Zlength (concat (stateless_alerts log2_powers AnalysisConfig_default SignatureDatabase_new <$> totals_packets)) +
    flow_alert_count id_hash map_keys calls).
Proof.
  split; [by vm_compute|]. split.
  - apply (run_rule_totals id_hash map_keys log2_powers kSignature 2 totals_packets 2
      (concat (replicate 6 [0%nat; 1%nat]) ++ [0%nat]));
      [lia|lia|by vm_compute|by vm_compute|by_decide].
  - apply (run_rule_totals id_hash map_keys log2_powers kAll 2 totals_packets 2
      (concat (replicate 10 [0%nat; 1%nat]) ++ [0%nat; 0%nat; 0%nat]));
      [lia|lia|by vm_compute|by vm_compute|by_decide].
Defined.
