(* ===== verification/AnalysisReport.v ===== *)
(** * The output of the worker benchmark ([src/bench/bench_analysis.cpp])

    The messages of the option loop, the loading of the packets, the measurements
    and the two tables, and the exit code.  The seconds of a run are an
    argument. *)
From Stdlib Require Import Floats.SpecFloat.
From S2P Require Import Prelude Fmt FmtFloat Scan Packet Parser Capture Signature FlowTracker Entropy Main.
From S2P Require Import Bench BenchAnalysis BenchAnalysisSpec CaptureReport.

Local Open Scope string_scope.
Local Open Scope Z_scope.
Local Open Scope list_scope.

(** ** Messages *)

Definition analysis_count_error (flag : string) (max : Z) : string :=
  flag +:+ " expects a number from 1 to " +:+ fmt_lld max +:+ newline.

Definition analysis_option_max (flag : string) : Z :=
  if bool_decide (flag = "-b") then 2 ^ 20 else if bool_decide (flag = "--reps") then 1000 else 256.

(** What the loop over [argv] and the test after it print when they fail. *)
Fixpoint analysis_args_error (argv0 : string) (args : list string) (o : analysis_options) : list string :=
  match args with
  | [] =>
      if bool_decide (ba_path o = "") then ["usage: " +:+ argv0 +:+ " [options] capture.pcap" +:+ newline] else []
  | arg :: rest =>
      match analysis_value_option arg o, rest with
      | Some set, v :: rest' =>
          match set v with
          | Some o => analysis_args_error argv0 rest' o
          | None => [analysis_count_error arg (analysis_option_max arg)]
          end
      | _, _ =>
          if is_path arg (ba_path o) then analysis_args_error argv0 rest (set_analysis_path arg o)
          else ["usage: " +:+ argv0 +:+ " [-b batch] [--reps N] [--max-threads N] capture.pcap" +:+ newline]
      end
  end.

(** ** The measurements *)

Section Report.
(** The seconds of the run of rule [r] on thread count [t] (indexes) in
    repetition [rep]. *)
Context (timed : nat → nat → nat → spec_float).

Definition push_seconds (rep r t : nat) (seconds : list (list (list spec_float)))
    : list (list (list spec_float)) :=
  alter (λ row, alter (λ l, l ++ [timed rep r t]) t row) r seconds.

(** One repetition: the rules in order, for each the thread counts in order. *)
Definition measure_pairs (counts : nat) (rep : nat) (seconds : list (list (list spec_float)))
    : list (list (list spec_float)) :=
  foldl (λ s r, foldl (λ s t, push_seconds rep r t s) s (seq 0 counts)) seconds (seq 0 (length kRules)).

Definition measure_seconds (counts : nat) (reps : Z) : list (list (list spec_float)) :=
  foldl (λ s rep, measure_pairs counts rep s)
    (replicate (length kRules) (replicate counts [])) (seq 0 (Z.to_nat reps)).

(** ** The tables *)

Definition packets_per_second (n : spec_float) (samples : list spec_float) : option spec_float :=
  sec ← median samples; Some (SFdiv 53 1024 n sec).

Definition one_thread_line (name : string) (pps : spec_float) : string :=
  fmt_left 12 name +:+ " " +:+ fmt_right 14 (fmt_fixed 0 pps) +:+ " " +:+
  fmt_right 12 (fmt_fixed 0 (SFdiv 53 1024 (b64_of_uint 1000000000) pps)) +:+ newline.

Definition one_thread_row (n : spec_float) (name : string) (times : list (list spec_float)) : option string :=
  samples ← times !! 0%nat;
  pps ← packets_per_second n samples;
  Some (one_thread_line name pps).

(** [char cell[32]]. *)
Definition speedup_cell (pps one : spec_float) : string :=
  snprintf 32 (fmt_fixed 2 (SFdiv 53 1024 pps (b64_of_uint 1000000)) +:+ " (" +:+
               fmt_fixed 1 (SFdiv 53 1024 pps one) +:+ "x)").

Definition concat_text (l : list string) : string := foldr String.append "" l.

Definition speedup_cells (n : spec_float) (times : list (list spec_float)) : option (list string) :=
  first ← times !! 0%nat;
  one ← packets_per_second n first;
  mapM (λ samples, pps ← packets_per_second n samples; Some (speedup_cell pps one)) times.

Definition speedup_line (name : string) (cells : list string) : string :=
  fmt_left 12 name +:+ concat_text ((λ cell, " " +:+ fmt_right 13 cell) <$> cells) +:+ newline.

Definition speedup_row (n : spec_float) (name : string) (times : list (list spec_float)) : option string :=
  cells ← speedup_cells n times;
  Some (speedup_line name cells).

Definition analysis_banner (o : analysis_options) (count : Z) : string :=
  "worker side alone: " +:+ ba_path o +:+ ", " +:+ fmt_u count +:+ " packets in memory, batch " +:+
  fmt_u (ba_batch_size o) +:+ ", median of " +:+ fmt_lld (ba_reps o) +:+ newline +:+ newline.

Definition one_thread_header : string :=
  "one thread:" +:+ newline +:+ fmt_left 12 "rule" +:+ " " +:+ fmt_right 14 "packets/sec" +:+ " " +:+
  fmt_right 12 "ns/packet" +:+ newline.

Definition speedup_header (counts : list Z) : string :=
  newline +:+ "million packets/sec by thread count (x = speedup over one thread):" +:+ newline +:+
  fmt_left 12 "rule" +:+ concat_text ((λ t, " " +:+ fmt_right 13 (fmt_u t)) <$> counts) +:+ newline.

(** What [main] prints once the packets are loaded. *)
Definition analysis_output (o : analysis_options) (count : Z) : option (list string) :=
  let counts := thread_counts (ba_max_threads o) in
  let seconds := measure_seconds (length counts) (ba_reps o) in
  let n := b64_of_uint count in
  ones ← mapM (λ x, one_thread_row n x.1.2 x.2) (zip kRules seconds);
  rows ← mapM (λ x, speedup_row n x.1.2 x.2) (zip kRules seconds);
  Some ([analysis_banner o count; one_thread_header] ++ ones ++ [speedup_header counts] ++ rows).

(** ** [main] *)

(** [opened]: what [open_offline] answers; [handed_on]: what [capture.run] gives
    to the handler; [g_sink]: its value at the end. *)
Definition analysis_main (argv0 : string) (cores : Z) (args : list string) (opened : string → option string)
    (handed_on : list (list Z * ParsedPacket)) (g_sink : Z) : option ended :=
  match analysis_options_of cores args with
  | None => Some (mk_ended [] (analysis_args_error argv0 args (analysis_options_default cores)) 1)
  | Some o =>
      match opened (ba_path o) with
      | Some error => Some (mk_ended [] [cannot_open (ba_path o) error] 1)
      | None =>
          match load_packets handed_on with
          | None => Some (mk_ended [] [ba_path o +:+ " has no packets this parser understands" +:+ newline] 1)
          | Some packets =>
              lines ← analysis_output o (Zlength packets); Some (mk_ended lines [] (bench_exit g_sink))
          end
      end
  end.

(** ** Lemmas *)



















End Report.

(** A failing command line always gets a message. *)
Lemma analysis_args_message argv0 args o :
  (∀ o', parse_analysis_args args o = Some o' → ba_path o' = "") →
  ∃ m, analysis_args_error argv0 args o = [m].
Proof.
  remember (length args) as n eqn:En. revert args o En.
  induction (lt_wf n) as [n _ IH]. intros [|arg rest] o -> Hfail; cbn [analysis_args_error parse_analysis_args] in *.
  - rewrite (Hfail o eq_refl). by eexists.
  - destruct (analysis_value_option arg o) as [set|].
    + destruct rest as [|v rest].
      * destruct (is_path _ _); [|by eexists]. eapply IH; [|done|exact Hfail]. cbn. lia.
      * destruct (set v) as [o1|]; [|by eexists]. eapply IH; [|done|exact Hfail]. cbn. lia.
    + destruct (is_path _ _); [|by eexists]. eapply IH; [|done|exact Hfail]. cbn. lia.
Qed.

(** ** Properties *)


(** Every failure of the worker benchmark is reported: a rejected command
    line, a file that does not open and a file without a packet the parser accepts
    each end the program with exit code 1, no standard output and one line of
    error text. *)
Theorem analysis_failures_reported timed argv0 cores args opened handed_on g_sink :
  match analysis_options_of cores args with
  | Some o => handed_on = [] ∨ is_Some (opened (ba_path o))
  | None => True
  end →
  ∃ m, analysis_main timed argv0 cores args opened handed_on g_sink = Some (mk_ended [] [m] 1).
Proof.
  unfold analysis_main. intros Hfail. destruct (analysis_options_of cores args) as [o|] eqn:E.
  - destruct (opened (ba_path o)); [by eexists|]. destruct Hfail as [-> |[? ?]]; [by eexists|done].
  - destruct (analysis_args_message argv0 args (analysis_options_default cores)) as [m ->]; [|by eexists].
    intros o' Ho'. unfold analysis_options_of in E. rewrite Ho' in E. by case_bool_decide.
Qed.

(** *** Witnesses *)


Definition sample_timed (rep r t : nat) : spec_float :=
  b64_of_uint (8 + Z.of_nat rep + 4 * Z.of_nat r + Z.of_nat t).


Lemma analysis_failures_reported_witness :
  analysis_options_of 4 ["--reps"; "0"; "cap.pcap"] = None ∧
  ∃ m, analysis_main sample_timed "bench" 4 ["--reps"; "0"; "cap.pcap"] (λ _, None) [] 0 = Some (mk_ended [] [m] 1).
Proof.
  split; [by vm_compute|]. apply (analysis_failures_reported sample_timed "bench" 4 ["--reps"; "0"; "cap.pcap"]).
  exact I.
Defined.
