(* ===== verification/BenchEntropy.v ===== *)
(** * The entropy benchmark ([src/bench/bench_entropy.cpp])

    The generated payloads, one pass of a backend over them in batches, and the
    rows of the table.  A backend is the [EntropyBackend] of [AnalysisEngine]; the
    clock is an argument.  [std::mt19937] is modelled as the C++ standard defines
    it. *)
From Stdlib Require Import Floats.SpecFloat.
From stdpp Require Import sorting.
From S2P Require Import Prelude Packet Entropy AnalysisEngine Main Bench.

(** ** [std::mt19937] *)

(** The state after seeding: [x_i = 1812433253 * (x_(i-1) xor (x_(i-1) >> 30)) + i]. *)
Fixpoint mt_seed_from (k : nat) (i x : Z) : list Z :=
  match k with
  | O => []
  | S k => x :: mt_seed_from k (i + 1) (wrap 32 (1812433253 * Z.lxor x (Z.shiftr x 30) + (i + 1)))
  end.

Definition mt_seed (seed : Z) : list Z := mt_seed_from 624 0 (wrap 32 seed).

(** The next word: the state is the last 624 words, the oldest first. *)
Definition mt_next (state : list Z) : Z * list Z :=
  match state with
  | x0 :: (x1 :: _) as rest =>
      let y := Z.lor (Z.land x0 0x80000000) (Z.land x1 0x7fffffff) in
      let xa := Z.lxor (Z.shiftr y 1) (if Z.testbit y 0 then 0x9908b0df else 0) in
      let x := Z.lxor (default 0 (state !! 397%nat)) xa in
      (x, rest ++ [x])
  | _ => (0, state)
  end.

Definition mt_temper (x : Z) : Z :=
  let z := Z.lxor x (Z.land (Z.shiftr x 11) 0xffffffff) in
  let z := Z.lxor z (Z.land (wrap 32 (Z.shiftl z 7)) 0x9d2c5680) in
  let z := Z.lxor z (Z.land (wrap 32 (Z.shiftl z 15)) 0xefc60000) in
  Z.lxor z (Z.shiftr z 18).

Definition mt_output (state : list Z) : Z * list Z :=
  let '(x, state) := mt_next state in (mt_temper x, state).

(** ** [make_packets] *)

Fixpoint random_bytes (k : nat) (rng : list Z) : list Z * list Z :=
  match k with
  | O => ([], rng)
  | S k =>
      let '(x, rng) := mt_output rng in
      let '(l, rng) := random_bytes k rng in
      (wrap 8 x :: l, rng)
  end.

Fixpoint make_packets_from (count : nat) (payload_bytes : Z) (rng : list Z) : list QueuedPacket :=
  match count with
  | O => []
  | S count =>
      let '(payload, rng) := random_bytes (Z.to_nat payload_bytes) rng in
      mk_QueuedPacket ParsedPacket_default payload :: make_packets_from count payload_bytes rng
  end.

Definition make_packets (count payload_bytes : Z) : list QueuedPacket :=
  make_packets_from (Z.to_nat count) payload_bytes (mt_seed 99).

(** ** [time_backend] *)

Definition kReps : nat := 7.
Definition kMaxPackets : Z := 65536.
Definition kMaxBatchesPerRun : Z := 512.

Section Backend.
Context (backend : EntropyBackend).

(** [one_pass] from index [i] on; [None] is the exit of a failed backend.  The
    result is what is appended to [results]. *)
Fixpoint one_pass_from (fuel : nat) (packets : list QueuedPacket) (batch_size i : Z)
    : option (list spec_float) :=
  match fuel with
  | O => Some []
  | S fuel =>
      if i <? Zlength packets then
        let batch := range packets i (std_min (wrap 64 (i + batch_size)) (Zlength packets)) in
        out ← compute backend batch;
        rest ← one_pass_from fuel packets batch_size (wrap 64 (i + batch_size));
        Some (out ++ rest)
      else Some []
  end.

Definition one_pass (keep : bool) (packets : list QueuedPacket) (batch_size : Z)
    : option (list spec_float) :=
  out ← one_pass_from (length packets) packets batch_size 0;
  Some (if keep then out else []).

(** [clock]: what it measures for each of the [kReps] passes. *)
Definition time_backend (clock : nat → spec_float) (packets : list QueuedPacket) (batch_size : Z)
    : option (spec_float * list spec_float) :=
  _ ← one_pass false packets batch_size;
  _ ← mapM (λ _, one_pass false packets batch_size) (seq 0 kReps);
  results ← one_pass true packets batch_size;
  let sorted := merge_sort double_le (clock <$> seq 0 kReps) in
  middle ← sorted !! (length sorted / 2)%nat;
  Some (middle, results).

End Backend.

(** ** The rows *)

(** [std::max(a, b)]. *)
Definition d_max (a b : spec_float) : spec_float := if SFltb a b then b else a.

(** The loop that compares a backend's results with those of the CPU. *)
Definition max_error (results cpu_results : list spec_float) : spec_float :=
  foldl d_max (b64_of_uint 0)
    (zip_with (λ r c, SFabs (SFsub 53 1024 r c)) results cpu_results).

Record Row : Type := mk_Row {
  r_backend : string;
  r_payload_bytes : Z;
  r_batch_size : Z;
  r_packets_per_sec : spec_float;
  r_megabytes_per_sec : spec_float;
  r_max_abs_error : spec_float
}.

(** How many of the packets one pass takes. *)
Definition pass_count (batch : Z) : Z := std_min kMaxPackets (wrap 64 (batch * kMaxBatchesPerRun)).

Definition bench_row (name : string) (payload batch : Z) (seconds : spec_float)
    (results cpu_results : list spec_float) : Row :=
  let pps := SFdiv 53 1024 (b64_of_uint (pass_count batch)) seconds in
  mk_Row name payload batch pps
    (SFdiv 53 1024 (SFmul 53 1024 pps (b64_of_uint payload)) (b64_of_uint 1000000))
    (max_error results cpu_results).

(** A backend with its [name()] and the seconds measured for its passes. *)
Definition timed_backend : Type := string * EntropyBackend * (nat → spec_float).

(** The rows of one payload size and batch size, the backends in order, and the
    name of the backend that failed, if any: the program ends there.  The CPU
    results are those of the last backend named "cpu". *)
Fixpoint backend_rows (backends : list timed_backend) (payload batch : Z) (packets : list QueuedPacket)
    (cpu_results : list spec_float) : list Row * option string :=
  match backends with
  | [] => ([], None)
  | (name, backend, clock) :: rest =>
      match time_backend backend clock packets batch with
      | None => ([], Some name)
      | Some (seconds, results) =>
          let cpu_results := if bool_decide (name = "cpu") then results else cpu_results in
          let '(rows, failed) := backend_rows rest payload batch packets cpu_results in
          (bench_row name payload batch seconds results cpu_results :: rows, failed)
      end
  end.

Definition payload_sizes : list Z := [64; 512; 1460].
Definition batch_sizes : list Z := [1; 16; 64; 256; 1024; 4096].

Definition configurations : list (Z * Z) :=
  concat ((λ payload, (λ batch, (payload, batch)) <$> batch_sizes) <$> payload_sizes).

Definition configuration_packets (payload batch : Z) : list QueuedPacket :=
  take (Z.to_nat (pass_count batch)) (make_packets kMaxPackets payload).

(** The loops of [main]: the rows of each payload size and batch size, up to the
    first failure. *)
Fixpoint row_groups (timings : Z → Z → list timed_backend) (todo : list (Z * Z))
    : list (list Row) * option string :=
  match todo with
  | [] => ([], None)
  | (payload, batch) :: rest =>
      let '(rows, failed) := backend_rows (timings payload batch) payload batch
                               (configuration_packets payload batch) [] in
      match failed with
      | Some name => ([rows], Some name)
      | None => let '(groups, failed) := row_groups timings rest in (rows :: groups, failed)
      end
  end.

(** ** Lemmas *)

(** The 10000th output for the default seed, as the standard prescribes. *)
Fixpoint mt_skip (k : nat) (state : list Z) : list Z :=
  match k with O => state | S k => mt_skip k (mt_output state).2 end.

Example mt19937_10000th : (mt_output (mt_skip (Z.to_nat 9999) (mt_seed 5489))).1 = 4123659995.
Proof. by vm_compute. Qed.

Lemma random_bytes_ok k rng :
  bytes_ok (random_bytes k rng).1 ∧ length (random_bytes k rng).1 = k.
Proof.
  revert rng. induction k as [|k IH]; intros rng; [by split; [constructor|]|]. cbn [random_bytes].
  destruct (mt_output rng) as [x rng1]. specialize (IH rng1).
  destruct (random_bytes k rng1) as [l rng2]. cbn [fst length] in *. destruct IH as [A B].
  split; [|by rewrite B]. constructor; [by apply wrap_range|done].
Qed.

(** The generated packets: as many as asked for, each with a payload of bytes of
    the size asked for. *)
Lemma make_packets_shape count payload :
  0 ≤ count → 0 ≤ payload →
  Zlength (make_packets count payload) = count ∧
  Forall (λ p, payload_size p = payload ∧ bytes_ok (q_payload p)) (make_packets count payload).
Proof.
  intros Hc Hp. unfold make_packets.
  enough (H : ∀ k rng, Zlength (make_packets_from k payload rng) = Z.of_nat k ∧
            Forall (λ p, payload_size p = payload ∧ bytes_ok (q_payload p)) (make_packets_from k payload rng)).
  { destruct (H (Z.to_nat count) (mt_seed 99)) as [A B]. rewrite Z2Nat.id in A by done. by split. }
  induction k as [|k IH]; intros rng; [by split; [|constructor]|].
  cbn [make_packets_from]. pose proof (random_bytes_ok (Z.to_nat payload) rng) as [A B].
  destruct (random_bytes (Z.to_nat payload) rng) as [l rng1]. cbn [fst] in *.
  destruct (IH rng1) as [C D]. split; [rewrite Zlength_cons; lia|].
  constructor; [|done]. unfold payload_size, Zlength. cbn. split; [lia|done].
Qed.

(** A backend that answers every batch with one value per packet. *)
Definition always_answers (backend : EntropyBackend) : Prop :=
  ∀ batch, batch ≠ [] → backend_answers backend batch = true.

Lemma faithful_answer log2 backend `{!FaithfulBackend log2 backend} batch :
  always_answers backend → batch ≠ [] → compute backend batch = Some (payload_entropy log2 <$> batch).
Proof.
  intros Ha Hne. specialize (Ha batch Hne). unfold backend_answers in Ha.
  destruct (compute backend batch) as [values|] eqn:E; [|done]. f_equal.
  apply Z.eqb_eq in Ha. apply (faithful log2 batch values E). unfold Zlength in Ha. lia.
Qed.

(** A backend whose answer to each batch of a pass over [packets] is [value] of
    its packets. *)
Definition answers_with (value : QueuedPacket → spec_float) (backend : EntropyBackend) (batch_size : Z)
    (packets : list QueuedPacket) : Prop :=
  ∀ batch, batch ≠ [] → Zlength batch ≤ batch_size → batch ⊆ packets →
    compute backend batch = Some (value <$> batch).

Lemma faithful_answers_with log2 backend `{!FaithfulBackend log2 backend} batch_size packets :
  always_answers backend → answers_with (payload_entropy log2) backend batch_size packets.
Proof. intros Ha batch Hne _ _. by apply faithful_answer. Qed.

Section Pass.
Context (value : QueuedPacket → spec_float) (backend : EntropyBackend).
Context (batch_size : Z) (packets : list QueuedPacket).
Hypothesis (Hanswers : answers_with value backend batch_size packets).
Hypothesis (Hb : 1 ≤ batch_size) (Hw : Zlength packets + batch_size < 2 ^ 64).

Lemma one_pass_from_answers fuel i :
  0 ≤ i → Zlength packets - i ≤ Z.of_nat fuel →
  one_pass_from backend fuel packets batch_size i = Some (value <$> range packets i (Zlength packets)).
Proof using Hanswers Hb Hw.
  revert i. induction fuel as [|fuel IH]; intros i Hi Hf; cbn [one_pass_from].
  - by rewrite range_nil by lia.
  - destruct (Z.ltb_spec i (Zlength packets)) as [Hlt|]; [|by rewrite range_nil by lia].
    rewrite wrap_small by (unfold is_uint; lia).
    set (m := std_min (i + batch_size) (Zlength packets)).
    assert (Hm : i < m ≤ Zlength packets ∧ m - i ≤ batch_size ∧
              (m = i + batch_size ∨ Zlength packets ≤ i + batch_size)) by (unfold m, std_min; lia).
    assert (Hlen : Zlength (range packets i m) = m - i) by (apply Zlength_range; lia).
    assert (Hne : range packets i m ≠ []) by (intros E; rewrite E, Zlength_nil in Hlen; lia).
    rewrite Hanswers; [|done|lia|apply range_incl].
    cbn [mbind option_bind]. rewrite IH by lia. cbn. rewrite <- fmap_app. do 2 f_equal.
    rewrite <- (range_app packets i m (Zlength packets)) by lia. f_equal.
    destruct Hm as (_ & _ & [-> |Hm]); [done|]. rewrite range_nil by lia.
    symmetry. apply range_past. unfold m, std_min. lia.
Qed.

Lemma time_backend_answers clock :
  ∃ middle, time_backend backend clock packets batch_size = Some (middle, value <$> packets).
Proof using Hanswers Hb Hw.
  assert (Hpass : ∀ keep, one_pass backend keep packets batch_size =
            Some (if keep then value <$> packets else [])).
  { intros keep. unfold one_pass. rewrite one_pass_from_answers by (unfold Zlength in *; lia).
    by rewrite range_full. }
  unfold time_backend. rewrite !Hpass. cbn [mbind option_bind].
  set (sorted := merge_sort double_le (clock <$> seq 0 kReps)).
  assert (Hl : length sorted = kReps) by (unfold sorted; by rewrite merge_sort_Permutation, length_fmap, length_seq).
  destruct (lookup_lt_is_Some_2 sorted (length sorted / 2)) as [middle Hmid]; [rewrite Hl; apply Nat.div_lt; unfold kReps; lia|].
  exists middle. cbn [mapM seq kReps]. rewrite Hmid. done.
Qed.

End Pass.

(** [|x - x|] never exceeds zero: it is zero, or a NaN that compares with
    nothing. *)
Lemma d_max_self x : d_max (b64_of_uint 0) (SFabs (SFsub 53 1024 x x)) = b64_of_uint 0.
Proof.
  unfold d_max. destruct x as [[]|[]| |s m e]; try done.
  unfold SFsub. rewrite Z.sub_diag. by destruct e.
Qed.

Lemma max_error_self l : max_error l l = b64_of_uint 0.
Proof.
  unfold max_error. induction l as [|x l IH]; [done|]. cbn [zip_with foldl]. by rewrite d_max_self.
Qed.

Lemma cpu_always_answers log2 : always_answers (CpuEntropyBackend log2).
Proof.
  intros batch _. unfold backend_answers. cbn. unfold Zlength. rewrite length_fmap. apply Z.eqb_refl.
Qed.

(** A NaN among the results leaves no trace in the error: [std::max] keeps its
    first argument when the comparison is false. *)
Lemma max_error_ignores_nan c : max_error [S754_nan] [c] = b64_of_uint 0.
Proof. by destruct c as [| | |[]]. Qed.

(** The row a backend gets whose answers are [value], next to a CPU whose answers
    are [cpu]. *)
Definition row_of (x : timed_backend * (QueuedPacket → spec_float)) (cpu : QueuedPacket → spec_float)
    (payload batch : Z) (packets : list QueuedPacket) (r : Row) : Prop :=
  ∃ seconds, r = bench_row x.1.1.1 payload batch seconds (x.2 <$> packets) (cpu <$> packets).

Lemma backend_rows_answers cpu backends payload batch packets :
  1 ≤ batch → Zlength packets + batch < 2 ^ 64 →
  Forall (λ x : timed_backend * (QueuedPacket → spec_float),
    answers_with x.2 x.1.1.2 batch packets ∧ (x.1.1.1 = "cpu" → x.2 = cpu)) backends →
  ∃ rows, backend_rows backends.*1 payload batch packets (cpu <$> packets) = (rows, None) ∧
    Forall2 (λ x r, row_of x cpu payload batch packets r) backends rows.
Proof.
  intros Hb Hw. induction 1 as [|[[[name backend] clock] value] rest [Ha Hcpu] _ IH]; [by exists []|].
  cbn [fst snd] in *. cbn [fmap list_fmap backend_rows fst].
  destruct (time_backend_answers value backend batch packets Ha Hb Hw clock) as (t & ->).
  assert (E : (if bool_decide (name = "cpu") then value <$> packets else cpu <$> packets) = cpu <$> packets)
    by (case_bool_decide; [by rewrite Hcpu|done]).
  rewrite E. destruct IH as (rows & -> & Hrows). eexists. split; [done|]. constructor; [by eexists|done].
Qed.

(** The CPU backend first: nothing is assumed of the results before it. *)
Lemma cpu_backend_rows log2 clock rest payload batch packets :
  1 ≤ batch → Zlength packets + batch < 2 ^ 64 →
  Forall (λ x : timed_backend * (QueuedPacket → spec_float),
    answers_with x.2 x.1.1.2 batch packets ∧ (x.1.1.1 = "cpu" → x.2 = payload_entropy log2)) rest →
  let all := (("cpu", CpuEntropyBackend log2, clock), payload_entropy log2) :: rest in
  ∃ rows, backend_rows all.*1 payload batch packets [] = (rows, None) ∧
    Forall2 (λ x r, row_of x (payload_entropy log2) payload batch packets r) all rows.
Proof.
  intros Hb Hw Hrest all.
  assert (Hcpu : answers_with (payload_entropy log2) (CpuEntropyBackend log2) batch packets)
    by (apply faithful_answers_with; [apply _|apply cpu_always_answers]).
  destruct (backend_rows_answers (payload_entropy log2) all payload batch packets Hb Hw) as (rows & E & Hrows).
  { constructor; [|exact Hrest]. by split. }
  exists rows. split; [|exact Hrows]. rewrite <- E. unfold all. cbn [fmap list_fmap backend_rows fst].
  destruct (time_backend _ _ _ _) as [[t results]|]; [|done]. by rewrite bool_decide_eq_true_2.
Qed.

(** A backend of the table that keeps to the contract. *)
Definition reliable log2 (x : timed_backend) : Prop := FaithfulBackend log2 x.1.2 ∧ always_answers x.1.2.

(** ** Properties *)

(** The error column is sound for the CPU and for every backend that keeps
    to the contract: whatever the packets and the batch size, with the CPU backend
    first each backend that answers every batch with the CPU values gets a row,
    and its error is exactly zero; so the way a pass is cut into batches never
    shows as an error. *)
Theorem error_column_zero log2 clock rest payload batch packets :
  1 ≤ batch → Zlength packets + batch < 2 ^ 64 → Forall (reliable log2) rest →
  ∃ rows, backend_rows (("cpu", CpuEntropyBackend log2, clock) :: rest) payload batch packets [] =
            (rows, None) ∧
    length rows = S (length rest) ∧ Forall (λ r, r_max_abs_error r = b64_of_uint 0) rows.
Proof.
  intros Hb Hw Hr.
  destruct (cpu_backend_rows log2 clock ((λ x, (x, payload_entropy log2)) <$> rest) payload batch packets Hb Hw)
    as (rows & E & Hrows).
  { apply Forall_fmap. eapply Forall_impl; [exact Hr|]. intros x [Hf Ha]. split; [|done].
    cbn. by apply faithful_answers_with. }
  exists rows. cbn [fmap list_fmap fst] in E. rewrite <- list_fmap_compose in E. cbn in E.
  rewrite list_fmap_id in E. split; [done|]. pose proof (Forall2_length _ _ _ Hrows) as Hl. cbn in Hl.
  rewrite length_fmap in Hl. split; [done|].
  apply Forall_lookup. intros i r Hi. destruct (Forall2_lookup_r _ _ _ _ _ Hrows Hi) as (x & Hx & t & ->).
  assert (Hv : x.2 = payload_entropy log2).
  { apply list_elem_of_lookup_2, elem_of_cons in Hx as [->|(y & -> & _)%list_elem_of_fmap]; done. }
  rewrite Hv. apply max_error_self.
Qed.

(** The first payloads of [make_packets], three packets in batches of two. *)
Lemma error_column_zero_witness :
  ∃ rows, backend_rows [("cpu", CpuEntropyBackend log2_powers, λ _, b64_of_uint 1);
                        ("twin", CpuEntropyBackend log2_powers, λ _, b64_of_uint 2)] 4 2
            (make_packets 3 4) [] = (rows, None) ∧
    length rows = 2%nat ∧ Forall (λ r, r_max_abs_error r = b64_of_uint 0) rows ∧
    r_packets_per_sec <$> rows = [b64_of_uint 1024; b64_of_uint 512].
Proof.
  destruct (error_column_zero log2_powers (λ _, b64_of_uint 1)
    [("twin", CpuEntropyBackend log2_powers, λ _, b64_of_uint 2)] 4 2 (make_packets 3 4))
    as (rows & E & F & G); [lia|by vm_compute|..].
  - constructor; [|constructor]. split; [apply _|apply cpu_always_answers].
  - exists rows. split; [exact E|]. split; [exact F|]. split; [exact G|].
    assert (H : r_packets_per_sec <$> (backend_rows [("cpu", CpuEntropyBackend log2_powers, λ _, b64_of_uint 1);
                    ("twin", CpuEntropyBackend log2_powers, λ _, b64_of_uint 2)] 4 2
        (make_packets 3 4) []).1 = [b64_of_uint 1024; b64_of_uint 512]) by by vm_compute.
    by rewrite E in H.
Defined.
