(* ===== verification/EntropyReport.v ===== *)
(** * The output of the entropy benchmark ([src/bench/bench_entropy.cpp])

    The option loop, the choice of the backends, the table, the CSV file and the
    exit code, around the rows of [BenchEntropy].  What [fopen] answers and the
    state of the GPU are arguments. *)
From Stdlib Require Import Floats.SpecFloat.
From S2P Require Import Prelude Fmt FmtFloat Scan Packet Entropy GpuKernel Metal MetalSpec AnalysisEngine GpuBackend.
From S2P Require Import Main Bench BenchEntropy.

Local Open Scope string_scope.
Local Open Scope Z_scope.
Local Open Scope list_scope.

(** ** The command line *)

(** The loop over [argv]: the CSV path, if one is given; [None] is a usage error. *)
Fixpoint csv_path_from (args : list string) (csv_path : option string) : option (option string) :=
  match args with
  | [] => Some csv_path
  | arg :: rest =>
      match rest with
      | v :: rest' => if bool_decide (arg = "--csv") then csv_path_from rest' (Some v) else None
      | [] => None
      end
  end.

Definition entropy_usage (argv0 : string) : string :=
  "usage: " +:+ argv0 +:+ " [--csv path]" +:+ newline.

(** ** The backends *)

(** What the build and the machine offer besides the CPU. *)
Inductive gpu_support : Type :=
  | NoMetal
  | GpuUnavailable (error : string)
  | GpuReady (name : string) (backend : EntropyBackend).

Section Run.
(** [clock]: the seconds of the passes, by backend, payload size, batch size and
    repetition. *)
Context (log2 : spec_float → spec_float) (clock : nat → Z → Z → nat → spec_float).

(** The lines printed before the table and the backends; an error is the message
    of the exit. *)
Definition choose_backends (gpu : gpu_support) : (list string * (Z → Z → list timed_backend)) + string :=
  let cpu payload batch := ("cpu", CpuEntropyBackend log2, clock 0%nat payload batch) in
  match gpu with
  | NoMetal => inl (["(no Metal in this build: CPU rows only)" +:+ newline], λ payload batch, [cpu payload batch])
  | GpuUnavailable error => inr ("GPU unavailable: " +:+ error +:+ newline)
  | GpuReady name backend =>
      inl ([], λ payload batch, [cpu payload batch; (name, backend, clock 1%nat payload batch)])
  end.

End Run.

(** ** The table *)

Definition table_line (backend payload batch pps mbs ratio err : string) : string :=
  fmt_left 22 backend +:+ " " +:+ fmt_right 8 payload +:+ " " +:+ fmt_right 6 batch +:+ " " +:+
  fmt_right 14 pps +:+ " " +:+ fmt_right 10 mbs +:+ " " +:+ ratio +:+ " " +:+ fmt_right 10 err +:+ newline.

Definition table_header : string :=
  table_line "backend" "payload" "batch" "packets/sec" "MB/s" (fmt_right 8 "vs cpu") "max err".

(** [cpu_pps > 0 ? pps / cpu_pps : 0.0]. *)
Definition vs_cpu (pps cpu_pps : spec_float) : spec_float :=
  if SFltb (b64_of_uint 0) cpu_pps then SFdiv 53 1024 pps cpu_pps else b64_of_uint 0.

Definition row_line (r : Row) (cpu_pps : spec_float) : string :=
  table_line (r_backend r) (fmt_u (r_payload_bytes r)) (fmt_u (r_batch_size r))
    (fmt_fixed 0 (r_packets_per_sec r)) (fmt_fixed 1 (r_megabytes_per_sec r))
    (fmt_right 7 (fmt_fixed 2 (vs_cpu (r_packets_per_sec r) cpu_pps)) +:+ "x")
    (fmt_general 2 (r_max_abs_error r)).

(** The lines of one payload size and batch size; [cpu_pps] is the rate of the
    last row of the CPU. *)
Fixpoint group_lines (rows : list Row) (cpu_pps : spec_float) : list string :=
  match rows with
  | [] => []
  | r :: rest =>
      let cpu_pps := if bool_decide (r_backend r = "cpu") then r_packets_per_sec r else cpu_pps in
      row_line r cpu_pps :: group_lines rest cpu_pps
  end.

(** ** The CSV file *)

Definition csv_fields_line (fields : list string) : string :=
  match fields with
  | [] => newline
  | first :: rest => first +:+ foldr (λ f s, String ","%char (f +:+ s)) newline rest
  end.

Definition csv_header_fields : list string :=
  ["backend"; "payload_bytes"; "batch_size"; "packets_per_sec"; "megabytes_per_sec"; "max_abs_error"].

Definition csv_fields (r : Row) : list string :=
  [r_backend r; fmt_u (r_payload_bytes r); fmt_u (r_batch_size r); fmt_fixed 0 (r_packets_per_sec r);
   fmt_fixed 2 (r_megabytes_per_sec r); fmt_general 3 (r_max_abs_error r)].

Definition csv_text (rows : list Row) : string :=
  foldr String.append "" (csv_fields_line <$> csv_header_fields :: (csv_fields <$> rows)).

(** ** [main] *)

Record entropy_outcome : Type := mk_entropy_outcome {
  e_out : list string;
  e_err : list string;
  e_file : option (string * string);
  e_code : Z
}.

(** [fopen]: the error text, if the file cannot be opened for writing. *)
Definition entropy_main (log2 : spec_float → spec_float) (clock : nat → Z → Z → nat → spec_float)
    (gpu : gpu_support) (fopen : string → option string) (argv0 : string) (args : list string)
    : entropy_outcome :=
  match csv_path_from args None with
  | None => mk_entropy_outcome [] [entropy_usage argv0] None 1
  | Some csv_path =>
      match choose_backends log2 clock gpu with
      | inr error => mk_entropy_outcome [] [error] None 1
      | inl (banner, backends) =>
          let '(groups, failed) := row_groups backends configurations in
          let out := banner ++ [table_header] ++ concat ((λ g, group_lines g (b64_of_uint 0)) <$> groups) in
          match failed with
          | Some name => mk_entropy_outcome out [name +:+ " backend failed" +:+ newline] None 1
          | None =>
              match csv_path with
              | None => mk_entropy_outcome out [] None 0
              | Some path =>
                  match fopen path with
                  | Some error => mk_entropy_outcome out [path +:+ ": " +:+ error +:+ newline] None 1
                  | None => mk_entropy_outcome out [] (Some (path, csv_text (concat groups))) 0
                  end
              end
          end
      end
  end.

Example header_text : table_header =
  "backend                 payload  batch    packets/sec       MB/s   vs cpu    max err" +:+ newline.
Proof. by vm_compute. Qed.

Example csv_header_text : csv_text [] =
  "backend,payload_bytes,batch_size,packets_per_sec,megabytes_per_sec,max_abs_error" +:+ newline.
Proof. by vm_compute. Qed.

(** ** A reader of CSV text *)

(** The pieces of [s] between occurrences of [c]. *)
Fixpoint split_on (c : Ascii.ascii) (s : string) : list string :=
  match s with
  | "" => [""]
  | String d s' =>
      if Ascii.eqb c d then "" :: split_on c s'
      else match split_on c s' with
           | [] => [String d ""]
           | p :: ps => String d p :: ps
           end
  end.

(** The lines of the text, each cut into its fields; what follows the last
    newline is dropped. *)
Definition read_csv (text : string) : list (list string) :=
  split_on ","%char <$> removelast (split_on "010"%char text).

(** ** Lemmas: the text of numbers *)

Lemma has_char_app c s t : has_char c (s +:+ t) = has_char c s || has_char c t.
Proof. induction s as [|d s IH]; cbn; [done|]. by destruct (Ascii.eqb c d). Qed.

(** Characters that no printed number contains. *)
Definition not_numeric (c : Ascii.ascii) : Prop := has_char c "0123456789.-+einfa" = false.

Lemma not_numeric_digits c : not_numeric c → has_char c "0123456789" = false.
Proof.
  unfold not_numeric. change "0123456789.-+einfa" with ("0123456789" +:+ ".-+einfa").
  rewrite has_char_app. by intros [H _]%orb_false_iff.
Qed.

Lemma not_numeric_in c d : not_numeric c → has_char d "0123456789.-+einfa" = true → Ascii.eqb c d = false.
Proof. intros Hc Hd. destruct (Ascii.eqb_spec c d) as [->|]; [|done]. unfold not_numeric in Hc. congruence. Qed.

Lemma no_char_cons c d s : Ascii.eqb c d = false → has_char c s = false → has_char c (String d s) = false.
Proof. cbn. by intros ->. Qed.

Lemma has_char_pad_digits c n v s :
  not_numeric c → has_char c s = false → has_char c (pad_digits n v s) = false.
Proof.
  intros Hc. revert v s. induction n as [|n IH]; intros v s Hs; cbn [pad_digits]; [done|].
  apply IH, no_char_cons; [|done]. by apply pretty_N_char_no, not_numeric_digits.
Qed.

Lemma has_char_fixed_digits c n v : not_numeric c → has_char c (fixed_digits n v) = false.
Proof.
  intros Hc. unfold fixed_digits. rewrite has_char_app, has_char_fmt_u by by apply not_numeric_digits.
  destruct n; [done|]. apply no_char_cons; [by apply not_numeric_in|]. by apply has_char_pad_digits.
Qed.

Lemma has_char_minus c b : not_numeric c → has_char c (minus b) = false.
Proof. intros Hc. destruct b; [|done]. apply no_char_cons; [by apply not_numeric_in|done]. Qed.

Lemma has_char_word c w :
  not_numeric c → forallb (λ d, has_char d "0123456789.-+einfa") (String.list_ascii_of_string w) = true →
  has_char c w = false.
Proof.
  intros Hc. induction w as [|d w IH]; [done|]. cbn [String.list_ascii_of_string forallb].
  intros [Hd Hw]%andb_true_iff. apply no_char_cons; [by apply not_numeric_in|by apply IH].
Qed.

Lemma has_char_fmt_fixed c n x : not_numeric c → has_char c (fmt_fixed n x) = false.
Proof.
  intros Hc. destruct x as [s|s| |s m e]; cbn [fmt_fixed]; rewrite ?has_char_app, ?has_char_minus by done;
    cbn [orb]; first [by apply has_char_fixed_digits | by apply has_char_word].
Qed.

Lemma has_char_short_digits c n v : not_numeric c → has_char c (short_digits n v) = false.
Proof. intros Hc. unfold short_digits. destruct (strip_zeros _ _ _). by apply has_char_fixed_digits. Qed.

Lemma has_char_general_digits c p num den : not_numeric c → has_char c (general_digits p num den) = false.
Proof.
  intros Hc. unfold general_digits. destruct (significant _ _ _) as [v x].
  destruct (_ && _); [by apply has_char_short_digits|].
  unfold fmt_exponent. rewrite !has_char_app, has_char_short_digits, has_char_fmt_u
    by (done || by apply not_numeric_digits).
  destruct (x <? 0), (Z.abs x <? 10); rewrite !has_char_word by done; done.
Qed.

Lemma has_char_fmt_general c p x : not_numeric c → has_char c (fmt_general p x) = false.
Proof.
  intros Hc. destruct x as [s|s| |s m e]; cbn [fmt_general]; rewrite ?has_char_app, ?has_char_minus by done;
    cbn [orb]; first [by apply has_char_word | destruct (0 <=? e); by apply has_char_general_digits].
Qed.

(** ** Lemmas: reading the file back *)

Lemma split_on_none c s : has_char c s = false → split_on c s = [s].
Proof.
  induction s as [|d s IH]; [done|]. cbn. destruct (Ascii.eqb c d); [done|]. intros Hs. by rewrite IH.
Qed.

Lemma split_on_sep c s t : has_char c s = false → split_on c (s +:+ String c t) = s :: split_on c t.
Proof.
  induction s as [|d s IH]; cbn; [by rewrite Ascii.eqb_refl|].
  destruct (Ascii.eqb c d); [done|]. intros Hs. by rewrite IH.
Qed.

Lemma split_on_not_nil c s : split_on c s ≠ [].
Proof. destruct s as [|d s]; [done|]. cbn. destruct (Ascii.eqb c d); [done|]. by destruct (split_on c s). Qed.

(** The characters that end a field. *)
Definition plain_field (f : string) : Prop :=
  has_char ","%char f = false ∧ has_char "010"%char f = false.

(** A line without its newline. *)
Definition csv_body (fields : list string) : string :=
  match fields with
  | [] => ""
  | first :: rest => first +:+ foldr (λ f s, String ","%char (f +:+ s)) "" rest
  end.

Lemma csv_fields_line_body fields : csv_fields_line fields = csv_body fields +:+ newline.
Proof.
  destruct fields as [|first rest]; [done|]. cbn [csv_fields_line csv_body].
  rewrite str_app_assoc. f_equal. induction rest as [|f rest IH]; [done|]. cbn. by rewrite IH, str_app_assoc.
Qed.

Lemma csv_body_no_newline fields :
  Forall plain_field fields → has_char "010"%char (csv_body fields) = false.
Proof.
  destruct fields as [|first rest]; [done|]. intros [[_ H1] H]%Forall_cons. cbn [csv_body].
  rewrite has_char_app, H1. cbn [orb]. induction H as [|f rest [_ Hf] _ IH]; [done|].
  cbn [foldr]. apply no_char_cons; [done|]. by rewrite has_char_app, Hf, IH.
Qed.

Lemma split_csv_body fields :
  fields ≠ [] → Forall plain_field fields → split_on ","%char (csv_body fields) = fields.
Proof.
  destruct fields as [|first rest]; [done|]. intros _ [[H1 _] H]%Forall_cons. cbn [csv_body].
  revert first H1. induction H as [|f rest [Hf _] _ IH]; intros first H1; cbn [foldr].
  - rewrite str_app_nil_r. by apply split_on_none.
  - rewrite split_on_sep by done. f_equal. by apply IH.
Qed.

Lemma read_csv_lines (lines : list (list string)) :
  Forall (λ fields, fields ≠ [] ∧ Forall plain_field fields) lines →
  read_csv (foldr String.append "" (csv_fields_line <$> lines)) = lines.
Proof.
  unfold read_csv. induction 1 as [|fields lines [Hne Hplain] _ IH]; [done|]. cbn [fmap list_fmap foldr].
  rewrite csv_fields_line_body, str_app_assoc. cbn [newline String.append].
  rewrite split_on_sep by by apply csv_body_no_newline. cbn [removelast].
  set (text := foldr _ _ _) in *. change (list_fmap _ _ csv_fields_line lines) with (csv_fields_line <$> lines).
  destruct (split_on "010" text) as [|p ps] eqn:E; [by apply split_on_not_nil in E|].
  cbn [fmap list_fmap]. f_equal; [by apply split_csv_body|]. exact IH.
Qed.

Lemma csv_fields_plain r :
  plain_field (r_backend r) → Forall plain_field (csv_fields r).
Proof.
  intros Hr. unfold csv_fields, plain_field.
  repeat constructor; try apply Hr; first [by apply has_char_fmt_u|by apply has_char_fmt_fixed|by apply has_char_fmt_general].
Qed.

(** ** Lemmas: the run *)

(** The names and error columns the table must have besides those of the CPU, for
    a GPU whose answer for a packet is [value]. *)
Definition gpu_names (gpu : gpu_support) : list string :=
  match gpu with GpuReady name _ => [name] | _ => [] end.

Definition gpu_errors log2 (gpu : gpu_support) (value : QueuedPacket → spec_float) (packets : list QueuedPacket)
    : list spec_float :=
  match gpu with
  | GpuReady _ _ => [max_error (value <$> packets) (payload_entropy log2 <$> packets)]
  | _ => []
  end.

Definition gpu_banner (gpu : gpu_support) : list string :=
  match gpu with NoMetal => ["(no Metal in this build: CPU rows only)" +:+ newline] | _ => [] end.

(** What is on standard output after the groups of rows [groups]. *)
Definition printed_groups (gpu : gpu_support) (groups : list (list Row)) : list string :=
  gpu_banner gpu ++ [table_header] ++ concat ((λ g, group_lines g (b64_of_uint 0)) <$> groups).

(** The GPU, if there is one, works and answers every batch of the benchmark. *)
Definition gpu_works_on (gpu : gpu_support) (value : QueuedPacket → spec_float) (todo : list (Z * Z)) : Prop :=
  match gpu with
  | NoMetal => True
  | GpuUnavailable _ => False
  | GpuReady name backend =>
      name ≠ "cpu" ∧ ∀ payload batch, (payload, batch) ∈ todo →
        answers_with value backend batch (configuration_packets payload batch)
  end.

(** What the table must say of one payload size and batch size. *)
Definition group_ok log2 (gpu : gpu_support) (value : QueuedPacket → spec_float) (c : Z * Z) (rows : list Row) : Prop :=
  r_backend <$> rows = "cpu" :: gpu_names gpu ∧
  Forall (λ r, r_payload_bytes r = c.1 ∧ r_batch_size r = c.2) rows ∧
  r_max_abs_error <$> rows =
    b64_of_uint 0 :: gpu_errors log2 gpu value (configuration_packets c.1 c.2).

Lemma configuration_sizes payload batch :
  (payload, batch) ∈ configurations → 64 ≤ payload ≤ 1460 ∧ 1 ≤ batch ≤ 4096.
Proof.
  intros H. unfold configurations in H. cbn [payload_sizes batch_sizes fmap list_fmap concat app] in H.
  repeat (apply elem_of_cons in H as [[= -> ->]|H]; [lia|]). by apply not_elem_of_nil in H.
Qed.

Lemma configuration_packets_shape payload batch :
  0 ≤ payload →
  Zlength (configuration_packets payload batch) ≤ kMaxPackets ∧
  Forall (λ p, payload_size p = payload) (configuration_packets payload batch).
Proof.
  intros Hp. destruct (make_packets_shape kMaxPackets payload ltac:(by unfold kMaxPackets) Hp) as [Hl Hall].
  unfold configuration_packets. generalize dependent (make_packets kMaxPackets payload). intros l Hl Hall. split.
  - unfold Zlength in *. rewrite length_take. lia.
  - apply Forall_take. eapply Forall_impl; [exact Hall|]. by intros p [? _].
Qed.

Local Opaque configuration_packets.

(** The rows of one payload size and batch size. *)
Lemma group_rows log2 clock gpu value banner backends payload batch :
  gpu_works_on gpu value [(payload, batch)] → choose_backends log2 clock gpu = inl (banner, backends) →
  (payload, batch) ∈ configurations →
  ∃ rows, backend_rows (backends payload batch) payload batch (configuration_packets payload batch) [] = (rows, None) ∧
    group_ok log2 gpu value (payload, batch) rows.
Proof.
  intros Hgpu Hb Hin. destruct (configuration_sizes payload batch Hin) as [Hp Hbatch].
  destruct (configuration_packets_shape payload batch ltac:(lia)) as [Hlen _]. unfold kMaxPackets in Hlen.
  destruct gpu as [|error|name backend]; cbn in Hb; [|done|]; injection Hb as <- <-.
  - destruct (cpu_backend_rows log2 (clock 0%nat payload batch) [] payload batch
      (configuration_packets payload batch)) as (rows & E & Hrows); [lia|lia|constructor|].
    exists rows. split; [exact E|]. apply Forall2_cons_inv_l in Hrows as (r & rows' & [t ->] & Hnil & ->).
    apply Forall2_nil_inv_l in Hnil as ->. split; [done|]. split; [by repeat constructor|]. cbn.
    by rewrite max_error_self.
  - destruct Hgpu as [Hname Hans].
    destruct (cpu_backend_rows log2 (clock 0%nat payload batch)
      [((name, backend, clock 1%nat payload batch), value)] payload batch
      (configuration_packets payload batch)) as (rows & E & Hrows); [lia|lia| |].
    { constructor; [|constructor]. split; [apply Hans; by left|done]. }
    exists rows. split; [exact E|]. apply Forall2_cons_inv_l in Hrows as (r & rows' & [t ->] & Hrest & ->).
    apply Forall2_cons_inv_l in Hrest as (r' & rows'' & [t' ->] & Hnil & ->).
    apply Forall2_nil_inv_l in Hnil as ->. split; [done|]. split; [by repeat constructor|]. cbn.
    by rewrite max_error_self.
Qed.

Lemma row_groups_app backends todo1 todo2 groups :
  row_groups backends todo1 = (groups, None) →
  row_groups backends (todo1 ++ todo2) =
    (groups ++ (row_groups backends todo2).1, (row_groups backends todo2).2).
Proof.
  revert groups. induction todo1 as [|[payload batch] todo IH]; cbn [row_groups app]; intros groups.
  - intros [= <-]. by destruct (row_groups _ _).
  - destruct (backend_rows _ _ _ _ _) as [rows [name|]]; [done|].
    destruct (row_groups backends todo) as [gs f] eqn:E. intros [= <- ->].
    rewrite (IH gs) by done. by destruct (row_groups backends todo2).
Qed.

Lemma row_groups_ok log2 clock gpu value banner backends todo :
  gpu_works_on gpu value todo → choose_backends log2 clock gpu = inl (banner, backends) → todo ⊆ configurations →
  ∃ groups, row_groups backends todo = (groups, None) ∧ Forall2 (group_ok log2 gpu value) todo groups.
Proof.
  intros Hgpu Hb. induction todo as [|[payload batch] todo IH]; intros Hin; [by exists []|].
  assert (Hgpu1 : gpu_works_on gpu value [(payload, batch)] ∧ gpu_works_on gpu value todo).
  { destruct gpu; [done..|]. destruct Hgpu as [? Hans].
    split; (split; [done|]); intros p b Hp; apply Hans; [|by right].
    apply list_elem_of_singleton in Hp as ->. by left. }
  destruct Hgpu1 as [Hgpu1 Hgpu2].
  destruct (group_rows log2 clock gpu value banner backends payload batch Hgpu1 Hb) as (rows & E & Hrows);
    [apply Hin; by left|].
  destruct (IH Hgpu2) as (groups & Eg & Hgroups); [intros x Hx; apply Hin; by right|].
  exists (rows :: groups). cbn [row_groups]. rewrite E, Eg. split; [done|]. by constructor.
Qed.

(** A GPU whose dispatches meet the contract and succeed answers every batch of
    the benchmark with the kernel's values. *)
Lemma addressable_batch payload batch l :
  (payload, batch) ∈ configurations → Zlength l ≤ batch → l ⊆ configuration_packets payload batch →
  addressable (q_payload <$> l).
Proof.
  intros Hin Hl Hsub. destruct (configuration_sizes payload batch Hin) as [Hp Hb].
  destruct (configuration_packets_shape payload batch ltac:(lia)) as [_ Hall].
  assert (Hsize : Forall (λ p, Zlength (q_payload p) = payload) l).
  { apply Forall_forall. intros p Hpin. rewrite Forall_forall in Hall. by apply Hall, Hsub. }
  assert (Hsum : Zsum (Zlength <$> (q_payload <$> l)) = Zlength l * payload).
  { clear Hl Hsub. induction Hsize as [|p l Hpl _ IH]; [done|]. cbn. rewrite Hpl, Zlength_cons.
    cbn in IH. rewrite IH. lia. }
  split; [rewrite Hsum; pose proof (Zlength_nonneg l); nia|].
  apply Forall_fmap. eapply Forall_impl; [exact Hsize|]. cbn. intros p ->. lia.
Qed.

Lemma gpu_contract_works_on {F P} `{FloatOps F} (to_double : F → spec_float) max_threads
    (submit : list (list Z) → option P) wait `{!DispatchContract max_threads submit wait} c :
  (∀ payloads, payloads ≠ [] → addressable payloads → ∃ p values, submit payloads = Some p ∧ wait p = Some values) →
  gpu_works_on (GpuReady (backend_name (F := F) c) (GpuEntropyBackend true to_double submit wait))
    (λ p, to_double (group_entropy (q_payload p) 0 (payload_size p) (group_size max_threads)))
    configurations.
Proof.
  intros Hok. split; [done|]. intros payload batch Hin l Hne Hl Hsub.
  pose proof (addressable_batch payload batch l Hin Hl Hsub) as Ha.
  destruct (Hok (q_payload <$> l)) as (p & values & Es & Ew); [by destruct l|done|].
  unfold compute. cbn. rewrite Es, Ew. cbn. f_equal. rewrite (dispatched _ _ _ Es Ew Ha).
  unfold expected. rewrite <- !list_fmap_compose. done.
Qed.

(** The pass fails as soon as a batch does. *)
Lemma time_backend_fails backend clock packets batch_size :
  one_pass backend false packets batch_size = None → time_backend backend clock packets batch_size = None.
Proof. intros H. unfold time_backend. by rewrite H. Qed.

Lemma cpu_alone log2 clock payload batch :
  (payload, batch) ∈ configurations →
  ∃ seconds, time_backend (CpuEntropyBackend log2) clock (configuration_packets payload batch) batch =
    Some (seconds, payload_entropy log2 <$> configuration_packets payload batch).
Proof.
  intros Hin. destruct (configuration_sizes payload batch Hin) as [Hp Hbatch].
  destruct (configuration_packets_shape payload batch ltac:(lia)) as [Hlen _]. unfold kMaxPackets in Hlen.
  apply time_backend_answers; [|lia|lia]. apply faithful_answers_with; [apply _|apply cpu_always_answers].
Qed.


(** ** Properties *)


(** C38. A GPU that fails: if it answers the batches of the first configurations
    and then a batch of the next one fails, the program ends with exit code 1 and
    the name of the backend, after the complete groups before and the CPU's row of
    the group that failed; no CSV file is written. *)
Theorem entropy_gpu_failure log2 clock name backend value fopen argv0 args csv_path before payload batch after :
  csv_path_from args None = Some csv_path →
  configurations = before ++ (payload, batch) :: after →
  gpu_works_on (GpuReady name backend) value before →
  one_pass backend false (configuration_packets payload batch) batch = None →
  ∃ groups cpu_row, Forall2 (group_ok log2 (GpuReady name backend) value) before groups ∧
    r_backend cpu_row = "cpu" ∧
    r_payload_bytes cpu_row = payload ∧ r_batch_size cpu_row = batch ∧
    entropy_main log2 clock (GpuReady name backend) fopen argv0 args =
      mk_entropy_outcome (printed_groups (GpuReady name backend) (groups ++ [[cpu_row]]))
        [name +:+ " backend failed" +:+ newline] None 1.
Proof.
  intros Hargs Hc Hgpu Hfail. unfold entropy_main. rewrite Hargs, Hc.
  destruct (choose_backends log2 clock (GpuReady name backend)) as [[banner backends]|] eqn:Eb;
    [|discriminate Eb].
  destruct (row_groups_ok log2 clock _ value banner backends before Hgpu Eb) as (groups & E & Hgroups).
  { rewrite Hc. intros x Hx. apply elem_of_app. by left. }
  rewrite (row_groups_app _ _ _ _ E). cbn in Eb. injection Eb as <- <-. cbn [row_groups backend_rows fst snd].
  destruct (cpu_alone log2 (clock 0%nat payload batch) payload batch) as [seconds ->].
  { rewrite Hc. apply elem_of_app. right. by left. }
  rewrite time_backend_fails by done. cbn [fst snd].
  exists groups. eexists. split; [done|]. split; [|split; [|split; [|done]]]; done.
Qed.

(** C39. The CSV file can be read back: cut at newlines and commas it is the header
    and one line of six fields per row, in order; the name is the backend's, the
    two sizes parse back to the row's, and a throughput that two decimals can write
    parses back to the very same double. *)
Theorem csv_roundtrip rows :
  Forall (λ r, plain_field (r_backend r) ∧ 0 ≤ r_payload_bytes r ≤ LLONG_MAX ∧ 0 ≤ r_batch_size r ≤ LLONG_MAX) rows →
  ∃ lines, read_csv (csv_text rows) = csv_header_fields :: lines ∧
    Forall2 (λ r fields, ∃ payload batch mbs,
      fields = [r_backend r; payload; batch; fmt_fixed 0 (r_packets_per_sec r); mbs;
                fmt_general 3 (r_max_abs_error r)] ∧
      strtoll payload = (r_payload_bytes r, Some "", false) ∧
      strtoll batch = (r_batch_size r, Some "", false) ∧
      (valid_binary 53 1024 (r_megabytes_per_sec r) = true → has_digits 2 (r_megabytes_per_sec r) →
       strtod mbs = (r_megabytes_per_sec r, ""))) rows lines.
Proof.
  intros Hrows. exists (csv_fields <$> rows). split.
  - unfold csv_text. apply read_csv_lines. constructor; [split; [done|by repeat constructor]|].
    apply Forall_fmap. eapply Forall_impl; [exact Hrows|]. intros r (Hr & _). split; [done|].
    by apply csv_fields_plain.
  - apply Forall2_fmap_r, Forall_Forall2_diag. eapply Forall_impl; [exact Hrows|]. intros r (_ & Hp & Hb).
    eexists _, _, _. split; [done|]. split; [by apply strtoll_pretty|]. split; [by apply strtoll_pretty|].
    intros Hv Hd. apply strtod_fmt_fixed; [lia|done|done].
Qed.

(** *** Witnesses *)



(** A GPU that fails at once. *)
Definition dead_backend : EntropyBackend := mk_EntropyBackend () (λ _, None) (λ _, None).

Lemma configuration_packets_some payload batch :
  (payload, batch) ∈ configurations → Zlength (configuration_packets payload batch) = pass_count batch.
Proof.
  intros Hin. destruct (configuration_sizes payload batch Hin) as [Hp Hb].
  destruct (make_packets_shape kMaxPackets payload ltac:(by unfold kMaxPackets) ltac:(lia)) as [Hl _].
  Local Transparent configuration_packets.
  unfold configuration_packets. generalize dependent (make_packets kMaxPackets payload). intros l Hl.
  assert (0 ≤ pass_count batch ≤ kMaxPackets).
  { unfold pass_count, std_min. rewrite wrap_small by (unfold is_uint, kMaxBatchesPerRun; lia).
    unfold kMaxPackets, kMaxBatchesPerRun. lia. }
  unfold Zlength in *. rewrite length_take. lia.
Qed.

Local Opaque configuration_packets.

Lemma dead_pass payload batch :
  (payload, batch) ∈ configurations →
  one_pass dead_backend false (configuration_packets payload batch) batch = None.
Proof.
  intros Hin. pose proof (configuration_packets_some payload batch Hin) as Hl.
  destruct (configuration_sizes payload batch Hin) as [Hp Hb].
  assert (Hpos : 0 < pass_count batch).
  { unfold pass_count, std_min, kMaxPackets, kMaxBatchesPerRun. rewrite wrap_small by (unfold is_uint; lia). lia. }
  unfold one_pass. generalize dependent (configuration_packets payload batch). intros l Hl.
  destruct l as [|p l]; [rewrite Zlength_nil in Hl; lia|]. cbn [length one_pass_from].
  rewrite (proj2 (Z.ltb_lt _ _)) by lia. done.
Qed.

Lemma entropy_gpu_failure_witness :
  ∃ groups cpu_row, Forall2 (group_ok log2_powers (GpuReady "gpu" dead_backend) (λ _, S754_nan)) [] groups ∧
    r_backend cpu_row = "cpu" ∧ r_payload_bytes cpu_row = 64 ∧ r_batch_size cpu_row = 1 ∧
    entropy_main log2_powers (λ _ _ _ _, b64_of_uint 1) (GpuReady "gpu" dead_backend) (λ _, None) "bench" [] =
      mk_entropy_outcome (printed_groups (GpuReady "gpu" dead_backend) (groups ++ [[cpu_row]]))
        ["gpu backend failed" +:+ newline] None 1.
Proof.
  apply (entropy_gpu_failure log2_powers (λ _ _ _ _, b64_of_uint 1) "gpu" dead_backend (λ _, S754_nan) (λ _, None)
    "bench" [] None [] 64 1 (tail configurations)); [done|done| |].
  - split; [done|]. intros payload batch H. by apply not_elem_of_nil in H.
  - apply dead_pass. by left.
Defined.

Definition sample_rows : list Row :=
  [mk_Row "cpu" 64 1 (b64_of_uint 250000) (b64_of_uint 16) (b64_of_uint 0);
   mk_Row "gpu (Apple M1)" 1460 4096 (b64_of_uint 9000000) (SFdiv 53 1024 (b64_of_uint 3) (b64_of_uint 4))
     (SFdiv 53 1024 (b64_of_uint 1) (b64_of_uint 1024))].

Lemma csv_roundtrip_witness :
  (∃ lines, read_csv (csv_text sample_rows) = csv_header_fields :: lines ∧ length lines = 2%nat) ∧
  csv_text (tail sample_rows) =
    "backend,payload_bytes,batch_size,packets_per_sec,megabytes_per_sec,max_abs_error" +:+ newline +:+
    "gpu (Apple M1),1460,4096,9000000,0.75,0.000977" +:+ newline.
Proof.
  split; [|by vm_compute].
  destruct (csv_roundtrip sample_rows) as (lines & E & Hlines); [by repeat constructor; unfold LLONG_MAX; cbn; lia|].
  exists lines. split; [exact E|]. by rewrite <- (Forall2_length _ _ _ Hlines).
Defined.
